(** * Quality-aware affine-gap aligner (align454.c, qxalign.c)

    A shallow embedding of the alignment engine: the quality-weighted
    Gotoh recurrence of [asw_align], the traceback of [asw_trace] and the
    in-place CIGAR post-processing, followed by the properties of the
    design specification that were checked against it.

    Conventions.
    - C [int] is a 32-bit two's complement integer, [uint32_t] a 32-bit
      and [size_t] a 64-bit unsigned integer (LP64); every arithmetic
      result is wrapped by [sint], [u32] or [u64] where the C code
      computes it.  Signed overflow, undefined in C, wraps here.
    - A C array is a [list Z]; a pointer into an array is the array
      together with an index.  In the contraction loops of
      [asw_append_softclip], where the offset added to the pointer may
      have wrapped, the index is reduced modulo 2^64 as the address
      is.  Row and column counters that the C code
      keeps in [size_t] loop variables are [nat] loop counters here.
    - Reads outside an array are undefined in C; [rd] and [zrd] read 0
      there.  A write outside the CIGAR buffer makes [asw_trace] and
      [asw_append_softclip] end in [Undefined].
    - The matrices kept under [#ifdef DEBUG] are written and never
      read; they are left out. *)

From Stdlib Require Import ZArith Lia List Bool String Ascii.
From stdpp Require Import base list.

Local Open Scope Z_scope.

(* ===================================================================== *)
(** ** Machine integers *)
(* ===================================================================== *)

Definition u32 (x : Z) : Z := x mod 2 ^ 32.
Definition u64 (x : Z) : Z := x mod 2 ^ 64.
Definition sint (x : Z) : Z := (x + 2 ^ 31) mod 2 ^ 32 - 2 ^ 31.

(* ===================================================================== *)
(** ** Arrays *)
(* ===================================================================== *)

(** [v[i]] for an in-range [size_t] index. *)
Definition rd (v : list Z) (i : nat) : Z := default 0 (v !! i).

(** [p[i]] for a signed index or a pointer difference. *)
Definition zrd (v : list Z) (i : Z) : Z :=
  if 0 <=? i then rd v (Z.to_nat i) else 0.

(** [m[i][j]]. *)
Definition rd2 (m : list (list Z)) (i j : nat) : Z :=
  rd (default [] (m !! i)) j.

(** [m[i][j] = x]. *)
Definition wr2 (m : list (list Z)) (i j : nat) (x : Z) : list (list Z) :=
  alter (fun row => <[j:=x]> row) i m.

(** [for (n = 0; n < k; ++n) body], threading the state. *)
Fixpoint for_loop {St : Type} (k : nat) (body : nat -> St -> St) (s : St) : St :=
  match k with
  | O => s
  | S k' => body k' (for_loop k' body s)
  end.

(** [realloc]: the prefix that fits is kept; fresh cells are
    indeterminate in C and 0 here. *)
Definition resize_list {A : Type} (d : A) (n : nat) (l : list A) : list A :=
  take n l ++ replicate (n - length l)%nat d.

Fixpoint bytes_of_string (s : string) : list Z :=
  match s with
  | EmptyString => []
  | String c s' => Z.of_N (N_of_ascii c) :: bytes_of_string s'
  end.

(* ===================================================================== *)
(** ** Packed CIGAR cells *)
(* ===================================================================== *)

Definition BAM_CIGAR_SHIFT : Z := 4.
Definition BAM_CIGAR_MASK : Z := Z.shiftl 1 BAM_CIGAR_SHIFT - 1.

Definition BAM_CMATCH : Z := 0.
Definition BAM_CINS : Z := 1.
Definition BAM_CDEL : Z := 2.
Definition BAM_CREF_SKIP : Z := 3.
Definition BAM_CSOFT_CLIP : Z := 4.
Definition BAM_CHARD_CLIP : Z := 5.
Definition BAM_CPAD : Z := 6.
Definition BAM_CSEQ_MATCH : Z := 7.
Definition BAM_CSEQ_MISMATCH : Z := 8.

Definition AMBIGUOUS_BASE : Z := 78. (* 'N' *)

(** [(len << BAM_CIGAR_SHIFT) | op], stored in a [cigar_t]. *)
Definition pack (len op : Z) : Z :=
  u32 (Z.lor (Z.shiftl len BAM_CIGAR_SHIFT) op).

(** [cigar & BAM_CIGAR_MASK] and [cigar >> BAM_CIGAR_SHIFT]. *)
Definition cigar_op (cigar : Z) : Z := Z.land cigar BAM_CIGAR_MASK.
Definition cigar_len (cigar : Z) : Z := Z.shiftr cigar BAM_CIGAR_SHIFT.

(** [#define IS_MATCH(a,b) ((a) == (b) || (b) == AMBIGUOUS_BASE)]. *)
Definition IS_MATCH (a b : Z) : bool := (a =? b) || (b =? AMBIGUOUS_BASE).

(* ===================================================================== *)
(** ** The engine *)
(* ===================================================================== *)

(** [vecPen_lastRow] aliases one of the two rolling score rows. *)
Inductive row_ptr : Type := PTR_m_act | PTR_m1_act.

Record Alignment_ASW : Type := mkASW {
  phred_offset : Z;
  match_penalty : list Z;
  mismatch_penalty : list Z;
  gopen_penalty : list Z;
  gext_penalty : list Z;
  GAP_OPEN_EXTEND : Z;
  GAP_EXTEND : Z;
  (* external arrays; [subdb], [subquery], [subqual] are the offsets of
     the sub-views inside them *)
  db : list Z;
  subdb : Z;
  query : list Z;
  subquery : Z;
  qual : list Z;
  subqual : Z;
  db_len : Z;
  subdb_len : Z;
  query_len : Z;
  subquery_len : Z;
  vecPen_m_act : list Z;
  vecPen_m1_act : list Z;
  vecIns_m_act : list Z;
  vecIns_m1_act : list Z;
  I_ext_m_act : list Z;
  I_ext_m1_act : list Z;
  vecPen_lastRow : row_ptr;
  matTra : list (list Z);
  opt_score : Z;
  opt_score_col : Z;
  (* [cigar_begin] and [cigar_end] are indices into [rcigar] *)
  rcigar : list Z;
  cigar_begin : Z;
  cigar_end : Z;
  offset : Z;
  (* the allocator of the "virtual table": does a request of this many
     bytes succeed? *)
  p_realloc : Z -> bool
}.

Definition set_rows (al : Alignment_ASW)
    (pen_m pen_m1 ins_m ins_m1 ext_m ext_m1 : list Z)
    (last : row_ptr) (tra : list (list Z)) : Alignment_ASW :=
  {| phred_offset := phred_offset al;
     match_penalty := match_penalty al;
     mismatch_penalty := mismatch_penalty al;
     gopen_penalty := gopen_penalty al;
     gext_penalty := gext_penalty al;
     GAP_OPEN_EXTEND := GAP_OPEN_EXTEND al;
     GAP_EXTEND := GAP_EXTEND al;
     db := db al; subdb := subdb al;
     query := query al; subquery := subquery al;
     qual := qual al; subqual := subqual al;
     db_len := db_len al; subdb_len := subdb_len al;
     query_len := query_len al; subquery_len := subquery_len al;
     vecPen_m_act := pen_m; vecPen_m1_act := pen_m1;
     vecIns_m_act := ins_m; vecIns_m1_act := ins_m1;
     I_ext_m_act := ext_m; I_ext_m1_act := ext_m1;
     vecPen_lastRow := last;
     matTra := tra;
     opt_score := opt_score al; opt_score_col := opt_score_col al;
     rcigar := rcigar al;
     cigar_begin := cigar_begin al; cigar_end := cigar_end al;
     offset := offset al;
     p_realloc := p_realloc al |}.

Definition set_opt (al : Alignment_ASW) (score col : Z) : Alignment_ASW :=
  {| phred_offset := phred_offset al;
     match_penalty := match_penalty al;
     mismatch_penalty := mismatch_penalty al;
     gopen_penalty := gopen_penalty al;
     gext_penalty := gext_penalty al;
     GAP_OPEN_EXTEND := GAP_OPEN_EXTEND al;
     GAP_EXTEND := GAP_EXTEND al;
     db := db al; subdb := subdb al;
     query := query al; subquery := subquery al;
     qual := qual al; subqual := subqual al;
     db_len := db_len al; subdb_len := subdb_len al;
     query_len := query_len al; subquery_len := subquery_len al;
     vecPen_m_act := vecPen_m_act al; vecPen_m1_act := vecPen_m1_act al;
     vecIns_m_act := vecIns_m_act al; vecIns_m1_act := vecIns_m1_act al;
     I_ext_m_act := I_ext_m_act al; I_ext_m1_act := I_ext_m1_act al;
     vecPen_lastRow := vecPen_lastRow al;
     matTra := matTra al;
     opt_score := score; opt_score_col := col;
     rcigar := rcigar al;
     cigar_begin := cigar_begin al; cigar_end := cigar_end al;
     offset := offset al;
     p_realloc := p_realloc al |}.

Definition set_cigar (al : Alignment_ASW) (buf : list Z) (b e off : Z)
    : Alignment_ASW :=
  {| phred_offset := phred_offset al;
     match_penalty := match_penalty al;
     mismatch_penalty := mismatch_penalty al;
     gopen_penalty := gopen_penalty al;
     gext_penalty := gext_penalty al;
     GAP_OPEN_EXTEND := GAP_OPEN_EXTEND al;
     GAP_EXTEND := GAP_EXTEND al;
     db := db al; subdb := subdb al;
     query := query al; subquery := subquery al;
     qual := qual al; subqual := subqual al;
     db_len := db_len al; subdb_len := subdb_len al;
     query_len := query_len al; subquery_len := subquery_len al;
     vecPen_m_act := vecPen_m_act al; vecPen_m1_act := vecPen_m1_act al;
     vecIns_m_act := vecIns_m_act al; vecIns_m1_act := vecIns_m1_act al;
     I_ext_m_act := I_ext_m_act al; I_ext_m1_act := I_ext_m1_act al;
     vecPen_lastRow := vecPen_lastRow al;
     matTra := matTra al;
     opt_score := opt_score al; opt_score_col := opt_score_col al;
     rcigar := buf;
     cigar_begin := b; cigar_end := e;
     offset := off;
     p_realloc := p_realloc al |}.

(** [table[qq]] for a table pointer shifted by [phred_offset]. *)
Definition penalty (table : list Z) (al : Alignment_ASW) (qq : Z) : Z :=
  zrd table (qq - phred_offset al).

(* ===================================================================== *)
(** ** asw_align_init, asw_align_init_semi *)
(* ===================================================================== *)

Record init_state : Type := mkInit {
  i_vecPen_m : list Z;
  i_vecIns_m : list Z;
  i_I_ext_m : list Z;
  i_matTra : list (list Z);
  i_storedDel_score : Z
}.

(** Body of the loop over the top row; [semi] selects the semi-global
    variant, which stores 0 instead of the running deletion score. *)
Definition init_body (semi : bool) (GAP_EXTEND gopen_true_pen : Z)
    (n : nat) (s : init_state) : init_state :=
  let n1 := S n in
  let storedDel_score :=
    if semi then i_storedDel_score s
    else sint (i_storedDel_score s + GAP_EXTEND) in
  let pen := if semi then 0 else storedDel_score in
  let vecPen_m := <[n1 := pen]> (i_vecPen_m s) in
  let vecIns_m := <[n1 := sint (rd vecPen_m n1 + gopen_true_pen)]> (i_vecIns_m s) in
  let tra := wr2 (i_matTra s) 0 n1 (pack (Z.of_nat n1) BAM_CDEL) in
  let I_ext_m := <[n1 := 0]> (i_I_ext_m s) in
  mkInit vecPen_m vecIns_m I_ext_m tra storedDel_score.

Definition init_rows (semi : bool) (al : Alignment_ASW) : init_state :=
  let qq := zrd (qual al) (subqual al + 0) in
  let gopen_true_pen :=
    sint (penalty (gopen_penalty al) al qq - penalty (gext_penalty al) al qq) in
  (* top-left cell *)
  let vecPen_m := <[0%nat := 0]> (vecPen_m_act al) in
  let vecIns_m := <[0%nat := sint (rd vecPen_m 0 + gopen_true_pen)]> (vecIns_m_act al) in
  let I_ext_m := <[0%nat := 0]> (I_ext_m_act al) in
  let storedDel_score :=
    sint (rd vecPen_m 0 + sint (GAP_OPEN_EXTEND al - GAP_EXTEND al)) in
  let tra := wr2 (matTra al) 0 0 (pack 0 BAM_CSEQ_MATCH) in
  for_loop (Z.to_nat (subdb_len al))
    (init_body semi (GAP_EXTEND al) gopen_true_pen)
    (mkInit vecPen_m vecIns_m I_ext_m tra storedDel_score).

Definition init_finish (al : Alignment_ASW) (s : init_state) : Alignment_ASW :=
  set_rows al (i_vecPen_m s) (vecPen_m1_act al)
              (i_vecIns_m s) (vecIns_m1_act al)
              (i_I_ext_m s) (I_ext_m1_act al)
              (vecPen_lastRow al) (i_matTra s).

Definition asw_align_init (al : Alignment_ASW) : Alignment_ASW :=
  init_finish al (init_rows false al).

Definition asw_align_init_semi (al : Alignment_ASW) : Alignment_ASW :=
  init_finish al (init_rows true al).

(* ===================================================================== *)
(** ** asw_align *)
(* ===================================================================== *)

(** What the inner loop carries from one cell of a row to the next. *)
Record row_state : Type := mkRow {
  r_vecPen_m1 : list Z;
  r_vecIns_m1 : list Z;
  r_I_ext_m1 : list Z;
  r_matTra : list (list Z);
  r_storedDel_score : Z;
  r_cD : Z
}.

(** The scalar results of one interior cell. *)
Record cell_result : Type := mkCell {
  c_wD : Z; c_cD : Z;
  c_wI : Z; c_cI : Z;
  c_wM : Z; c_mstate : Z;
  c_tra : Z; c_pen : Z
}.

(** One interior cell: the body of the loop over [n], on the values it
    reads.  [pen_diag = vecPen_m[n]], [pen_up = vecPen_m[n1]],
    [ins_up = vecIns_m[n1]], [ext_up = I_ext_m[n1]],
    [pen_left = vecPen_m1[n]]. *)
Definition align_cell (GAP_OPEN_EXTEND GAP_EXTEND : Z)
    (match_pen mismatch_pen gopen_pen gext_pen : Z)
    (is_seq_match : bool)
    (pen_diag pen_up ins_up ext_up pen_left storedDel_score cD : Z)
    : cell_result :=
  (* deletion: horizontal move *)
  let wD_open := sint (pen_left + GAP_OPEN_EXTEND) in
  let wD_extend := sint (storedDel_score + GAP_EXTEND) in
  (* insertion: vertical move *)
  let wI_open := sint (pen_up + gopen_pen) in
  let wI_extend := sint (ins_up + gext_pen) in
  let '(wD, cD) :=
    if wD_open <? wD_extend then (wD_open, 1) else (wD_extend, u32 (cD + 1)) in
  let '(wI, cI) :=
    if wI_open <? wI_extend then (wI_open, 1) else (wI_extend, u32 (ext_up + 1)) in
  let '(wM, mstate) :=
    if is_seq_match then (sint (pen_diag + match_pen), BAM_CSEQ_MATCH)
    else (sint (pen_diag + mismatch_pen), BAM_CSEQ_MISMATCH) in
  (* order of preference: M, I, D *)
  let '(tra, pen) :=
    if wI <? wM then
      if wD <? wI then (pack cD BAM_CDEL, wD)
      else (pack cI BAM_CINS, wI)
    else if wD <? wM then (pack cD BAM_CDEL, wD)
    else (pack 1 mstate, wM) in
  mkCell wD cD wI cI wM mstate tra pen.

(** The quantities [asw_align] fixes at the top of row [m]. *)
Record row_env : Type := mkEnv {
  e_cq : Z;
  e_match_pen : Z;
  e_mismatch_pen : Z;
  e_gopen_pen : Z;
  e_gext_pen : Z
}.

Definition row_env_of (al : Alignment_ASW) (m : nat) : row_env :=
  let cq := zrd (query al) (subquery al + Z.of_nat m) in
  let qq := zrd (qual al) (subqual al + Z.of_nat m) in
  mkEnv cq (penalty (match_penalty al) al qq)
           (penalty (mismatch_penalty al) al qq)
           (penalty (gopen_penalty al) al qq)
           (penalty (gext_penalty al) al qq).

(** The cell computed at column [n1 = n + 1] of row [m1 = m + 1], given
    the previous row and the state the inner loop has reached. *)
Definition cell_at (al : Alignment_ASW) (e : row_env)
    (vecPen_m vecIns_m I_ext_m : list Z) (n : nat) (s : row_state)
    : cell_result :=
  let n1 := S n in
  align_cell (GAP_OPEN_EXTEND al) (GAP_EXTEND al)
    (e_match_pen e) (e_mismatch_pen e) (e_gopen_pen e) (e_gext_pen e)
    (IS_MATCH (zrd (db al) (subdb al + Z.of_nat n)) (e_cq e))
    (rd vecPen_m n) (rd vecPen_m n1) (rd vecIns_m n1) (rd I_ext_m n1)
    (rd (r_vecPen_m1 s) n) (r_storedDel_score s) (r_cD s).

Definition align_body (al : Alignment_ASW) (e : row_env) (m1 : nat)
    (vecPen_m vecIns_m I_ext_m : list Z) (n : nat) (s : row_state)
    : row_state :=
  let n1 := S n in
  let c := cell_at al e vecPen_m vecIns_m I_ext_m n s in
  mkRow (<[n1 := c_pen c]> (r_vecPen_m1 s))
        (<[n1 := c_wI c]> (r_vecIns_m1 s))
        (<[n1 := c_cI c]> (r_I_ext_m1 s))
        (wr2 (r_matTra s) m1 n1 (c_tra c))
        (c_wD c) (c_cD c).

(** Locals of [asw_align] that survive from one row to the next;
    [a_swapped] records whether the local row pointers currently point
    at the other buffer of each pair. *)
Record align_state : Type := mkAlign {
  a_vecPen_m : list Z;
  a_vecIns_m : list Z;
  a_I_ext_m : list Z;
  a_vecPen_m1 : list Z;
  a_vecIns_m1 : list Z;
  a_I_ext_m1 : list Z;
  a_matTra : list (list Z);
  a_swapped : bool
}.

(** Leftmost column of row [m1], before the inner loop starts. *)
Definition row_start (al : Alignment_ASW) (e : row_env) (m1 : nat)
    (a : align_state) : row_state :=
  let wI_extend := sint (rd (a_vecIns_m a) 0 + e_gext_pen e) in
  let vecIns_m1 := <[0%nat := wI_extend]> (a_vecIns_m1 a) in
  let cI := u32 (rd (a_I_ext_m a) 0 + 1) in
  let I_ext_m1 := <[0%nat := cI]> (a_I_ext_m1 a) in
  let tra := wr2 (a_matTra a) m1 0 (pack cI BAM_CINS) in
  let vecPen_m1 := <[0%nat := wI_extend]> (a_vecPen_m1 a) in
  let storedDel_score :=
    sint (rd vecPen_m1 0 + sint (GAP_OPEN_EXTEND al - GAP_EXTEND al)) in
  mkRow vecPen_m1 vecIns_m1 I_ext_m1 tra storedDel_score 0.

(** Inner loop of row [m1] run for its first [k] columns. *)
Definition row_upto (al : Alignment_ASW) (m : nat) (a : align_state)
    (k : nat) : row_state :=
  let e := row_env_of al m in
  for_loop k
    (align_body al e (S m) (a_vecPen_m a) (a_vecIns_m a) (a_I_ext_m a))
    (row_start al e (S m) a).

(** One iteration of the outer loop, ending with the three swaps. *)
Definition align_row (al : Alignment_ASW) (m : nat) (a : align_state)
    : align_state :=
  let s := row_upto al m a (Z.to_nat (subdb_len al)) in
  mkAlign (r_vecPen_m1 s) (r_vecIns_m1 s) (r_I_ext_m1 s)
          (a_vecPen_m a) (a_vecIns_m a) (a_I_ext_m a)
          (r_matTra s) (negb (a_swapped a)).

Definition align_start (al : Alignment_ASW) : align_state :=
  mkAlign (vecPen_m_act al) (vecIns_m_act al) (I_ext_m_act al)
          (vecPen_m1_act al) (vecIns_m1_act al) (I_ext_m1_act al)
          (matTra al) false.

(** Outer loop run for its first [k] rows. *)
Definition align_upto (al : Alignment_ASW) (k : nat) : align_state :=
  for_loop k (align_row al) (align_start al).

Definition align_finish (al : Alignment_ASW) (a : align_state)
    : Alignment_ASW :=
  if a_swapped a then
    set_rows al (a_vecPen_m1 a) (a_vecPen_m a)
                (a_vecIns_m1 a) (a_vecIns_m a)
                (a_I_ext_m1 a) (a_I_ext_m a)
                PTR_m1_act (a_matTra a)
  else
    set_rows al (a_vecPen_m a) (a_vecPen_m1 a)
                (a_vecIns_m a) (a_vecIns_m1 a)
                (a_I_ext_m a) (a_I_ext_m1 a)
                PTR_m_act (a_matTra a).

Definition asw_align (al : Alignment_ASW) : Alignment_ASW :=
  align_finish al (align_upto al (Z.to_nat (subquery_len al))).

(* ===================================================================== *)
(** ** asw_locate_minscore *)
(* ===================================================================== *)

Definition last_row (al : Alignment_ASW) : list Z :=
  match vecPen_lastRow al with
  | PTR_m_act => vecPen_m_act al
  | PTR_m1_act => vecPen_m1_act al
  end.

Definition locate_body (vecPen_m : list Z) (n : nat) (s : Z * Z) : Z * Z :=
  let n1 := S n in
  if rd vecPen_m n1 <? fst s then (rd vecPen_m n1, Z.of_nat n1) else s.

Definition asw_locate_minscore (al : Alignment_ASW) : Alignment_ASW :=
  let vecPen_m := last_row al in
  let s := for_loop (Z.to_nat (subdb_len al)) (locate_body vecPen_m)
                    (rd vecPen_m 0, 0) in
  set_opt al (fst s) (snd s).

(* ===================================================================== *)
(** ** Outcomes of operations that can fail *)
(* ===================================================================== *)

Inductive outcome (A : Type) : Type :=
  | Ok (a : A)      (* the operation returned normally *)
  | Error           (* the operation returned -1 *)
  | Aborted         (* an assert failed *)
  | Undefined       (* a write fell outside the CIGAR buffer *)
  | OutOfFuel.      (* the loop did not finish within the given fuel *)

Arguments Ok {A} a.
Arguments Error {A}.
Arguments Aborted {A}.
Arguments Undefined {A}.
Arguments OutOfFuel {A}.

(** Number of cells in a block of [bytes] bytes of 4-byte cells. *)
Definition cells_of (bytes : Z) : nat := Z.to_nat (bytes / 4).

(** [*p = x] for a pointer [p = buf + i]. *)
Definition store (buf : list Z) (i x : Z) : option (list Z) :=
  if (0 <=? i) && (i <? Z.of_nat (length buf))
  then Some (<[Z.to_nat i := x]> buf) else None.

(** [m[i][j]] for [int] indices. *)
Definition zrd2 (m : list (list Z)) (i j : Z) : Z :=
  if (0 <=? i) && (0 <=? j) then rd2 m (Z.to_nat i) (Z.to_nat j) else 0.

(* ===================================================================== *)
(** ** asw_trace *)
(* ===================================================================== *)

(** The [do { ... } while (state == op && m1 > 0)] loop of the
    BAM_CSEQ_MATCH case ([op = BAM_CSEQ_MATCH]) and of the
    BAM_CSEQ_MISMATCH case ([op = BAM_CSEQ_MISMATCH]); returns
    [num_matches], [m1], [n1] and the cell read last. *)
Fixpoint seq_run (fuel : nat) (op : Z) (tra : list (list Z))
    (num_matches m1 n1 z : Z) : option (Z * Z * Z * Z) :=
  match fuel with
  | O => None
  | S f =>
    let num_matches := u32 (num_matches + z) in
    let m1 := sint (m1 - z) in
    let n1 := sint (n1 - z) in
    let cigar := zrd2 tra m1 n1 in
    if (cigar_op cigar =? op) && (0 <? m1)
    then seq_run f op tra num_matches m1 n1 (cigar_len cigar)
    else Some (num_matches, m1, n1, cigar)
  end.

(** The [while (m1 > 0) switch (state)] loop; returns the buffer, the
    reverse iterator [rc] and the final column [n1]. *)
Fixpoint trace_loop (fuel : nat) (tra : list (list Z)) (buf : list Z)
    (m1 n1 cigar rc : Z) : outcome (list Z * Z * Z) :=
  match fuel with
  | O => OutOfFuel
  | S f =>
    if m1 <=? 0 then Ok (buf, rc, n1) else
    let z := cigar_len cigar in
    let state := cigar_op cigar in
    if state =? BAM_CSEQ_MATCH then
      match seq_run (S f) BAM_CSEQ_MATCH tra 0 m1 n1 z with
      | None => OutOfFuel
      | Some (num_matches, m1, n1, cigar) =>
        match store buf rc (pack num_matches BAM_CSEQ_MATCH) with
        | None => Undefined
        | Some buf => trace_loop f tra buf m1 n1 cigar (rc - 1)
        end
      end
    else if state =? BAM_CSEQ_MISMATCH then
      match seq_run (S f) BAM_CSEQ_MISMATCH tra 0 m1 n1 z with
      | None => OutOfFuel
      | Some (num_matches, m1, n1, cigar) =>
        match store buf rc (pack num_matches BAM_CSEQ_MISMATCH) with
        | None => Undefined
        | Some buf => trace_loop f tra buf m1 n1 cigar (rc - 1)
        end
      end
    else if state =? BAM_CDEL then
      match store buf rc cigar with
      | None => Undefined
      | Some buf =>
        let n1 := sint (n1 - z) in
        trace_loop f tra buf m1 n1 (zrd2 tra m1 n1) (rc - 1)
      end
    else if state =? BAM_CINS then
      match store buf rc cigar with
      | None => Undefined
      | Some buf =>
        let m1 := sint (m1 - z) in
        trace_loop f tra buf m1 n1 (zrd2 tra m1 n1) (rc - 1)
      end
    else Error
  end.

Definition asw_trace (fuel : nat) (al : Alignment_ASW)
    : outcome Alignment_ASW :=
  if query_len al <? subquery_len al then Aborted else
  if negb (p_realloc al (u64 (4 * u64 (subquery_len al + 4)))) then Error else
  let rcigar :=
    resize_list 0 (cells_of (u64 (4 * u64 (subquery_len al + 4)))) (rcigar al) in
  let m1 := sint (subquery_len al) in
  let n1 := sint (opt_score_col al) in
  let cigar := zrd2 (matTra al) m1 n1 in
  let rc := subquery_len al + 1 in
  match trace_loop fuel (matTra al) rcigar m1 n1 cigar rc with
  | Ok (buf, rc, n1) =>
    let fc5p := rc + 1 in
    let fc3p := subquery_len al + 2 in
    Ok (set_cigar al buf fc5p fc3p (u64 n1))
  | Error => Error
  | Aborted => Aborted
  | Undefined => Undefined
  | OutOfFuel => OutOfFuel
  end.

(** The CIGAR delimited by [cigar_begin] and [cigar_end]. *)
Definition slice (buf : list Z) (b e : Z) : list Z :=
  take (Z.to_nat (e - b)) (drop (Z.to_nat b) buf).

Definition cigar_of (al : Alignment_ASW) : list Z :=
  slice (rcigar al) (cigar_begin al) (cigar_end al).

(** Does an operation consume query bases (M, I, S, =, X)? *)
Definition consumes_query (op : Z) : bool :=
  (op =? BAM_CMATCH) || (op =? BAM_CINS) || (op =? BAM_CSOFT_CLIP)
  || (op =? BAM_CSEQ_MATCH) || (op =? BAM_CSEQ_MISMATCH).

Fixpoint query_consumed (cigar : list Z) : Z :=
  match cigar with
  | [] => 0
  | c :: rest =>
    (if consumes_query (cigar_op c) then cigar_len c else 0)
    + query_consumed rest
  end.

(* ===================================================================== *)
(** ** asw_append_softclip *)
(* ===================================================================== *)

(** The two clip-contraction loops,
    [while (clip > 0u && *--subquery == *--subdb)] at the head
    ([step = -1]) and [... *++subquery == *++subdb] at the tail
    ([step = 1]); returns what is left of the clip and [match_add].
    The two pointers are indices into [q] and [d]; like the addresses
    they stand for, they are kept modulo 2^64. *)
Fixpoint contract_clip (clip : nat) (step : Z) (q d : list Z)
    (subquery subdb match_add : Z) : nat * Z :=
  match clip with
  | O => (O, match_add)
  | S clip' =>
    let subquery := u64 (subquery + step) in
    let subdb := u64 (subdb + step) in
    if zrd q subquery =? zrd d subdb
    then contract_clip clip' step q d subquery subdb (u32 (match_add + 1))
    else (clip, match_add)
  end.

Definition softclip_head (al : Alignment_ASW) : outcome Alignment_ASW :=
  let clip_head := u32 (subquery al) in
  if 0 <? clip_head then
    let cigar := zrd (rcigar al) (cigar_begin al) in
    let state := cigar_op cigar in
    let z := cigar_len cigar in
    if state =? BAM_CSOFT_CLIP then
      match store (rcigar al) (cigar_begin al)
                  (pack (u32 (clip_head + z)) BAM_CSOFT_CLIP) with
      | None => Undefined
      | Some buf => Ok (set_cigar al buf (cigar_begin al) (cigar_end al) (offset al))
      end
    else if (state =? BAM_CSEQ_MATCH) || (state =? BAM_CMATCH) then
      let '(rest, match_add) :=
        contract_clip (Z.to_nat clip_head) (-1) (query al) (db al)
          (subquery al) (u64 (subdb al + offset al)) 0 in
      let clip_head := Z.of_nat rest in
      match (if 0 <? match_add
             then option_map (fun buf => (buf, u64 (offset al - match_add)))
                    (store (rcigar al) (cigar_begin al)
                           (pack (u32 (z + match_add)) state))
             else Some (rcigar al, offset al)) with
      | None => Undefined
      | Some (buf, off) =>
        if 0 <? clip_head then
          match store buf (cigar_begin al - 1) (pack clip_head BAM_CSOFT_CLIP) with
          | None => Undefined
          | Some buf => Ok (set_cigar al buf (cigar_begin al - 1) (cigar_end al) off)
          end
        else Ok (set_cigar al buf (cigar_begin al) (cigar_end al) off)
      end
    else
      match store (rcigar al) (cigar_begin al - 1)
                  (pack clip_head BAM_CSOFT_CLIP) with
      | None => Undefined
      | Some buf =>
        Ok (set_cigar al buf (cigar_begin al - 1) (cigar_end al) (offset al))
      end
  else Ok al.

Definition softclip_tail (al : Alignment_ASW) : outcome Alignment_ASW :=
  let clip_tail :=
    u32 ((0 + query_len al) - (subquery al + subquery_len al)) in
  if 0 <? clip_tail then
    let cigar := zrd (rcigar al) (cigar_end al - 1) in
    let state := cigar_op cigar in
    let z := cigar_len cigar in
    if state =? BAM_CSOFT_CLIP then
      match store (rcigar al) (cigar_end al - 1)
                  (pack (u32 (clip_tail + z)) BAM_CSOFT_CLIP) with
      | None => Undefined
      | Some buf => Ok (set_cigar al buf (cigar_begin al) (cigar_end al) (offset al))
      end
    else if (state =? BAM_CSEQ_MATCH) || (state =? BAM_CMATCH) then
      let '(rest, match_add) :=
        contract_clip (Z.to_nat clip_tail) 1 (query al) (db al)
          (u64 (subquery al + subquery_len al - 1))
          (u64 (subdb al + offset al + subdb_len al - 1)) 0 in
      let clip_tail := Z.of_nat rest in
      match (if 0 <? match_add
             then store (rcigar al) (cigar_end al - 1)
                        (pack (u32 (z + match_add)) state)
             else Some (rcigar al)) with
      | None => Undefined
      | Some buf =>
        if 0 <? clip_tail then
          match store buf (cigar_end al) (pack clip_tail BAM_CSOFT_CLIP) with
          | None => Undefined
          | Some buf => Ok (set_cigar al buf (cigar_begin al) (cigar_end al + 1) (offset al))
          end
        else Ok (set_cigar al buf (cigar_begin al) (cigar_end al) (offset al))
      end
    else
      match store (rcigar al) (cigar_end al) (pack clip_tail BAM_CSOFT_CLIP) with
      | None => Undefined
      | Some buf =>
        Ok (set_cigar al buf (cigar_begin al) (cigar_end al + 1) (offset al))
      end
  else Ok al.

Definition asw_append_softclip (al : Alignment_ASW) : outcome Alignment_ASW :=
  if (subquery al <? 0) || (subdb al <? 0) then Aborted else
  match softclip_head al with
  | Ok al => softclip_tail al
  | o => o
  end.

(* ===================================================================== *)
(** ** asw_softclip_trace *)
(* ===================================================================== *)

(** [p[i] = x] where the index is known to lie in the CIGAR range; a
    negative index leaves the buffer alone. *)
Definition zwr (buf : list Z) (i x : Z) : list Z :=
  if 0 <=? i then <[Z.to_nat i := x]> buf else buf.

(** Scan from the tail: [for (; rc3p != rc; --rc3p)], with
    [k = rc3p - rc] cells left.  Returns [rc3p] and [soft_clip_3p]. *)
Fixpoint softclip_scan_3p (k : nat) (buf : list Z) (rc soft_clip_3p : Z)
    : Z * Z :=
  match k with
  | O => (rc, soft_clip_3p)
  | S k' =>
    let rc3p := rc + Z.of_nat k in
    let cigar := zrd buf rc3p in
    let state := cigar_op cigar in
    if state =? BAM_CSEQ_MATCH then (rc3p, soft_clip_3p)
    else if negb (state =? BAM_CDEL) && negb (state =? BAM_CHARD_CLIP) then
      softclip_scan_3p k' buf rc (u32 (soft_clip_3p + cigar_len cigar))
    else softclip_scan_3p k' buf rc soft_clip_3p
  end.

(** Scan from the head: [for (; fc5p != fc3p; ++fc5p)], with
    [k = fc3p - fc5p] cells left.  Returns [fc5p], [soft_clip_5p] and
    [offset]. *)
Fixpoint softclip_scan_5p (k : nat) (buf : list Z)
    (fc3p soft_clip_5p offset : Z) : Z * Z * Z :=
  match k with
  | O => (fc3p, soft_clip_5p, offset)
  | S k' =>
    let fc5p := fc3p - Z.of_nat k in
    let cigar := zrd buf fc5p in
    let state := cigar_op cigar in
    if state =? BAM_CSEQ_MATCH then (fc5p, soft_clip_5p, offset)
    else if negb (state =? BAM_CHARD_CLIP) then
      let op_len := sint (cigar_len cigar) in
      let soft_clip_5p :=
        if negb (state =? BAM_CDEL) then u32 (soft_clip_5p + op_len)
        else soft_clip_5p in
      let offset :=
        if negb (state =? BAM_CINS) then u64 (offset + op_len)
        else offset in
      softclip_scan_5p k' buf fc3p soft_clip_5p offset
    else softclip_scan_5p k' buf fc3p soft_clip_5p offset
  end.

(** The closing [assert(fc3p >= fc5p)] holds whenever
    [cigar_begin <= cigar_end] and is left out. *)
Definition asw_softclip_trace (al : Alignment_ASW) : Alignment_ASW :=
  let rc := cigar_begin al - 1 in
  let '(rc3p, soft_clip_3p) :=
    softclip_scan_3p (Z.to_nat (cigar_end al - cigar_begin al))
                     (rcigar al) rc 0 in
  let '(rc3p, buf) :=
    if 0 <? soft_clip_3p
    then (rc3p + 1, zwr (rcigar al) (rc3p + 1) (pack soft_clip_3p BAM_CSOFT_CLIP))
    else (rc3p, rcigar al) in
  let fc3p := rc3p + 1 in
  let '(fc5p, soft_clip_5p, offset) :=
    softclip_scan_5p (Z.to_nat (fc3p - cigar_begin al)) buf fc3p 0 (offset al) in
  let '(fc5p, buf) :=
    if 0 <? soft_clip_5p
    then (fc5p - 1, zwr buf (fc5p - 1) (pack soft_clip_5p BAM_CSOFT_CLIP))
    else (fc5p, buf) in
  set_cigar al buf fc5p fc3p offset.

(* ===================================================================== *)
(** ** asw_compact_trace *)
(* ===================================================================== *)

Definition is_seq_op (state : Z) : bool :=
  (state =? BAM_CSEQ_MATCH) || (state =? BAM_CSEQ_MISMATCH).

(** The two nested loops, with [k = rbucket - rc] cells left to read.
    A call with [num_matches = 0] is the head of the outer
    [while (rbucket != rc)]; a recursive call that carries
    [num_matches] on is the next turn of the inner [while (1)].
    Returns the buffer and [start_riter]. *)
Fixpoint compact_loop (k : nat) (rc : Z) (buf : list Z)
    (start_riter num_matches : Z) : list Z * Z :=
  match k with
  | O => (buf, start_riter)
  | S k' =>
    let cigar := zrd buf (rc + Z.of_nat k) in
    let state := cigar_op cigar in
    (* --rbucket *)
    if is_seq_op state then
      let num_matches := u32 (num_matches + cigar_len cigar) in
      match k' with
      | O =>
        (* rbucket == rc *)
        (zwr buf start_riter (pack num_matches BAM_CMATCH), start_riter - 1)
      | S _ => compact_loop k' rc buf start_riter num_matches
      end
    else if 0 <? num_matches then
      let buf := zwr buf start_riter (pack num_matches BAM_CMATCH) in
      let start_riter := start_riter - 1 in
      compact_loop k' rc (zwr buf start_riter cigar) (start_riter - 1) 0
    else
      compact_loop k' rc (zwr buf start_riter cigar) (start_riter - 1) 0
  end.

(** The closing [assert(al->cigar_end >= fc5p)] holds whenever
    [cigar_begin <= cigar_end] ([compact_loop_rev] below) and is left
    out. *)
Definition asw_compact_trace (al : Alignment_ASW) : Alignment_ASW :=
  let start_riter := cigar_end al - 1 in
  let rc := cigar_begin al - 1 in
  let '(buf, start_riter) :=
    compact_loop (Z.to_nat (cigar_end al - cigar_begin al)) rc
                 (rcigar al) start_riter 0 in
  let fc5p := start_riter + 1 in
  set_cigar al buf fc5p (cigar_end al) (offset al).

(* ===================================================================== *)
(** ** asw_prepare_query, asw_prepare_db, asw_prepare *)
(* ===================================================================== *)

Definition set_views (al : Alignment_ASW)
    (m_db : list Z) (m_subdb : Z) (m_query : list Z) (m_subquery : Z)
    (m_qual : list Z) (m_subqual : Z)
    (m_db_len m_subdb_len m_query_len m_subquery_len : Z)
    (pen_m pen_m1 ins_m ins_m1 ext_m ext_m1 : list Z)
    (tra : list (list Z)) : Alignment_ASW :=
  {| phred_offset := phred_offset al;
     match_penalty := match_penalty al;
     mismatch_penalty := mismatch_penalty al;
     gopen_penalty := gopen_penalty al;
     gext_penalty := gext_penalty al;
     GAP_OPEN_EXTEND := GAP_OPEN_EXTEND al;
     GAP_EXTEND := GAP_EXTEND al;
     db := m_db; subdb := m_subdb;
     query := m_query; subquery := m_subquery;
     qual := m_qual; subqual := m_subqual;
     db_len := m_db_len; subdb_len := m_subdb_len;
     query_len := m_query_len; subquery_len := m_subquery_len;
     vecPen_m_act := pen_m; vecPen_m1_act := pen_m1;
     vecIns_m_act := ins_m; vecIns_m1_act := ins_m1;
     I_ext_m_act := ext_m; I_ext_m1_act := ext_m1;
     vecPen_lastRow := vecPen_lastRow al;
     matTra := tra;
     opt_score := opt_score al; opt_score_col := opt_score_col al;
     rcigar := rcigar al;
     cigar_begin := cigar_begin al; cigar_end := cigar_end al;
     offset := offset al;
     p_realloc := p_realloc al |}.

(** [size_t m_sub_len = m_len - clip_head - clip_tail]. *)
Definition clip_len (m_len clip_head clip_tail : Z) : Z :=
  u64 (u64 (m_len - clip_head) - clip_tail).

(** [resize_matrix1]; [None] is the NULL it returns when an allocation
    fails.  [p_malloc] and [p_realloc] share the one allocator. *)
Definition resize_matrix1 (al : Alignment_ASW) (tra : list (list Z))
    (new_x_len new_y_len : Z) : option (list (list Z)) :=
  let old_x_len := subdb_len al in
  let old_y_len := subquery_len al in
  let cigar_hor := u64 (4 * u64 (new_x_len + 1)) in
  let rows := u64 (new_y_len + 1) in
  match
    (if negb (old_y_len =? new_y_len) then
       if negb (p_realloc al (u64 (8 * rows))) then None
       else
         (* rows old_y_len + 1 .. new_y_len are allocated afresh *)
         let fresh := (Z.to_nat rows - Z.to_nat (u64 (old_y_len + 1)))%nat in
         if negb (fresh =? 0)%nat && negb (p_realloc al cigar_hor) then None
         else Some (take (Z.to_nat rows) tra
                    ++ replicate fresh (replicate (cells_of cigar_hor) 0))
     else Some tra)
  with
  | None => None
  | Some tra =>
    if negb (old_x_len =? new_x_len) then
      (* rows 0 .. min (old_y_len, new_y_len) are resized *)
      let top := Z.to_nat (u64 (Z.min old_y_len new_y_len + 1)) in
      if negb (top =? 0)%nat && negb (p_realloc al cigar_hor) then None
      else Some (map (resize_list 0 (cells_of cigar_hor)) (take top tra)
                 ++ drop top tra)
    else Some tra
  end.

(** The six row vectors are reallocated to [m_subdb_len + 1] cells. *)
Definition resize_vec (m_subdb_len : Z) (v : list Z) : list Z :=
  resize_list 0 (cells_of (u64 (4 * u64 (m_subdb_len + 1)))) v.

(** The prepare operations return the C return code and the engine as
    the call leaves it. After a failure the buffers are what they were
    before the call in this model. *)
Definition asw_prepare_query (al : Alignment_ASW)
    (m_query m_qual : list Z) (m_query_len clip_head clip_tail : Z)
    : Z * Alignment_ASW :=
  let m_subquery_len := clip_len m_query_len clip_head clip_tail in
  let al1 :=
    set_views al (db al) (subdb al) m_query clip_head m_qual clip_head
      (db_len al) (subdb_len al) m_query_len (subquery_len al)
      (vecPen_m_act al) (vecPen_m1_act al) (vecIns_m_act al)
      (vecIns_m1_act al) (I_ext_m_act al) (I_ext_m1_act al) (matTra al) in
  match resize_matrix1 al1 (matTra al1) (subdb_len al1) m_subquery_len with
  | None => (-1, al1)
  | Some tra =>
    (0, set_views al1 (db al1) (subdb al1) (query al1) (subquery al1)
          (qual al1) (subqual al1)
          (db_len al1) (subdb_len al1) (query_len al1) m_subquery_len
          (vecPen_m_act al1) (vecPen_m1_act al1) (vecIns_m_act al1)
          (vecIns_m1_act al1) (I_ext_m_act al1) (I_ext_m1_act al1) tra)
  end.

Definition resize_rows (al : Alignment_ASW) (m_subdb_len : Z)
    (tra : list (list Z)) (m_subquery_len : Z) : Z * Alignment_ASW :=
  if negb (subdb_len al =? m_subdb_len) then
    if negb (p_realloc al (u64 (4 * u64 (m_subdb_len + 1)))) then
      (-1, set_views al (db al) (subdb al) (query al) (subquery al)
             (qual al) (subqual al)
             (db_len al) (subdb_len al) (query_len al) m_subquery_len
             (vecPen_m_act al) (vecPen_m1_act al) (vecIns_m_act al)
             (vecIns_m1_act al) (I_ext_m_act al) (I_ext_m1_act al) tra)
    else
      (0, set_views al (db al) (subdb al) (query al) (subquery al)
            (qual al) (subqual al)
            (db_len al) m_subdb_len (query_len al) m_subquery_len
            (resize_vec m_subdb_len (vecPen_m_act al))
            (resize_vec m_subdb_len (vecPen_m1_act al))
            (resize_vec m_subdb_len (vecIns_m_act al))
            (resize_vec m_subdb_len (vecIns_m1_act al))
            (resize_vec m_subdb_len (I_ext_m_act al))
            (resize_vec m_subdb_len (I_ext_m1_act al)) tra)
  else
    (0, set_views al (db al) (subdb al) (query al) (subquery al)
          (qual al) (subqual al)
          (db_len al) (subdb_len al) (query_len al) m_subquery_len
          (vecPen_m_act al) (vecPen_m1_act al) (vecIns_m_act al)
          (vecIns_m1_act al) (I_ext_m_act al) (I_ext_m1_act al) tra).

Definition asw_prepare_db (al : Alignment_ASW)
    (m_db : list Z) (m_db_len clip_head clip_tail : Z)
    : Z * Alignment_ASW :=
  let m_subdb_len := clip_len m_db_len clip_head clip_tail in
  let al1 :=
    set_views al m_db clip_head (query al) (subquery al)
      (qual al) (subqual al)
      m_db_len (subdb_len al) (query_len al) (subquery_len al)
      (vecPen_m_act al) (vecPen_m1_act al) (vecIns_m_act al)
      (vecIns_m1_act al) (I_ext_m_act al) (I_ext_m1_act al) (matTra al) in
  match resize_matrix1 al1 (matTra al1) m_subdb_len (subquery_len al1) with
  | None => (-1, al1)
  | Some tra => resize_rows al1 m_subdb_len tra (subquery_len al1)
  end.

Definition asw_prepare (al : Alignment_ASW)
    (m_db : list Z) (m_db_len : Z) (m_query m_qual : list Z)
    (m_query_len clip_head clip_tail : Z) : Z * Alignment_ASW :=
  let m_subdb_len := clip_len m_db_len clip_head clip_tail in
  let m_subquery_len := clip_len m_query_len clip_head clip_tail in
  let al1 :=
    set_views al m_db clip_head m_query clip_head m_qual clip_head
      m_db_len (subdb_len al) m_query_len (subquery_len al)
      (vecPen_m_act al) (vecPen_m1_act al) (vecIns_m_act al)
      (vecIns_m1_act al) (I_ext_m_act al) (I_ext_m1_act al) (matTra al) in
  match resize_matrix1 al1 (matTra al1) m_subdb_len m_subquery_len with
  | None => (-1, al1)
  | Some tra => resize_rows al1 m_subdb_len tra m_subquery_len
  end.

(* ===================================================================== *)
(** ** Qxalign_align (qxalign.c) *)
(* ===================================================================== *)

(** What the method hands back to the interpreter: the score, or NULL
    with an exception set. *)
Inductive py_result : Type :=
  | PyLong (v : Z)
  | PyExc_IndexError (msg : string).

Definition Qxalign_align (al : Alignment_ASW) (semi : bool)
    : py_result * Alignment_ASW :=
  if (subdb_len al =? 0) || (subquery_len al =? 0) then
    (PyExc_IndexError "cannot perform alignment on a zero-element matrix", al)
  else
    let al := if semi then asw_align_init_semi al else asw_align_init al in
    let al := asw_align al in
    let al := asw_locate_minscore al in
    (PyLong (opt_score al), al).

(* ===================================================================== *)
(** ** asw_alloc, asw_init, asw_set_phoffset *)
(* ===================================================================== *)

(** The engine as [asw_alloc] returns it when its allocations succeed:
    every numeric member zero, every buffer NULL, one row pointer in the
    trace matrix.  The penalty tables are allocated but not yet filled. *)
Definition asw_alloc (alloc : Z -> bool) : Alignment_ASW :=
  {| phred_offset := 0;
     match_penalty := replicate 94 0;
     mismatch_penalty := replicate 94 0;
     gopen_penalty := replicate 94 0;
     gext_penalty := replicate 94 0;
     GAP_OPEN_EXTEND := 0;
     GAP_EXTEND := 0;
     db := []; subdb := 0;
     query := []; subquery := 0;
     qual := []; subqual := 0;
     db_len := 0; subdb_len := 0;
     query_len := 0; subquery_len := 0;
     vecPen_m_act := []; vecPen_m1_act := [];
     vecIns_m_act := []; vecIns_m1_act := [];
     I_ext_m_act := []; I_ext_m1_act := [];
     vecPen_lastRow := PTR_m_act;
     matTra := [[]];
     opt_score := 0; opt_score_col := 0;
     rcigar := [];
     cigar_begin := 0; cigar_end := 0;
     offset := 0;
     p_realloc := alloc |}.

(** [asw_init] stores the two base gap penalties and fills the four
    tables.  The table entries are computed in double-precision floating
    point ([log10], [pow], [round]); they are taken here as they come
    out of that computation. *)
Definition asw_init_tables (al : Alignment_ASW)
    (t_match t_mismatch t_gopen t_gext : list Z)
    (GAP_OPEN_EXTEND GAP_EXTEND : Z) : Alignment_ASW :=
  {| phred_offset := phred_offset al;
     match_penalty := t_match;
     mismatch_penalty := t_mismatch;
     gopen_penalty := t_gopen;
     gext_penalty := t_gext;
     GAP_OPEN_EXTEND := GAP_OPEN_EXTEND;
     GAP_EXTEND := GAP_EXTEND;
     db := db al; subdb := subdb al;
     query := query al; subquery := subquery al;
     qual := qual al; subqual := subqual al;
     db_len := db_len al; subdb_len := subdb_len al;
     query_len := query_len al; subquery_len := subquery_len al;
     vecPen_m_act := vecPen_m_act al; vecPen_m1_act := vecPen_m1_act al;
     vecIns_m_act := vecIns_m_act al; vecIns_m1_act := vecIns_m1_act al;
     I_ext_m_act := I_ext_m_act al; I_ext_m1_act := I_ext_m1_act al;
     vecPen_lastRow := vecPen_lastRow al;
     matTra := matTra al;
     opt_score := opt_score al; opt_score_col := opt_score_col al;
     rcigar := rcigar al;
     cigar_begin := cigar_begin al; cigar_end := cigar_end al;
     offset := offset al;
     p_realloc := p_realloc al |}.

Definition asw_set_phoffset (al : Alignment_ASW) (off : Z) : Alignment_ASW :=
  {| phred_offset := off;
     match_penalty := match_penalty al;
     mismatch_penalty := mismatch_penalty al;
     gopen_penalty := gopen_penalty al;
     gext_penalty := gext_penalty al;
     GAP_OPEN_EXTEND := GAP_OPEN_EXTEND al;
     GAP_EXTEND := GAP_EXTEND al;
     db := db al; subdb := subdb al;
     query := query al; subquery := subquery al;
     qual := qual al; subqual := subqual al;
     db_len := db_len al; subdb_len := subdb_len al;
     query_len := query_len al; subquery_len := subquery_len al;
     vecPen_m_act := vecPen_m_act al; vecPen_m1_act := vecPen_m1_act al;
     vecIns_m_act := vecIns_m_act al; vecIns_m1_act := vecIns_m1_act al;
     I_ext_m_act := I_ext_m_act al; I_ext_m1_act := I_ext_m1_act al;
     vecPen_lastRow := vecPen_lastRow al;
     matTra := matTra al;
     opt_score := opt_score al; opt_score_col := opt_score_col al;
     rcigar := rcigar al;
     cigar_begin := cigar_begin al; cigar_end := cigar_end al;
     offset := offset al;
     p_realloc := p_realloc al |}.

(* ===================================================================== *)
(** ** A concrete engine: the default penalties *)
(* ===================================================================== *)

(** The tables [asw_init] computes for the defaults of [Qxalign_new]
    (match -10, mismatch 30, gap_open_extend 50, gap_extend 20): a few
    low entries and then a plateau up to index 93.  The examples below
    use quality 'I' (PHRED 40 at offset 33) only, where the weighted
    penalty is within 0.005 of the base penalty; the entries at index
    0, where the weight is 0.25 and the product sits on a rounding
    boundary, are those of an IEEE-754 evaluation and are not read. *)
Definition table_with_plateau (low : list Z) (high : Z) : list Z :=
  low ++ replicate (94 - length low) high.

Definition default_match : list Z :=
  table_with_plateau [7; 6; 5; 4; 3; 2; 2; 1; 1; 1; 1; 1] 0.
Definition default_mismatch : list Z :=
  table_with_plateau
    [18; 22; 26; 29; 31; 33; 34; 36; 36; 37; 38; 38; 39; 39; 39; 39; 39] 40.
Definition default_gopen : list Z :=
  table_with_plateau
    [23; 30; 36; 41; 45; 48; 51; 53; 54; 55; 56; 57; 58; 58; 59; 59; 59;
     59; 59] 60.
Definition default_gext : list Z :=
  table_with_plateau
    [15; 18; 21; 22; 24; 25; 26; 27; 28; 28; 29; 29; 29; 29; 29] 30.

Definition default_engine : Alignment_ASW :=
  asw_init_tables (asw_alloc (fun _ => true))
    default_match default_mismatch default_gopen default_gext 50 20.

(** [Qxalign_prepare] of the binding with quality string [q] and the
    default PHRED offset, followed by [align], [trace]. *)
Definition prepared (e : Alignment_ASW) (ref q ql : string) : Alignment_ASW :=
  let d := bytes_of_string ref in
  let qy := bytes_of_string q in
  asw_set_phoffset
    (snd (asw_prepare e d (Z.of_nat (length d)) qy (bytes_of_string ql)
            (Z.of_nat (length qy)) 0 0)) 33.

Definition aligned (semi : bool) (al : Alignment_ASW) : Alignment_ASW :=
  snd (Qxalign_align al semi).

(* ===================================================================== *)
(** ** Predicates used in the statements *)
(* ===================================================================== *)

(** The buffers have the sizes the prepare operations give them:
    [subdb_len + 1] cells in every row vector and in every row of the
    trace matrix, [subquery_len + 1] rows. *)
Definition mat_ok (w h : nat) (m : list (list Z)) : Prop :=
  length m = h /\ Forall (fun row => length row = w) m.

Definition buffers_ok (al : Alignment_ASW) : Prop :=
  let w := S (Z.to_nat (subdb_len al)) in
  length (vecPen_m_act al) = w /\ length (vecPen_m1_act al) = w /\
  length (vecIns_m_act al) = w /\ length (vecIns_m1_act al) = w /\
  length (I_ext_m_act al) = w /\ length (I_ext_m1_act al) = w /\
  mat_ok w (S (Z.to_nat (subquery_len al))) (matTra al).

(** Spec invariant 5: run lengths fit in 28 bits. *)
Definition lengths_fit (al : Alignment_ASW) : Prop :=
  0 < subdb_len al < 2 ^ 28 /\ 0 < subquery_len al < 2 ^ 28.

(** What holds of the locals of [asw_align_init*] after [n] turns of
    the loop over the top row. *)
Definition init_inv (al : Alignment_ASW) (semi : bool) (n : nat)
    (s : init_state) : Prop :=
  let w := S (Z.to_nat (subdb_len al)) in
  (length (i_vecPen_m s) = w /\ length (i_vecIns_m s) = w /\
   length (i_I_ext_m s) = w /\
   mat_ok w (S (Z.to_nat (subquery_len al))) (i_matTra s)) /\
  (forall j, (j <= n)%nat -> rd (i_I_ext_m s) j = 0) /\
  rd2 (i_matTra s) 0 0 = pack 0 BAM_CSEQ_MATCH /\
  (forall j, (1 <= j <= n)%nat ->
     rd2 (i_matTra s) 0 j = pack (Z.of_nat j) BAM_CDEL) /\
  (forall i j, i <> O -> rd2 (i_matTra s) i j = rd2 (matTra al) i j) /\
  rd (i_vecPen_m s) 0 = 0 /\
  (semi = false ->
     i_storedDel_score s =
       (if (n =? 0)%nat then sint (GAP_OPEN_EXTEND al - GAP_EXTEND al)
        else rd (i_vecPen_m s) n)) /\
  (semi = false ->
     ((1 <= n)%nat -> rd (i_vecPen_m s) 1 = sint (GAP_OPEN_EXTEND al)) /\
     (forall j, (2 <= j <= n)%nat ->
        rd (i_vecPen_m s) j = sint (rd (i_vecPen_m s) (j - 1) + GAP_EXTEND al))) /\
  (semi = true -> forall j, (j <= n)%nat -> rd (i_vecPen_m s) j = 0).

(** A trace cell at row [i >= 1], column [j], from which the traceback
    can step: a diagonal move of length 1 inside the matrix, or a gap
    whose run stays inside the matrix. *)
Definition good_cell (i j : nat) (c : Z) : Prop :=
  ((cigar_op c = BAM_CSEQ_MATCH \/ cigar_op c = BAM_CSEQ_MISMATCH) /\
   cigar_len c = 1 /\ (1 <= j)%nat) \/
  (cigar_op c = BAM_CINS /\ 1 <= cigar_len c <= Z.of_nat i) \/
  (cigar_op c = BAM_CDEL /\ 1 <= cigar_len c <= Z.of_nat j).

(** What holds of the inner loop of row [S m] after [n] columns. *)
Definition row_inv (al : Alignment_ASW) (m : nat) (a : align_state)
    (n : nat) (s : row_state) : Prop :=
  let w := S (Z.to_nat (subdb_len al)) in
  (length (r_vecPen_m1 s) = w /\ length (r_vecIns_m1 s) = w /\
   length (r_I_ext_m1 s) = w /\
   mat_ok w (S (Z.to_nat (subquery_len al))) (r_matTra s)) /\
  0 <= r_cD s <= Z.of_nat n /\
  (forall j, (j <= n)%nat -> 1 <= rd (r_I_ext_m1 s) j <= Z.of_nat (S m)) /\
  (forall j, (j <= n)%nat -> good_cell (S m) j (rd2 (r_matTra s) (S m) j)) /\
  (forall i j, i <> S m -> rd2 (r_matTra s) i j = rd2 (a_matTra a) i j).

(** What holds of the outer loop after [k] rows. *)
Definition align_inv (al : Alignment_ASW) (k : nat) (a : align_state)
    : Prop :=
  let w := S (Z.to_nat (subdb_len al)) in
  (length (a_vecPen_m a) = w /\ length (a_vecIns_m a) = w /\
   length (a_I_ext_m a) = w /\
   length (a_vecPen_m1 a) = w /\ length (a_vecIns_m1 a) = w /\
   length (a_I_ext_m1 a) = w /\
   mat_ok w (S (Z.to_nat (subquery_len al))) (a_matTra a)) /\
  (forall j, (j < w)%nat -> 0 <= rd (a_I_ext_m a) j <= Z.of_nat k) /\
  (forall i j, (1 <= i <= k)%nat -> (j < w)%nat ->
     good_cell i j (rd2 (a_matTra a) i j)) /\
  (forall i j, (k < i)%nat \/ i = O ->
     rd2 (a_matTra a) i j = rd2 (matTra al) i j).

(** The interior cell [(i, j)], [1 <= i], [1 <= j], as the inner loop
    computes it: the outer loop has finished [i - 1] rows, the inner
    loop [j - 1] columns of row [i]. *)
Definition cell_of (al : Alignment_ASW) (i j : nat) : cell_result :=
  let a := align_upto al (i - 1) in
  cell_at al (row_env_of al (i - 1))
    (a_vecPen_m a) (a_vecIns_m a) (a_I_ext_m a) (j - 1)
    (row_upto al (i - 1) a (j - 1)).

(** Run length of the deletion candidate of the cell to the left (0 at
    the start of a row), and of the insertion candidate of the cell
    above (the top row's tracker for row 1). *)
Definition prev_run_len_D (al : Alignment_ASW) (i j : nat) : Z :=
  if (j =? 1)%nat then 0 else c_cD (cell_of al i (j - 1)).

Definition prev_run_len_I (al : Alignment_ASW) (i j : nat) : Z :=
  if (i =? 1)%nat then rd (I_ext_m_act al) j else c_cI (cell_of al (i - 1) j).

(** The four gap candidates of the interior cell [(i, j)] as the inner
    loop computes them on entry to the cell. *)
Definition wD_open_of (al : Alignment_ASW) (i j : nat) : Z :=
  let s := row_upto al (i - 1) (align_upto al (i - 1)) (j - 1) in
  sint (rd (r_vecPen_m1 s) (j - 1) + GAP_OPEN_EXTEND al).

Definition wD_extend_of (al : Alignment_ASW) (i j : nat) : Z :=
  let s := row_upto al (i - 1) (align_upto al (i - 1)) (j - 1) in
  sint (r_storedDel_score s + GAP_EXTEND al).

Definition wI_open_of (al : Alignment_ASW) (i j : nat) : Z :=
  let a := align_upto al (i - 1) in
  sint (rd (a_vecPen_m a) j + e_gopen_pen (row_env_of al (i - 1))).

Definition wI_extend_of (al : Alignment_ASW) (i j : nat) : Z :=
  let a := align_upto al (i - 1) in
  sint (rd (a_vecIns_m a) j + e_gext_pen (row_env_of al (i - 1))).

(** The score the inner loop leaves in [vecPen_m1[j]] for row [i]. *)
Definition score_of (al : Alignment_ASW) (i j : nat) : Z :=
  rd (r_vecPen_m1 (row_upto al (i - 1) (align_upto al (i - 1)) j)) j.

(** Either initializer. *)
Definition align_init (semi : bool) (al : Alignment_ASW) : Alignment_ASW :=
  if semi then asw_align_init_semi al else asw_align_init al.

(** [is_seq_match] at the interior cell [(i, j)]:
    [IS_MATCH(m_subdb[n], cq)] with [n = j - 1] and
    [cq = m_subquery[i - 1]]. *)
Definition ref_base (al : Alignment_ASW) (j : nat) : Z :=
  zrd (db al) (subdb al + Z.of_nat (j - 1)).

Definition query_base (al : Alignment_ASW) (i : nat) : Z :=
  zrd (query al) (subquery al + Z.of_nat (i - 1)).

Definition is_seq_match_of (al : Alignment_ASW) (i j : nat) : bool :=
  IS_MATCH (ref_base al j) (query_base al i).

(** The top row of the score vector as the specification words it for
    global mode: from 0, every column adds the gap-extend penalty taken
    from the table at the quality of query position 0. *)
Definition top_row_quality_weighted (al0 : Alignment_ASW) : Prop :=
  let al := asw_align_init al0 in
  let gext0 := penalty (gext_penalty al0) al0 (zrd (qual al0) (subqual al0 + 0)) in
  rd (vecPen_m_act al) 0 = 0 /\
  (forall j, (1 <= j <= Z.to_nat (subdb_len al0))%nat ->
     rd (vecPen_m_act al) j = sint (rd (vecPen_m_act al) (j - 1) + gext0)) /\
  (forall j, (1 <= j <= Z.to_nat (subdb_len al0))%nat ->
     rd2 (matTra al) 0 j = pack (Z.of_nat j) BAM_CDEL).

(** The clip arithmetic as the specification words it: whatever
    arguments a prepare operation is called with (a [size_t] length and
    two [uint32_t] clips) and returns 0 for, the sub-view lengths it
    stores do not exceed the lengths of the arrays. *)
Definition prepare_never_wraps : Prop :=
  forall (al : Alignment_ASW) (m_db : list Z) (m_db_len : Z)
         (m_query m_qual : list Z) (m_query_len clip_head clip_tail : Z),
    0 <= m_db_len < 2 ^ 64 -> 0 <= m_query_len < 2 ^ 64 ->
    0 <= clip_head < 2 ^ 32 -> 0 <= clip_tail < 2 ^ 32 ->
    (let r := asw_prepare al m_db m_db_len m_query m_qual m_query_len
                clip_head clip_tail in
     fst r = 0 ->
     subquery_len (snd r) <= query_len (snd r) /\
     subdb_len (snd r) <= db_len (snd r)) /\
    (let r := asw_prepare_query al m_query m_qual m_query_len
                clip_head clip_tail in
     fst r = 0 -> subquery_len (snd r) <= query_len (snd r)) /\
    (let r := asw_prepare_db al m_db m_db_len clip_head clip_tail in
     fst r = 0 -> subdb_len (snd r) <= db_len (snd r)).

(** Every trace cell below the top row is one the traceback can step
    from. *)
Definition good_matrix (Q W : nat) (tra : list (list Z)) : Prop :=
  forall i j, (1 <= i <= Q)%nat -> (j <= W)%nat ->
    good_cell i j (rd2 tra i j).


(** [asw_compact_trace] on lists: [rin] is what is left to read, last
    operation first; [out] is what has been written, in CIGAR order. *)
Fixpoint compact_rev (rin : list Z) (num_matches : Z) (out : list Z)
    : list Z :=
  match rin with
  | [] => out
  | cigar :: rest =>
    if is_seq_op (cigar_op cigar) then
      let num_matches := u32 (num_matches + cigar_len cigar) in
      match rest with
      | [] => pack num_matches BAM_CMATCH :: out
      | _ :: _ => compact_rev rest num_matches out
      end
    else if 0 <? num_matches then
      compact_rev rest 0 (cigar :: pack num_matches BAM_CMATCH :: out)
    else compact_rev rest 0 (cigar :: out)
  end.

(** [compact_rev] without the special case at the end of the input:
    the pending run length is returned instead of being written. *)
Fixpoint scan_rev (rin : list Z) (num_matches : Z) (out : list Z)
    : Z * list Z :=
  match rin with
  | [] => (num_matches, out)
  | cigar :: rest =>
    if is_seq_op (cigar_op cigar)
    then scan_rev rest (num_matches + cigar_len cigar) out
    else scan_rev rest 0
           (cigar :: (if 0 <? num_matches
                      then pack num_matches BAM_CMATCH :: out else out))
  end.

(** Fusion as the specification words it, on a CIGAR read left to
    right: [fuse_lead] returns the summed length of the = and X runs
    the CIGAR starts with, and the rest with every later group of
    adjacent = and X runs replaced by one M run of the summed length,
    other operations copied. *)
Definition emit_M (n : Z) (rest : list Z) : list Z :=
  if 0 <? n then pack n BAM_CMATCH :: rest else rest.

Fixpoint fuse_lead (cigar : list Z) : Z * list Z :=
  match cigar with
  | [] => (0, [])
  | c :: rest =>
    let '(n, fused) := fuse_lead rest in
    if is_seq_op (cigar_op c) then (cigar_len c + n, fused)
    else (0, c :: emit_M n fused)
  end.

Definition fuse_runs (cigar : list Z) : list Z :=
  let '(n, fused) := fuse_lead cigar in emit_M n fused.

(** A CIGAR whose run lengths are positive and add up to less than
    2^28. *)
Fixpoint total_len (cigar : list Z) : Z :=
  match cigar with
  | [] => 0
  | c :: rest => cigar_len c + total_len rest
  end.

Definition valid_cigar (cigar : list Z) : Prop :=
  Forall (fun c => 1 <= cigar_len c) cigar /\ total_len cigar < 2 ^ 28.

(** The CIGAR range lies inside the buffer. *)
Definition cigar_in_buffer (al : Alignment_ASW) : Prop :=
  0 <= cigar_begin al <= cigar_end al /\
  cigar_end al <= Z.of_nat (length (rcigar al)).

(** An engine whose tables agree with those of [asw_init] for match
    -1000, mismatch 30, gap_open_extend 50 and gap_extend 20 at PHRED
    40, the only index the example that uses it reads. *)
Definition rewarding_engine : Alignment_ASW :=
  asw_init_tables (asw_alloc (fun _ => true))
    (replicate 94 (-990)) (replicate 94 40) (replicate 94 60)
    (replicate 94 30) 50 20.

(** The engine an operation returned, or [d] when it did not return
    normally. *)
Definition ok_or {A : Type} (o : outcome A) (d : A) : A :=
  match o with
  | Ok a => a
  | _ => d
  end.

(** Reference [TTACGTTT] and query [GGACGTCC], prepared with a head
    clip and a tail clip of 2. *)
Definition clipped_example : Alignment_ASW :=
  asw_set_phoffset
    (snd (asw_prepare default_engine (bytes_of_string "TTACGTTT") 8
            (bytes_of_string "GGACGTCC") (bytes_of_string "IIIIIIII") 8 2 2))
    33.

(** Reference [GGCGCACT] and query [AGGATT], prepared with a head clip
    of 1 and no tail clip. *)
Definition gapped_example : Alignment_ASW :=
  asw_set_phoffset
    (snd (asw_prepare default_engine (bytes_of_string "GGCGCACT") 8
            (bytes_of_string "AGGATT") (bytes_of_string "IIIIII") 6 1 0))
    33.

(** Reference [TTACGTAA] and query [GTACGTTC], prepared with a head
    clip and a tail clip of 2. *)
Definition contracted_example : Alignment_ASW :=
  asw_set_phoffset
    (snd (asw_prepare default_engine (bytes_of_string "TTACGTAA") 8
            (bytes_of_string "GTACGTTC") (bytes_of_string "IIIIIIII") 8 2 2))
    33.

(** What [asw_alloc] establishes and the prepare operations keep: the
    trace matrix has [subquery_len + 1] rows, and once the reference
    sub-view is not empty all buffers have their sizes. *)
Definition engine_sized (al : Alignment_ASW) : Prop :=
  0 <= subdb_len al < 2 ^ 61 /\ 0 <= subquery_len al < 2 ^ 61 /\
  length (matTra al) = S (Z.to_nat (subquery_len al)) /\
  (subdb_len al <> 0 -> buffers_ok al).

(* ===================================================================== *)
(** ** Penalties of gaps and the scores of the rows *)
(* ===================================================================== *)

(** [qq], the quality [asw_align] reads for query position [m]. *)
Definition qq_of (al : Alignment_ASW) (m : nat) : Z :=
  zrd (qual al) (subqual al + Z.of_nat m).

(** [gopen_true_pen] of the two initializers. *)
Definition gopen_true_pen_of (al : Alignment_ASW) : Z :=
  sint (penalty (gopen_penalty al) al (qq_of al 0)
        - penalty (gext_penalty al) al (qq_of al 0)).

(** The penalties a table gives for the query positions
    [r .. r + z - 1]. *)
Fixpoint pen_sum (table : list Z) (al : Alignment_ASW) (r z : nat) : Z :=
  match z with
  | O => 0
  | S z' => pen_sum table al r z' + penalty table al (qq_of al (r + z'))
  end.

(** What an insertion run of [z] query bases that starts at query
    position [r] adds to a score: the open penalty at [r], then the
    extend penalty at each later position.  For [z = 0] this is the
    [gopen_true_pen] the initializers start the insertion row with. *)
Definition ins_cost (al : Alignment_ASW) (r z : nat) : Z :=
  penalty (gopen_penalty al) al (qq_of al r)
  - penalty (gext_penalty al) al (qq_of al r) + pen_sum (gext_penalty al) al r z.

(** What a deletion run of [z] reference bases adds to a score. *)
Definition del_cost (al : Alignment_ASW) (z : Z) : Z :=
  GAP_OPEN_EXTEND al + (z - 1) * GAP_EXTEND al.

(** The score vector after [i] rows of the outer loop of [asw_align]:
    the top row for [i = 0]. *)
Definition row_score (al : Alignment_ASW) (i j : nat) : Z :=
  rd (a_vecPen_m (align_upto al i)) j.

(** How the trace cell [c] of the cell [(i, j)], [1 <= i], accounts for
    the score of the cell: by a diagonal move from [(i-1, j-1)] over a
    matching or a mismatching pair, by an insertion run that started
    from the score of [(i-z, j)], or by a deletion run that started
    from the score of [(i, j-z)]. *)
Definition cell_scored (al : Alignment_ASW) (i j : nat) (c : Z) : Prop :=
  (cigar_op c = BAM_CSEQ_MATCH /\ cigar_len c = 1 /\ (1 <= j)%nat /\
   is_seq_match_of al i j = true /\
   row_score al i j =
     sint (row_score al (i - 1) (j - 1)
           + penalty (match_penalty al) al (qq_of al (i - 1)))) \/
  (cigar_op c = BAM_CSEQ_MISMATCH /\ cigar_len c = 1 /\ (1 <= j)%nat /\
   is_seq_match_of al i j = false /\
   row_score al i j =
     sint (row_score al (i - 1) (j - 1)
           + penalty (mismatch_penalty al) al (qq_of al (i - 1)))) \/
  (cigar_op c = BAM_CINS /\
   exists z : nat, cigar_len c = Z.of_nat z /\ (1 <= z <= i)%nat /\
     row_score al i j = sint (row_score al (i - z) j + ins_cost al (i - z) z)) \/
  (cigar_op c = BAM_CDEL /\
   exists z : nat, cigar_len c = Z.of_nat z /\ (1 <= z <= j)%nat /\
     row_score al i j = sint (row_score al i (j - z) + del_cost al (Z.of_nat z))).

(** The engine as an initializer leaves it, as far as [asw_align] reads
    it: sized buffers, insertion lengths 0 and the insertion row one
    [gopen_true_pen] above the score row. *)
Definition initialized (al : Alignment_ASW) : Prop :=
  buffers_ok al /\
  0 <= subdb_len al < 2 ^ 28 /\ 0 <= subquery_len al < 2 ^ 28 /\
  (forall j, (j <= Z.to_nat (subdb_len al))%nat -> rd (I_ext_m_act al) j = 0) /\
  (forall j, (j <= Z.to_nat (subdb_len al))%nat ->
     rd (vecIns_m_act al) j =
     sint (rd (vecPen_m_act al) j + gopen_true_pen_of al)).

(* ===================================================================== *)
(** ** The path of the traceback *)
(* ===================================================================== *)

(** Does an operation consume reference bases (M, D, N, =, X)? *)
Definition consumes_ref (op : Z) : bool :=
  (op =? BAM_CMATCH) || (op =? BAM_CDEL) || (op =? BAM_CREF_SKIP)
  || (op =? BAM_CSEQ_MATCH) || (op =? BAM_CSEQ_MISMATCH).

Fixpoint ref_consumed (cigar : list Z) : Z :=
  match cigar with
  | [] => 0
  | c :: rest =>
    (if consumes_ref (cigar_op c) then cigar_len c else 0)
    + ref_consumed rest
  end.

(** The query and reference bases one operation steps over. *)
Definition query_step (c : Z) : nat :=
  if consumes_query (cigar_op c) then Z.to_nat (cigar_len c) else O.

Definition ref_step (c : Z) : nat :=
  if consumes_ref (cigar_op c) then Z.to_nat (cigar_len c) else O.

Fixpoint query_span (cigar : list Z) : nat :=
  match cigar with
  | [] => O
  | c :: rest => (query_step c + query_span rest)%nat
  end.

Fixpoint ref_span (cigar : list Z) : nat :=
  match cigar with
  | [] => O
  | c :: rest => (ref_step c + ref_span rest)%nat
  end.

(** [walks tra m n ops n0]: the operations [ops], in CIGAR order, are
    the path the traceback follows through [tra] from the cell [(m, n)]
    back to the top row, which it reaches at column [n0].  A gap
    operation is the cell it leaves; an = or X operation gathers a
    maximal run of diagonal cells of that kind. *)
Inductive walks (tra : list (list Z)) : nat -> nat -> list Z -> nat -> Prop :=
  | walks_top (n : nat) : walks tra 0 n [] n
  | walks_ins (m n z : nat) (ops : list Z) (n0 : nat) :
      (1 <= z <= m)%nat ->
      cigar_op (rd2 tra m n) = BAM_CINS ->
      cigar_len (rd2 tra m n) = Z.of_nat z ->
      walks tra (m - z) n ops n0 ->
      walks tra m n (ops ++ [rd2 tra m n]) n0
  | walks_del (m n z : nat) (ops : list Z) (n0 : nat) :
      (1 <= m)%nat -> (1 <= z <= n)%nat ->
      cigar_op (rd2 tra m n) = BAM_CDEL ->
      cigar_len (rd2 tra m n) = Z.of_nat z ->
      walks tra m (n - z) ops n0 ->
      walks tra m n (ops ++ [rd2 tra m n]) n0
  | walks_seq (m n k : nat) (op : Z) (ops : list Z) (n0 : nat) :
      (1 <= k <= m)%nat -> (k <= n)%nat ->
      op = BAM_CSEQ_MATCH \/ op = BAM_CSEQ_MISMATCH ->
      (forall t, (t < k)%nat ->
         cigar_op (rd2 tra (m - t) (n - t)) = op /\
         cigar_len (rd2 tra (m - t) (n - t)) = 1) ->
      ((m - k)%nat = O \/ cigar_op (rd2 tra (m - k) (n - k)) <> op) ->
      walks tra (m - k) (n - k) ops n0 ->
      walks tra m n (ops ++ [pack (Z.of_nat k) op]) n0.

(** An operation the traceback emits: =, X, I or D with a run length
    between 1 and 2^28 - 1. *)
Definition trace_op (c : Z) : Prop :=
  (cigar_op c = BAM_CSEQ_MATCH \/ cigar_op c = BAM_CSEQ_MISMATCH \/
   cigar_op c = BAM_CINS \/ cigar_op c = BAM_CDEL) /\
  1 <= cigar_len c < 2 ^ 28.

(** No = run is followed by an = run and no X run by an X run. *)
Fixpoint runs_maximal (cigar : list Z) : bool :=
  match cigar with
  | [] => true
  | c :: rest =>
    match rest with
    | [] => true
    | c' :: _ =>
      negb (is_seq_op (cigar_op c) && (cigar_op c =? cigar_op c'))
      && runs_maximal rest
    end
  end.

(** The penalty of one operation that starts at query position [r],
    and of a CIGAR. *)
Definition op_cost (al : Alignment_ASW) (r : nat) (c : Z) : Z :=
  let op := cigar_op c in
  if op =? BAM_CSEQ_MATCH
  then pen_sum (match_penalty al) al r (Z.to_nat (cigar_len c))
  else if op =? BAM_CSEQ_MISMATCH
  then pen_sum (mismatch_penalty al) al r (Z.to_nat (cigar_len c))
  else if op =? BAM_CINS then ins_cost al r (Z.to_nat (cigar_len c))
  else if op =? BAM_CDEL then del_cost al (cigar_len c)
  else 0.

Fixpoint cigar_cost (al : Alignment_ASW) (r : nat) (cigar : list Z) : Z :=
  match cigar with
  | [] => 0
  | c :: rest => op_cost al r c + cigar_cost al (r + query_step c) rest
  end.

(** Do the [k] pairs from query position [i] and reference position
    [j] on all give [IS_MATCH = want]? *)
Fixpoint pairs_match (al : Alignment_ASW) (want : bool) (i j k : nat) : bool :=
  match k with
  | O => true
  | S k' =>
    pairs_match al want i j k'
    && Bool.eqb (IS_MATCH (zrd (db al) (subdb al + Z.of_nat (j + k')))
                          (zrd (query al) (subquery al + Z.of_nat (i + k'))))
                want
  end.

Definition op_agrees (al : Alignment_ASW) (i j : nat) (c : Z) : bool :=
  if cigar_op c =? BAM_CSEQ_MATCH
  then pairs_match al true i j (Z.to_nat (cigar_len c))
  else if cigar_op c =? BAM_CSEQ_MISMATCH
  then pairs_match al false i j (Z.to_nat (cigar_len c))
  else true.

(** Does every = run of a CIGAR that starts at query position [i] and
    reference position [j] of the sub-views cover matching pairs, and
    every X run mismatching ones? *)
Fixpoint cigar_agrees (al : Alignment_ASW) (i j : nat) (cigar : list Z)
    : bool :=
  match cigar with
  | [] => true
  | c :: rest =>
    op_agrees al i j c
    && cigar_agrees al (i + query_step c) (j + ref_step c) rest
  end.

(** The penalty of the reference bases an alignment skips before its
    first operation: none in semi-global mode, a deletion run in
    global mode. *)
Definition leading_gap (semi : bool) (al : Alignment_ASW) (n0 : Z) : Z :=
  if semi then 0 else if n0 =? 0 then 0 else del_cost al n0.

(** Two engines that score alike: the same tables, base penalties,
    PHRED offset and quality string. *)
Definition same_scoring (al al' : Alignment_ASW) : Prop :=
  match_penalty al = match_penalty al' /\
  mismatch_penalty al = mismatch_penalty al' /\
  gopen_penalty al = gopen_penalty al' /\
  gext_penalty al = gext_penalty al' /\
  GAP_OPEN_EXTEND al = GAP_OPEN_EXTEND al' /\
  GAP_EXTEND al = GAP_EXTEND al' /\
  phred_offset al = phred_offset al' /\
  qual al = qual al' /\ subqual al = subqual al'.

(** Two engines with the same views of the sequences. *)
Definition same_views (al al' : Alignment_ASW) : Prop :=
  db al = db al' /\ subdb al = subdb al' /\
  query al = query al' /\ subquery al = subquery al'.

(* ===================================================================== *)
(** ** The ends of a CIGAR *)
(* ===================================================================== *)

Definition is_eq_op (c : Z) : bool := cigar_op c =? BAM_CSEQ_MATCH.

(** What the scans of [asw_softclip_trace] add up over the operations
    they pass: the run lengths of all but D and H go into the soft
    clip, those of all but H and I into the offset. *)
Fixpoint clipped_len (l : list Z) : Z :=
  match l with
  | [] => 0
  | c :: rest =>
    (if negb (cigar_op c =? BAM_CDEL) && negb (cigar_op c =? BAM_CHARD_CLIP)
     then cigar_len c else 0)
    + clipped_len rest
  end.

Fixpoint skipped_len (l : list Z) : Z :=
  match l with
  | [] => 0
  | c :: rest =>
    (if negb (cigar_op c =? BAM_CHARD_CLIP) && negb (cigar_op c =? BAM_CINS)
     then cigar_len c else 0)
    + skipped_len rest
  end.

(** A soft clip of [n] bases, if there are any. *)
Definition emit_S (n : Z) : list Z :=
  if 0 <? n then [pack n BAM_CSOFT_CLIP] else [].

(** The run lengths add up to less than 2^28, so that their sum fits
    the length field of one cell. *)
Definition cigar_fits (l : list Z) : Prop :=
  Forall (fun c => 0 <= cigar_len c) l /\ total_len l < 2 ^ 28.

(** A CIGAR that starts and ends with an = run. *)
Definition eq_ended (l : list Z) : Prop :=
  (exists c rest, l = c :: rest /\ is_eq_op c = true) /\
  (exists rest c, l = rest ++ [c] /\ is_eq_op c = true).

(** Operations whose run length the soft clip may take over without
    changing what the CIGAR consumes of the query: those that consume
    query, and D and H, which are dropped. *)
Definition clippable (c : Z) : bool :=
  consumes_query (cigar_op c) || (cigar_op c =? BAM_CDEL)
  || (cigar_op c =? BAM_CHARD_CLIP).

(** An operation [asw_softclip_trace] leaves at an end of the CIGAR. *)
Definition eq_or_clip (c : Z) : Prop :=
  cigar_op c = BAM_CSEQ_MATCH \/ cigar_op c = BAM_CSOFT_CLIP.

(* ===================================================================== *)
(** ** asw_append_hardclip *)
(* ===================================================================== *)

Definition hardclip_head (al : Alignment_ASW) (clip_head : Z)
    : outcome Alignment_ASW :=
  if 0 <? clip_head then
    let cigar := zrd (rcigar al) (cigar_begin al) in
    let state := cigar_op cigar in
    let z := cigar_len cigar in
    if state =? BAM_CHARD_CLIP then
      match store (rcigar al) (cigar_begin al)
                  (pack (u32 (clip_head + z)) BAM_CHARD_CLIP) with
      | None => Undefined
      | Some buf => Ok (set_cigar al buf (cigar_begin al) (cigar_end al) (offset al))
      end
    else
      match store (rcigar al) (cigar_begin al - 1)
                  (pack clip_head BAM_CHARD_CLIP) with
      | None => Undefined
      | Some buf =>
        Ok (set_cigar al buf (cigar_begin al - 1) (cigar_end al) (offset al))
      end
  else Ok al.

Definition hardclip_tail (al : Alignment_ASW) (clip_tail : Z)
    : outcome Alignment_ASW :=
  if 0 <? clip_tail then
    let cigar := zrd (rcigar al) (cigar_end al - 1) in
    let state := cigar_op cigar in
    let z := cigar_len cigar in
    if state =? BAM_CHARD_CLIP then
      match store (rcigar al) (cigar_end al - 1)
                  (pack (u32 (clip_tail + z)) BAM_CHARD_CLIP) with
      | None => Undefined
      | Some buf => Ok (set_cigar al buf (cigar_begin al) (cigar_end al) (offset al))
      end
    else
      match store (rcigar al) (cigar_end al) (pack clip_tail BAM_CHARD_CLIP) with
      | None => Undefined
      | Some buf =>
        Ok (set_cigar al buf (cigar_begin al) (cigar_end al + 1) (offset al))
      end
  else Ok al.

(** The two clip lengths are [uint32_t] parameters. *)
Definition asw_append_hardclip (al : Alignment_ASW) (clip_head clip_tail : Z)
    : outcome Alignment_ASW :=
  match hardclip_head al (u32 clip_head) with
  | Ok al => hardclip_tail al (u32 clip_tail)
  | o => o
  end.

(** Hard-clipping on lists: [n] bases are added to the H run the CIGAR
    starts with, or put in front of it as a new H run; nothing happens
    for [n = 0].  (On an empty CIGAR the code reads a cell outside the
    CIGAR; the properties below are about non-empty ones.) *)
Definition clip_front (n : Z) (cigar : list Z) : list Z :=
  if 0 <? n then
    match cigar with
    | c :: rest =>
      if cigar_op c =? BAM_CHARD_CLIP
      then pack (u32 (n + cigar_len c)) BAM_CHARD_CLIP :: rest
      else pack n BAM_CHARD_CLIP :: cigar
    | [] => []
    end
  else cigar.

(** The same at the other end. *)
Definition clip_back (n : Z) (cigar : list Z) : list Z :=
  rev (clip_front n (rev cigar)).

(** The hard-clipped bases of a CIGAR. *)
Fixpoint hard_clipped (cigar : list Z) : Z :=
  match cigar with
  | [] => 0
  | c :: rest =>
    (if cigar_op c =? BAM_CHARD_CLIP then cigar_len c else 0)
    + hard_clipped rest
  end.

(* ===================================================================== *)
(** ** ndigits, asw_print_cigar, asw_show_cigar *)
(* ===================================================================== *)

(** [const char cigar_chars[] = {'M','I','D','N','S','H','P','=','X'}]. *)
Definition cigar_chars : list Z := [77; 73; 68; 78; 83; 72; 80; 61; 88].

(** [while (i > 9) { n++; i /= 10; }].  An [int] is below 10^10, so
    the body runs at most 9 times; [ndigits] gives the loop 10 turns. *)
Fixpoint ndigits_loop (fuel : nat) (n i : Z) : Z :=
  match fuel with
  | O => n
  | S fuel' =>
    if 9 <? i then ndigits_loop fuel' (sint (n + 1)) (Z.quot i 10) else n
  end.

Definition ndigits (i : Z) : Z :=
  ndigits_loop 10 (if i <? 0 then 2 else 1) i.

(** What [%d] prints for an [int]: the decimal digits, most significant
    first, after a minus sign for a negative number. *)
Fixpoint decimal_loop (fuel : nat) (i : Z) (acc : list Z) : list Z :=
  match fuel with
  | O => acc
  | S fuel' =>
    let acc := (48 + Z.rem i 10) :: acc in
    if 9 <? i then decimal_loop fuel' (Z.quot i 10) acc else acc
  end.

Definition sprintf_d (num : Z) : list Z :=
  if num <? 0 then 45 :: decimal_loop 10 (- num) []
  else decimal_loop 10 num [].

(** The loop of [asw_print_cigar] over the cells of the CIGAR, whose
    range is taken to lie inside its buffer here and in the functions
    below; [out] is what has been written to the stream.
    [cigar_chars] has 9 entries and the operation field 16 values: a
    read past the array is undefined. *)
Fixpoint print_loop (cigar : list Z) (out : list Z) : outcome (list Z) :=
  match cigar with
  | [] => Ok out
  | c :: rest =>
    match cigar_chars !! Z.to_nat (cigar_op c) with
    | None => Undefined
    | Some ch =>
      print_loop rest (out ++ sprintf_d (sint (cigar_len c)) ++ [ch; 32])
    end
  end.

Definition asw_print_cigar (al : Alignment_ASW) (fp : list Z)
    : outcome (list Z) :=
  match print_loop (cigar_of al) fp with
  | Ok out => Ok (out ++ [10])
  | o => o
  end.

(** The first loop of [asw_show_cigar]:
    [len += ndigits(cigar >> BAM_CIGAR_SHIFT) + 2] on a [size_t]. *)
Fixpoint show_len (cigar : list Z) (len : Z) : Z :=
  match cigar with
  | [] => len
  | c :: rest => show_len rest (u64 (len + (ndigits (sint (cigar_len c)) + 2)))
  end.

(** [sprintf] writes its bytes one after the other from [p] on. *)
Fixpoint store_all (buf : list Z) (p : Z) (bytes : list Z)
    : option (list Z) :=
  match bytes with
  | [] => Some buf
  | x :: rest =>
    match store buf p x with
    | None => None
    | Some buf => store_all buf (p + 1) rest
    end
  end.

(** The second loop of [asw_show_cigar]:
    [sprintf(p, "%d%c ", num, cigar_chars[...])] writes the digits, the
    operation character, a space and a terminating NUL; then
    [p += ndigits(num) + 2]. *)
Fixpoint show_loop (cigar : list Z) (buf : list Z) (p : Z)
    : outcome (list Z) :=
  match cigar with
  | [] => Ok buf
  | c :: rest =>
    let num := sint (cigar_len c) in
    match cigar_chars !! Z.to_nat (cigar_op c) with
    | None => Undefined
    | Some ch =>
      match store_all buf p (sprintf_d num ++ [ch; 32; 0]) with
      | None => Undefined
      | Some buf => show_loop rest buf (p + (ndigits num + 2))
      end
    end
  end.

(** [calloc_ok] tells whether [calloc] returns a block; the code does
    not test the pointer it gets. *)
Definition asw_show_cigar (calloc_ok : bool) (al : Alignment_ASW)
    : outcome (list Z) :=
  let len := show_len (cigar_of al) 1 in
  let len := if 1 <? len then u64 (len - 1) else len in
  if calloc_ok then
    match show_loop (cigar_of al) (repeat 0 (Z.to_nat len)) 0 with
    | Ok buf =>
      match store buf (len - 1) 0 with
      | None => Undefined
      | Some buf => Ok buf
      end
    | o => o
    end
  else Undefined.

(** The bytes one cell contributes to the text of a CIGAR. *)
Definition cell_text (c : Z) : list Z :=
  sprintf_d (sint (cigar_len c))
  ++ [default 0 (cigar_chars !! Z.to_nat (cigar_op c)); 32].

Fixpoint cigar_text (cigar : list Z) : list Z :=
  match cigar with
  | [] => []
  | c :: rest => cell_text c ++ cigar_text rest
  end.

(** The bytes the first loop of [asw_show_cigar] counts. *)
Fixpoint text_len (cigar : list Z) : Z :=
  match cigar with
  | [] => 0
  | c :: rest => ndigits (sint (cigar_len c)) + 2 + text_len rest
  end.

(** A cell of a [cigar_t] array whose operation has a character. *)
Definition printable (c : Z) : Prop :=
  0 <= c < 2 ^ 32 /\ cigar_op c <= 8.

(* ===================================================================== *)
(** ** asw_getBasicAlignPair *)
(* ===================================================================== *)

Record BASICALIGNPAIR : Type := mkBAP {
  sequence1side : list Z;
  sequence2side : list Z;
  sequence1start : Z;
  sequence1end : Z;
  sequence2start : Z;
  sequence2end : Z;
  bap_score : Z;
  bap_length : Z
}.

(** The two rows being written, the write positions in them and the
    read positions in [db] and [query]. *)
Record pair_state : Type := mkPS {
  seq1 : list Z;
  seq2 : list Z;
  seq1_p : Z;
  seq2_p : Z;
  seq1source_p : Z;
  seq2source_p : Z
}.

(** One turn of the inner loop of each case of the [switch]. *)
Definition pair_skip (st : pair_state) : option pair_state :=
  Some (mkPS (seq1 st) (seq2 st) (seq1_p st + 1) (seq2_p st + 1)
             (seq1source_p st + 1) (seq2source_p st + 1)).

Definition pair_diag (al : Alignment_ASW) (st : pair_state)
    : option pair_state :=
  match store (seq1 st) (seq1_p st) (zrd (db al) (seq1source_p st)) with
  | None => None
  | Some s1 =>
    match store (seq2 st) (seq2_p st) (zrd (query al) (seq2source_p st)) with
    | None => None
    | Some s2 =>
      Some (mkPS s1 s2 (seq1_p st + 1) (seq2_p st + 1)
                 (seq1source_p st + 1) (seq2source_p st + 1))
    end
  end.

Definition pair_ins (al : Alignment_ASW) (st : pair_state)
    : option pair_state :=
  match store (seq1 st) (seq1_p st) 45 with
  | None => None
  | Some s1 =>
    match store (seq2 st) (seq2_p st) (zrd (query al) (seq2source_p st)) with
    | None => None
    | Some s2 =>
      Some (mkPS s1 s2 (seq1_p st + 1) (seq2_p st + 1)
                 (seq1source_p st) (seq2source_p st + 1))
    end
  end.

Definition pair_del (al : Alignment_ASW) (st : pair_state)
    : option pair_state :=
  match store (seq1 st) (seq1_p st) (zrd (db al) (seq1source_p st)) with
  | None => None
  | Some s1 =>
    match store (seq2 st) (seq2_p st) 45 with
    | None => None
    | Some s2 =>
      Some (mkPS s1 s2 (seq1_p st + 1) (seq2_p st + 1)
                 (seq1source_p st + 1) (seq2source_p st))
    end
  end.

(** [for (; i < op_len; ++i) ...]. *)
Fixpoint pair_run (k : nat) (step : pair_state -> option pair_state)
    (st : pair_state) : option pair_state :=
  match k with
  | O => Some st
  | S k' =>
    match step st with
    | None => None
    | Some st => pair_run k' step st
    end
  end.

(** The loop over the cells; [Ok None] is the [return NULL] of the
    [default] case. *)
Fixpoint pair_loop (al : Alignment_ASW) (cigar : list Z) (st : pair_state)
    : outcome (option pair_state) :=
  match cigar with
  | [] => Ok (Some st)
  | c :: rest =>
    let op := cigar_op c in
    let op_len := Z.to_nat (cigar_len c) in
    if op =? BAM_CHARD_CLIP then pair_loop al rest st
    else
      match (if op =? BAM_CSOFT_CLIP then Some pair_skip
             else if (op =? BAM_CMATCH) || (op =? BAM_CSEQ_MATCH)
                     || (op =? BAM_CSEQ_MISMATCH)
             then Some (pair_diag al)
             else if op =? BAM_CINS then Some (pair_ins al)
             else if op =? BAM_CDEL then Some (pair_del al)
             else None) with
      | None => Ok None
      | Some step =>
        match pair_run op_len step st with
        | None => Undefined
        | Some st => pair_loop al rest st
        end
      end
  end.

(** The first loop: the run length of every cell is added to [len], a
    [size_t]. *)
Fixpoint pair_len (cigar : list Z) (len : Z) : Z :=
  match cigar with
  | [] => len
  | c :: rest => pair_len rest (u64 (len + cigar_len c))
  end.

(** [m1] and [m2] are the blocks the two [p_malloc(len + 1u)] calls
    return, with whatever they hold, [None] for [NULL]; [m3] tells
    whether the [malloc] of the struct succeeds.  None of the three is
    tested by the code; a null block has no byte that can be written. *)
Definition asw_getBasicAlignPair (al : Alignment_ASW)
    (m1 m2 : option (list Z)) (m3 : bool)
    : outcome (option BASICALIGNPAIR) :=
  let len := pair_len (cigar_of al) 0 in
  match pair_loop al (cigar_of al)
          (mkPS (default [] m1) (default [] m2) 0 0
                (subdb al + offset al) (subquery al)) with
  | Ok (Some st) =>
    if negb (seq1_p st =? seq2_p st) then Aborted
    else
      match store (seq1 st) (seq1_p st) 0 with
      | None => Undefined
      | Some s1 =>
        match store (seq2 st) (seq2_p st) 0 with
        | None => Undefined
        | Some s2 =>
          if m3 then
            Ok (Some (mkBAP s1 s2 (sint (offset al))
                            (sint (u64 (opt_score_col al - 1))) 0
                            (sint (u64 (subquery_len al - 1)))
                            (opt_score al) (sint len)))
          else Undefined
        end
      end
  | Ok None => Ok None
  | Error => Error
  | Aborted => Aborted
  | Undefined => Undefined
  | OutOfFuel => OutOfFuel
  end.

(** A row without its gap characters. *)
Definition degap (row : list Z) : list Z :=
  List.filter (fun x => negb (x =? 45)) row.

(** Does a stretch of a sequence hold no gap character? *)
Definition gap_free (l : list Z) : bool :=
  forallb (fun x => negb (x =? 45)) l.

(** The cells [asw_getBasicAlignPair] has a case for, and those that
    put a column into the rows. *)
Definition pair_op (c : Z) : Prop :=
  0 <= cigar_len c /\
  (cigar_op c = BAM_CMATCH \/ cigar_op c = BAM_CINS \/ cigar_op c = BAM_CDEL \/
   cigar_op c = BAM_CSOFT_CLIP \/ cigar_op c = BAM_CHARD_CLIP \/
   cigar_op c = BAM_CSEQ_MATCH \/ cigar_op c = BAM_CSEQ_MISMATCH).

Definition column_op (c : Z) : Prop :=
  0 <= cigar_len c /\
  (cigar_op c = BAM_CMATCH \/ cigar_op c = BAM_CINS \/ cigar_op c = BAM_CDEL \/
   cigar_op c = BAM_CSEQ_MATCH \/ cigar_op c = BAM_CSEQ_MISMATCH).

(** Every step that writes needs room for one byte in each row, and
    moves both write positions on by one. *)
Definition safe_step (n : nat) (step : pair_state -> option pair_state)
    : Prop :=
  forall st,
    seq1_p st = seq2_p st -> 0 <= seq1_p st < Z.of_nat n ->
    length (seq1 st) = n -> length (seq2 st) = n ->
    exists st',
      step st = Some st' /\
      seq1_p st' = seq1_p st + 1 /\ seq2_p st' = seq1_p st + 1 /\
      length (seq1 st') = n /\ length (seq2 st') = n.

(** Both rows have been written up to the same position, and without
    their gaps they are what has been read of [db] from [start1] on
    and of [query] from [start2] on. *)
Definition rows_inv (al : Alignment_ASW) (start1 start2 : Z) (n : nat)
    (st : pair_state) : Prop :=
  seq1_p st = seq2_p st /\ 0 <= seq1_p st /\
  length (seq1 st) = n /\ length (seq2 st) = n /\
  start1 <= seq1source_p st /\ start2 <= seq2source_p st /\
  degap (take (Z.to_nat (seq1_p st)) (seq1 st))
  = slice (db al) start1 (seq1source_p st) /\
  degap (take (Z.to_nat (seq1_p st)) (seq2 st))
  = slice (query al) start2 (seq2source_p st).

(** A step that reads [d1] bases of [db] and [d2] of [query]. *)
Definition good_step (al : Alignment_ASW) (start1 end1 start2 end2 : Z)
    (n : nat) (step : pair_state -> option pair_state) (d1 d2 : Z) : Prop :=
  forall st,
    rows_inv al start1 start2 n st -> seq1_p st < Z.of_nat n ->
    seq1source_p st + d1 <= end1 -> seq2source_p st + d2 <= end2 ->
    exists st',
      step st = Some st' /\ rows_inv al start1 start2 n st' /\
      seq1_p st' = seq1_p st + 1 /\
      seq1source_p st' = seq1source_p st + d1 /\
      seq2source_p st' = seq2source_p st + d2.

(* ===================================================================== *)
(** * Properties *)
(* ===================================================================== *)

(** ** Machine integers and packed cells *)

Lemma u32_small x : 0 <= x < 2 ^ 32 -> u32 x = x.
Proof. intros H. unfold u32. apply Z.mod_small. exact H. Qed.

Lemma u64_small x : 0 <= x < 2 ^ 64 -> u64 x = x.
Proof. intros H. unfold u64. apply Z.mod_small. exact H. Qed.

Lemma sint_small x : - 2 ^ 31 <= x < 2 ^ 31 -> sint x = x.
Proof. intros H. unfold sint. rewrite Z.mod_small; lia. Qed.

Lemma sint_sint_add a b : sint (sint a + b) = sint (a + b).
Proof.
  unfold sint.
  replace ((a + 2 ^ 31) mod 2 ^ 32 - 2 ^ 31 + b + 2 ^ 31)
    with ((a + 2 ^ 31) mod 2 ^ 32 + b) by lia.
  rewrite Zplus_mod_idemp_l. f_equal. f_equal. lia.
Qed.

Lemma u32_range x : 0 <= u32 x < 2 ^ 32.
Proof. unfold u32. apply Z.mod_pos_bound. lia. Qed.

Lemma mask_ones : BAM_CIGAR_MASK = Z.ones 4.
Proof. reflexivity. Qed.

Lemma cigar_op_pack len op : 0 <= op < 16 -> cigar_op (pack len op) = op.
Proof.
  intros Hop. unfold cigar_op, pack, u32, BAM_CIGAR_SHIFT.
  rewrite mask_ones, <- (Z.land_ones _ 32) by lia.
  rewrite <- Z.land_assoc.
  replace (Z.land (Z.ones 32) (Z.ones 4)) with (Z.ones 4) by reflexivity.
  rewrite Z.land_lor_distr_l.
  rewrite !Z.land_ones by lia.
  rewrite Z.shiftl_mul_pow2 by lia.
  rewrite Z.mod_mul by lia.
  rewrite Z.lor_0_l. apply Z.mod_small. lia.
Qed.

Lemma cigar_len_pack len op :
  0 <= op < 16 -> cigar_len (pack len op) = len mod 2 ^ 28.
Proof.
  intros Hop. unfold cigar_len, pack, u32, BAM_CIGAR_SHIFT.
  rewrite <- (Z.land_ones _ 32) by lia.
  rewrite Z.shiftr_land, Z.shiftr_lor.
  rewrite Z.shiftr_shiftl_l by lia. rewrite Z.sub_diag, Z.shiftl_0_r.
  replace (Z.shiftr (Z.ones 32) 4) with (Z.ones 28) by reflexivity.
  rewrite (Z.shiftr_div_pow2 op) by lia.
  rewrite (Z.div_small op) by lia.
  rewrite Z.lor_0_r. apply Z.land_ones. lia.
Qed.

Lemma cigar_len_pack_small len op :
  0 <= op < 16 -> 0 <= len < 2 ^ 28 -> cigar_len (pack len op) = len.
Proof.
  intros Hop Hlen. rewrite cigar_len_pack by exact Hop.
  apply Z.mod_small. exact Hlen.
Qed.

Lemma pack_nonneg len op : 0 <= pack len op.
Proof. unfold pack. apply u32_range. Qed.

Lemma cigar_len_nonneg c : 0 <= c -> 0 <= cigar_len c.
Proof. intros H. unfold cigar_len. apply Z.shiftr_nonneg. exact H. Qed.

Lemma cigar_len_pos_nonneg c : 1 <= cigar_len c -> 0 <= c.
Proof.
  intros H. destruct (Z.leb_spec 0 c) as [Hc|Hc]; [exact Hc|].
  exfalso. unfold cigar_len in H.
  assert (Z.shiftr c BAM_CIGAR_SHIFT < 0) by (apply Z.shiftr_neg; exact Hc).
  lia.
Qed.

(** ** Loops and arrays *)

Lemma for_loop_ind {St : Type} (P : nat -> St -> Prop)
    (k : nat) (body : nat -> St -> St) (s : St) :
  P O s ->
  (forall n s', (n < k)%nat -> P n s' -> P (S n) (body n s')) ->
  P k (for_loop k body s).
Proof.
  intros H0 Hstep. induction k as [|k IH]; simpl.
  - exact H0.
  - apply Hstep; [lia|]. apply IH. intros n s' Hn. apply Hstep. lia.
Qed.

Lemma rd_insert_eq (v : list Z) (i : nat) (x : Z) :
  (i < length v)%nat -> rd (<[i:=x]> v) i = x.
Proof. intros H. unfold rd. rewrite list_lookup_insert_eq by exact H. reflexivity. Qed.

Lemma rd_insert_ne (v : list Z) (i j : nat) (x : Z) :
  i <> j -> rd (<[i:=x]> v) j = rd v j.
Proof. intros H. unfold rd. rewrite list_lookup_insert_ne by exact H. reflexivity. Qed.

Lemma mat_ok_wr2 w h m i j x : mat_ok w h m -> mat_ok w h (wr2 m i j x).
Proof.
  intros [Hl Hr]. unfold wr2. split.
  - rewrite length_alter. exact Hl.
  - apply Forall_alter; [exact Hr|].
    intros row _ Hrow. rewrite length_insert. exact Hrow.
Qed.

Lemma rd2_wr2_eq w h m (i j : nat) x :
  mat_ok w h m -> (i < h)%nat -> (j < w)%nat -> rd2 (wr2 m i j x) i j = x.
Proof.
  intros [Hl Hr] Hi Hj. unfold rd2, wr2.
  destruct (lookup_lt_is_Some_2 m i) as [row Hrow]; [lia|].
  rewrite list_lookup_alter_eq, Hrow. simpl.
  apply rd_insert_eq.
  rewrite Forall_lookup in Hr. rewrite (Hr _ _ Hrow). exact Hj.
Qed.

Lemma rd2_wr2_ne m (i j i' j' : nat) x :
  (i <> i' \/ j <> j') -> rd2 (wr2 m i j x) i' j' = rd2 m i' j'.
Proof.
  intros H. unfold rd2, wr2.
  destruct (decide (i = i')) as [->|Hne].
  - rewrite list_lookup_alter_eq.
    destruct (m !! i') as [row|]; simpl; [|reflexivity].
    apply rd_insert_ne. destruct H; congruence.
  - rewrite list_lookup_alter_ne by exact Hne. reflexivity.
Qed.

(** ** The top row *)

Lemma sint_idem x : sint (sint x) = sint x.
Proof.
  replace (sint x) with (sint x + 0) at 1 by lia.
  rewrite sint_sint_add. f_equal. lia.
Qed.

Lemma init_rows_inv (al : Alignment_ASW) (semi : bool) :
  buffers_ok al ->
  init_inv al semi (Z.to_nat (subdb_len al)) (init_rows semi al).
Proof.
  intros (Hp & Hp1 & Hi & Hi1 & He & He1 & Hm).
  unfold init_rows.
  set (W := Z.to_nat (subdb_len al)) in *.
  set (gtp := sint (_ - _)).
  assert (HW : forall n, (n < W)%nat ->
            forall s, init_inv al semi n s ->
            init_inv al semi (S n) (init_body semi (GAP_EXTEND al) gtp n s)).
  { intros n Hn s ((Lp & Li & Le & Lm) & Hz & H00 & Hdel & Hoth & Hp0 & Hst & Hacc & Hsemi).
    unfold init_inv, init_body; simpl. fold W. fold W in Lp, Li, Le, Lm.
    split_and!.
    - rewrite length_insert. exact Lp.
    - rewrite length_insert. exact Li.
    - rewrite length_insert. exact Le.
    - apply mat_ok_wr2. exact Lm.
    - intros j Hj. destruct (decide (j = S n)) as [->|Hne].
      + apply rd_insert_eq. lia.
      + rewrite rd_insert_ne by congruence. apply Hz. lia.
    - rewrite rd2_wr2_ne by (right; lia). exact H00.
    - intros j Hj. destruct (decide (j = S n)) as [->|Hne].
      + apply (rd2_wr2_eq _ _ _ _ _ _ Lm); lia.
      + rewrite rd2_wr2_ne by (right; congruence). apply Hdel. lia.
    - intros i j Hi0. rewrite rd2_wr2_ne by (left; congruence). apply Hoth. exact Hi0.
    - rewrite rd_insert_ne by lia. exact Hp0.
    - intros ->. simpl. rewrite rd_insert_eq by lia. reflexivity.
    - intros ->. specialize (Hst eq_refl). destruct (Hacc eq_refl) as [H1 H2].
      split.
      + intros _. destruct n as [|n].
        * rewrite rd_insert_eq by lia. simpl in Hst. rewrite Hst.
          rewrite sint_sint_add. f_equal. lia.
        * rewrite rd_insert_ne by lia. apply H1. lia.
      + intros j Hj. destruct (decide (j = S n)) as [->|Hne].
        * rewrite rd_insert_eq by lia.
          replace (S n - 1)%nat with n by lia.
          rewrite rd_insert_ne by lia.
          destruct n as [|n]; [lia|]. simpl in Hst. rewrite Hst. reflexivity.
        * rewrite !rd_insert_ne by lia. apply H2. lia.
    - intros -> j Hj. destruct (decide (j = S n)) as [->|Hne].
      + apply rd_insert_eq. lia.
      + rewrite rd_insert_ne by congruence. apply Hsemi; [reflexivity|lia]. }
  apply (for_loop_ind (init_inv al semi)); [|intros n s' Hn; apply HW; exact Hn].
  unfold init_inv; simpl. fold W.
  destruct Hm as [Hml Hmr].
  split_and!.
  - rewrite length_insert. exact Hp.
  - rewrite length_insert. exact Hi.
  - rewrite length_insert. exact He.
  - apply mat_ok_wr2. exact (conj Hml Hmr).
  - intros j Hj. replace j with O by lia. apply rd_insert_eq. lia.
  - apply (rd2_wr2_eq _ _ _ _ _ _ (conj Hml Hmr)); lia.
  - intros j Hj. lia.
  - intros i j Hi0. apply rd2_wr2_ne. left. congruence.
  - apply rd_insert_eq. lia.
  - intros _. rewrite rd_insert_eq by lia. rewrite Z.add_0_l. apply sint_idem.
  - intros _. split; intros; lia.
  - intros _ j Hj. replace j with O by lia. apply rd_insert_eq. lia.
Qed.

(** ** The recurrence *)

Lemma align_cell_shape GOE GE mp mmp gop gep ism pd pu iu eu pl sd cD :
  0 <= cD < 2 ^ 28 -> 0 <= eu < 2 ^ 28 ->
  let c := align_cell GOE GE mp mmp gop gep ism pd pu iu eu pl sd cD in
  (c_cD c = 1 \/ c_cD c = cD + 1) /\
  (c_cI c = 1 \/ c_cI c = eu + 1) /\
  (c_tra c = pack (c_cD c) BAM_CDEL \/ c_tra c = pack (c_cI c) BAM_CINS \/
   c_tra c = pack 1 BAM_CSEQ_MATCH \/ c_tra c = pack 1 BAM_CSEQ_MISMATCH).
Proof.
  intros HcD Heu. unfold align_cell.
  rewrite (u32_small (cD + 1)) by lia.
  rewrite (u32_small (eu + 1)) by lia.
  destruct (_ <? _), (_ <? _), ism; simpl;
    repeat (destruct (_ <? _); simpl); auto 10.
Qed.

Lemma good_cell_del (i j : nat) z :
  1 <= z <= Z.of_nat j -> Z.of_nat j < 2 ^ 28 ->
  good_cell i j (pack z BAM_CDEL).
Proof.
  intros Hz Hj. right. right.
  rewrite cigar_op_pack by (unfold BAM_CDEL; lia).
  rewrite cigar_len_pack_small by (unfold BAM_CDEL; lia).
  split; [reflexivity|exact Hz].
Qed.

Lemma good_cell_ins (i j : nat) z :
  1 <= z <= Z.of_nat i -> Z.of_nat i < 2 ^ 28 ->
  good_cell i j (pack z BAM_CINS).
Proof.
  intros Hz Hi. right. left.
  rewrite cigar_op_pack by (unfold BAM_CINS; lia).
  rewrite cigar_len_pack_small by (unfold BAM_CINS; lia).
  split; [reflexivity|exact Hz].
Qed.

Lemma good_cell_seq (i j : nat) op :
  op = BAM_CSEQ_MATCH \/ op = BAM_CSEQ_MISMATCH -> (1 <= j)%nat ->
  good_cell i j (pack 1 op).
Proof.
  intros Hop Hj. left.
  assert (0 <= op < 16) by (destruct Hop; subst; unfold BAM_CSEQ_MATCH, BAM_CSEQ_MISMATCH; lia).
  rewrite cigar_op_pack by assumption.
  rewrite cigar_len_pack_small by (assumption || lia).
  auto.
Qed.

Lemma row_start_inv (al : Alignment_ASW) (m : nat) (a : align_state) :
  Z.of_nat (S m) < 2 ^ 28 ->
  (m < Z.to_nat (subquery_len al))%nat ->
  align_inv al m a ->
  row_inv al m a O (row_start al (row_env_of al m) (S m) a).
Proof.
  intros Hm Hmq ((Lp & Li & Le & Lp1 & Li1 & Le1 & Lm) & Hext & Hgood & Hrow0).
  assert (Hc : u32 (rd (a_I_ext_m a) 0 + 1) = rd (a_I_ext_m a) 0 + 1).
  { apply u32_small. specialize (Hext O). lia. }
  unfold row_inv, row_start; simpl. rewrite Hc. split_and!.
  - rewrite length_insert. exact Lp1.
  - rewrite length_insert. exact Li1.
  - rewrite length_insert. exact Le1.
  - apply mat_ok_wr2. exact Lm.
  - lia.
  - lia.
  - intros j Hj. replace j with O by lia. rewrite rd_insert_eq by lia.
    specialize (Hext O). lia.
  - intros j Hj. replace j with O by lia.
    rewrite (rd2_wr2_eq _ _ _ _ _ _ Lm) by lia.
    apply good_cell_ins; [|lia]. specialize (Hext O). lia.
  - intros i j Hi. apply rd2_wr2_ne. left. congruence.
Qed.

Lemma align_body_inv (al : Alignment_ASW) (m : nat) (a : align_state)
    (n : nat) (s : row_state) :
  Z.of_nat (S m) < 2 ^ 28 -> subdb_len al < 2 ^ 28 ->
  (m < Z.to_nat (subquery_len al))%nat ->
  (n < Z.to_nat (subdb_len al))%nat ->
  align_inv al m a ->
  row_inv al m a n s ->
  row_inv al m a (S n)
    (align_body al (row_env_of al m) (S m)
       (a_vecPen_m a) (a_vecIns_m a) (a_I_ext_m a) n s).
Proof.
  intros Hm HW Hmq Hn ((Lp & Li & Le & Lp1 & Li1 & Le1 & Lm) & Hext & Hgood & Hrow0)
         ((Rp & Ri & Re & Rm) & HcD & Hrext & Hrgood & Hroth).
  unfold align_body.
  set (c := cell_at _ _ _ _ _ _ _).
  assert (Heu : 0 <= rd (a_I_ext_m a) (S n) <= Z.of_nat m) by (apply Hext; lia).
  destruct (align_cell_shape (GAP_OPEN_EXTEND al) (GAP_EXTEND al)
              (e_match_pen (row_env_of al m)) (e_mismatch_pen (row_env_of al m))
              (e_gopen_pen (row_env_of al m)) (e_gext_pen (row_env_of al m))
              (IS_MATCH (zrd (db al) (subdb al + Z.of_nat n)) (e_cq (row_env_of al m)))
              (rd (a_vecPen_m a) n) (rd (a_vecPen_m a) (S n))
              (rd (a_vecIns_m a) (S n)) (rd (a_I_ext_m a) (S n))
              (rd (r_vecPen_m1 s) n) (r_storedDel_score s) (r_cD s))
    as (ScD & ScI & Stra); [lia|lia|].
  fold (cell_at al (row_env_of al m) (a_vecPen_m a) (a_vecIns_m a) (a_I_ext_m a) n s) in ScD, ScI, Stra.
  fold c in ScD, ScI, Stra.
  unfold row_inv; simpl. split_and!.
  - rewrite length_insert. exact Rp.
  - rewrite length_insert. exact Ri.
  - rewrite length_insert. exact Re.
  - apply mat_ok_wr2. exact Rm.
  - lia.
  - lia.
  - intros j Hj. destruct (decide (j = S n)) as [->|Hne].
    + rewrite rd_insert_eq by lia. lia.
    + rewrite rd_insert_ne by congruence. apply Hrext. lia.
  - intros j Hj. destruct (decide (j = S n)) as [->|Hne].
    + rewrite (rd2_wr2_eq _ _ _ _ _ _ Rm) by lia.
      destruct Stra as [->|[->|[->| ->]]].
      * apply good_cell_del; lia.
      * apply good_cell_ins; lia.
      * apply good_cell_seq; [auto|lia].
      * apply good_cell_seq; [auto|lia].
    + rewrite rd2_wr2_ne by (right; congruence). apply Hrgood. lia.
  - intros i j Hi. rewrite rd2_wr2_ne by (left; congruence). apply Hroth. exact Hi.
Qed.

Lemma row_upto_inv (al : Alignment_ASW) (m : nat) (a : align_state) (k : nat) :
  Z.of_nat (S m) < 2 ^ 28 -> subdb_len al < 2 ^ 28 ->
  (m < Z.to_nat (subquery_len al))%nat ->
  (k <= Z.to_nat (subdb_len al))%nat ->
  align_inv al m a ->
  row_inv al m a k (row_upto al m a k).
Proof.
  intros Hm HW Hmq Hk Ha. unfold row_upto.
  apply (for_loop_ind (row_inv al m a)).
  - apply row_start_inv; assumption.
  - intros n s' Hn Hs. apply align_body_inv; try assumption. lia.
Qed.

Lemma align_row_inv (al : Alignment_ASW) (m : nat) (a : align_state) :
  Z.of_nat (S m) < 2 ^ 28 -> subdb_len al < 2 ^ 28 ->
  (m < Z.to_nat (subquery_len al))%nat ->
  align_inv al m a ->
  align_inv al (S m) (align_row al m a).
Proof.
  intros Hm HW Hmq Ha.
  pose proof (row_upto_inv al m a (Z.to_nat (subdb_len al)) Hm HW Hmq (le_n _) Ha)
    as ((Rp & Ri & Re & Rm) & HcD & Hrext & Hrgood & Hroth).
  destruct Ha as ((Lp & Li & Le & Lp1 & Li1 & Le1 & Lm) & Hext & Hgood & Hrow0).
  unfold align_inv, align_row; simpl. split_and!; try assumption.
  - intros j Hj. specialize (Hrext j). lia.
  - intros i j Hi Hj. destruct (decide (i = S m)) as [->|Hne].
    + apply Hrgood. lia.
    + rewrite Hroth by exact Hne. apply Hgood; lia.
  - intros i j Hi. rewrite Hroth by lia. apply Hrow0. lia.
Qed.

Lemma align_start_inv (al : Alignment_ASW) :
  buffers_ok al ->
  (forall j, (j <= Z.to_nat (subdb_len al))%nat -> rd (I_ext_m_act al) j = 0) ->
  align_inv al O (align_start al).
Proof.
  intros (Hp & Hp1 & Hi & Hi1 & He & He1 & Hm) Hz.
  unfold align_inv, align_start; simpl. split_and!; try assumption.
  - intros j Hj. rewrite Hz by lia. lia.
  - intros i j Hi0. lia.
  - reflexivity.
Qed.

Lemma align_upto_inv (al : Alignment_ASW) (k : nat) :
  buffers_ok al ->
  (forall j, (j <= Z.to_nat (subdb_len al))%nat -> rd (I_ext_m_act al) j = 0) ->
  subdb_len al < 2 ^ 28 -> subquery_len al < 2 ^ 28 ->
  (k <= Z.to_nat (subquery_len al))%nat ->
  align_inv al k (align_upto al k).
Proof.
  intros Hb Hz HW HQ Hk. unfold align_upto.
  apply (for_loop_ind (align_inv al)).
  - apply align_start_inv; assumption.
  - intros n s' Hn Hs. apply align_row_inv; try assumption; lia.
Qed.

Lemma row_upto_S al m a n :
  row_upto al m a (S n) =
  align_body al (row_env_of al m) (S m)
    (a_vecPen_m a) (a_vecIns_m a) (a_I_ext_m a) n (row_upto al m a n).
Proof. reflexivity. Qed.

Lemma align_upto_S al k :
  align_upto al (S k) = align_row al k (align_upto al k).
Proof. reflexivity. Qed.

Lemma row_upto_sizes al m a k w h :
  length (a_vecPen_m1 a) = w -> length (a_vecIns_m1 a) = w ->
  length (a_I_ext_m1 a) = w -> mat_ok w h (a_matTra a) ->
  length (r_vecPen_m1 (row_upto al m a k)) = w /\
  length (r_vecIns_m1 (row_upto al m a k)) = w /\
  length (r_I_ext_m1 (row_upto al m a k)) = w /\
  mat_ok w h (r_matTra (row_upto al m a k)).
Proof.
  intros Hp Hi He Hm. induction k as [|k IH].
  - unfold row_upto, row_start; simpl. rewrite !length_insert.
    split_and!; try assumption. apply mat_ok_wr2. exact Hm.
  - rewrite row_upto_S. destruct IH as (IHp & IHi & IHe & IHm).
    unfold align_body; simpl. rewrite !length_insert.
    split_and!; try assumption. apply mat_ok_wr2. exact IHm.
Qed.

Lemma align_upto_sizes al k :
  buffers_ok al ->
  let w := S (Z.to_nat (subdb_len al)) in
  let a := align_upto al k in
  length (a_vecPen_m a) = w /\ length (a_vecIns_m a) = w /\
  length (a_I_ext_m a) = w /\
  length (a_vecPen_m1 a) = w /\ length (a_vecIns_m1 a) = w /\
  length (a_I_ext_m1 a) = w /\
  mat_ok w (S (Z.to_nat (subquery_len al))) (a_matTra a).
Proof.
  intros (Hp & Hp1 & Hi & Hi1 & He & He1 & Hm). simpl.
  induction k as [|k IH].
  - unfold align_upto, align_start; simpl. split_and!; assumption.
  - rewrite align_upto_S. destruct IH as (IHp & IHi & IHe & IHp1 & IHi1 & IHe1 & IHm).
    destruct (row_upto_sizes al k (align_upto al k)
                (Z.to_nat (subdb_len al)) _ _ IHp1 IHi1 IHe1 IHm)
      as (Rp & Ri & Re & Rm).
    unfold align_row; simpl. split_and!; assumption.
Qed.

(** A turn of the inner loop writes the trace cell of its own column
    only; a row writes cells of its own row only. *)
Lemma row_upto_other al m a k i j :
  i <> S m ->
  rd2 (r_matTra (row_upto al m a k)) i j = rd2 (a_matTra a) i j.
Proof.
  intros Hi. induction k as [|k IH].
  - unfold row_upto, row_start; simpl. apply rd2_wr2_ne. left. congruence.
  - rewrite row_upto_S. unfold align_body; simpl.
    rewrite rd2_wr2_ne by (left; congruence). exact IH.
Qed.

Lemma row_upto_left al m a k n j :
  (j <= n <= k)%nat ->
  rd2 (r_matTra (row_upto al m a k)) (S m) j =
  rd2 (r_matTra (row_upto al m a n)) (S m) j.
Proof.
  intros Hj. induction k as [|k IH].
  - replace n with O by lia. reflexivity.
  - destruct (decide (n = S k)) as [->|Hne]; [reflexivity|].
    rewrite row_upto_S. unfold align_body; simpl.
    rewrite rd2_wr2_ne by (right; lia). apply IH. lia.
Qed.

Lemma row_upto_ext_left al m a k n j :
  (j <= n <= k)%nat ->
  rd (r_I_ext_m1 (row_upto al m a k)) j =
  rd (r_I_ext_m1 (row_upto al m a n)) j.
Proof.
  intros Hj. induction k as [|k IH].
  - replace n with O by lia. reflexivity.
  - destruct (decide (n = S k)) as [->|Hne]; [reflexivity|].
    rewrite row_upto_S. unfold align_body; simpl.
    rewrite rd_insert_ne by lia. apply IH. lia.
Qed.

Lemma align_upto_rows al k k' i j :
  (i <= k' <= k)%nat ->
  rd2 (a_matTra (align_upto al k)) i j =
  rd2 (a_matTra (align_upto al k')) i j.
Proof.
  intros Hi. induction k as [|k IH].
  - replace k' with O by lia. reflexivity.
  - destruct (decide (k' = S k)) as [->|Hne]; [reflexivity|].
    rewrite align_upto_S. unfold align_row; simpl.
    rewrite row_upto_other by lia. apply IH. lia.
Qed.

Lemma matTra_asw_align al :
  matTra (asw_align al) = a_matTra (align_upto al (Z.to_nat (subquery_len al))).
Proof.
  unfold asw_align, align_finish.
  destruct (a_swapped _); reflexivity.
Qed.

(** The trace cell of an interior cell is the one its turn of the inner
    loop wrote. *)
Lemma matTra_cell_of al (i j : nat) :
  buffers_ok al ->
  (1 <= i <= Z.to_nat (subquery_len al))%nat ->
  (1 <= j <= Z.to_nat (subdb_len al))%nat ->
  rd2 (matTra (asw_align al)) i j = c_tra (cell_of al i j).
Proof.
  intros Hb Hi Hj. rewrite matTra_asw_align.
  destruct i as [|m]; [lia|]. destruct j as [|n]; [lia|].
  rewrite (align_upto_rows al _ (S m)) by lia.
  rewrite align_upto_S. unfold align_row; simpl.
  rewrite (row_upto_left al m _ _ (S n)) by lia.
  rewrite row_upto_S.
  destruct (align_upto_sizes al m Hb) as (_ & _ & _ & Lp1 & Li1 & Le1 & Lm).
  destruct (row_upto_sizes al m (align_upto al m) n _ _ Lp1 Li1 Le1 Lm)
    as (_ & _ & _ & Rm).
  unfold align_body; simpl.
  rewrite (rd2_wr2_eq _ _ _ _ _ _ Rm) by lia.
  unfold cell_of. replace (S m - 1)%nat with m by lia.
  replace (S n - 1)%nat with n by lia. reflexivity.
Qed.

(** The insertion-length tracker of the previous row holds the run
    length of the cell above. *)
Lemma I_ext_prev al (i j : nat) :
  buffers_ok al ->
  (1 <= i <= Z.to_nat (subquery_len al))%nat ->
  (1 <= j <= Z.to_nat (subdb_len al))%nat ->
  rd (a_I_ext_m (align_upto al (i - 1))) j = prev_run_len_I al i j.
Proof.
  intros Hb Hi Hj. unfold prev_run_len_I.
  destruct i as [|m]; [lia|]. replace (S m - 1)%nat with m by lia.
  destruct m as [|m]; [reflexivity|].
  replace (S (S m) =? 1)%nat with false by reflexivity.
  destruct j as [|n]; [lia|].
  rewrite align_upto_S. unfold align_row; simpl.
  rewrite (row_upto_ext_left al m _ _ (S n)) by lia.
  rewrite row_upto_S.
  destruct (align_upto_sizes al m Hb) as (_ & _ & _ & Lp1 & Li1 & Le1 & Lm).
  destruct (row_upto_sizes al m (align_upto al m) n _ _ Lp1 Li1 Le1 Lm)
    as (_ & _ & Re & _).
  unfold align_body; simpl.
  rewrite rd_insert_eq by lia.
  unfold cell_of. replace (S m - 0)%nat with (S m) by lia.
  replace (S m - 1)%nat with m by lia.
  replace (S n - 1)%nat with n by lia. reflexivity.
Qed.

Lemma cD_prev al (i j : nat) :
  (1 <= j)%nat ->
  r_cD (row_upto al (i - 1) (align_upto al (i - 1)) (j - 1)) =
  prev_run_len_D al i j.
Proof.
  intros Hj. unfold prev_run_len_D.
  destruct j as [|n]; [lia|]. replace (S n - 1)%nat with n by lia.
  destruct n as [|n]; [reflexivity|].
  replace (S (S n) =? 1)%nat with false by reflexivity.
  rewrite row_upto_S. unfold align_body; simpl.
  unfold cell_of. replace (S n - 0)%nat with (S n) by lia.
  replace (S n - 1)%nat with n by lia. reflexivity.
Qed.

Lemma align_init_post (semi : bool) (al0 : Alignment_ASW) :
  buffers_ok al0 ->
  let al := align_init semi al0 in
  buffers_ok al /\
  (forall j, (j <= Z.to_nat (subdb_len al))%nat -> rd (I_ext_m_act al) j = 0) /\
  subdb_len al = subdb_len al0 /\ subquery_len al = subquery_len al0.
Proof.
  intros Hb.
  destruct (init_rows_inv al0 semi Hb)
    as ((Lp & Li & Le & Lm) & Hz & _).
  destruct Hb as (Hp & Hp1 & Hi & Hi1 & He & He1 & Hm).
  assert (E : align_init semi al0 = init_finish al0 (init_rows semi al0))
    by (destruct semi; reflexivity).
  simpl. rewrite E. unfold buffers_ok, init_finish; simpl.
  split_and!; try assumption; reflexivity.
Qed.

Lemma run_lengths_bounded (al : Alignment_ASW) (i j : nat) :
  buffers_ok al ->
  (forall j, (j <= Z.to_nat (subdb_len al))%nat -> rd (I_ext_m_act al) j = 0) ->
  subdb_len al < 2 ^ 28 -> subquery_len al < 2 ^ 28 ->
  (1 <= i <= Z.to_nat (subquery_len al))%nat ->
  (1 <= j <= Z.to_nat (subdb_len al))%nat ->
  0 <= prev_run_len_D al i j < Z.of_nat j /\
  0 <= prev_run_len_I al i j < Z.of_nat i.
Proof.
  intros Hb Hz HW HQ Hi Hj.
  assert (Ha : align_inv al (i - 1) (align_upto al (i - 1)))
    by (apply align_upto_inv; try assumption; lia).
  assert (Hr : row_inv al (i - 1) (align_upto al (i - 1)) (j - 1)
                 (row_upto al (i - 1) (align_upto al (i - 1)) (j - 1)))
    by (apply row_upto_inv; try assumption; lia).
  rewrite <- cD_prev by lia. rewrite <- I_ext_prev by assumption.
  destruct Hr as (_ & HcD & _).
  destruct Ha as (_ & Hext & _).
  specialize (Hext j). lia.
Qed.

(** C1. In the recurrence of [asw_align], at every interior cell: the
    deletion candidate is the open one with run length 1 when
    [wD_open < wD_extend] and else the extend one with run length one
    more than that of the cell to the left; the insertion candidate
    likewise from the tracker of the row above; the score of the cell
    is the minimum of [wM], [wI], [wD]; insertion is selected only if
    [wI < wM] and then deletion only if [wD < wI], otherwise deletion
    only if [wD < wM], else the match state; and the trace cell holds
    the packed run length and operation of the selected candidate. *)
Theorem align_interior_cell (semi : bool) (al0 : Alignment_ASW) (i j : nat) :
  buffers_ok al0 -> lengths_fit al0 ->
  (1 <= i <= Z.to_nat (subquery_len al0))%nat ->
  (1 <= j <= Z.to_nat (subdb_len al0))%nat ->
  let al := align_init semi al0 in
  let c := cell_of al i j in
  (c_wD c, c_cD c) =
    (if wD_open_of al i j <? wD_extend_of al i j
     then (wD_open_of al i j, 1)
     else (wD_extend_of al i j, prev_run_len_D al i j + 1)) /\
  (c_wI c, c_cI c) =
    (if wI_open_of al i j <? wI_extend_of al i j
     then (wI_open_of al i j, 1)
     else (wI_extend_of al i j, prev_run_len_I al i j + 1)) /\
  (c_mstate c = BAM_CSEQ_MATCH \/ c_mstate c = BAM_CSEQ_MISMATCH) /\
  score_of al i j = Z.min (c_wM c) (Z.min (c_wI c) (c_wD c)) /\
  (rd2 (matTra (asw_align al)) i j, score_of al i j) =
    (if c_wI c <? c_wM c then
       if c_wD c <? c_wI c then (pack (c_cD c) BAM_CDEL, c_wD c)
       else (pack (c_cI c) BAM_CINS, c_wI c)
     else if c_wD c <? c_wM c then (pack (c_cD c) BAM_CDEL, c_wD c)
     else (pack 1 (c_mstate c), c_wM c)).
Proof.
  intros Hb0 (HW & HQ) Hi Hj al.
  destruct (align_init_post semi al0 Hb0) as (Hb & Hz & EW & EQ).
  fold al in Hb, Hz, EW, EQ. rewrite <- EW in HW, Hj. rewrite <- EQ in HQ, Hi.
  destruct (run_lengths_bounded al i j Hb Hz) as (HbD & HbI); try lia.
  rewrite (matTra_cell_of al i j Hb Hi Hj).
  assert (Hs : score_of al i j = c_pen (cell_of al i j)).
  { unfold score_of. destruct j as [|n]; [lia|].
    rewrite row_upto_S.
    destruct (align_upto_sizes al (i - 1) Hb) as (_ & _ & _ & Lp1 & Li1 & Le1 & Lm).
    destruct (row_upto_sizes al (i - 1) (align_upto al (i - 1)) n _ _ Lp1 Li1 Le1 Lm)
      as (Rp & _).
    unfold align_body; simpl. rewrite rd_insert_eq by lia.
    unfold cell_of. replace (S n - 1)%nat with n by lia. reflexivity. }
  rewrite Hs.
  pose proof (I_ext_prev al i j Hb Hi Hj) as HI.
  pose proof (cD_prev al i j (proj1 Hj)) as HD.
  unfold wD_open_of, wD_extend_of, wI_open_of, wI_extend_of.
  unfold cell_of, cell_at.
  replace (S (j - 1)) with j by lia.
  rewrite HI, HD. unfold align_cell.
  rewrite (u32_small (prev_run_len_D al i j + 1)) by lia.
  rewrite (u32_small (prev_run_len_I al i j + 1)) by lia.
  destruct (_ <? _); destruct (_ <? _); destruct (IS_MATCH _ _); simpl;
    repeat match goal with
           | |- context [?x <? ?y] => destruct (Z.ltb_spec x y); simpl
           end;
    split_and!; try reflexivity; auto; lia.
Qed.

(** ** The match predicate *)

Lemma IS_MATCH_spec (a b : Z) :
  IS_MATCH a b = true <-> a = b \/ b = AMBIGUOUS_BASE.
Proof.
  unfold IS_MATCH. rewrite orb_true_iff, !Z.eqb_eq. reflexivity.
Qed.

(** C2, as stated, fails: with reference [ANGT] and query [ACGT] the
    cell of row 2, column 2 has an N in the reference, and
    [is_seq_match] is false there. *)
Lemma is_match_reference_N_counterexample :
  ref_base (prepared default_engine "ANGT" "ACGT" "IIII") 2 = AMBIGUOUS_BASE /\
  ~ (is_seq_match_of (prepared default_engine "ANGT" "ACGT" "IIII") 2 2 = true <->
     (ref_base (prepared default_engine "ANGT" "ACGT" "IIII") 2 =
      query_base (prepared default_engine "ANGT" "ACGT" "IIII") 2 \/
      ref_base (prepared default_engine "ANGT" "ACGT" "IIII") 2 = AMBIGUOUS_BASE)).
Proof.
  split; [vm_compute; reflexivity|].
  intros [_ H].
  assert (E : is_seq_match_of (prepared default_engine "ANGT" "ACGT" "IIII") 2 2
              = false) by (vm_compute; reflexivity).
  rewrite E in H. discriminate H. right. vm_compute. reflexivity.
Qed.

(** C2, amended. At every interior cell [is_seq_match] holds exactly
    when the reference base equals the query base or the query base is
    'N'; the match state and the diagonal candidate [wM] use the match
    penalty of the row's quality exactly in that case.  So the wildcard
    is an N in the query; an N in the reference is a literal base. *)
Theorem is_match_query_N (al : Alignment_ASW) (i j : nat) :
  (1 <= i)%nat -> (1 <= j)%nat ->
  let c := cell_of al i j in
  let e := row_env_of al (i - 1) in
  let pen_diag := rd (a_vecPen_m (align_upto al (i - 1))) (j - 1) in
  (is_seq_match_of al i j = true <->
   (ref_base al j = query_base al i \/ query_base al i = AMBIGUOUS_BASE)) /\
  (c_mstate c, c_wM c) =
    (if is_seq_match_of al i j
     then (BAM_CSEQ_MATCH, sint (pen_diag + e_match_pen e))
     else (BAM_CSEQ_MISMATCH, sint (pen_diag + e_mismatch_pen e))).
Proof.
  intros Hi Hj. simpl. split.
  - apply IS_MATCH_spec.
  - unfold is_seq_match_of, ref_base, query_base, cell_of, cell_at, align_cell.
    simpl. destruct (_ <? _); destruct (_ <? _); destruct (IS_MATCH _ _); simpl;
      repeat (destruct (_ <? _); simpl); reflexivity.
Qed.

(** ** The top row in global mode *)

(** C3, as stated, fails: with the default penalties and quality 'I'
    the first column of the top row holds 50, the base gap-open-extend
    penalty, where the quality-weighted gap-extend penalty is 30. *)
Lemma top_row_quality_weighted_counterexample :
  ~ top_row_quality_weighted (prepared default_engine "ACGT" "ACGT" "IIII").
Proof.
  intros (_ & H & _). specialize (H 1%nat).
  assert (E : rd (vecPen_m_act (asw_align_init
                 (prepared default_engine "ACGT" "ACGT" "IIII"))) 1 = 50)
    by (vm_compute; reflexivity).
  rewrite E in H.
  assert (E' : sint (rd (vecPen_m_act (asw_align_init
                 (prepared default_engine "ACGT" "ACGT" "IIII"))) (1 - 1)
               + penalty (gext_penalty (prepared default_engine "ACGT" "ACGT" "IIII"))
                   (prepared default_engine "ACGT" "ACGT" "IIII")
                   (zrd (qual (prepared default_engine "ACGT" "ACGT" "IIII"))
                        (subqual (prepared default_engine "ACGT" "ACGT" "IIII") + 0)))
               = 30)
    by (vm_compute; reflexivity).
  rewrite E' in H.
  assert (Hr : (1 <= 1 <= Z.to_nat (subdb_len (prepared default_engine "ACGT" "ACGT" "IIII")))%nat)
    by (vm_compute; lia).
  specialize (H Hr). discriminate H.
Qed.

(** C3, amended. After [asw_align_init] the top row of the score vector
    starts at 0, holds the base gap-open-extend penalty in column 1 and
    adds the base gap-extend penalty in every later column, in [int]
    arithmetic and with no quality weighting; the trace cell of every
    column [j > 0] is the packed pair (j, DEL). *)
Theorem align_init_top_row (al0 : Alignment_ASW) :
  buffers_ok al0 ->
  let al := asw_align_init al0 in
  let W := Z.to_nat (subdb_len al0) in
  rd (vecPen_m_act al) 0 = 0 /\
  ((1 <= W)%nat -> rd (vecPen_m_act al) 1 = sint (GAP_OPEN_EXTEND al0)) /\
  (forall j, (2 <= j <= W)%nat ->
     rd (vecPen_m_act al) j =
     sint (rd (vecPen_m_act al) (j - 1) + GAP_EXTEND al0)) /\
  (forall j, (1 <= j <= W)%nat ->
     rd2 (matTra al) 0 j = pack (Z.of_nat j) BAM_CDEL) /\
  (forall j, (1 <= j <= W)%nat -> Z.of_nat j < 2 ^ 28 ->
     cigar_len (rd2 (matTra al) 0 j) = Z.of_nat j /\
     cigar_op (rd2 (matTra al) 0 j) = BAM_CDEL).
Proof.
  intros Hb.
  destruct (init_rows_inv al0 false Hb)
    as (_ & _ & _ & Hdel & _ & Hp0 & _ & Hacc & _).
  destruct (Hacc eq_refl) as (H1 & H2).
  simpl. split_and!; try assumption.
  intros j Hj Hlt. unfold asw_align_init, init_finish; simpl.
  rewrite (Hdel j Hj).
  rewrite cigar_len_pack_small by (unfold BAM_CDEL; lia).
  rewrite cigar_op_pack by (unfold BAM_CDEL; lia).
  split; reflexivity.
Qed.

(** ** Empty input *)

(** C8. [align] on an engine whose reference or query sub-view is empty
    raises the index error and hands the engine back as it was. *)
Theorem Qxalign_align_empty (al : Alignment_ASW) (semi : bool) :
  subdb_len al = 0 \/ subquery_len al = 0 ->
  Qxalign_align al semi =
  (PyExc_IndexError "cannot perform alignment on a zero-element matrix", al).
Proof.
  intros H. unfold Qxalign_align.
  replace ((subdb_len al =? 0) || (subquery_len al =? 0)) with true;
    [reflexivity|].
  symmetry. apply orb_true_iff. rewrite !Z.eqb_eq. exact H.
Qed.

Lemma Qxalign_align_empty_witness :
  Qxalign_align (prepared default_engine "ACGT" "" "") false =
  (PyExc_IndexError "cannot perform alignment on a zero-element matrix",
   prepared default_engine "ACGT" "" "").
Proof.
  apply (Qxalign_align_empty (prepared default_engine "ACGT" "" "") false).
  right. vm_compute. reflexivity.
Defined.

(** ** Clip arithmetic *)

(** C9, the code at a failing input.  [asw_prepare_query] with a query
    of length 1, a head clip of 1 and a tail clip of 1, on an engine
    whose allocator, like PyMem_Realloc, serves a request of 0 bytes:
    it returns 0 and leaves [query_len = 1] and
    [subquery_len = 2^64 - 1], against the invariant
    [subquery_len <= query_len] that align454.h states; a subsequent
    [asw_trace] stops at its assertion [query_len >= subquery_len]. *)
Theorem prepare_query_breaks_length_invariant :
  fst (asw_prepare_query default_engine [65] [73] 1 1 1) = 0 /\
  query_len (snd (asw_prepare_query default_engine [65] [73] 1 1 1)) = 1 /\
  subquery_len (snd (asw_prepare_query default_engine [65] [73] 1 1 1))
  = 2 ^ 64 - 1 /\
  ~ subquery_len (snd (asw_prepare_query default_engine [65] [73] 1 1 1))
    <= query_len (snd (asw_prepare_query default_engine [65] [73] 1 1 1)) /\
  forall fuel : nat,
    asw_trace fuel (snd (asw_prepare_query default_engine [65] [73] 1 1 1))
    = Aborted.
Proof.
  assert (E1 : subquery_len (snd (asw_prepare_query default_engine [65] [73] 1 1 1))
               = 2 ^ 64 - 1) by (vm_compute; reflexivity).
  assert (E2 : query_len (snd (asw_prepare_query default_engine [65] [73] 1 1 1))
               = 1) by (vm_compute; reflexivity).
  split_and!.
  - vm_compute. reflexivity.
  - exact E2.
  - exact E1.
  - rewrite E1, E2. lia.
  - intros fuel. unfold asw_trace. rewrite E1, E2. reflexivity.
Qed.

(** So the sub-view lengths are not within the array lengths for every
    accepted argument. *)
Lemma prepare_never_wraps_counterexample : ~ prepare_never_wraps.
Proof.
  intros H.
  destruct (H default_engine [] 0 [65] [73] 1 1 1) as (_ & Hq & _); try lia.
  assert (E : asw_prepare_query default_engine [65] [73] 1 1 1 =
              (0, snd (asw_prepare_query default_engine [65] [73] 1 1 1)))
    by (vm_compute; reflexivity).
  assert (E1 : subquery_len (snd (asw_prepare_query default_engine [65] [73] 1 1 1))
               = 2 ^ 64 - 1) by (vm_compute; reflexivity).
  assert (E2 : query_len (snd (asw_prepare_query default_engine [65] [73] 1 1 1))
               = 1) by (vm_compute; reflexivity).
  cbv zeta in Hq. rewrite E1, E2 in Hq. rewrite E in Hq. simpl in Hq.
  specialize (Hq eq_refl). lia.
Qed.

Lemma clip_len_exact m_len clip_head clip_tail :
  0 <= clip_head -> 0 <= clip_tail ->
  clip_head + clip_tail <= m_len < 2 ^ 64 ->
  clip_len m_len clip_head clip_tail = m_len - clip_head - clip_tail.
Proof.
  intros Hh Ht Hl. unfold clip_len.
  rewrite (u64_small (m_len - clip_head)) by lia.
  apply u64_small. lia.
Qed.

Lemma resize_rows_lens al x tra y :
  let r := resize_rows al x tra y in
  subquery_len (snd r) = y /\ db_len (snd r) = db_len al /\
  query_len (snd r) = query_len al /\
  subquery (snd r) = subquery al /\ subdb (snd r) = subdb al /\
  (fst r = 0 -> subdb_len (snd r) = x).
Proof.
  unfold resize_rows.
  destruct (Z.eqb_spec (subdb_len al) x) as [E|E]; simpl.
  - split_and!; try reflexivity. intros _. exact E.
  - destruct (p_realloc al _); simpl; split_and!; try reflexivity.
    intros H. discriminate H.
Qed.

(** X24. When the two clips together do not exceed the length of the
    array, the sub-view length the prepare operations compute is the
    length minus the clips, without wrap-around; so after a prepare
    operation that returns 0 the sub-view offsets and lengths do not
    exceed the lengths of the arrays. *)
Theorem prepare_clip_within (al : Alignment_ASW) (m_db : list Z) (m_db_len : Z)
    (m_query m_qual : list Z) (m_query_len clip_head clip_tail : Z) :
  0 <= clip_head -> 0 <= clip_tail ->
  clip_head + clip_tail <= m_db_len < 2 ^ 64 ->
  clip_head + clip_tail <= m_query_len < 2 ^ 64 ->
  (let r := asw_prepare al m_db m_db_len m_query m_qual m_query_len
              clip_head clip_tail in
   fst r = 0 ->
   subquery_len (snd r) = m_query_len - clip_head - clip_tail /\
   subdb_len (snd r) = m_db_len - clip_head - clip_tail /\
   subquery (snd r) + subquery_len (snd r) <= query_len (snd r) /\
   subdb (snd r) + subdb_len (snd r) <= db_len (snd r)) /\
  (let r := asw_prepare_query al m_query m_qual m_query_len
              clip_head clip_tail in
   fst r = 0 ->
   subquery_len (snd r) = m_query_len - clip_head - clip_tail /\
   subquery (snd r) + subquery_len (snd r) <= query_len (snd r)) /\
  (let r := asw_prepare_db al m_db m_db_len clip_head clip_tail in
   fst r = 0 ->
   subdb_len (snd r) = m_db_len - clip_head - clip_tail /\
   subdb (snd r) + subdb_len (snd r) <= db_len (snd r)).
Proof.
  intros Hh Ht Hd Hq.
  pose proof (clip_len_exact m_db_len clip_head clip_tail Hh Ht Hd) as Ed.
  pose proof (clip_len_exact m_query_len clip_head clip_tail Hh Ht Hq) as Eq.
  split_and!.
  - unfold asw_prepare. rewrite Ed, Eq.
    destruct (resize_matrix1 _ _ _ _) as [tra|]; [|simpl; intros H; discriminate H].
    match goal with
    | |- context [resize_rows ?a ?x ?t ?y] =>
      destruct (resize_rows_lens a x t y) as (E1 & E2 & E3 & E4 & E5 & E6)
    end.
    cbv zeta. intros H0. rewrite E1, E2, E3, E4, E5, (E6 H0). simpl. lia.
  - unfold asw_prepare_query. rewrite Eq.
    destruct (resize_matrix1 _ _ _ _) as [tra|]; simpl;
      [intros _; lia | intros H; discriminate H].
  - unfold asw_prepare_db. rewrite Ed.
    destruct (resize_matrix1 _ _ _ _) as [tra|]; [|simpl; intros H; discriminate H].
    match goal with
    | |- context [resize_rows ?a ?x ?t ?y] =>
      destruct (resize_rows_lens a x t y) as (E1 & E2 & E3 & E4 & E5 & E6)
    end.
    cbv zeta. intros H0. rewrite E2, E5, (E6 H0). simpl. lia.
Qed.

(** ** Slices of the CIGAR buffer *)

Lemma zrd_of_nat (v : list Z) (i : nat) : zrd v (Z.of_nat i) = rd v i.
Proof.
  unfold zrd. destruct (Z.leb_spec 0 (Z.of_nat i)); [|lia].
  rewrite Nat2Z.id. reflexivity.
Qed.

Lemma zrd2_of_nat (m : list (list Z)) (i j : nat) :
  zrd2 m (Z.of_nat i) (Z.of_nat j) = rd2 m i j.
Proof.
  unfold zrd2.
  destruct (Z.leb_spec 0 (Z.of_nat i)); [|lia].
  destruct (Z.leb_spec 0 (Z.of_nat j)); [|lia].
  simpl. rewrite !Nat2Z.id. reflexivity.
Qed.

Lemma store_Some (buf buf' : list Z) (i x : Z) :
  store buf i x = Some buf' ->
  0 <= i < Z.of_nat (length buf) /\ buf' = <[Z.to_nat i := x]> buf.
Proof.
  unfold store.
  destruct (Z.leb_spec 0 i); destruct (Z.ltb_spec i (Z.of_nat (length buf)));
    simpl; intros Hs; inversion Hs. split; [lia|reflexivity].
Qed.

Lemma store_in_range (buf : list Z) (i x : Z) :
  0 <= i < Z.of_nat (length buf) ->
  store buf i x = Some (<[Z.to_nat i := x]> buf).
Proof.
  intros H. unfold store.
  destruct (Z.leb_spec 0 i); [|lia].
  destruct (Z.ltb_spec i (Z.of_nat (length buf))); [|lia]. reflexivity.
Qed.

Lemma zrd_insert_eq (buf : list Z) (i x : Z) :
  0 <= i < Z.of_nat (length buf) -> zrd (<[Z.to_nat i := x]> buf) i = x.
Proof.
  intros H. unfold zrd. destruct (Z.leb_spec 0 i); [|lia].
  apply rd_insert_eq. lia.
Qed.

Lemma slice_cons (buf : list Z) (b e : Z) :
  0 <= b < e -> b < Z.of_nat (length buf) ->
  slice buf b e = zrd buf b :: slice buf (b + 1) e.
Proof.
  intros Hb Hl. unfold slice, zrd, rd.
  destruct (Z.leb_spec 0 b); [|lia].
  destruct (lookup_lt_is_Some_2 buf (Z.to_nat b)) as [x Hx]; [lia|].
  rewrite Hx. simpl.
  replace (Z.to_nat (e - b)) with (S (Z.to_nat (e - (b + 1)))) by lia.
  replace (Z.to_nat (b + 1)) with (S (Z.to_nat b)) by lia.
  rewrite (drop_S buf x (Z.to_nat b) Hx). reflexivity.
Qed.

Lemma slice_snoc (buf : list Z) (b e : Z) :
  0 <= b <= e -> e < Z.of_nat (length buf) ->
  slice buf b (e + 1) = slice buf b e ++ [zrd buf e].
Proof.
  intros Hb Hl. unfold slice, zrd, rd.
  destruct (Z.leb_spec 0 e); [|lia].
  destruct (lookup_lt_is_Some_2 buf (Z.to_nat e)) as [x Hx]; [lia|].
  rewrite Hx. simpl.
  replace (Z.to_nat (e + 1 - b)) with (S (Z.to_nat (e - b))) by lia.
  apply take_S_r. rewrite lookup_drop.
  replace (Z.to_nat b + Z.to_nat (e - b))%nat with (Z.to_nat e) by lia.
  exact Hx.
Qed.

Lemma slice_insert_out (buf : list Z) (b e : Z) (i : nat) (x : Z) :
  0 <= b -> (Z.of_nat i < b \/ e <= Z.of_nat i) ->
  slice (<[i := x]> buf) b e = slice buf b e.
Proof.
  intros Hb [Hi|Hi]; unfold slice.
  - rewrite drop_insert_lt by lia. reflexivity.
  - destruct (Z.ltb_spec (Z.of_nat i) b).
    + rewrite drop_insert_lt by lia. reflexivity.
    + rewrite drop_insert_ge by lia. rewrite take_insert_ge by lia. reflexivity.
Qed.

Lemma slice_empty (buf : list Z) (b e : Z) : e <= b -> slice buf b e = [].
Proof.
  intros H. unfold slice. replace (Z.to_nat (e - b)) with O by lia. reflexivity.
Qed.

(** The four ways the post-processing touches the ends of the CIGAR. *)
Lemma slice_store_before (buf buf' : list Z) (b e x : Z) :
  store buf (b - 1) x = Some buf' -> b <= e ->
  slice buf' (b - 1) e = x :: slice buf b e.
Proof.
  intros Hs Hbe. destruct (store_Some _ _ _ _ Hs) as [Hr ->].
  rewrite slice_cons by (rewrite ?length_insert; lia).
  rewrite zrd_insert_eq by lia.
  replace (b - 1 + 1) with b by lia.
  rewrite slice_insert_out by lia. reflexivity.
Qed.

Lemma slice_store_head (buf buf' : list Z) (b e x : Z) :
  store buf b x = Some buf' -> b < e ->
  slice buf' b e = x :: slice buf (b + 1) e.
Proof.
  intros Hs Hbe. destruct (store_Some _ _ _ _ Hs) as [Hr ->].
  rewrite slice_cons by (rewrite ?length_insert; lia).
  rewrite zrd_insert_eq by lia.
  rewrite slice_insert_out by lia. reflexivity.
Qed.

Lemma slice_store_after (buf buf' : list Z) (b e x : Z) :
  store buf e x = Some buf' -> 0 <= b <= e ->
  slice buf' b (e + 1) = slice buf b e ++ [x].
Proof.
  intros Hs Hbe. destruct (store_Some _ _ _ _ Hs) as [Hr ->].
  rewrite slice_snoc by (rewrite ?length_insert; lia).
  rewrite zrd_insert_eq by lia.
  rewrite slice_insert_out by lia. reflexivity.
Qed.

Lemma slice_last (buf : list Z) (b e : Z) :
  0 <= b < e -> e <= Z.of_nat (length buf) ->
  slice buf b e = slice buf b (e - 1) ++ [zrd buf (e - 1)].
Proof.
  intros Hb Hl. pose proof (slice_snoc buf b (e - 1)) as H.
  replace (e - 1 + 1) with e in H by lia. apply H; lia.
Qed.

Lemma slice_store_last (buf buf' : list Z) (b e x : Z) :
  store buf (e - 1) x = Some buf' -> 0 <= b < e ->
  slice buf' b e = slice buf b (e - 1) ++ [x].
Proof.
  intros Hs Hbe. destruct (store_Some _ _ _ _ Hs) as [Hr ->].
  rewrite (slice_last _ b e) by (rewrite ?length_insert; lia).
  rewrite zrd_insert_eq by lia.
  rewrite slice_insert_out by lia. reflexivity.
Qed.

Lemma query_consumed_app (l1 l2 : list Z) :
  query_consumed (l1 ++ l2) = query_consumed l1 + query_consumed l2.
Proof.
  induction l1 as [|c l1 IH]; simpl; [reflexivity|]. rewrite IH. lia.
Qed.

Lemma query_consumed_nonneg (l : list Z) :
  Forall (fun c => 0 <= c) l -> 0 <= query_consumed l.
Proof.
  induction 1 as [|c l Hc _ IH]; simpl; [lia|].
  pose proof (cigar_len_nonneg c Hc).
  destruct (consumes_query _); lia.
Qed.

(** ** The traceback *)

Lemma trace_loop_S fuel tra buf m1 n1 cigar rc :
  trace_loop (S fuel) tra buf m1 n1 cigar rc =
  if m1 <=? 0 then Ok (buf, rc, n1) else
  let z := cigar_len cigar in
  let state := cigar_op cigar in
  if state =? BAM_CSEQ_MATCH then
    match seq_run (S fuel) BAM_CSEQ_MATCH tra 0 m1 n1 z with
    | None => OutOfFuel
    | Some (num_matches, m1, n1, cigar) =>
      match store buf rc (pack num_matches BAM_CSEQ_MATCH) with
      | None => Undefined
      | Some buf => trace_loop fuel tra buf m1 n1 cigar (rc - 1)
      end
    end
  else if state =? BAM_CSEQ_MISMATCH then
    match seq_run (S fuel) BAM_CSEQ_MISMATCH tra 0 m1 n1 z with
    | None => OutOfFuel
    | Some (num_matches, m1, n1, cigar) =>
      match store buf rc (pack num_matches BAM_CSEQ_MISMATCH) with
      | None => Undefined
      | Some buf => trace_loop fuel tra buf m1 n1 cigar (rc - 1)
      end
    end
  else if state =? BAM_CDEL then
    match store buf rc cigar with
    | None => Undefined
    | Some buf =>
      let n1 := sint (n1 - z) in
      trace_loop fuel tra buf m1 n1 (zrd2 tra m1 n1) (rc - 1)
    end
  else if state =? BAM_CINS then
    match store buf rc cigar with
    | None => Undefined
    | Some buf =>
      let m1 := sint (m1 - z) in
      trace_loop fuel tra buf m1 n1 (zrd2 tra m1 n1) (rc - 1)
    end
  else Error.
Proof. reflexivity. Qed.

Lemma seq_run_S fuel op tra num_matches m1 n1 z :
  seq_run (S fuel) op tra num_matches m1 n1 z =
  if (cigar_op (zrd2 tra (sint (m1 - z)) (sint (n1 - z))) =? op)
     && (0 <? sint (m1 - z))
  then seq_run fuel op tra (u32 (num_matches + z)) (sint (m1 - z))
         (sint (n1 - z))
         (cigar_len (zrd2 tra (sint (m1 - z)) (sint (n1 - z))))
  else Some (u32 (num_matches + z), sint (m1 - z), sint (n1 - z),
             zrd2 tra (sint (m1 - z)) (sint (n1 - z))).
Proof. reflexivity. Qed.

(** The two sequence cases of the [switch] differ in the operation
    only. *)
Lemma trace_loop_seq_case fuel tra buf m1 n1 cigar rc :
  0 < m1 ->
  cigar_op cigar = BAM_CSEQ_MATCH \/ cigar_op cigar = BAM_CSEQ_MISMATCH ->
  trace_loop (S fuel) tra buf m1 n1 cigar rc =
  match seq_run (S fuel) (cigar_op cigar) tra 0 m1 n1 (cigar_len cigar) with
  | None => OutOfFuel
  | Some (num_matches, m1, n1, cigar') =>
    match store buf rc (pack num_matches (cigar_op cigar)) with
    | None => Undefined
    | Some buf => trace_loop fuel tra buf m1 n1 cigar' (rc - 1)
    end
  end.
Proof.
  intros Hm Hop. rewrite trace_loop_S.
  destruct (Z.leb_spec m1 0); [lia|]. cbv zeta.
  destruct Hop as [Hop|Hop]; rewrite Hop; reflexivity.
Qed.

Lemma good_cell_seq_inv (i j : nat) (c : Z) :
  good_cell i j c ->
  cigar_op c = BAM_CSEQ_MATCH \/ cigar_op c = BAM_CSEQ_MISMATCH ->
  cigar_len c = 1 /\ (1 <= j)%nat.
Proof.
  unfold BAM_CSEQ_MATCH, BAM_CSEQ_MISMATCH.
  intros [(_ & Hz & Hj) | [(Hop & _) | (Hop & _)]] H.
  - auto.
  - unfold BAM_CINS in Hop. lia.
  - unfold BAM_CDEL in Hop. lia.
Qed.

Section Traceback.

Variables (tra : list (list Z)) (Q W : nat).
Hypothesis Hgood : good_matrix Q W tra.
Hypothesis HQ : Z.of_nat Q < 2 ^ 28.
Hypothesis HW : Z.of_nat W < 2 ^ 28.

Lemma seq_run_ok (op : Z) :
  op = BAM_CSEQ_MATCH \/ op = BAM_CSEQ_MISMATCH ->
  forall (fuel m n : nat) (num : Z),
    (1 <= m <= Q)%nat -> (n <= W)%nat ->
    cigar_op (rd2 tra m n) = op ->
    (m <= fuel)%nat -> 0 <= num -> num + Z.of_nat m < 2 ^ 32 ->
    exists m' n' : nat,
      seq_run fuel op tra num (Z.of_nat m) (Z.of_nat n)
              (cigar_len (rd2 tra m n))
      = Some (num + Z.of_nat (m - m'), Z.of_nat m', Z.of_nat n', rd2 tra m' n')
      /\ (m' < m)%nat /\ (n' < n)%nat /\ (m - m' = n - n')%nat.
Proof.
  intros Hop. induction fuel as [|fuel IH]; intros m n num Hm Hn Hc Hf Hnum Hlt.
  - lia.
  - destruct (good_cell_seq_inv m n _ (Hgood m n Hm Hn)) as [Hz Hn1].
    { rewrite Hc. exact Hop. }
    rewrite seq_run_S, Hz.
    replace (sint (Z.of_nat m - 1)) with (Z.of_nat (m - 1))
      by (rewrite sint_small; lia).
    replace (sint (Z.of_nat n - 1)) with (Z.of_nat (n - 1))
      by (rewrite sint_small; lia).
    rewrite zrd2_of_nat. rewrite (u32_small (num + 1)) by lia.
    destruct (Z.eqb_spec (cigar_op (rd2 tra (m - 1) (n - 1))) op) as [Ec|Ec];
      destruct (Z.ltb_spec 0 (Z.of_nat (m - 1))) as [Em|Em]; simpl.
    + destruct (IH (m - 1)%nat (n - 1)%nat (num + 1)) as (m' & n' & E & H1 & H2 & H3);
        try lia; try assumption.
      exists m', n'. rewrite E. split_and!; try lia.
      do 4 f_equal. lia.
    + exists (m - 1)%nat, (n - 1)%nat. split_and!; try lia.
      do 4 f_equal. lia.
    + exists (m - 1)%nat, (n - 1)%nat. split_and!; try lia.
      do 4 f_equal. lia.
    + exists (m - 1)%nat, (n - 1)%nat. split_and!; try lia.
      do 4 f_equal. lia.
Qed.

Lemma trace_loop_ok (E : Z) :
  forall (fuel : nat) (buf : list Z) (m n : nat) (rc : Z),
    (m <= Q)%nat -> (n <= W)%nat -> (m + n < fuel)%nat ->
    -1 <= rc -> rc + 1 <= E -> E <= Z.of_nat (length buf) ->
    match trace_loop fuel tra buf (Z.of_nat m) (Z.of_nat n) (rd2 tra m n) rc with
    | Ok (buf', rc', n1) =>
      exists ops,
        slice buf' (rc' + 1) E = ops ++ slice buf (rc + 1) E /\
        query_consumed ops = Z.of_nat m /\
        Forall (fun c => 0 <= c) ops /\
        0 <= n1 <= Z.of_nat n /\ -1 <= rc' <= rc /\
        length buf' = length buf
    | Undefined => True
    | _ => False
    end.
Proof.
  induction fuel as [|fuel IH]; intros buf m n rc Hm Hn Hf Hrc HE Hlen; [lia|].
  destruct (Z.leb_spec (Z.of_nat m) 0) as [Hm0|Hm0].
  { rewrite trace_loop_S.
    destruct (Z.leb_spec (Z.of_nat m) 0); [|lia].
    exists []. simpl. split_and!; try reflexivity; try lia. constructor. }
  assert (Hcell : good_cell m n (rd2 tra m n)) by (apply Hgood; lia).
  destruct Hcell as [(Hop & Hz & Hn1) | [(Hop & Hz) | (Hop & Hz)]];
    [rewrite (trace_loop_seq_case _ _ _ _ _ _ _ Hm0 Hop)
    |rewrite trace_loop_S; destruct (Z.leb_spec (Z.of_nat m) 0); [lia|]; cbv zeta
    |rewrite trace_loop_S; destruct (Z.leb_spec (Z.of_nat m) 0); [lia|]; cbv zeta].
  - (* = or X: a run of diagonal moves *)
    destruct (seq_run_ok _ Hop (S fuel) m n 0) as (m' & n' & Er & H1 & H2 & H3);
      try lia; try reflexivity.
    rewrite Er. rewrite Z.add_0_l.
    destruct (store buf rc _) as [buf1|] eqn:Hs; [|exact I].
    destruct (store_Some _ _ _ _ Hs) as [Hr Eb].
    specialize (IH buf1 m' n' (rc - 1)).
    destruct (trace_loop fuel tra buf1 _ _ _ _) as [[[buf' rc'] n1]| | | |];
      try (apply IH; subst buf1; rewrite ?length_insert; lia).
    destruct IH as (ops & Hsl & Hqc & Hnn & Hn1' & Hrc' & Hl');
      try (subst buf1; rewrite ?length_insert; lia).
    exists (ops ++ [pack (Z.of_nat (m - m')) (cigar_op (rd2 tra m n))]).
    replace (rc - 1 + 1) with rc in Hsl by lia.
    rewrite (slice_store_head _ _ _ _ _ Hs) in Hsl by lia.
    assert (Hop16 : 0 <= cigar_op (rd2 tra m n) < 16)
      by (destruct Hop as [-> | ->]; unfold BAM_CSEQ_MATCH, BAM_CSEQ_MISMATCH; lia).
    split_and!.
    + rewrite Hsl, <- app_assoc. reflexivity.
    + rewrite query_consumed_app, Hqc. simpl.
      rewrite cigar_op_pack by exact Hop16.
      rewrite cigar_len_pack_small by (exact Hop16 || lia).
      replace (consumes_query (cigar_op (rd2 tra m n))) with true
        by (destruct Hop as [-> | ->]; reflexivity).
      lia.
    + apply Forall_app. split; [exact Hnn|].
      constructor; [apply pack_nonneg|constructor].
    + lia.
    + lia.
    + lia.
    + lia.
    + rewrite Hl'. subst buf1. apply length_insert.
  - (* I: up *)
    rewrite Hop.
    change (BAM_CINS =? BAM_CSEQ_MATCH) with false.
    change (BAM_CINS =? BAM_CSEQ_MISMATCH) with false.
    change (BAM_CINS =? BAM_CDEL) with false.
    change (BAM_CINS =? BAM_CINS) with true. cbv iota.
    destruct (store buf rc _) as [buf1|] eqn:Hs; [|exact I].
    destruct (store_Some _ _ _ _ Hs) as [Hr Eb].
    replace (sint (Z.of_nat m - cigar_len (rd2 tra m n)))
      with (Z.of_nat (m - Z.to_nat (cigar_len (rd2 tra m n))))
      by (rewrite sint_small; lia).
    rewrite zrd2_of_nat.
    specialize (IH buf1 (m - Z.to_nat (cigar_len (rd2 tra m n)))%nat n (rc - 1)).
    destruct (trace_loop fuel tra buf1 _ _ _ _) as [[[buf' rc'] n1]| | | |];
      try (apply IH; subst buf1; rewrite ?length_insert; lia).
    destruct IH as (ops & Hsl & Hqc & Hnn & Hn1' & Hrc' & Hl');
      try (subst buf1; rewrite ?length_insert; lia).
    exists (ops ++ [rd2 tra m n]).
    replace (rc - 1 + 1) with rc in Hsl by lia.
    rewrite (slice_store_head _ _ _ _ _ Hs) in Hsl by lia.
    split_and!.
    + rewrite Hsl, <- app_assoc. reflexivity.
    + rewrite query_consumed_app, Hqc. simpl. rewrite Hop.
      replace (consumes_query BAM_CINS) with true by reflexivity. lia.
    + apply Forall_app. split; [exact Hnn|].
      constructor; [apply cigar_len_pos_nonneg; lia|constructor].
    + lia.
    + lia.
    + lia.
    + lia.
    + rewrite Hl'. subst buf1. apply length_insert.
  - (* D: left *)
    rewrite Hop.
    change (BAM_CDEL =? BAM_CSEQ_MATCH) with false.
    change (BAM_CDEL =? BAM_CSEQ_MISMATCH) with false.
    change (BAM_CDEL =? BAM_CDEL) with true. cbv iota.
    destruct (store buf rc _) as [buf1|] eqn:Hs; [|exact I].
    destruct (store_Some _ _ _ _ Hs) as [Hr Eb].
    replace (sint (Z.of_nat n - cigar_len (rd2 tra m n)))
      with (Z.of_nat (n - Z.to_nat (cigar_len (rd2 tra m n))))
      by (rewrite sint_small; lia).
    rewrite zrd2_of_nat.
    specialize (IH buf1 m (n - Z.to_nat (cigar_len (rd2 tra m n)))%nat (rc - 1)).
    destruct (trace_loop fuel tra buf1 _ _ _ _) as [[[buf' rc'] n1]| | | |];
      try (apply IH; subst buf1; rewrite ?length_insert; lia).
    destruct IH as (ops & Hsl & Hqc & Hnn & Hn1' & Hrc' & Hl');
      try (subst buf1; rewrite ?length_insert; lia).
    exists (ops ++ [rd2 tra m n]).
    replace (rc - 1 + 1) with rc in Hsl by lia.
    rewrite (slice_store_head _ _ _ _ _ Hs) in Hsl by lia.
    split_and!.
    + rewrite Hsl, <- app_assoc. reflexivity.
    + rewrite query_consumed_app, Hqc. simpl. rewrite Hop.
      replace (consumes_query BAM_CDEL) with false by reflexivity. lia.
    + apply Forall_app. split; [exact Hnn|].
      constructor; [apply cigar_len_pos_nonneg; lia|constructor].
    + lia.
    + lia.
    + lia.
    + lia.
    + rewrite Hl'. subst buf1. apply length_insert.
Qed.

End Traceback.

Lemma length_resize_list {A : Type} (d : A) (n : nat) (l : list A) :
  length (resize_list d n l) = n.
Proof.
  unfold resize_list. rewrite length_app, length_take, length_replicate. lia.
Qed.

Lemma align_good_matrix (semi : bool) (al0 : Alignment_ASW) :
  buffers_ok al0 -> lengths_fit al0 ->
  good_matrix (Z.to_nat (subquery_len al0)) (Z.to_nat (subdb_len al0))
    (matTra (asw_align (align_init semi al0))).
Proof.
  intros Hb0 (HW & HQ).
  destruct (align_init_post semi al0 Hb0) as (Hb & Hz & EW & EQ).
  rewrite matTra_asw_align.
  destruct (align_upto_inv (align_init semi al0)
              (Z.to_nat (subquery_len (align_init semi al0))) Hb Hz)
    as (_ & _ & Hg & _); try lia.
  rewrite EQ in Hg. rewrite EW in Hg. rewrite EQ.
  intros i j Hi Hj. apply Hg; lia.
Qed.

Lemma locate_col_range (al : Alignment_ASW) :
  0 <= opt_score_col (asw_locate_minscore al)
    <= Z.of_nat (Z.to_nat (subdb_len al)).
Proof.
  unfold asw_locate_minscore; simpl.
  apply (for_loop_ind (fun n (s : Z * Z) => 0 <= snd s <= Z.of_nat n)).
  - simpl. lia.
  - intros n s' Hn Hs. unfold locate_body.
    destruct (_ <? _); simpl; lia.
Qed.

Lemma aligned_eq (semi : bool) (al0 : Alignment_ASW) :
  lengths_fit al0 ->
  aligned semi al0 = asw_locate_minscore (asw_align (align_init semi al0)).
Proof.
  intros (HW & HQ). unfold aligned, Qxalign_align.
  destruct (Z.eqb_spec (subdb_len al0) 0); [lia|].
  destruct (Z.eqb_spec (subquery_len al0) 0); [lia|].
  destruct semi; reflexivity.
Qed.

Lemma asw_align_lens (al : Alignment_ASW) :
  subdb_len (asw_align al) = subdb_len al /\
  subquery_len (asw_align al) = subquery_len al /\
  query_len (asw_align al) = query_len al /\
  subquery (asw_align al) = subquery al /\
  p_realloc (asw_align al) = p_realloc al /\
  rcigar (asw_align al) = rcigar al.
Proof.
  unfold asw_align, align_finish. destruct (a_swapped _); simpl; auto 10.
Qed.

Lemma align_init_lens (semi : bool) (al : Alignment_ASW) :
  subdb_len (align_init semi al) = subdb_len al /\
  subquery_len (align_init semi al) = subquery_len al /\
  query_len (align_init semi al) = query_len al /\
  subquery (align_init semi al) = subquery al /\
  p_realloc (align_init semi al) = p_realloc al /\
  rcigar (align_init semi al) = rcigar al.
Proof. destruct semi; simpl; auto 10. Qed.

(** The loop of [asw_trace] on the matrix of an alignment, for any
    start column: it reaches row 0 unless a write leaves the buffer. *)
Lemma asw_trace_walk (semi : bool) (al0 : Alignment_ASW) (score col : Z)
    (fuel : nat) :
  buffers_ok al0 -> lengths_fit al0 ->
  0 <= col <= subdb_len al0 ->
  (Z.to_nat (subquery_len al0) + Z.to_nat col < fuel)%nat ->
  match asw_trace fuel (set_opt (asw_align (align_init semi al0)) score col) with
  | Ok al1 =>
    query_consumed (cigar_of al1) = subquery_len al0 /\
    Forall (fun c => 0 <= c) (cigar_of al1) /\
    0 <= offset al1 <= col /\
    0 <= cigar_begin al1 < cigar_end al1 /\
    cigar_end al1 = subquery_len al0 + 2 /\
    Z.of_nat (length (rcigar al1)) = subquery_len al0 + 4 /\
    query_len al1 = query_len al0 /\ subquery al1 = subquery al0 /\
    subquery_len al1 = subquery_len al0
  | Aborted => query_len al0 < subquery_len al0
  | Error =>
    p_realloc al0 (u64 (4 * u64 (subquery_len al0 + 4))) = false
  | Undefined => True
  | OutOfFuel => False
  end.
Proof.
  intros Hb Hfit Hcol Hfuel.
  destruct (Z_of_nat_complete col) as [c ->]; [lia|].
  rewrite Nat2Z.id in Hfuel.
  pose proof (align_good_matrix semi al0 Hb Hfit) as Hg.
  destruct Hfit as (HW & HQ).
  destruct (asw_align_lens (align_init semi al0)) as (E1 & E2 & E3 & E4 & E5 & E6).
  destruct (align_init_lens semi al0) as (F1 & F2 & F3 & F4 & F5 & F6).
  unfold asw_trace. simpl.
  rewrite E2, E3, E5, E6, F2, F3, F5, F6.
  destruct (Z.ltb_spec (query_len al0) (subquery_len al0)) as [Ha|Ha]; [exact Ha|].
  destruct (p_realloc al0 _) eqn:Hr; simpl; [|reflexivity].
  rewrite (u64_small (subquery_len al0 + 4)) by lia.
  rewrite (sint_small (subquery_len al0)) by lia.
  rewrite (sint_small (Z.of_nat c)) by lia.
  set (Q := Z.to_nat (subquery_len al0)) in *.
  set (W := Z.to_nat (subdb_len al0)) in *.
  replace (subquery_len al0) with (Z.of_nat Q) by lia.
  rewrite zrd2_of_nat.
  set (buf := resize_list 0 _ _).
  assert (Hlen : Z.of_nat (length buf) = Z.of_nat Q + 4).
  { unfold buf. rewrite length_resize_list. unfold cells_of.
    rewrite (u64_small (4 * (Z.of_nat Q + 4))) by lia.
    rewrite (Z.mul_comm 4), Z.div_mul by lia. lia. }
  pose proof (trace_loop_ok _ Q W Hg ltac:(lia) ltac:(lia) (Z.of_nat Q + 2)
                fuel buf Q c (Z.of_nat Q + 1)) as Ht.
  destruct (trace_loop fuel _ buf _ _ _ _) as [[[buf' rc'] n1]| | | |];
    try (exfalso; apply Ht; lia); try exact I.
  destruct Ht as (ops & Hsl & Hqc & Hnn & Hn1 & Hrc & Hl); try lia.
  rewrite (slice_empty buf) in Hsl by lia. rewrite app_nil_r in Hsl.
  unfold cigar_of; simpl. rewrite Hsl.
  rewrite (u64_small n1) by lia.
  assert (Hne : rc' + 1 < Z.of_nat Q + 2).
  { destruct (Z.ltb_spec (rc' + 1) (Z.of_nat Q + 2)) as [|Hge]; [assumption|].
    rewrite slice_empty in Hsl by lia. subst ops. simpl in Hqc. lia. }
  split_and!; try assumption; try lia; try reflexivity.
Qed.

(** ** Appending the soft clips *)

Lemma contract_clip_sum (k : nat) (step : Z) (q d : list Z)
    (sq sd ma : Z) :
  0 <= ma -> ma + Z.of_nat k < 2 ^ 32 ->
  Z.of_nat (fst (contract_clip k step q d sq sd ma))
    + snd (contract_clip k step q d sq sd ma) = Z.of_nat k + ma /\
  ma <= snd (contract_clip k step q d sq sd ma).
Proof.
  revert sq sd ma. induction k as [|k IH]; intros sq sd ma H0 Hlt; simpl.
  - lia.
  - destruct (_ =? _).
    + rewrite (u32_small (ma + 1)) by lia.
      destruct (IH (u64 (sq + step)) (u64 (sd + step)) (ma + 1)) as (H1 & H2); lia.
    + simpl. lia.
Qed.

Lemma query_consumed_pack (len op : Z) :
  0 <= len < 2 ^ 28 -> 0 <= op < 16 ->
  query_consumed [pack len op] = if consumes_query op then len else 0.
Proof.
  intros Hl Ho. simpl.
  rewrite cigar_op_pack by exact Ho.
  rewrite cigar_len_pack_small by assumption.
  destruct (consumes_query op); lia.
Qed.

Lemma query_consumed_cons (c : Z) (l : list Z) :
  query_consumed (c :: l) = query_consumed [c] + query_consumed l.
Proof. simpl. lia. Qed.

Lemma query_consumed_single_le (c : Z) :
  0 <= c -> 0 <= query_consumed [c] <= cigar_len c.
Proof.
  intros Hc. simpl. pose proof (cigar_len_nonneg c Hc).
  destruct (consumes_query _); lia.
Qed.

Ltac simpl_cigar :=
  unfold set_cigar;
  cbn [rcigar cigar_begin cigar_end offset query_len subquery subquery_len
       subdb subdb_len db query].

Lemma softclip_head_consumed (al al' : Alignment_ASW) :
  0 <= cigar_begin al < cigar_end al ->
  cigar_end al <= Z.of_nat (length (rcigar al)) ->
  Forall (fun c => 0 <= c) (cigar_of al) ->
  0 <= subquery al ->
  query_consumed (cigar_of al) + subquery al < 2 ^ 28 ->
  softclip_head al = Ok al' ->
  query_consumed (cigar_of al') = query_consumed (cigar_of al) + subquery al /\
  Forall (fun c => 0 <= c) (cigar_of al') /\
  0 <= cigar_begin al' < cigar_end al' /\
  cigar_end al' <= Z.of_nat (length (rcigar al')) /\
  query_len al' = query_len al /\ subquery al' = subquery al /\
  subquery_len al' = subquery_len al.
Proof.
  intros Hbe Hlen Hnn Hsq Hlt.
  unfold cigar_of in *.
  rewrite (slice_cons (rcigar al)) in Hnn, Hlt |- * by lia.
  set (c := zrd (rcigar al) (cigar_begin al)) in *.
  set (tl := slice (rcigar al) (cigar_begin al + 1) (cigar_end al)) in *.
  inversion Hnn as [|c' tl' Hc Htl]; subst c' tl'.
  pose proof (query_consumed_nonneg tl Htl) as Htl0.
  pose proof (cigar_len_nonneg c Hc) as Hz0.
  pose proof (query_consumed_single_le c Hc) as Hc0.
  rewrite (query_consumed_cons c tl) in Hlt |- *.
  unfold softclip_head. rewrite (u32_small (subquery al)) by lia.
  destruct (Z.ltb_spec 0 (subquery al)) as [Hpos|Hzero].
  2:{ intros H; inversion H; subst al'.
      rewrite (slice_cons (rcigar al)) by lia. fold c. fold tl.
      rewrite (query_consumed_cons c tl).
      split_and!; try assumption; try lia; try reflexivity. }
  fold c.
  destruct (Z.eqb_spec (cigar_op c) BAM_CSOFT_CLIP) as [Eop|Nop].
  - (* extend an existing soft clip *)
    assert (Hq : query_consumed [c] = cigar_len c).
    { simpl. rewrite Eop. simpl. lia. }
    destruct (store _ _ _) as [buf|] eqn:Hs; [|discriminate].
    intros H; inversion H; subst al'; simpl_cigar.
    destruct (store_Some _ _ _ _ Hs) as [Hr Eb].
    rewrite (slice_store_head _ _ _ _ _ Hs) by lia. fold tl.
    rewrite (u32_small (subquery al + cigar_len c)) by lia.
    rewrite (query_consumed_cons (pack _ _) tl).
    rewrite query_consumed_pack by (unfold BAM_CSOFT_CLIP; lia).
    change (consumes_query BAM_CSOFT_CLIP) with true; cbv iota.
    split_and!; try lia; try reflexivity.
    + constructor; [apply pack_nonneg|exact Htl].
    + subst buf. rewrite length_insert. lia.
  - destruct ((cigar_op c =? BAM_CSEQ_MATCH) || (cigar_op c =? BAM_CMATCH)) eqn:Em.
    + (* contract the clip over matching bases *)
      assert (Hq : query_consumed [c] = cigar_len c /\
                   consumes_query (cigar_op c) = true /\ 0 <= cigar_op c < 16).
      { apply orb_true_iff in Em. rewrite !Z.eqb_eq in Em. simpl.
        destruct Em as [-> | ->]; simpl; split_and!; try reflexivity;
          unfold BAM_CSEQ_MATCH, BAM_CMATCH; lia. }
      destruct Hq as (Hq & Hcons & Hop16).
      destruct (contract_clip _ _ _ _ _ _ _) as [r ma] eqn:Hcc.
      pose proof (contract_clip_sum (Z.to_nat (subquery al)) (-1) (query al)
                    (db al) (subquery al) (u64 (subdb al + offset al)) 0
                    ltac:(lia) ltac:(lia)) as (Hsum & Hma).
      rewrite Hcc in Hsum, Hma. simpl in Hsum, Hma.
      destruct (Z.ltb_spec 0 ma) as [Hmapos|Hmazero].
      * destruct (store (rcigar al) _ _) as [buf1|] eqn:Hs1; simpl; [|discriminate].
        destruct (store_Some _ _ _ _ Hs1) as [Hr1 Eb1].
        rewrite (u32_small (cigar_len c + ma)) in Hs1 by lia.
        destruct (Z.ltb_spec 0 (Z.of_nat r)) as [Hrpos|Hrzero].
        -- destruct (store buf1 _ _) as [buf2|] eqn:Hs2; [|discriminate].
           intros H; inversion H; subst al'; simpl_cigar.
           destruct (store_Some _ _ _ _ Hs2) as [Hr2 Eb2].
           rewrite (slice_store_before _ _ _ _ _ Hs2) by lia.
           rewrite (slice_store_head _ _ _ _ _ Hs1) by lia. fold tl.
           rewrite (query_consumed_cons (pack _ _) (_ :: tl)).
           rewrite (query_consumed_cons (pack _ _) tl).
           rewrite !query_consumed_pack by (unfold BAM_CSOFT_CLIP; lia).
           rewrite Hcons. change (consumes_query BAM_CSOFT_CLIP) with true; cbv iota.
           split_and!; try lia; try reflexivity.
           ++ constructor; [apply pack_nonneg|].
              constructor; [apply pack_nonneg|exact Htl].
           ++ subst buf2 buf1. rewrite !length_insert. lia.
        -- intros H; inversion H; subst al'; simpl_cigar.
           rewrite (slice_store_head _ _ _ _ _ Hs1) by lia. fold tl.
           rewrite (query_consumed_cons (pack _ _) tl).
           rewrite !query_consumed_pack by lia.
           rewrite Hcons.
           split_and!; try lia; try reflexivity.
           ++ constructor; [apply pack_nonneg|exact Htl].
           ++ subst buf1. rewrite !length_insert. lia.
      * destruct (Z.ltb_spec 0 (Z.of_nat r)) as [Hrpos|Hrzero]; [|lia].
        destruct (store (rcigar al) _ _) as [buf2|] eqn:Hs2; [|discriminate].
        intros H; inversion H; subst al'; simpl_cigar.
        destruct (store_Some _ _ _ _ Hs2) as [Hr2 Eb2].
        rewrite (slice_store_before _ _ _ _ _ Hs2) by lia.
        rewrite (slice_cons (rcigar al)) by lia. fold c. fold tl.
        rewrite (query_consumed_cons (pack _ _) (_ :: tl)).
        rewrite (query_consumed_cons c tl).
        rewrite !query_consumed_pack by (unfold BAM_CSOFT_CLIP; lia).
        change (consumes_query BAM_CSOFT_CLIP) with true; cbv iota.
        split_and!; try lia; try reflexivity.
        -- constructor; [apply pack_nonneg|]. constructor; assumption.
        -- subst buf2. rewrite !length_insert. lia.
    + (* a new soft clip in the padding *)
      destruct (store (rcigar al) _ _) as [buf2|] eqn:Hs2; [|discriminate].
      intros H; inversion H; subst al'; simpl_cigar.
      destruct (store_Some _ _ _ _ Hs2) as [Hr2 Eb2].
      rewrite (slice_store_before _ _ _ _ _ Hs2) by lia.
      rewrite (slice_cons (rcigar al)) by lia. fold c. fold tl.
      rewrite (query_consumed_cons (pack _ _) (_ :: tl)).
      rewrite (query_consumed_cons c tl).
      pose proof (query_consumed_single_le c Hc).
      rewrite !query_consumed_pack by (unfold BAM_CSOFT_CLIP; lia).
      change (consumes_query BAM_CSOFT_CLIP) with true; cbv iota.
      split_and!; try lia; try reflexivity.
      * constructor; [apply pack_nonneg|]. constructor; assumption.
      * subst buf2. rewrite !length_insert. lia.
Qed.

Lemma softclip_tail_consumed (al al' : Alignment_ASW) :
  0 <= cigar_begin al < cigar_end al ->
  cigar_end al <= Z.of_nat (length (rcigar al)) ->
  Forall (fun c => 0 <= c) (cigar_of al) ->
  0 <= query_len al - (subquery al + subquery_len al) ->
  query_consumed (cigar_of al)
    + (query_len al - (subquery al + subquery_len al)) < 2 ^ 28 ->
  softclip_tail al = Ok al' ->
  query_consumed (cigar_of al') =
    query_consumed (cigar_of al)
    + (query_len al - (subquery al + subquery_len al)).
Proof.
  intros Hbe Hlen Hnn Hsq Hlt.
  unfold cigar_of in *.
  rewrite (slice_last (rcigar al)) in Hnn, Hlt |- * by lia.
  set (c := zrd (rcigar al) (cigar_end al - 1)) in *.
  set (hd := slice (rcigar al) (cigar_begin al) (cigar_end al - 1)) in *.
  apply Forall_app in Hnn. destruct Hnn as [Hhd Hc1].
  inversion Hc1 as [|c' tl' Hc _]; subst c' tl'.
  pose proof (query_consumed_nonneg hd Hhd) as Hhd0.
  pose proof (cigar_len_nonneg c Hc) as Hz0.
  pose proof (query_consumed_single_le c Hc) as Hc0.
  rewrite (query_consumed_app hd [c]) in Hlt |- *.
  unfold softclip_tail. rewrite Z.add_0_l.
  set (clip := query_len al - (subquery al + subquery_len al)) in *.
  rewrite (u32_small clip) by lia.
  destruct (Z.ltb_spec 0 clip) as [Hpos|Hzero].
  2:{ intros H; inversion H; subst al'.
      rewrite (slice_last (rcigar al)) by lia. fold c. fold hd.
      rewrite (query_consumed_app hd [c]). lia. }
  fold c.
  destruct (Z.eqb_spec (cigar_op c) BAM_CSOFT_CLIP) as [Eop|Nop].
  - (* extend an existing soft clip *)
    assert (Hq : query_consumed [c] = cigar_len c).
    { simpl. rewrite Eop. simpl. lia. }
    destruct (store _ _ _) as [buf|] eqn:Hs; [|discriminate].
    intros H; inversion H; subst al'; simpl_cigar.
    rewrite (slice_store_last _ _ _ _ _ Hs) by lia. fold hd.
    rewrite (u32_small (clip + cigar_len c)) by lia.
    rewrite (query_consumed_app hd [_]).
    rewrite query_consumed_pack by (unfold BAM_CSOFT_CLIP; lia).
    change (consumes_query BAM_CSOFT_CLIP) with true; cbv iota. lia.
  - destruct ((cigar_op c =? BAM_CSEQ_MATCH) || (cigar_op c =? BAM_CMATCH)) eqn:Em.
    + (* contract the clip over matching bases *)
      assert (Hq : query_consumed [c] = cigar_len c /\
                   consumes_query (cigar_op c) = true /\ 0 <= cigar_op c < 16).
      { apply orb_true_iff in Em. rewrite !Z.eqb_eq in Em. simpl.
        destruct Em as [-> | ->]; simpl; split_and!; try reflexivity;
          unfold BAM_CSEQ_MATCH, BAM_CMATCH; lia. }
      destruct Hq as (Hq & Hcons & Hop16).
      destruct (contract_clip _ _ _ _ _ _ _) as [r ma] eqn:Hcc.
      pose proof (contract_clip_sum (Z.to_nat clip) 1 (query al)
                    (db al) (u64 (subquery al + subquery_len al - 1))
                    (u64 (subdb al + offset al + subdb_len al - 1)) 0
                    ltac:(lia) ltac:(lia)) as (Hsum & Hma).
      rewrite Hcc in Hsum, Hma. simpl in Hsum, Hma.
      destruct (Z.ltb_spec 0 ma) as [Hmapos|Hmazero].
      * destruct (store (rcigar al) _ _) as [buf1|] eqn:Hs1; [|discriminate].
        destruct (store_Some _ _ _ _ Hs1) as [Hr1 Eb1].
        rewrite (u32_small (cigar_len c + ma)) in Hs1 by lia.
        destruct (Z.ltb_spec 0 (Z.of_nat r)) as [Hrpos|Hrzero].
        -- destruct (store buf1 _ _) as [buf2|] eqn:Hs2; [|discriminate].
           intros H; inversion H; subst al'; simpl_cigar.
           rewrite (slice_store_after _ _ _ _ _ Hs2) by lia.
           rewrite (slice_store_last _ _ _ _ _ Hs1) by lia. fold hd.
           rewrite !query_consumed_app.
           rewrite !query_consumed_pack by (unfold BAM_CSOFT_CLIP; lia).
           rewrite Hcons.
           change (consumes_query BAM_CSOFT_CLIP) with true; cbv iota. lia.
        -- intros H; inversion H; subst al'; simpl_cigar.
           rewrite (slice_store_last _ _ _ _ _ Hs1) by lia. fold hd.
           rewrite !query_consumed_app.
           rewrite !query_consumed_pack by lia.
           rewrite Hcons. lia.
      * destruct (Z.ltb_spec 0 (Z.of_nat r)) as [Hrpos|Hrzero]; [|lia].
        destruct (store (rcigar al) _ _) as [buf2|] eqn:Hs2; [|discriminate].
        intros H; inversion H; subst al'; simpl_cigar.
        rewrite (slice_store_after _ _ _ _ _ Hs2) by lia.
        rewrite (slice_last (rcigar al)) by lia. fold c. fold hd.
        rewrite !query_consumed_app.
        rewrite !query_consumed_pack by (unfold BAM_CSOFT_CLIP; lia).
        change (consumes_query BAM_CSOFT_CLIP) with true; cbv iota. lia.
    + (* a new soft clip in the padding *)
      destruct (store (rcigar al) _ _) as [buf2|] eqn:Hs2; [|discriminate].
      intros H; inversion H; subst al'; simpl_cigar.
      rewrite (slice_store_after _ _ _ _ _ Hs2) by lia.
      rewrite (slice_last (rcigar al)) by lia. fold c. fold hd.
      rewrite !query_consumed_app.
      rewrite !query_consumed_pack by (unfold BAM_CSOFT_CLIP; lia).
      change (consumes_query BAM_CSOFT_CLIP) with true; cbv iota. lia.
Qed.

(** X23. When [asw_trace] returns without having written outside the
    CIGAR buffer, the CIGAR between [cigar_begin] and [cigar_end]
    consumes exactly [subquery_len] query characters: the run lengths
    of its M, I, S, = and X operations add up to [subquery_len]; and
    when [asw_append_softclip] too stays inside the buffer, they add up
    to [query_len] once it has added the head and tail clips. *)
Theorem cigar_consumes_query (semi : bool) (al0 al1 : Alignment_ASW)
    (fuel : nat) :
  buffers_ok al0 -> lengths_fit al0 ->
  (Z.to_nat (subquery_len al0) + Z.to_nat (subdb_len al0) < fuel)%nat ->
  asw_trace fuel (aligned semi al0) = Ok al1 ->
  query_consumed (cigar_of al1) = subquery_len al0 /\
  (forall al2,
     0 <= subquery al0 ->
     subquery al0 + subquery_len al0 <= query_len al0 < 2 ^ 28 ->
     asw_append_softclip al1 = Ok al2 ->
     query_consumed (cigar_of al2) = query_len al0).
Proof.
  intros Hb Hfit Hfuel Ht.
  rewrite (aligned_eq semi al0 Hfit) in Ht.
  pose proof (locate_col_range (asw_align (align_init semi al0))) as Hcol.
  destruct (asw_align_lens (align_init semi al0)) as (E1 & _).
  destruct (align_init_lens semi al0) as (F1 & _).
  rewrite E1, F1 in Hcol.
  pose proof (asw_trace_walk semi al0
                (opt_score (asw_locate_minscore (asw_align (align_init semi al0))))
                (opt_score_col (asw_locate_minscore (asw_align (align_init semi al0))))
                fuel Hb Hfit) as Hw.
  change (set_opt (asw_align (align_init semi al0)) _ _)
    with (asw_locate_minscore (asw_align (align_init semi al0))) in Hw.
  rewrite Ht in Hw.
  destruct Hfit as (HW & HQ).
  destruct Hw as (Hqc & Hnn & Hoff & Hbe & Hend & Hlen & Eq & Es & Esl); try lia.
  split; [exact Hqc|].
  intros al2 Hsq Hql Hsc.
  unfold asw_append_softclip in Hsc.
  destruct ((subquery al1 <? 0) || (subdb al1 <? 0)); [discriminate|].
  destruct (softclip_head al1) as [alh| | | |] eqn:Hh; try discriminate.
  destruct (softclip_head_consumed al1 alh) as (Hq1 & Hn1 & Hb1 & Hl1 & G1 & G2 & G3);
    try assumption; try lia.
  rewrite (softclip_tail_consumed alh al2); try assumption; try lia.
Qed.

(** C4, the code at a failing input.  Reference [GGCGCACT], query
    [AGGATT], qualities [IIIIII], head clip 1, tail clip 0, default
    penalties, global mode.  [asw_trace] returns the CIGAR
    1= 1D 1= 1D 1= 1X 1=, which consumes the 5 query characters of the
    sub-view; its seven cells fill the buffer down to its first cell,
    [cigar_begin = rcigar], the two deletions having taken the cell of
    padding at the head.  [asw_append_softclip] cannot contract the head
    clip (A against G) and writes its soft clip to [cigar_begin - 1],
    one cell below the buffer. *)
Theorem append_softclip_overruns_buffer :
  exists al1,
    asw_trace 100 (aligned false gapped_example) = Ok al1 /\
    cigar_of al1
    = [pack 1 BAM_CSEQ_MATCH; pack 1 BAM_CDEL; pack 1 BAM_CSEQ_MATCH;
       pack 1 BAM_CDEL; pack 1 BAM_CSEQ_MATCH; pack 1 BAM_CSEQ_MISMATCH;
       pack 1 BAM_CSEQ_MATCH] /\
    subquery_len al1 = 5 /\ query_len al1 = 6 /\
    query_consumed (cigar_of al1) = 5 /\
    cigar_begin al1 = 0 /\
    store (rcigar al1) (cigar_begin al1 - 1) (pack 1 BAM_CSOFT_CLIP) = None /\
    asw_append_softclip al1 = Undefined.
Proof.
  eexists. split; [vm_compute; reflexivity|].
  vm_compute. repeat split.
Qed.

(** Where the head contraction has moved the offset below 0, the tail
    contraction reads the reference through the wrapped sum: on
    [contracted_example] the trace is 4= at offset 0; the head
    contraction takes one base of the clip and leaves the offset at
    2^64 - 1, and the tail contraction then compares the query with the
    reference one base to the left of the end of the alignment and
    takes one base as well: 1S 6= 1S. *)
Lemma append_softclip_wrapped_offset :
  exists al1 al2,
    asw_trace 100 (aligned false contracted_example) = Ok al1 /\
    cigar_of al1 = [pack 4 BAM_CSEQ_MATCH] /\ offset al1 = 0 /\
    asw_append_softclip al1 = Ok al2 /\
    cigar_of al2
    = [pack 1 BAM_CSOFT_CLIP; pack 6 BAM_CSEQ_MATCH; pack 1 BAM_CSOFT_CLIP] /\
    offset al2 = 2 ^ 64 - 1.
Proof.
  eexists. eexists. split; [vm_compute; reflexivity|].
  split; [vm_compute; reflexivity|].
  split; [vm_compute; reflexivity|].
  split; [vm_compute; reflexivity|].
  vm_compute. repeat split.
Qed.

(** ** Fusing = and X runs *)

Lemma zwr_store (buf : list Z) (i x : Z) :
  0 <= i < Z.of_nat (length buf) -> store buf i x = Some (zwr buf i x).
Proof.
  intros H. rewrite store_in_range by exact H. unfold zwr.
  destruct (Z.leb_spec 0 i); [reflexivity|lia].
Qed.

Lemma length_zwr (buf : list Z) (i x : Z) : length (zwr buf i x) = length buf.
Proof. unfold zwr. destruct (0 <=? i); [apply length_insert|reflexivity]. Qed.

Lemma slice_zwr_out (buf : list Z) (b e i x : Z) :
  0 <= b -> (i < b \/ e <= i) -> slice (zwr buf i x) b e = slice buf b e.
Proof.
  intros Hb Hi. unfold zwr. destruct (Z.leb_spec 0 i); [|reflexivity].
  apply slice_insert_out; lia.
Qed.

Lemma slice_zwr_head (buf : list Z) (i e x : Z) :
  0 <= i < e -> e <= Z.of_nat (length buf) ->
  slice (zwr buf i x) i e = x :: slice buf (i + 1) e.
Proof.
  intros Hi He. apply slice_store_head; [|lia]. apply zwr_store. lia.
Qed.

Lemma zrd_zwr_ne (buf : list Z) (i j x : Z) :
  i <> j -> zrd (zwr buf i x) j = zrd buf j.
Proof.
  intros Hne. unfold zwr, zrd.
  destruct (Z.leb_spec 0 i); [|reflexivity].
  destruct (Z.leb_spec 0 j); [|reflexivity].
  apply rd_insert_ne. lia.
Qed.

Lemma length_slice (buf : list Z) (b e : Z) :
  0 <= b <= e -> e <= Z.of_nat (length buf) ->
  length (slice buf b e) = Z.to_nat (e - b).
Proof.
  intros Hb He. unfold slice. rewrite length_take, length_drop. lia.
Qed.

Lemma compact_loop_S k rc buf start_riter num_matches :
  compact_loop (S k) rc buf start_riter num_matches =
  let cigar := zrd buf (rc + Z.of_nat (S k)) in
  if is_seq_op (cigar_op cigar) then
    match k with
    | O => (zwr buf start_riter
              (pack (u32 (num_matches + cigar_len cigar)) BAM_CMATCH),
            start_riter - 1)
    | S _ => compact_loop k rc buf start_riter
               (u32 (num_matches + cigar_len cigar))
    end
  else if 0 <? num_matches then
    compact_loop k rc
      (zwr (zwr buf start_riter (pack num_matches BAM_CMATCH))
           (start_riter - 1) cigar)
      (start_riter - 1 - 1) 0
  else compact_loop k rc (zwr buf start_riter cigar) (start_riter - 1) 0.
Proof. reflexivity. Qed.

(** The in-place loop computes [compact_rev] of the cells it has left
    to read, in front of what it has written. *)
Lemma compact_loop_rev (rc E : Z) :
  -1 <= rc ->
  forall (k : nat) (buf : list Z) (sr num : Z),
    rc + Z.of_nat k <= sr -> (0 < num -> rc + Z.of_nat k < sr) ->
    sr < E -> E <= Z.of_nat (length buf) ->
    let r := compact_loop k rc buf sr num in
    slice (fst r) (snd r + 1) E =
      compact_rev (rev (slice buf (rc + 1) (rc + 1 + Z.of_nat k))) num
                  (slice buf (sr + 1) E) /\
    rc <= snd r <= sr /\ length (fst r) = length buf.
Proof.
  intros Hrc. induction k as [|k IH]; intros buf sr num Hsr Hnum HE Hlen.
  - cbn [compact_loop fst snd]. cbv zeta.
    rewrite (slice_empty buf (rc + 1)) by lia.
    cbn [rev compact_rev fst snd]. split_and!; try reflexivity; lia.
  - rewrite compact_loop_S. cbv zeta.
    replace (rc + 1 + Z.of_nat (S k)) with (rc + 1 + Z.of_nat k + 1) by lia.
    rewrite slice_snoc by lia. rewrite rev_unit.
    replace (rc + 1 + Z.of_nat k) with (rc + Z.of_nat (S k)) by lia.
    set (c := zrd buf (rc + Z.of_nat (S k))).
    replace (rc + Z.of_nat (S k)) with (rc + 1 + Z.of_nat k) by lia.
    cbn [compact_rev].
    destruct (is_seq_op (cigar_op c)).
    + destruct k as [|k'].
      * rewrite (slice_empty buf (rc + 1)) by lia. cbn [rev fst snd].
        replace (sr - 1 + 1) with sr by lia.
        rewrite slice_zwr_head by lia. rewrite length_zwr.
        split_and!; try reflexivity; lia.
      * destruct (IH buf sr (u32 (num + cigar_len c))) as (H1 & H2 & H3);
          try lia.
        destruct (rev (slice buf (rc + 1) (rc + 1 + Z.of_nat (S k')))) as [|x l] eqn:El.
        { apply (f_equal (@length Z)) in El.
          rewrite length_rev, length_slice in El by lia. simpl in El. lia. }
        split_and!; try assumption; lia.
    + destruct (Z.ltb_spec 0 num) as [Hpos|Hzero].
      * specialize (Hnum Hpos).
        destruct (IH (zwr (zwr buf sr (pack num BAM_CMATCH)) (sr - 1) c)
                     (sr - 1 - 1) 0) as (H1 & H2 & H3);
          try (rewrite ?length_zwr; lia).
        rewrite !slice_zwr_out in H1 by lia.
        replace (sr - 1 - 1 + 1) with (sr - 1) in H1 by lia.
        rewrite slice_zwr_head in H1 by (rewrite ?length_zwr; lia).
        replace (sr - 1 + 1) with sr in H1 by lia.
        rewrite slice_zwr_head in H1 by lia.
        rewrite !length_zwr in H3.
        split_and!; try assumption; lia.
      * destruct (IH (zwr buf sr c) (sr - 1) 0) as (H1 & H2 & H3);
          try (rewrite ?length_zwr; lia).
        rewrite slice_zwr_out in H1 by lia.
        replace (sr - 1 + 1) with sr in H1 by lia.
        rewrite slice_zwr_head in H1 by lia.
        rewrite !length_zwr in H3.
        split_and!; try assumption; lia.
Qed.

Lemma scan_rev_app (l1 l2 : list Z) (num : Z) (out : list Z) :
  scan_rev (l1 ++ l2) num out =
  scan_rev l2 (fst (scan_rev l1 num out)) (snd (scan_rev l1 num out)).
Proof.
  revert num out. induction l1 as [|c l1 IH]; intros num out; simpl.
  - reflexivity.
  - destruct (is_seq_op _); apply IH.
Qed.

Lemma scan_rev_fuse (l : list Z) : scan_rev (rev l) 0 [] = fuse_lead l.
Proof.
  induction l as [|c l IH]; simpl; [reflexivity|].
  rewrite scan_rev_app, IH.
  destruct (fuse_lead l) as [n fused]. simpl.
  destruct (is_seq_op _); [f_equal; lia|reflexivity].
Qed.

Lemma total_len_app (l1 l2 : list Z) :
  total_len (l1 ++ l2) = total_len l1 + total_len l2.
Proof. induction l1 as [|c l1 IH]; simpl; [reflexivity|]. rewrite IH. lia. Qed.

Lemma total_len_rev (l : list Z) : total_len (rev l) = total_len l.
Proof.
  induction l as [|c l IH]; simpl; [reflexivity|].
  rewrite total_len_app, IH. simpl. lia.
Qed.

Lemma total_len_pos (l : list Z) :
  Forall (fun c => 1 <= cigar_len c) l -> 0 <= total_len l.
Proof. induction 1; simpl; lia. Qed.

Lemma compact_rev_scan (l : list Z) :
  Forall (fun c => 1 <= cigar_len c) l ->
  forall (num : Z) (out : list Z),
    0 <= num -> num + total_len l < 2 ^ 32 ->
    l <> [] \/ num = 0 ->
    compact_rev l num out =
    emit_M (fst (scan_rev l num out)) (snd (scan_rev l num out)).
Proof.
  induction 1 as [|c l Hc Hl IH]; intros num out Hnum Hlt Hne.
  - destruct Hne as [Hne| ->]; [congruence|]. reflexivity.
  - pose proof (total_len_pos l Hl) as Hl0.
    simpl in Hlt |- *.
    destruct (is_seq_op (cigar_op c)).
    + rewrite (u32_small (num + cigar_len c)) by lia.
      destruct l as [|c' l'].
      * simpl. unfold emit_M.
        destruct (Z.ltb_spec 0 (num + cigar_len c)); [reflexivity|lia].
      * apply IH; [lia|lia|left; discriminate].
    + destruct (Z.ltb_spec 0 num).
      * apply IH; [lia|lia|right; reflexivity].
      * apply IH; [lia|lia|right; reflexivity].
Qed.

Lemma compact_rev_fuse (l : list Z) :
  valid_cigar l -> compact_rev (rev l) 0 [] = fuse_runs l.
Proof.
  intros (Hpos & Hlt).
  rewrite compact_rev_scan.
  - rewrite scan_rev_fuse. unfold fuse_runs.
    destruct (fuse_lead l) as [n fused]. reflexivity.
  - apply List.Forall_rev. exact Hpos.
  - lia.
  - rewrite total_len_rev. lia.
  - right. reflexivity.
Qed.

Lemma compact_rev_no_seq (l : list Z) :
  forall (num : Z) (out : list Z),
    Forall (fun c => is_seq_op (cigar_op c) = false) out ->
    Forall (fun c => is_seq_op (cigar_op c) = false) (compact_rev l num out).
Proof.
  assert (HM : forall n, is_seq_op (cigar_op (pack n BAM_CMATCH)) = false).
  { intros n. rewrite cigar_op_pack by (unfold BAM_CMATCH; lia). reflexivity. }
  induction l as [|c l IH]; intros num out Hout; simpl; [exact Hout|].
  destruct (is_seq_op (cigar_op c)) eqn:Ec.
  - destruct l as [|c' l']; [constructor; [apply HM|exact Hout]|].
    apply IH. exact Hout.
  - destruct (0 <? num); apply IH; repeat (constructor; try assumption);
      apply HM.
Qed.

Lemma zwr_id (buf : list Z) (i : Z) :
  0 <= i < Z.of_nat (length buf) -> zwr buf i (zrd buf i) = buf.
Proof.
  intros Hi. unfold zwr, zrd, rd. destruct (Z.leb_spec 0 i); [|lia].
  destruct (lookup_lt_is_Some_2 buf (Z.to_nat i)) as [x Hx]; [lia|].
  rewrite Hx. simpl. apply list_insert_id. exact Hx.
Qed.

(** On a CIGAR without = and X the loop rewrites every cell with
    itself. *)
Lemma compact_loop_no_seq (rc : Z) :
  -1 <= rc ->
  forall (k : nat) (buf : list Z),
    rc + Z.of_nat k < Z.of_nat (length buf) ->
    Forall (fun c => is_seq_op (cigar_op c) = false)
           (slice buf (rc + 1) (rc + 1 + Z.of_nat k)) ->
    compact_loop k rc buf (rc + Z.of_nat k) 0 = (buf, rc).
Proof.
  intros Hrc. induction k as [|k IH]; intros buf Hlen Hns.
  - simpl. f_equal. lia.
  - rewrite compact_loop_S. cbv zeta.
    replace (rc + 1 + Z.of_nat (S k)) with (rc + 1 + Z.of_nat k + 1) in Hns by lia.
    rewrite slice_snoc in Hns by lia.
    apply Forall_app in Hns. destruct Hns as [Hns Hc].
    inversion Hc as [|c' tl' Hc1 _]; subst c' tl'.
    replace (rc + 1 + Z.of_nat k) with (rc + Z.of_nat (S k)) in Hc1 by lia.
    rewrite Hc1. change (0 <? 0) with false. cbv iota.
    rewrite zwr_id by lia.
    replace (rc + Z.of_nat (S k) - 1) with (rc + Z.of_nat k) by lia.
    apply IH; [lia|exact Hns].
Qed.

Lemma asw_compact_trace_eq (al : Alignment_ASW) (buf' : list Z) (sr' : Z) :
  compact_loop (Z.to_nat (cigar_end al - cigar_begin al))
    (cigar_begin al - 1) (rcigar al) (cigar_end al - 1) 0 = (buf', sr') ->
  asw_compact_trace al =
  set_cigar al buf' (sr' + 1) (cigar_end al) (offset al).
Proof. intros H. unfold asw_compact_trace. rewrite H. reflexivity. Qed.

(** C7. [asw_compact_trace] replaces every group of adjacent = and X
    runs by one M run of the summed length and copies every other
    operation as it is (for a CIGAR of positive run lengths that add up
    to less than 2^28); and a second invocation changes nothing. *)
Theorem compact_trace_fuses_idempotent (al : Alignment_ASW) :
  cigar_in_buffer al ->
  (valid_cigar (cigar_of al) ->
   cigar_of (asw_compact_trace al) = fuse_runs (cigar_of al)) /\
  asw_compact_trace (asw_compact_trace al) = asw_compact_trace al.
Proof.
  intros (Hbe & Hlen).
  pose proof (compact_loop_rev (cigar_begin al - 1) (cigar_end al)
                ltac:(lia) (Z.to_nat (cigar_end al - cigar_begin al))
                (rcigar al) (cigar_end al - 1) 0
                ltac:(lia) ltac:(lia) ltac:(lia) Hlen) as Hrev.
  cbv zeta in Hrev.
  destruct (compact_loop _ _ (rcigar al) _ _) as [buf' sr'] eqn:Hcl.
  cbn [fst snd] in Hrev. destruct Hrev as (Hsl & Hsr & Hl').
  replace (cigar_begin al - 1 + 1) with (cigar_begin al) in Hsl by lia.
  replace (cigar_begin al + Z.of_nat (Z.to_nat (cigar_end al - cigar_begin al)))
    with (cigar_end al) in Hsl by lia.
  replace (cigar_end al - 1 + 1) with (cigar_end al) in Hsl by lia.
  rewrite (slice_empty (rcigar al) (cigar_end al)) in Hsl by lia.
  rewrite (asw_compact_trace_eq al buf' sr' Hcl).
  split.
  - intros Hv. unfold cigar_of at 1. simpl_cigar. rewrite Hsl.
    apply compact_rev_fuse. exact Hv.
  - rewrite (asw_compact_trace_eq _ buf' sr'); [reflexivity|].
    simpl_cigar.
    replace (Z.to_nat (cigar_end al - (sr' + 1)))
      with (Z.to_nat (cigar_end al - 1 - sr')) by lia.
    replace (sr' + 1 - 1) with sr' by lia.
    replace (cigar_end al - 1)
      with (sr' + Z.of_nat (Z.to_nat (cigar_end al - 1 - sr'))) at 2 by lia.
    apply compact_loop_no_seq.
    + lia.
    + lia.
    + replace (sr' + 1 + Z.of_nat (Z.to_nat (cigar_end al - 1 - sr')))
        with (cigar_end al) by lia.
      rewrite Hsl. apply compact_rev_no_seq. constructor.
Qed.

(** ** Soft-clipping the ends *)

(** C6, the code at a failing input. Reference [CG], query [AG],
    global mode: the trace is 1X 1= at offset 0. One invocation of
    [asw_softclip_trace] gives 1S 1= at offset 1; a second one leaves
    the range and the cells as they are and moves the offset to 2: the
    head scan adds the length of the soft clip it wrote the first time
    to the offset again. *)
Theorem softclip_trace_twice_moves_offset :
  exists al1,
    asw_trace 100 (aligned false (prepared default_engine "CG" "AG" "II"))
      = Ok al1 /\
    cigar_of al1 = [pack 1 BAM_CSEQ_MISMATCH; pack 1 BAM_CSEQ_MATCH] /\
    offset al1 = 0 /\
    cigar_of (asw_softclip_trace al1)
      = [pack 1 BAM_CSOFT_CLIP; pack 1 BAM_CSEQ_MATCH] /\
    offset (asw_softclip_trace al1) = 1 /\
    rcigar (asw_softclip_trace (asw_softclip_trace al1))
      = rcigar (asw_softclip_trace al1) /\
    cigar_begin (asw_softclip_trace (asw_softclip_trace al1))
      = cigar_begin (asw_softclip_trace al1) /\
    cigar_end (asw_softclip_trace (asw_softclip_trace al1))
      = cigar_end (asw_softclip_trace al1) /\
    offset (asw_softclip_trace (asw_softclip_trace al1)) = 2.
Proof.
  eexists. split; [vm_compute; reflexivity|].
  vm_compute. repeat split.
Qed.

(** The same on the clipped pipeline: after [asw_append_softclip] the
    CIGAR of [clipped_example] is 2S 4= 2S at offset 0; the first
    invocation of [asw_softclip_trace] moves the offset to 2 and the
    second to 4, the cells staying as they are. *)
Lemma softclip_trace_after_append_moves_offset :
  exists al1 al2,
    asw_trace 100 (aligned false clipped_example) = Ok al1 /\
    asw_append_softclip al1 = Ok al2 /\
    cigar_of al2
      = [pack 2 BAM_CSOFT_CLIP; pack 4 BAM_CSEQ_MATCH; pack 2 BAM_CSOFT_CLIP] /\
    offset al2 = 0 /\
    cigar_of (asw_softclip_trace al2) = cigar_of al2 /\
    offset (asw_softclip_trace al2) = 2 /\
    cigar_of (asw_softclip_trace (asw_softclip_trace al2)) = cigar_of al2 /\
    offset (asw_softclip_trace (asw_softclip_trace al2)) = 4.
Proof.
  eexists. eexists. split; [vm_compute; reflexivity|].
  split; [vm_compute; reflexivity|].
  vm_compute. repeat split.
Qed.

(** The CIGAR buffer has [subquery_len + 4] cells of which two are
    padding at the tail; a trace of more than [subquery_len + 2]
    operations writes below its start.  With a match penalty of -1000
    the alignment of query [ACGA] to reference [ATCTGTA] is
    1= 1D 1= 1D 1= 1D 1=, seven operations for four query bases. *)
Lemma asw_trace_buffer_overrun :
  asw_trace 100 (aligned false (prepared rewarding_engine "ATCTGTA" "ACGA" "IIII"))
  = Undefined.
Proof. vm_compute. reflexivity. Qed.

(** With the default penalties too a trace can have more than
    [subquery_len + 2] operations: the alignment of query [CGTCGGCC] to
    reference [CAGATACAGAC] is 1= 1D 1= 1D 1= 1D 1= 1X 1= 1X 1=, eleven
    operations for eight query bases. *)
Lemma asw_trace_buffer_overrun_default :
  asw_trace 100
    (aligned false (prepared default_engine "CAGATACAGAC" "CGTCGGCC" "IIIIIIII"))
  = Undefined.
Proof. vm_compute. reflexivity. Qed.

(** ** The theorems at concrete alignments *)

Ltac concrete_buffers := vm_compute; repeat split; repeat constructor.
Ltac concrete_lengths := vm_compute; repeat split; intros; discriminate.

Lemma align_interior_cell_witness :
  (rd2 (matTra (asw_align
          (align_init false (prepared default_engine "ACGT" "ACCT" "IIII"))))
       3 3,
   score_of (align_init false (prepared default_engine "ACGT" "ACCT" "IIII")) 3 3)
  = (pack 1 BAM_CSEQ_MISMATCH, 40).
Proof.
  pose proof (align_interior_cell false
                (prepared default_engine "ACGT" "ACCT" "IIII") 3 3
                ltac:(concrete_buffers) ltac:(concrete_lengths)
                ltac:(vm_compute; lia) ltac:(vm_compute; lia)) as H.
  cbv zeta in H. destruct H as (_ & _ & _ & _ & H).
  rewrite H. vm_compute. reflexivity.
Defined.

Lemma is_match_query_N_witness :
  is_seq_match_of (prepared default_engine "ACGT" "ANGT" "IIII") 2 2 = true <->
  (ref_base (prepared default_engine "ACGT" "ANGT" "IIII") 2
   = query_base (prepared default_engine "ACGT" "ANGT" "IIII") 2 \/
   query_base (prepared default_engine "ACGT" "ANGT" "IIII") 2 = AMBIGUOUS_BASE).
Proof.
  exact (proj1 (is_match_query_N
                  (prepared default_engine "ACGT" "ANGT" "IIII") 2 2
                  ltac:(lia) ltac:(lia))).
Defined.

Lemma align_init_top_row_witness :
  rd (vecPen_m_act (asw_align_init
        (prepared default_engine "ACGT" "ACCT" "IIII"))) 1 = 50.
Proof.
  pose proof (align_init_top_row (prepared default_engine "ACGT" "ACCT" "IIII")
                ltac:(concrete_buffers)) as H.
  cbv zeta in H. destruct H as (_ & H & _).
  rewrite H; [reflexivity|vm_compute; lia].
Defined.

Lemma cigar_consumes_query_witness :
  query_consumed
    (cigar_of (ok_or (asw_trace 100 (aligned false clipped_example))
                     clipped_example)) = 4 /\
  query_consumed
    (cigar_of (ok_or (asw_append_softclip
                        (ok_or (asw_trace 100 (aligned false clipped_example))
                               clipped_example))
                     clipped_example)) = 8.
Proof.
  pose proof (cigar_consumes_query false clipped_example
                (ok_or (asw_trace 100 (aligned false clipped_example))
                       clipped_example) 100
                ltac:(concrete_buffers) ltac:(concrete_lengths)
                ltac:(vm_compute; lia) ltac:(vm_compute; reflexivity))
    as [H1 H2].
  split; [exact H1|].
  apply H2; [vm_compute; discriminate | vm_compute; split; [discriminate|reflexivity]
            | vm_compute; reflexivity].
Defined.

Lemma compact_trace_fuses_idempotent_witness :
  cigar_of (asw_compact_trace
              (ok_or (asw_trace 100
                        (aligned false
                           (prepared default_engine "ACGT" "ACCT" "IIII")))
                     default_engine))
  = [pack 4 BAM_CMATCH] /\
  asw_compact_trace
    (asw_compact_trace
       (ok_or (asw_trace 100
                 (aligned false (prepared default_engine "ACGT" "ACCT" "IIII")))
              default_engine))
  = asw_compact_trace
      (ok_or (asw_trace 100
                (aligned false (prepared default_engine "ACGT" "ACCT" "IIII")))
             default_engine).
Proof.
  pose proof (compact_trace_fuses_idempotent
                (ok_or (asw_trace 100
                          (aligned false
                             (prepared default_engine "ACGT" "ACCT" "IIII")))
                       default_engine)
                ltac:(vm_compute; repeat split; discriminate)) as [H1 H2].
  split; [|exact H2].
  rewrite H1; [vm_compute; reflexivity|].
  vm_compute. split; [repeat constructor; discriminate|reflexivity].
Defined.

Lemma prepare_clip_within_witness :
  subquery_len
    (snd (asw_prepare default_engine (bytes_of_string "TTACGTTT") 8
            (bytes_of_string "GGACGTCC") (bytes_of_string "IIIIIIII") 8 2 2))
  = 8 - 2 - 2.
Proof.
  pose proof (prepare_clip_within default_engine (bytes_of_string "TTACGTTT") 8
                (bytes_of_string "GGACGTCC") (bytes_of_string "IIIIIIII") 8 2 2
                ltac:(lia) ltac:(lia) ltac:(lia) ltac:(lia)) as (H & _).
  cbv zeta in H. apply H. vm_compute. reflexivity.
Defined.

(** ** Buffer sizes after prepare *)

Lemma cells_of_row (x : Z) :
  0 <= x < 2 ^ 61 -> cells_of (u64 (4 * u64 (x + 1))) = S (Z.to_nat x).
Proof.
  intros Hx. unfold cells_of.
  rewrite (u64_small (x + 1)) by lia.
  rewrite (u64_small (4 * (x + 1))) by lia.
  rewrite (Z.mul_comm 4), Z.div_mul by lia. lia.
Qed.

Lemma resize_matrix1_sized (al : Alignment_ASW) (tra tra' : list (list Z))
    (x y : Z) :
  0 <= subdb_len al < 2 ^ 61 -> 0 <= subquery_len al < 2 ^ 61 ->
  0 <= x < 2 ^ 61 -> 0 <= y < 2 ^ 61 ->
  length tra = S (Z.to_nat (subquery_len al)) ->
  (subdb_len al <> 0 ->
   Forall (fun row => length row = S (Z.to_nat (subdb_len al))) tra) ->
  resize_matrix1 al tra x y = Some tra' ->
  length tra' = S (Z.to_nat y) /\
  (x <> 0 -> Forall (fun row => length row = S (Z.to_nat x)) tra').
Proof.
  intros Hox Hoy Hx Hy Hlen Hrows. unfold resize_matrix1.
  rewrite (cells_of_row x Hx).
  rewrite (u64_small (y + 1)) by lia.
  rewrite (u64_small (subquery_len al + 1)) by lia.
  rewrite (u64_small (Z.min (subquery_len al) y + 1)) by lia.
  set (W := S (Z.to_nat x)).
  set (top := Z.to_nat (Z.min (subquery_len al) y + 1)).
  (* after the first step the matrix is [A ++ B]: [top] rows kept from
     the old matrix, then the fresh rows *)
  assert (Hstep1 : forall tra1,
            (if negb (subquery_len al =? y) then
               if negb (p_realloc al (u64 (8 * (y + 1)))) then None
               else
                 if negb ((Z.to_nat (y + 1) - Z.to_nat (subquery_len al + 1))%nat =? 0)%nat
                    && negb (p_realloc al (u64 (4 * u64 (x + 1))))
                 then None
                 else Some (take (Z.to_nat (y + 1)) tra ++
                            replicate (Z.to_nat (y + 1) - Z.to_nat (subquery_len al + 1))
                                      (replicate W 0))
             else Some tra) = Some tra1 ->
            exists A B, tra1 = A ++ B /\ length A = top /\
                        Forall (fun row => length row = W) B /\
                        A = take top tra /\ length tra1 = S (Z.to_nat y)).
  { intros tra1.
    destruct (Z.eqb_spec (subquery_len al) y) as [Ey|Ney]; simpl.
    - intros H; inversion H; subst tra1. exists tra, [].
      rewrite app_nil_r. split_and!; try reflexivity.
      + unfold top. lia.
      + constructor.
      + rewrite take_ge; [reflexivity|unfold top; lia].
      + lia.
    - destruct (p_realloc al (u64 (8 * (y + 1)))); simpl; [|discriminate].
      destruct (negb _ && negb _); [discriminate|].
      intros H; inversion H; subst tra1.
      exists (take top tra),
             (replicate (Z.to_nat (y + 1) - Z.to_nat (subquery_len al + 1))
                        (replicate W 0)).
      split_and!.
      + f_equal. destruct (Z.leb_spec y (subquery_len al)).
        * unfold top. f_equal. lia.
        * rewrite !take_ge; [reflexivity|unfold top; lia|lia].
      + rewrite length_take. unfold top. lia.
      + apply Forall_replicate. apply length_replicate.
      + reflexivity.
      + rewrite length_app, length_take, length_replicate. lia. }
  destruct (if negb (subquery_len al =? y) then _ else _) as [tra1|] eqn:E1;
    [|discriminate].
  destruct (Hstep1 tra1 eq_refl) as (A & B & -> & HA & HB & EA & Hl1).
  clear E1 Hstep1.
  destruct (Z.eqb_spec (subdb_len al) x) as [Ex|Nex]; simpl.
  - intros H; inversion H; subst tra'. split; [exact Hl1|].
    intros Hx0. apply Forall_app. split; [|exact HB].
    subst A. apply Forall_take. unfold W. rewrite <- Ex. apply Hrows. lia.
  - destruct (negb _ && negb _); [intros H; discriminate H|].
    intros H; inversion H; subst tra'.
    rewrite take_app_length' by (symmetry; exact HA).
    rewrite drop_app_length' by (symmetry; exact HA).
    split.
    + rewrite length_app, length_map. rewrite length_app in Hl1. exact Hl1.
    + intros _. apply Forall_app. split; [|exact HB].
      apply List.Forall_map. apply Forall_forall. intros row _.
      apply length_resize_list.
Qed.

Lemma asw_alloc_sized (alloc : Z -> bool) : engine_sized (asw_alloc alloc).
Proof.
  unfold engine_sized; simpl. split_and!; try lia; try reflexivity.
Qed.

(** A prepare that returns 0 for clips that fit leaves the buffers
    sized for the new sub-views. *)
Lemma asw_prepare_sized (al : Alignment_ASW) (m_db : list Z) (m_db_len : Z)
    (m_query m_qual : list Z) (m_query_len clip_head clip_tail : Z) :
  engine_sized al ->
  0 <= clip_head -> 0 <= clip_tail ->
  clip_head + clip_tail <= m_db_len < 2 ^ 61 ->
  clip_head + clip_tail <= m_query_len < 2 ^ 61 ->
  fst (asw_prepare al m_db m_db_len m_query m_qual m_query_len
         clip_head clip_tail) = 0 ->
  engine_sized (snd (asw_prepare al m_db m_db_len m_query m_qual m_query_len
                       clip_head clip_tail)).
Proof.
  intros (Hox & Hoy & Hlen & Hbuf) Hh Ht Hd Hq.
  unfold asw_prepare.
  rewrite (clip_len_exact m_db_len) by lia.
  rewrite (clip_len_exact m_query_len) by lia.
  set (x := m_db_len - clip_head - clip_tail).
  set (y := m_query_len - clip_head - clip_tail).
  destruct (resize_matrix1 _ _ x y) as [tra|] eqn:Er;
    [|simpl; intros H; discriminate H].
  destruct (resize_matrix1_sized _ _ _ x y Hox Hoy ltac:(unfold x; lia)
              ltac:(unfold y; lia) Hlen
              (fun H => proj2 (proj2 (proj2 (proj2 (proj2 (proj2 (proj2 (Hbuf H))))))))
              Er) as (Hl & Hw).
  unfold resize_rows. cbn [subdb_len set_views p_realloc].
  destruct (Z.eqb_spec (subdb_len al) x) as [Ex|Nex]; cbn [negb].
  - intros _. unfold engine_sized, buffers_ok, mat_ok; simpl.
    split_and!; try (unfold x, y; lia); try exact Hl.
    intros Hx0. destruct (Hbuf Hx0) as (B1 & B2 & B3 & B4 & B5 & B6 & _).
    split_and!; try assumption. rewrite Ex. apply Hw. rewrite <- Ex. exact Hx0.
  - destruct (p_realloc al _); cbn [negb]; [|simpl; intros H; discriminate H].
    intros _. unfold engine_sized, buffers_ok, mat_ok; simpl.
    split_and!; try (unfold x, y; lia); try exact Hl.
    intros Hx0. unfold resize_vec. rewrite (cells_of_row x) by (unfold x; lia).
    rewrite !length_resize_list.
    split_and!; try reflexivity; try exact Hl. apply Hw. exact Hx0.
Qed.

Lemma engine_sized_buffers_ok (al : Alignment_ASW) :
  engine_sized al -> 0 < subdb_len al -> buffers_ok al.
Proof. intros (_ & _ & _ & H) Hpos. apply H. lia. Qed.

(** ** The scores of the rows *)

Lemma sint_add_sint a b : sint (a + sint b) = sint (a + b).
Proof. rewrite Z.add_comm, sint_sint_add. f_equal; lia. Qed.

Lemma row_upto_pen_left al m a k n j :
  (j <= n <= k)%nat ->
  rd (r_vecPen_m1 (row_upto al m a k)) j =
  rd (r_vecPen_m1 (row_upto al m a n)) j.
Proof.
  intros Hj. induction k as [|k IH].
  - replace n with O by lia. reflexivity.
  - destruct (decide (n = S k)) as [->|Hne]; [reflexivity|].
    rewrite row_upto_S. unfold align_body; simpl.
    rewrite rd_insert_ne by lia. apply IH. lia.
Qed.

Lemma row_upto_ins_left al m a k n j :
  (j <= n <= k)%nat ->
  rd (r_vecIns_m1 (row_upto al m a k)) j =
  rd (r_vecIns_m1 (row_upto al m a n)) j.
Proof.
  intros Hj. induction k as [|k IH].
  - replace n with O by lia. reflexivity.
  - destruct (decide (n = S k)) as [->|Hne]; [reflexivity|].
    rewrite row_upto_S. unfold align_body; simpl.
    rewrite rd_insert_ne by lia. apply IH. lia.
Qed.

Lemma row_score_S al m n j :
  (j <= n <= Z.to_nat (subdb_len al))%nat ->
  row_score al (S m) j =
  rd (r_vecPen_m1 (row_upto al m (align_upto al m) n)) j.
Proof.
  intros Hj. unfold row_score. rewrite align_upto_S. unfold align_row; simpl.
  apply row_upto_pen_left. lia.
Qed.

Lemma score_of_row_score al i j :
  (1 <= i)%nat -> (j <= Z.to_nat (subdb_len al))%nat ->
  score_of al i j = row_score al i j.
Proof.
  intros Hi Hj. destruct i as [|m]; [lia|].
  unfold score_of. replace (S m - 1)%nat with m by lia.
  symmetry. apply row_score_S. lia.
Qed.

Lemma pen_sum_S table al r z :
  pen_sum table al r (S z) =
  pen_sum table al r z + penalty table al (qq_of al (r + z)).
Proof. reflexivity. Qed.

Lemma ins_cost_S al r z :
  ins_cost al r (S z) =
  ins_cost al r z + penalty (gext_penalty al) al (qq_of al (r + z)).
Proof. unfold ins_cost. rewrite pen_sum_S. lia. Qed.

Lemma ins_cost_1 al r :
  ins_cost al r 1 = penalty (gopen_penalty al) al (qq_of al r).
Proof. unfold ins_cost. simpl. rewrite Nat.add_0_r. lia. Qed.

Lemma del_cost_1 al : del_cost al 1 = GAP_OPEN_EXTEND al.
Proof. unfold del_cost. lia. Qed.

Lemma del_cost_S al z : del_cost al (z + 1) = del_cost al z + GAP_EXTEND al.
Proof. unfold del_cost. lia. Qed.

(** The candidates of one cell, read off [align_cell]. *)
Lemma align_cell_del GOE GE mp mmp gop gep ism pd pu iu eu pl sd cD :
  let c := align_cell GOE GE mp mmp gop gep ism pd pu iu eu pl sd cD in
  (c_wD c, c_cD c) =
  (if sint (pl + GOE) <? sint (sd + GE)
   then (sint (pl + GOE), 1) else (sint (sd + GE), u32 (cD + 1))).
Proof.
  unfold align_cell.
  destruct (_ <? _), (_ <? _), ism; simpl;
    repeat (destruct (_ <? _); simpl); reflexivity.
Qed.

Lemma align_cell_ins GOE GE mp mmp gop gep ism pd pu iu eu pl sd cD :
  let c := align_cell GOE GE mp mmp gop gep ism pd pu iu eu pl sd cD in
  (c_wI c, c_cI c) =
  (if sint (pu + gop) <? sint (iu + gep)
   then (sint (pu + gop), 1) else (sint (iu + gep), u32 (eu + 1))).
Proof.
  unfold align_cell.
  destruct (sint (pl + GOE) <? sint (sd + GE)), (_ <? _), ism; simpl;
    repeat (destruct (_ <? _); simpl); reflexivity.
Qed.

Lemma align_cell_pick GOE GE mp mmp gop gep ism pd pu iu eu pl sd cD :
  let c := align_cell GOE GE mp mmp gop gep ism pd pu iu eu pl sd cD in
  (c_tra c = pack (c_cD c) BAM_CDEL /\ c_pen c = c_wD c) \/
  (c_tra c = pack (c_cI c) BAM_CINS /\ c_pen c = c_wI c) \/
  (c_tra c = pack 1 BAM_CSEQ_MATCH /\ ism = true /\ c_pen c = sint (pd + mp)) \/
  (c_tra c = pack 1 BAM_CSEQ_MISMATCH /\ ism = false /\ c_pen c = sint (pd + mmp)).
Proof.
  unfold align_cell.
  destruct (sint (pl + GOE) <? sint (sd + GE)), (_ <? _), ism; simpl;
    repeat (destruct (_ <? _); simpl); auto 10.
Qed.

Section Scores.

Variable al : Alignment_ASW.
Hypothesis Hinit : initialized al.


Lemma initialized_inv (k : nat) :
  (k <= Z.to_nat (subquery_len al))%nat -> align_inv al k (align_upto al k).
Proof.
  destruct Hinit as (Hb & HW & HQ & Hz & _). intros Hk.
  apply align_upto_inv; try assumption; try lia.
Qed.

Lemma initialized_row_inv (m n : nat) :
  (m < Z.to_nat (subquery_len al))%nat -> (n <= Z.to_nat (subdb_len al))%nat ->
  row_inv al m (align_upto al m) n (row_upto al m (align_upto al m) n).
Proof.
  destruct Hinit as (Hb & HW & HQ & Hz & _). intros Hm Hn.
  apply row_upto_inv; try lia.
  apply initialized_inv. lia.
Qed.

(** The insertion row after [k] rows: the run that ends at [(k, j)]
    started from the score of the cell [z] rows up. *)
Lemma ins_row_scored (k : nat) :
  (k <= Z.to_nat (subquery_len al))%nat ->
  forall j, (j <= Z.to_nat (subdb_len al))%nat ->
    exists z : nat,
      rd (a_I_ext_m (align_upto al k)) j = Z.of_nat z /\ (z <= k)%nat /\
      rd (a_vecIns_m (align_upto al k)) j =
        sint (row_score al (k - z) j + ins_cost al (k - z) z).
Proof.
  induction k as [|m IH]; intros Hk j Hj.
  - destruct Hinit as (Hb & HW & HQ & Hz & Hins).
    exists O. unfold align_upto, align_start; simpl.
    split_and!; [apply Hz; exact Hj|lia|].
    rewrite Hins by exact Hj. unfold gopen_true_pen_of, row_score, ins_cost.
    simpl. rewrite sint_add_sint. f_equal; lia.
  - destruct (IH ltac:(lia) j Hj) as (z & Ez & Hzm & Ei).
    pose proof (initialized_inv m ltac:(lia))
      as ((Lp & Li & Le & Lp1 & Li1 & Le1 & Lm) & _).
    pose proof Hinit as (Hb & HW & HQ & Hz & Hins).
    rewrite align_upto_S. unfold align_row; simpl.
    rewrite (row_upto_ins_left al m _ _ j) by lia.
    rewrite (row_upto_ext_left al m _ _ j) by lia.
    destruct j as [|n].
    + (* leftmost column: the run is extended *)
      unfold row_upto, row_start; simpl.
      rewrite !rd_insert_eq by lia.
      exists (S z). rewrite Ez, Ei.
      rewrite (u32_small (Z.of_nat z + 1)) by lia.
      split_and!; [lia|lia|].
      replace (S m - S z)%nat with (m - z)%nat by lia.
      rewrite ins_cost_S. replace (m - z + z)%nat with m by lia.
      rewrite sint_sint_add. unfold row_env_of, qq_of; simpl.
      f_equal; lia.
    + rewrite row_upto_S.
      destruct (row_upto_sizes al m (align_upto al m) n _ _ Lp1 Li1 Le1 Lm)
        as (Rp & Ri & Re & Rm).
      unfold align_body; simpl. rewrite !rd_insert_eq by lia.
      unfold cell_at.
      match goal with
      | |- context [align_cell ?a ?b ?c ?d ?e ?f ?g ?h ?i ?j ?k ?l ?m' ?n'] =>
        pose proof (align_cell_ins a b c d e f g h i j k l m' n') as Hc;
        set (cc := align_cell a b c d e f g h i j k l m' n') in *
      end.
      cbv zeta in Hc.
      destruct (_ <? _) in Hc; inversion Hc as [[H1 H2]]; clear Hc; rewrite H1, H2.
      * exists 1%nat. split_and!; [reflexivity|lia|].
        replace (S m - 1)%nat with m by lia.
        rewrite ins_cost_1. unfold row_score, row_env_of, qq_of; simpl.
        reflexivity.
      * exists (S z). rewrite Ez, Ei.
        rewrite (u32_small (Z.of_nat z + 1)) by lia.
        split_and!; [lia|lia|].
        replace (S m - S z)%nat with (m - z)%nat by lia.
        rewrite ins_cost_S. replace (m - z + z)%nat with m by lia.
        rewrite sint_sint_add. unfold row_env_of, qq_of; simpl.
        f_equal; lia.
Qed.

(** The deletion candidate carried along row [S m]: the run that ends
    at column [n] started from the score of the cell [cD] columns to
    the left. *)
Lemma del_run_scored (m n : nat) :
  (m < Z.to_nat (subquery_len al))%nat -> (n <= Z.to_nat (subdb_len al))%nat ->
  let s := row_upto al m (align_upto al m) n in
  exists z : nat,
    r_cD s = Z.of_nat z /\ (z <= n)%nat /\ (n <> O -> (1 <= z)%nat) /\
    r_storedDel_score s =
      sint (row_score al (S m) (n - z) + del_cost al (Z.of_nat z)).
Proof.
  intros Hm. induction n as [|n IH]; intros Hn; cbv zeta.
  - exists O.
    pose proof (initialized_inv m ltac:(lia))
      as ((Lp & Li & Le & Lp1 & Li1 & Le1 & Lm) & _).
    rewrite (row_score_S al m 0) by lia.
    unfold row_upto, row_start; simpl.
    split_and!; [lia|lia|lia|].
    rewrite rd_insert_eq by lia. rewrite sint_add_sint.
    f_equal; unfold del_cost; lia.
  - destruct (IH ltac:(lia)) as (z & Ez & Hzn & _ & Es).
    pose proof Hinit as (Hb & HW & HQ & Hz & Hins).
    rewrite row_upto_S. unfold align_body; simpl. unfold cell_at.
    match goal with
    | |- context [align_cell ?a ?b ?c ?d ?e ?f ?g ?h ?i ?j ?k ?l ?m' ?n'] =>
      pose proof (align_cell_del a b c d e f g h i j k l m' n') as Hc;
      set (cc := align_cell a b c d e f g h i j k l m' n') in *
    end.
    cbv zeta in Hc.
    destruct (_ <? _) in Hc; inversion Hc as [[H1 H2]]; clear Hc; rewrite H1, H2.
    + exists 1%nat. split_and!; [reflexivity|lia|lia|].
      replace (S n - 1)%nat with n by lia.
      rewrite del_cost_1. rewrite (row_score_S al m n) by lia. reflexivity.
    + exists (S z). rewrite Ez, Es.
      rewrite (u32_small (Z.of_nat z + 1)) by lia.
      split_and!; [lia|lia|lia|].
      replace (S n - S z)%nat with (n - z)%nat by lia.
      replace (Z.of_nat (S z)) with (Z.of_nat z + 1) by lia.
      rewrite del_cost_S, sint_sint_add. f_equal; lia.
Qed.

(** The trace cell the inner loop writes at [(S m, S n)] and the score
    it stores there. *)
Lemma interior_cell_scored (m n : nat) :
  (m < Z.to_nat (subquery_len al))%nat -> (n < Z.to_nat (subdb_len al))%nat ->
  cell_scored al (S m) (S n) (rd2 (a_matTra (align_upto al (S m))) (S m) (S n)).
Proof.
  intros Hm Hn.
  pose proof (initialized_inv m ltac:(lia))
    as ((Lp & Li & Le & Lp1 & Li1 & Le1 & Lm) & _).
  destruct (row_upto_sizes al m (align_upto al m) n _ _ Lp1 Li1 Le1 Lm)
    as (Rp & Ri & Re & Rm).
  destruct (del_run_scored m n Hm ltac:(lia)) as (zd & Ed & Hzd & _ & Esd).
  destruct (ins_row_scored m ltac:(lia) (S n) ltac:(lia)) as (zi & Ei & Hzi & Esi).
  destruct Hinit as (Hb & HW & HQ & Hz & Hins).
  (* the score and the trace cell are those of the cell just computed *)
  rewrite align_upto_S. unfold align_row; simpl.
  rewrite (row_upto_left al m _ _ (S n)) by lia.
  unfold cell_scored.
  rewrite (row_score_S al m (S n) (S n)) by lia.
  rewrite row_upto_S. unfold align_body; simpl.
  rewrite (rd2_wr2_eq _ _ _ _ _ _ Rm) by lia.
  rewrite rd_insert_eq by lia.
  unfold cell_at.
  match goal with
  | |- context [align_cell ?a ?b ?c ?d ?e ?f ?g ?h ?i ?j ?k ?l ?m' ?n'] =>
    pose proof (align_cell_del a b c d e f g h i j k l m' n') as HcD;
    pose proof (align_cell_ins a b c d e f g h i j k l m' n') as HcI;
    pose proof (align_cell_pick a b c d e f g h i j k l m' n') as Hpick;
    set (cc := align_cell a b c d e f g h i j k l m' n') in *
  end.
  cbv zeta in HcD, HcI, Hpick.
  replace (S m - 1)%nat with m by lia. replace (S n - 1)%nat with n by lia.
  destruct Hpick as [(Et & Ep) | [(Et & Ep) | [(Et & Eism & Ep) | (Et & Eism & Ep)]]];
    rewrite Et, Ep.
  - (* deletion *)
    right. right. right.
    destruct (_ <? _) in HcD; inversion HcD as [[H1 H2]]; clear HcD; rewrite H1, H2.
    + rewrite cigar_op_pack by (unfold BAM_CDEL; lia).
      rewrite cigar_len_pack_small by (unfold BAM_CDEL; lia).
      split; [reflexivity|]. exists 1%nat. split_and!; [reflexivity|lia|lia|].
      replace (S n - 1)%nat with n by lia.
      rewrite del_cost_1. rewrite (row_score_S al m n) by lia. reflexivity.
    + rewrite Ed. rewrite (u32_small (Z.of_nat zd + 1)) by lia.
      rewrite cigar_op_pack by (unfold BAM_CDEL; lia).
      rewrite cigar_len_pack_small by (unfold BAM_CDEL; lia).
      split; [reflexivity|]. exists (S zd). split_and!; [lia|lia|lia|].
      rewrite Esd.
      replace (S n - S zd)%nat with (n - zd)%nat by lia.
      replace (Z.of_nat (S zd)) with (Z.of_nat zd + 1) by lia.
      rewrite del_cost_S, sint_sint_add. f_equal; lia.
  - (* insertion *)
    right. right. left.
    destruct (_ <? _) in HcI; inversion HcI as [[H1 H2]]; clear HcI; rewrite H1, H2.
    + rewrite cigar_op_pack by (unfold BAM_CINS; lia).
      rewrite cigar_len_pack_small by (unfold BAM_CINS; lia).
      split; [reflexivity|]. exists 1%nat. split_and!; [reflexivity|lia|lia|].
      replace (S m - 1)%nat with m by lia.
      rewrite ins_cost_1. unfold row_score, row_env_of, qq_of; simpl.
      reflexivity.
    + rewrite Ei. rewrite (u32_small (Z.of_nat zi + 1)) by lia.
      rewrite cigar_op_pack by (unfold BAM_CINS; lia).
      rewrite cigar_len_pack_small by (unfold BAM_CINS; lia).
      split; [reflexivity|]. exists (S zi). split_and!; [lia|lia|lia|].
      rewrite Esi.
      replace (S m - S zi)%nat with (m - zi)%nat by lia.
      rewrite ins_cost_S. replace (m - zi + zi)%nat with m by lia.
      rewrite sint_sint_add. unfold row_env_of, qq_of; simpl.
      f_equal; lia.
  - (* match *)
    left.
    rewrite cigar_op_pack by (unfold BAM_CSEQ_MATCH; lia).
    rewrite cigar_len_pack_small by (unfold BAM_CSEQ_MATCH; lia).
    split_and!; [reflexivity|reflexivity|lia| |].
    + unfold is_seq_match_of, ref_base, query_base.
      replace (S m - 1)%nat with m by lia. replace (S n - 1)%nat with n by lia.
      exact Eism.
    + unfold row_score, row_env_of, qq_of; simpl. rewrite ?Nat.sub_0_r. reflexivity.
  - (* mismatch *)
    right. left.
    rewrite cigar_op_pack by (unfold BAM_CSEQ_MISMATCH; lia).
    rewrite cigar_len_pack_small by (unfold BAM_CSEQ_MISMATCH; lia).
    split_and!; [reflexivity|reflexivity|lia| |].
    + unfold is_seq_match_of, ref_base, query_base.
      replace (S m - 1)%nat with m by lia. replace (S n - 1)%nat with n by lia.
      exact Eism.
    + unfold row_score, row_env_of, qq_of; simpl. rewrite ?Nat.sub_0_r. reflexivity.
Qed.

(** The leftmost column: an insertion run from the top-left corner. *)
Lemma leftmost_ext (k : nat) :
  (k <= Z.to_nat (subquery_len al))%nat -> rd (a_I_ext_m (align_upto al k)) 0 = Z.of_nat k.
Proof.
  induction k as [|m IH]; intros Hk.
  - destruct Hinit as (Hb & HW & HQ & Hz & Hins).
    unfold align_upto, align_start; simpl. apply Hz. lia.
  - pose proof (initialized_inv m ltac:(lia))
      as ((Lp & Li & Le & Lp1 & Li1 & Le1 & Lm) & _).
    destruct Hinit as (Hb & HW & HQ & Hz & Hins).
    rewrite align_upto_S. unfold align_row; simpl.
    rewrite (row_upto_ext_left al m _ _ 0) by lia.
    unfold row_upto, row_start; simpl.
    rewrite rd_insert_eq by lia. rewrite IH by lia.
    rewrite u32_small by lia. lia.
Qed.

Lemma leftmost_cell (m : nat) :
  (m < Z.to_nat (subquery_len al))%nat ->
  rd2 (a_matTra (align_upto al (S m))) (S m) 0 = pack (Z.of_nat (S m)) BAM_CINS /\
  row_score al (S m) 0 = sint (row_score al 0 0 + ins_cost al 0 (S m)).
Proof.
  intros Hm.
  pose proof (initialized_inv m ltac:(lia))
    as ((Lp & Li & Le & Lp1 & Li1 & Le1 & Lm) & _).
  pose proof (leftmost_ext m ltac:(lia)) as He.
  destruct (ins_row_scored m ltac:(lia) O ltac:(lia)) as (z & Ez & _ & Ei).
  assert (z = m) by lia. subst z. replace (m - m)%nat with O in Ei by lia.
  pose proof Hinit as (Hb & HW & HQ & Hz & Hins).
  rewrite (row_score_S al m 0 0) by lia.
  rewrite align_upto_S. unfold align_row; simpl.
  rewrite (row_upto_left al m _ _ 0) by lia.
  unfold row_upto, row_start; simpl.
  rewrite (rd2_wr2_eq _ _ _ _ _ _ Lm) by lia.
  rewrite !rd_insert_eq by lia.
  rewrite He, Ei. rewrite u32_small by lia.
  split; [f_equal; lia|].
  rewrite ins_cost_S, sint_sint_add. unfold row_env_of, qq_of; simpl.
  f_equal; lia.
Qed.

(** Every trace cell below the top row accounts for the score of its
    cell. *)
Lemma cells_scored (i j : nat) :
  (1 <= i <= Z.to_nat (subquery_len al))%nat ->
  (j <= Z.to_nat (subdb_len al))%nat ->
  cell_scored al i j (rd2 (matTra (asw_align al)) i j).
Proof.
  intros Hi Hj. rewrite matTra_asw_align.
  rewrite (align_upto_rows al _ i) by lia.
  destruct i as [|m]; [lia|]. destruct j as [|n].
  - destruct (leftmost_cell m ltac:(lia)) as (Et & Es).
    pose proof Hinit as (Hb & HW & HQ & Hz & Hins).
    rewrite Et. right. right. left.
    rewrite cigar_op_pack by (unfold BAM_CINS; lia).
    rewrite cigar_len_pack_small by (unfold BAM_CINS; lia).
    split; [reflexivity|]. exists (S m). split_and!; [reflexivity|lia|lia|].
    replace (S m - S m)%nat with O by lia. exact Es.
  - apply interior_cell_scored; lia.
Qed.

(** The last row pointer of the engine is the score row of the last
    row of the matrix. *)
Lemma last_row_asw_align :
  last_row (asw_align al)
  = a_vecPen_m (align_upto al (Z.to_nat (subquery_len al))).
Proof.
  unfold asw_align, align_finish, last_row.
  destruct (a_swapped _); reflexivity.
Qed.

End Scores.

(** ** The initializers *)

Lemma init_rows_ins (al : Alignment_ASW) (semi : bool) :
  buffers_ok al ->
  forall j, (j <= Z.to_nat (subdb_len al))%nat ->
    rd (i_vecIns_m (init_rows semi al)) j =
    sint (rd (i_vecPen_m (init_rows semi al)) j + gopen_true_pen_of al).
Proof.
  intros (Hp & Hp1 & Hi & Hi1 & He & He1 & Hm).
  unfold init_rows.
  change (sint (penalty (gopen_penalty al) al (zrd (qual al) (subqual al + 0))
                - penalty (gext_penalty al) al (zrd (qual al) (subqual al + 0))))
    with (gopen_true_pen_of al).
  set (w := S (Z.to_nat (subdb_len al))) in *.
  apply (for_loop_ind
           (fun n s => length (i_vecPen_m s) = w /\ length (i_vecIns_m s) = w /\
                       forall j, (j <= n)%nat ->
                         rd (i_vecIns_m s) j =
                         sint (rd (i_vecPen_m s) j + gopen_true_pen_of al))).
  - simpl. rewrite !length_insert. split_and!; [exact Hp|exact Hi|].
    intros j Hj. replace j with O by lia.
    rewrite !rd_insert_eq by lia. reflexivity.
  - intros n s Hn (Lp & Li & IH). unfold init_body; simpl.
    rewrite !length_insert. split_and!; [exact Lp|exact Li|].
    intros j Hj. destruct (decide (j = S n)) as [->|Hne].
    + rewrite (rd_insert_eq (i_vecIns_m s)) by lia. reflexivity.
    + rewrite !rd_insert_ne by congruence. apply IH. lia.
Qed.

Lemma align_init_eq (semi : bool) (al0 : Alignment_ASW) :
  align_init semi al0 = init_finish al0 (init_rows semi al0).
Proof. destruct semi; reflexivity. Qed.

Lemma align_init_initialized (semi : bool) (al0 : Alignment_ASW) :
  buffers_ok al0 -> lengths_fit al0 -> initialized (align_init semi al0).
Proof.
  intros Hb (HW & HQ).
  destruct (align_init_post semi al0 Hb) as (Hb' & Hz & EW & EQ).
  unfold initialized. rewrite EW, EQ. rewrite EW in Hz.
  split_and!; try assumption; try lia.
  intros j Hj. rewrite align_init_eq. unfold init_finish; simpl.
  rewrite (init_rows_ins al0 semi Hb j Hj). reflexivity.
Qed.

(** ** The path of the traceback *)

Lemma ref_consumed_app (l1 l2 : list Z) :
  ref_consumed (l1 ++ l2) = ref_consumed l1 + ref_consumed l2.
Proof. induction l1 as [|c l1 IH]; simpl; [reflexivity|]. rewrite IH. lia. Qed.

Section Walk.

Variables (tra : list (list Z)) (Q W : nat).
Hypothesis Hgood : good_matrix Q W tra.
Hypothesis HQ : Z.of_nat Q < 2 ^ 28.
Hypothesis HW : Z.of_nat W < 2 ^ 28.

Lemma seq_run_walk (op : Z) :
  op = BAM_CSEQ_MATCH \/ op = BAM_CSEQ_MISMATCH ->
  forall (fuel m n : nat) (num : Z),
    (1 <= m <= Q)%nat -> (n <= W)%nat ->
    cigar_op (rd2 tra m n) = op ->
    (m <= fuel)%nat -> 0 <= num -> num + Z.of_nat m < 2 ^ 32 ->
    exists k : nat,
      (1 <= k <= m)%nat /\ (k <= n)%nat /\
      seq_run fuel op tra num (Z.of_nat m) (Z.of_nat n)
              (cigar_len (rd2 tra m n))
      = Some (num + Z.of_nat k, Z.of_nat (m - k), Z.of_nat (n - k),
              rd2 tra (m - k) (n - k)) /\
      (forall t, (t < k)%nat ->
         cigar_op (rd2 tra (m - t) (n - t)) = op /\
         cigar_len (rd2 tra (m - t) (n - t)) = 1) /\
      ((m - k)%nat = O \/ cigar_op (rd2 tra (m - k) (n - k)) <> op).
Proof.
  intros Hop. induction fuel as [|fuel IH]; intros m n num Hm Hn Hc Hf Hnum Hlt.
  - lia.
  - destruct (good_cell_seq_inv m n _ (Hgood m n Hm Hn)) as [Hz Hn1].
    { rewrite Hc. exact Hop. }
    rewrite seq_run_S, Hz.
    replace (sint (Z.of_nat m - 1)) with (Z.of_nat (m - 1))
      by (rewrite sint_small; lia).
    replace (sint (Z.of_nat n - 1)) with (Z.of_nat (n - 1))
      by (rewrite sint_small; lia).
    rewrite zrd2_of_nat. rewrite (u32_small (num + 1)) by lia.
    assert (H0 : forall t, (t < 1)%nat ->
              cigar_op (rd2 tra (m - t) (n - t)) = op /\
              cigar_len (rd2 tra (m - t) (n - t)) = 1).
    { intros t Ht. replace t with O by lia. rewrite !Nat.sub_0_r. auto. }
    destruct (Z.eqb_spec (cigar_op (rd2 tra (m - 1) (n - 1))) op) as [Ec|Ec];
      destruct (Z.ltb_spec 0 (Z.of_nat (m - 1))) as [Em|Em]; simpl.
    + destruct (IH (m - 1)%nat (n - 1)%nat (num + 1))
        as (k & Hk1 & Hk2 & E & Hrun & Hstop); try lia; try assumption.
      exists (S k). rewrite E.
      replace (m - 1 - k)%nat with (m - S k)%nat by lia.
      replace (n - 1 - k)%nat with (n - S k)%nat by lia.
      split_and!; try lia.
      * do 4 f_equal. lia.
      * intros t Ht. destruct t as [|t]; [apply H0; lia|].
        replace (m - S t)%nat with (m - 1 - t)%nat by lia.
        replace (n - S t)%nat with (n - 1 - t)%nat by lia.
        apply Hrun. lia.
      * replace (m - S k)%nat with (m - 1 - k)%nat by lia.
        replace (n - S k)%nat with (n - 1 - k)%nat by lia. exact Hstop.
    + exists 1%nat.
      split_and!; try lia; try exact H0; try reflexivity; left; lia.
    + exists 1%nat.
      split_and!; try lia; try exact H0; try reflexivity; right; exact Ec.
    + exists 1%nat.
      split_and!; try lia; try exact H0; try reflexivity; left; lia.
Qed.

Lemma trace_loop_walks (E : Z) :
  forall (fuel : nat) (buf : list Z) (m n : nat) (rc : Z),
    (m <= Q)%nat -> (n <= W)%nat -> (m + n < fuel)%nat ->
    -1 <= rc -> rc + 1 <= E -> E <= Z.of_nat (length buf) ->
    match trace_loop fuel tra buf (Z.of_nat m) (Z.of_nat n) (rd2 tra m n) rc with
    | Ok (buf', rc', n1) =>
      exists (ops : list Z) (n0 : nat),
        slice buf' (rc' + 1) E = ops ++ slice buf (rc + 1) E /\
        walks tra m n ops n0 /\ n1 = Z.of_nat n0
    | Undefined => True
    | _ => False
    end.
Proof.
  induction fuel as [|fuel IH]; intros buf m n rc Hm Hn Hf Hrc HE Hlen; [lia|].
  destruct (Z.leb_spec (Z.of_nat m) 0) as [Hm0|Hm0].
  { rewrite trace_loop_S.
    destruct (Z.leb_spec (Z.of_nat m) 0); [|lia].
    exists [], n. replace m with O by lia.
    split_and!; [reflexivity|constructor|reflexivity]. }
  assert (Hcell : good_cell m n (rd2 tra m n)) by (apply Hgood; lia).
  destruct Hcell as [(Hop & Hz & Hn1) | [(Hop & Hz) | (Hop & Hz)]];
    [rewrite (trace_loop_seq_case _ _ _ _ _ _ _ Hm0 Hop)
    |rewrite trace_loop_S; destruct (Z.leb_spec (Z.of_nat m) 0); [lia|]; cbv zeta
    |rewrite trace_loop_S; destruct (Z.leb_spec (Z.of_nat m) 0); [lia|]; cbv zeta].
  - (* = or X: a run of diagonal moves *)
    destruct (seq_run_walk _ Hop (S fuel) m n 0)
      as (k & Hk1 & Hk2 & Er & Hrun & Hstop); try lia; try reflexivity.
    rewrite Er. rewrite Z.add_0_l.
    destruct (store buf rc _) as [buf1|] eqn:Hs; [|exact I].
    destruct (store_Some _ _ _ _ Hs) as [Hr Eb].
    specialize (IH buf1 (m - k)%nat (n - k)%nat (rc - 1)).
    destruct (trace_loop fuel tra buf1 _ _ _ _) as [[[buf' rc'] n1]| | | |];
      try (apply IH; subst buf1; rewrite ?length_insert; lia).
    destruct IH as (ops & n0 & Hsl & Hwalk & En1);
      try (subst buf1; rewrite ?length_insert; lia).
    exists (ops ++ [pack (Z.of_nat k) (cigar_op (rd2 tra m n))]), n0.
    replace (rc - 1 + 1) with rc in Hsl by lia.
    rewrite (slice_store_head _ _ _ _ _ Hs) in Hsl by lia.
    split_and!.
    + rewrite Hsl, <- app_assoc. reflexivity.
    + apply walks_seq; try assumption; lia.
    + exact En1.
  - (* I: up *)
    rewrite Hop.
    change (BAM_CINS =? BAM_CSEQ_MATCH) with false.
    change (BAM_CINS =? BAM_CSEQ_MISMATCH) with false.
    change (BAM_CINS =? BAM_CDEL) with false.
    change (BAM_CINS =? BAM_CINS) with true. cbv iota.
    destruct (store buf rc _) as [buf1|] eqn:Hs; [|exact I].
    destruct (store_Some _ _ _ _ Hs) as [Hr Eb].
    replace (sint (Z.of_nat m - cigar_len (rd2 tra m n)))
      with (Z.of_nat (m - Z.to_nat (cigar_len (rd2 tra m n))))
      by (rewrite sint_small; lia).
    rewrite zrd2_of_nat.
    specialize (IH buf1 (m - Z.to_nat (cigar_len (rd2 tra m n)))%nat n (rc - 1)).
    destruct (trace_loop fuel tra buf1 _ _ _ _) as [[[buf' rc'] n1]| | | |];
      try (apply IH; subst buf1; rewrite ?length_insert; lia).
    destruct IH as (ops & n0 & Hsl & Hwalk & En1);
      try (subst buf1; rewrite ?length_insert; lia).
    exists (ops ++ [rd2 tra m n]), n0.
    replace (rc - 1 + 1) with rc in Hsl by lia.
    rewrite (slice_store_head _ _ _ _ _ Hs) in Hsl by lia.
    split_and!.
    + rewrite Hsl, <- app_assoc. reflexivity.
    + apply (walks_ins tra m n (Z.to_nat (cigar_len (rd2 tra m n))));
        try assumption; lia.
    + exact En1.
  - (* D: left *)
    rewrite Hop.
    change (BAM_CDEL =? BAM_CSEQ_MATCH) with false.
    change (BAM_CDEL =? BAM_CSEQ_MISMATCH) with false.
    change (BAM_CDEL =? BAM_CDEL) with true. cbv iota.
    destruct (store buf rc _) as [buf1|] eqn:Hs; [|exact I].
    destruct (store_Some _ _ _ _ Hs) as [Hr Eb].
    replace (sint (Z.of_nat n - cigar_len (rd2 tra m n)))
      with (Z.of_nat (n - Z.to_nat (cigar_len (rd2 tra m n))))
      by (rewrite sint_small; lia).
    rewrite zrd2_of_nat.
    specialize (IH buf1 m (n - Z.to_nat (cigar_len (rd2 tra m n)))%nat (rc - 1)).
    destruct (trace_loop fuel tra buf1 _ _ _ _) as [[[buf' rc'] n1]| | | |];
      try (apply IH; subst buf1; rewrite ?length_insert; lia).
    destruct IH as (ops & n0 & Hsl & Hwalk & En1);
      try (subst buf1; rewrite ?length_insert; lia).
    exists (ops ++ [rd2 tra m n]), n0.
    replace (rc - 1 + 1) with rc in Hsl by lia.
    rewrite (slice_store_head _ _ _ _ _ Hs) in Hsl by lia.
    split_and!.
    + rewrite Hsl, <- app_assoc. reflexivity.
    + apply (walks_del tra m n (Z.to_nat (cigar_len (rd2 tra m n))));
        try assumption; lia.
    + exact En1.
Qed.

End Walk.

(** ** What a path of the traceback consumes *)

Lemma query_span_app (l1 l2 : list Z) :
  query_span (l1 ++ l2) = (query_span l1 + query_span l2)%nat.
Proof. induction l1 as [|c l1 IH]; simpl; [reflexivity|]. rewrite IH. lia. Qed.

Lemma ref_span_app (l1 l2 : list Z) :
  ref_span (l1 ++ l2) = (ref_span l1 + ref_span l2)%nat.
Proof. induction l1 as [|c l1 IH]; simpl; [reflexivity|]. rewrite IH. lia. Qed.

Lemma query_consumed_span (l : list Z) :
  Forall (fun c => 0 <= cigar_len c) l ->
  query_consumed l = Z.of_nat (query_span l).
Proof.
  induction 1 as [|c l Hc Hl IH]; [reflexivity|].
  cbn [query_consumed query_span]. rewrite IH. unfold query_step. destruct (consumes_query _); lia.
Qed.

Lemma ref_consumed_span (l : list Z) :
  Forall (fun c => 0 <= cigar_len c) l ->
  ref_consumed l = Z.of_nat (ref_span l).
Proof.
  induction 1 as [|c l Hc Hl IH]; [reflexivity|].
  cbn [ref_consumed ref_span]. rewrite IH. unfold ref_step. destruct (consumes_ref _); lia.
Qed.

Lemma seq_pack (k : nat) (op : Z) :
  op = BAM_CSEQ_MATCH \/ op = BAM_CSEQ_MISMATCH ->
  Z.of_nat k < 2 ^ 28 ->
  cigar_op (pack (Z.of_nat k) op) = op /\
  cigar_len (pack (Z.of_nat k) op) = Z.of_nat k.
Proof.
  intros Hop Hk.
  assert (0 <= op < 16)
    by (destruct Hop; subst; unfold BAM_CSEQ_MATCH, BAM_CSEQ_MISMATCH; lia).
  rewrite cigar_op_pack by assumption.
  rewrite cigar_len_pack_small by (assumption || lia). auto.
Qed.

Lemma walks_spans (tra : list (list Z)) (m n : nat) (ops : list Z) (n0 : nat) :
  Z.of_nat m < 2 ^ 28 ->
  walks tra m n ops n0 ->
  query_span ops = m /\ (ref_span ops + n0 = n)%nat.
Proof.
  intros Hm Hw. induction Hw as
    [n | m n z ops n0 Hz Hop Hlen Hw IH | m n z ops n0 Hm1 Hz Hop Hlen Hw IH
     | m n k op ops n0 Hk Hkn Hop Hrun Hstop Hw IH].
  - split; reflexivity.
  - destruct (IH ltac:(lia)) as (Hq & Hr).
    rewrite query_span_app, ref_span_app, Hq.
    cbn [query_span ref_span]. unfold query_step, ref_step.
    rewrite Hop, Hlen. simpl. lia.
  - destruct (IH ltac:(lia)) as (Hq & Hr).
    rewrite query_span_app, ref_span_app, Hq.
    cbn [query_span ref_span]. unfold query_step, ref_step.
    rewrite Hop, Hlen. simpl. lia.
  - destruct (IH ltac:(lia)) as (Hq & Hr).
    destruct (seq_pack k op Hop ltac:(lia)) as (Eo & El).
    rewrite query_span_app, ref_span_app, Hq.
    cbn [query_span ref_span]. unfold query_step, ref_step.
    rewrite Eo, El.
    destruct Hop as [-> | ->]; simpl; lia.
Qed.

Lemma walks_shape (tra : list (list Z)) (m n : nat) (ops : list Z) (n0 : nat) :
  Z.of_nat m < 2 ^ 28 -> Z.of_nat n < 2 ^ 28 ->
  walks tra m n ops n0 -> Forall trace_op ops.
Proof.
  intros Hm Hn Hw. induction Hw as
    [n | m n z ops n0 Hz Hop Hlen Hw IH | m n z ops n0 Hm1 Hz Hop Hlen Hw IH
     | m n k op ops n0 Hk Hkn Hop Hrun Hstop Hw IH].
  - constructor.
  - apply Forall_app. split; [apply IH; lia|].
    constructor; [|constructor]. unfold trace_op. rewrite Hop, Hlen.
    split; [auto|lia].
  - apply Forall_app. split; [apply IH; lia|].
    constructor; [|constructor]. unfold trace_op. rewrite Hop, Hlen.
    split; [auto|lia].
  - apply Forall_app. split; [apply IH; lia|].
    constructor; [|constructor]. unfold trace_op.
    destruct (seq_pack k op Hop ltac:(lia)) as (Eo & El).
    rewrite Eo, El. split; [|lia].
    destruct Hop as [-> | ->]; auto.
Qed.

Lemma trace_op_nonneg (l : list Z) :
  Forall trace_op l -> Forall (fun c => 0 <= cigar_len c) l.
Proof.
  intros H. eapply Forall_impl; [exact H|]. intros c (_ & Hc). lia.
Qed.

(** The last operation of a path is of the kind of the cell the path
    starts from. *)
Lemma walks_last (tra : list (list Z)) (m n : nat) (ops : list Z) (n0 : nat) :
  Z.of_nat m < 2 ^ 28 -> (1 <= m)%nat ->
  walks tra m n ops n0 ->
  exists ops' c, ops = ops' ++ [c] /\ cigar_op c = cigar_op (rd2 tra m n).
Proof.
  intros Hm Hm1 Hw. destruct Hw as
    [n | m n z ops n0 Hz Hop Hlen Hw | m n z ops n0 Hm1' Hz Hop Hlen Hw
     | m n k op ops n0 Hk Hkn Hop Hrun Hstop Hw].
  - lia.
  - eauto.
  - eauto.
  - exists ops, (pack (Z.of_nat k) op). split; [reflexivity|].
    destruct (seq_pack k op Hop ltac:(lia)) as (Eo & El).
    rewrite Eo. destruct (Hrun O ltac:(lia)) as (E0 & _).
    rewrite !Nat.sub_0_r in E0. congruence.
Qed.

Lemma runs_maximal_snoc (l : list Z) (c c' : Z) :
  runs_maximal ((l ++ [c]) ++ [c']) =
  runs_maximal (l ++ [c])
  && negb (is_seq_op (cigar_op c) && (cigar_op c =? cigar_op c')).
Proof.
  induction l as [|x l IH].
  - simpl. rewrite andb_true_r. reflexivity.
  - change (((x :: l) ++ [c]) ++ [c']) with (x :: ((l ++ [c]) ++ [c'])).
    change ((x :: l) ++ [c]) with (x :: (l ++ [c])).
    cbn [runs_maximal]. rewrite IH.
    destruct l as [|y l]; simpl; rewrite ?andb_true_r, ?andb_assoc; reflexivity.
Qed.

Lemma walks_maximal (tra : list (list Z)) (m n : nat) (ops : list Z) (n0 : nat) :
  Z.of_nat m < 2 ^ 28 ->
  walks tra m n ops n0 -> runs_maximal ops = true.
Proof.
  intros Hm Hw. induction Hw as
    [n | m n z ops n0 Hz Hop Hlen Hw IH | m n z ops n0 Hm1 Hz Hop Hlen Hw IH
     | m n k op ops n0 Hk Hkn Hop Hrun Hstop Hw IH].
  - reflexivity.
  - specialize (IH ltac:(lia)).
    destruct (decide (m - z = 0)%nat) as [E0|N0].
    + rewrite E0 in Hw. inversion Hw; subst; try lia. reflexivity.
    + destruct (walks_last tra (m - z)%nat n ops n0 ltac:(lia) ltac:(lia) Hw) as (ops' & c & -> & Ec).
      rewrite runs_maximal_snoc, IH, Hop. simpl.
      destruct (is_seq_op (cigar_op c)) eqn:Es; [|reflexivity].
      simpl. destruct (Z.eqb_spec (cigar_op c) BAM_CINS) as [E|]; [|reflexivity].
      rewrite E in Es. discriminate Es.
  - specialize (IH ltac:(lia)).
    destruct (walks_last tra m (n - z)%nat ops n0 ltac:(lia) ltac:(lia) Hw) as (ops' & c & -> & Ec).
    rewrite runs_maximal_snoc, IH, Hop. simpl.
    destruct (is_seq_op (cigar_op c)) eqn:Es; [|reflexivity].
    simpl. destruct (Z.eqb_spec (cigar_op c) BAM_CDEL) as [E|]; [|reflexivity].
    rewrite E in Es. discriminate Es.
  - specialize (IH ltac:(lia)).
    destruct (seq_pack k op Hop ltac:(lia)) as (Eo & El).
    destruct Hstop as [E0|Hne].
    + rewrite E0 in Hw. inversion Hw; subst; try lia. reflexivity.
    + destruct (decide (m - k = 0)%nat) as [E0|N0].
      * rewrite E0 in Hw. inversion Hw; subst; try lia. reflexivity.
      * destruct (walks_last tra (m - k)%nat (n - k)%nat ops n0 ltac:(lia) ltac:(lia) Hw) as (ops' & c & -> & Ec).
        rewrite runs_maximal_snoc, IH, Eo. simpl.
        destruct (Z.eqb_spec (cigar_op c) op) as [E|]; [|rewrite andb_false_r; reflexivity].
        congruence.
Qed.

(** ** The penalty of a path *)

Lemma pen_sum_head table al r z :
  pen_sum table al r (S z) =
  penalty table al (qq_of al r) + pen_sum table al (S r) z.
Proof.
  induction z as [|z IH].
  - simpl. rewrite Nat.add_0_r. lia.
  - rewrite pen_sum_S, IH. rewrite (pen_sum_S table al (S r) z).
    replace (S r + z)%nat with (r + S z)%nat by lia. lia.
Qed.

Lemma cigar_cost_app al r (l1 l2 : list Z) :
  cigar_cost al r (l1 ++ l2) =
  cigar_cost al r l1 + cigar_cost al (r + query_span l1) l2.
Proof.
  revert r. induction l1 as [|c l1 IH]; intros r; simpl.
  - rewrite Nat.add_0_r. reflexivity.
  - rewrite IH. rewrite Nat.add_assoc. lia.
Qed.

Lemma pairs_match_head al want i j k :
  pairs_match al want i j (S k) =
  Bool.eqb (IS_MATCH (zrd (db al) (subdb al + Z.of_nat j))
                     (zrd (query al) (subquery al + Z.of_nat i))) want
  && pairs_match al want (S i) (S j) k.
Proof.
  induction k as [|k IH].
  - simpl. rewrite !Nat.add_0_r, andb_true_r. reflexivity.
  - change (pairs_match al want i j (S (S k)))
      with (pairs_match al want i j (S k)
            && Bool.eqb (IS_MATCH (zrd (db al) (subdb al + Z.of_nat (j + S k)))
                                  (zrd (query al) (subquery al + Z.of_nat (i + S k))))
                        want).
    rewrite IH. simpl.
    replace (j + S k)%nat with (S (j + k)) by lia.
    replace (i + S k)%nat with (S (i + k)) by lia.
    rewrite andb_assoc. reflexivity.
Qed.

Lemma cigar_agrees_app al i j (l1 l2 : list Z) :
  cigar_agrees al i j (l1 ++ l2) =
  cigar_agrees al i j l1
  && cigar_agrees al (i + query_span l1) (j + ref_span l1) l2.
Proof.
  revert i j. induction l1 as [|c l1 IH]; intros i j; simpl.
  - rewrite !Nat.add_0_r. reflexivity.
  - rewrite IH, !Nat.add_assoc, andb_assoc. reflexivity.
Qed.

Lemma cell_scored_seq al i j c op :
  op = BAM_CSEQ_MATCH \/ op = BAM_CSEQ_MISMATCH ->
  cell_scored al i j c -> cigar_op c = op ->
  is_seq_match_of al i j = (op =? BAM_CSEQ_MATCH) /\
  row_score al i j =
    sint (row_score al (i - 1) (j - 1)
          + penalty (if op =? BAM_CSEQ_MATCH then match_penalty al
                     else mismatch_penalty al) al (qq_of al (i - 1))).
Proof.
  intros Hop Hc Ec.
  destruct Hc as [(E & _ & _ & Hm & Hs) | [(E & _ & _ & Hm & Hs)
                 | [(E & _) | (E & _)]]];
    rewrite Ec in E; destruct Hop as [-> | ->]; try discriminate E;
    split; assumption.
Qed.

Lemma cell_scored_ins al i j c :
  cell_scored al i j c -> cigar_op c = BAM_CINS ->
  row_score al i j =
    sint (row_score al (i - Z.to_nat (cigar_len c)) j
          + ins_cost al (i - Z.to_nat (cigar_len c)) (Z.to_nat (cigar_len c))).
Proof.
  intros Hc Ec.
  destruct Hc as [(E & _) | [(E & _) | [(E & z & El & Hz & Hs) | (E & _)]]];
    rewrite Ec in E; try discriminate E.
  rewrite El, Nat2Z.id. exact Hs.
Qed.

Lemma cell_scored_del al i j c :
  cell_scored al i j c -> cigar_op c = BAM_CDEL ->
  row_score al i j =
    sint (row_score al i (j - Z.to_nat (cigar_len c))
          + del_cost al (cigar_len c)).
Proof.
  intros Hc Ec.
  destruct Hc as [(E & _) | [(E & _) | [(E & _) | (E & z & El & Hz & Hs)]]];
    rewrite Ec in E; try discriminate E.
  rewrite El, Nat2Z.id. exact Hs.
Qed.

Section Scored.

Variables (al : Alignment_ASW) (tra : list (list Z)) (Q W : nat).
Hypothesis Hcells :
  forall i j, (1 <= i <= Q)%nat -> (j <= W)%nat ->
    cell_scored al i j (rd2 tra i j).
Hypothesis HQ : Z.of_nat Q < 2 ^ 28.

Lemma diag_scored (op : Z) (m n k : nat) :
  op = BAM_CSEQ_MATCH \/ op = BAM_CSEQ_MISMATCH ->
  (k <= m <= Q)%nat -> (k <= n <= W)%nat ->
  (forall t, (t < k)%nat -> cigar_op (rd2 tra (m - t) (n - t)) = op) ->
  sint (row_score al m n) =
    sint (row_score al (m - k) (n - k)
          + pen_sum (if op =? BAM_CSEQ_MATCH then match_penalty al
                     else mismatch_penalty al) al (m - k) k) /\
  pairs_match al (op =? BAM_CSEQ_MATCH) (m - k) (n - k) k = true.
Proof.
  intros Hop. induction k as [|k IH]; intros Hm Hn Hrun.
  - rewrite !Nat.sub_0_r. simpl. rewrite Z.add_0_r. auto.
  - destruct IH as (IHs & IHp); [lia|lia|intros t Ht; apply Hrun; lia|].
    destruct (cell_scored_seq al (m - k) (n - k) _ op Hop
                (Hcells (m - k)%nat (n - k)%nat ltac:(lia) ltac:(lia))
                (Hrun k ltac:(lia))) as (Em & Es).
    replace (m - k - 1)%nat with (m - S k)%nat in Es by lia.
    replace (n - k - 1)%nat with (n - S k)%nat in Es by lia.
    split.
    + rewrite IHs, Es. rewrite sint_sint_add, pen_sum_head.
      replace (S (m - S k)) with (m - k)%nat by lia.
      f_equal; lia.
    + rewrite pairs_match_head.
      replace (S (m - S k)) with (m - k)%nat by lia.
      replace (S (n - S k)) with (n - k)%nat by lia.
      rewrite IHp, andb_true_r.
      unfold is_seq_match_of, ref_base, query_base in Em.
      replace (n - k - 1)%nat with (n - S k)%nat in Em by lia.
      replace (m - k - 1)%nat with (m - S k)%nat in Em by lia.
      rewrite Em. apply eqb_reflx.
Qed.

(** The score of the cell a path starts from is the score of the top
    row where the path ends plus the penalties of its operations, and
    its = and X runs lie on matching and mismatching pairs. *)
Lemma walks_scored (m n : nat) (ops : list Z) (n0 : nat) :
  (m <= Q)%nat -> (n <= W)%nat ->
  walks tra m n ops n0 ->
  sint (row_score al m n) = sint (row_score al 0 n0 + cigar_cost al 0 ops) /\
  cigar_agrees al 0 n0 ops = true.
Proof.
  intros Hm Hn Hw. induction Hw as
    [n | m n z ops n0 Hz Hop Hlen Hw IH | m n z ops n0 Hm1 Hz Hop Hlen Hw IH
     | m n k op ops n0 Hk Hkn Hop Hrun Hstop Hw IH].
  - simpl. rewrite Z.add_0_r. auto.
  - destruct (IH ltac:(lia) ltac:(lia)) as (IHs & IHa).
    destruct (walks_spans tra (m - z) n ops n0 ltac:(lia) Hw) as (Eq & Er).
    pose proof (cell_scored_ins al m n _
                  (Hcells m n ltac:(lia) ltac:(lia)) Hop) as Es.
    rewrite Hlen, Nat2Z.id in Es.
    split.
    + rewrite cigar_cost_app, Eq. simpl. unfold op_cost.
      rewrite Hop, Hlen, Nat2Z.id. simpl.
      rewrite Es, sint_idem, <- sint_sint_add, IHs, sint_sint_add.
      f_equal; lia.
    + rewrite cigar_agrees_app, IHa. simpl. unfold op_agrees.
      rewrite Hop. reflexivity.
  - destruct (IH ltac:(lia) ltac:(lia)) as (IHs & IHa).
    destruct (walks_spans tra m (n - z) ops n0 ltac:(lia) Hw) as (Eq & Er).
    pose proof (cell_scored_del al m n _
                  (Hcells m n ltac:(lia) ltac:(lia)) Hop) as Es.
    rewrite Hlen, Nat2Z.id in Es.
    split.
    + rewrite cigar_cost_app, Eq. simpl. unfold op_cost.
      rewrite Hop, Hlen. simpl.
      rewrite Es, sint_idem, <- sint_sint_add, IHs, sint_sint_add.
      f_equal; lia.
    + rewrite cigar_agrees_app, IHa. simpl. unfold op_agrees.
      rewrite Hop. reflexivity.
  - destruct (IH ltac:(lia) ltac:(lia)) as (IHs & IHa).
    destruct (walks_spans tra (m - k) (n - k) ops n0 ltac:(lia) Hw) as (Eq & Er).
    destruct (seq_pack k op Hop ltac:(lia)) as (Eo & El).
    destruct (diag_scored op m n k Hop ltac:(lia) ltac:(lia)
                (fun t Ht => proj1 (Hrun t Ht))) as (Es & Ep).
    split.
    + rewrite cigar_cost_app, Eq. simpl. unfold op_cost.
      rewrite Eo, El, Nat2Z.id.
      rewrite Es, <- sint_sint_add, IHs, sint_sint_add.
      destruct Hop as [-> | ->]; simpl; f_equal; lia.
    + rewrite cigar_agrees_app, IHa, Eq. simpl. unfold op_agrees.
      rewrite Eo, El, Nat2Z.id, andb_true_r.
      replace (n0 + ref_span ops)%nat with (n - k)%nat by lia.
      destruct Hop as [-> | ->]; exact Ep.
Qed.

End Scored.

(** ** The minimum of the last row *)

Lemma locate_body_min (v : list Z) (k : nat) :
  let s := for_loop k (locate_body v) (rd v 0, 0) in
  exists c : nat,
    snd s = Z.of_nat c /\ (c <= k)%nat /\ fst s = rd v c /\
    (forall j, (j <= k)%nat -> fst s <= rd v j) /\
    (forall j, (j < c)%nat -> fst s < rd v j).
Proof.
  cbv zeta.
  apply (for_loop_ind
           (fun n (s : Z * Z) =>
              exists c : nat,
                snd s = Z.of_nat c /\ (c <= n)%nat /\ fst s = rd v c /\
                (forall j, (j <= n)%nat -> fst s <= rd v j) /\
                (forall j, (j < c)%nat -> fst s < rd v j))).
  - exists O. simpl. split_and!; try reflexivity; try lia.
    intros j Hj. replace j with O by lia. lia.
  - intros n s Hn (c & Ec & Hc & Es & Hmin & Hleft).
    unfold locate_body. destruct (Z.ltb_spec (rd v (S n)) (fst s)) as [Hlt|Hge].
    + exists (S n). simpl. split_and!; try reflexivity; try lia.
      * intros j Hj. destruct (decide (j = S n)) as [->|Hne]; [lia|].
        specialize (Hmin j). lia.
      * intros j Hj. specialize (Hmin j). lia.
    + exists c. split_and!; try assumption; try lia.
      intros j Hj. destruct (decide (j = S n)) as [->|Hne]; [lia|].
      apply Hmin. lia.
Qed.

(** X1. [asw_locate_minscore] stores the smallest score of the last
    row in [opt_score] and the leftmost column that holds it in
    [opt_score_col]. *)
Theorem locate_minscore_leftmost_min (al : Alignment_ASW) :
  let al' := asw_locate_minscore al in
  exists c : nat,
    opt_score_col al' = Z.of_nat c /\ (c <= Z.to_nat (subdb_len al))%nat /\
    opt_score al' = rd (last_row al) c /\
    (forall j, (j <= Z.to_nat (subdb_len al))%nat ->
       opt_score al' <= rd (last_row al) j) /\
    (forall j, (j < c)%nat -> opt_score al' < rd (last_row al) j).
Proof.
  cbv zeta. unfold asw_locate_minscore. cbn [opt_score opt_score_col set_opt].
  apply locate_body_min.
Qed.

Lemma last_row_align (al : Alignment_ASW) (j : nat) :
  rd (last_row (asw_align al)) j = row_score al (Z.to_nat (subquery_len al)) j.
Proof.
  unfold row_score, asw_align, align_finish, last_row.
  destruct (a_swapped _); reflexivity.
Qed.

Lemma last_row_locate (al : Alignment_ASW) :
  last_row (asw_locate_minscore al) = last_row al.
Proof. reflexivity. Qed.

(** ** The initializers *)

Lemma init_rows_top (al0 : Alignment_ASW) (semi : bool) (j : nat) :
  buffers_ok al0 -> (j <= Z.to_nat (subdb_len al0))%nat ->
  sint (rd (i_vecPen_m (init_rows semi al0)) j)
  = sint (leading_gap semi al0 (Z.of_nat j)).
Proof.
  intros Hb Hj.
  destruct (init_rows_inv al0 semi Hb)
    as (_ & _ & _ & _ & _ & Hp0 & _ & Hacc & Hsemi).
  unfold leading_gap. destruct semi.
  - rewrite Hsemi by (reflexivity || lia). reflexivity.
  - destruct (Hacc eq_refl) as (H1 & H2).
    induction j as [|j IH].
    + rewrite Hp0. reflexivity.
    + replace (Z.of_nat (S j) =? 0) with false by (symmetry; apply Z.eqb_neq; lia).
      destruct j as [|j].
      * rewrite H1 by lia. rewrite sint_idem, del_cost_1. reflexivity.
      * rewrite H2 by lia. replace (S (S j) - 1)%nat with (S j) by lia.
        rewrite sint_idem, <- sint_sint_add, IH by lia.
        replace (Z.of_nat (S j) =? 0) with false by (symmetry; apply Z.eqb_neq; lia).
        rewrite sint_sint_add.
        replace (Z.of_nat (S (S j))) with (Z.of_nat (S j) + 1) by lia.
        rewrite del_cost_S. reflexivity.
Qed.

Lemma init_same_scoring (semi : bool) (al0 : Alignment_ASW) :
  same_scoring (align_init semi al0) al0 /\ same_views (align_init semi al0) al0.
Proof. destruct semi; unfold same_scoring, same_views; simpl; auto 20. Qed.

Lemma qq_of_ext al al' m : same_scoring al al' -> qq_of al m = qq_of al' m.
Proof.
  intros (_ & _ & _ & _ & _ & _ & _ & E1 & E2). unfold qq_of.
  rewrite E1, E2. reflexivity.
Qed.

Lemma penalty_ext table al al' q :
  same_scoring al al' -> penalty table al q = penalty table al' q.
Proof.
  intros (_ & _ & _ & _ & _ & _ & E & _). unfold penalty. rewrite E. reflexivity.
Qed.

Lemma pen_sum_ext table al al' r z :
  same_scoring al al' -> pen_sum table al r z = pen_sum table al' r z.
Proof.
  intros H. induction z as [|z IH]; simpl; [reflexivity|].
  rewrite IH, (qq_of_ext al al') by exact H.
  rewrite (penalty_ext table al al') by exact H. reflexivity.
Qed.

Lemma ins_cost_ext al al' r z :
  same_scoring al al' -> ins_cost al r z = ins_cost al' r z.
Proof.
  intros H. unfold ins_cost.
  rewrite (pen_sum_ext _ al al') by exact H.
  rewrite (qq_of_ext al al') by exact H.
  rewrite !(penalty_ext _ al al') by exact H.
  destruct H as (_ & _ & E1 & E2 & _). rewrite E1, E2. reflexivity.
Qed.

Lemma del_cost_ext al al' z :
  same_scoring al al' -> del_cost al z = del_cost al' z.
Proof.
  intros (_ & _ & _ & _ & E1 & E2 & _). unfold del_cost.
  rewrite E1, E2. reflexivity.
Qed.

Lemma cigar_cost_ext al al' r l :
  same_scoring al al' -> cigar_cost al r l = cigar_cost al' r l.
Proof.
  intros H. revert r. induction l as [|c l IH]; intros r; simpl; [reflexivity|].
  rewrite IH. f_equal. unfold op_cost.
  rewrite !(pen_sum_ext _ al al') by exact H.
  rewrite (ins_cost_ext al al'), (del_cost_ext al al') by exact H.
  destruct H as (E1 & E2 & _). rewrite E1, E2. reflexivity.
Qed.

Lemma pairs_match_ext al al' want i j k :
  same_views al al' -> pairs_match al want i j k = pairs_match al' want i j k.
Proof.
  intros (E1 & E2 & E3 & E4). induction k as [|k IH]; simpl; [reflexivity|].
  rewrite IH, E1, E2, E3, E4. reflexivity.
Qed.

Lemma cigar_agrees_ext al al' i j l :
  same_views al al' -> cigar_agrees al i j l = cigar_agrees al' i j l.
Proof.
  intros H. revert i j. induction l as [|c l IH]; intros i j; simpl; [reflexivity|].
  rewrite IH. f_equal. unfold op_agrees.
  rewrite !(pairs_match_ext al al') by exact H. reflexivity.
Qed.

(** ** The traceback on the matrix of an alignment *)

Lemma asw_trace_walks (semi : bool) (al0 al1 : Alignment_ASW) (score col : Z)
    (fuel : nat) :
  buffers_ok al0 -> lengths_fit al0 ->
  0 <= col <= subdb_len al0 ->
  (Z.to_nat (subquery_len al0) + Z.to_nat col < fuel)%nat ->
  asw_trace fuel (set_opt (asw_align (align_init semi al0)) score col) = Ok al1 ->
  exists n0 : nat,
    walks (matTra (asw_align (align_init semi al0)))
          (Z.to_nat (subquery_len al0)) (Z.to_nat col) (cigar_of al1) n0 /\
    offset al1 = Z.of_nat n0 /\
    opt_score al1 = score /\ opt_score_col al1 = col.
Proof.
  intros Hb Hfit Hcol Hfuel.
  destruct (Z_of_nat_complete col) as [c ->]; [lia|].
  rewrite Nat2Z.id in Hfuel |- *.
  pose proof (align_good_matrix semi al0 Hb Hfit) as Hg.
  destruct Hfit as (HW & HQ).
  destruct (asw_align_lens (align_init semi al0)) as (E1 & E2 & E3 & E4 & E5 & E6).
  destruct (align_init_lens semi al0) as (F1 & F2 & F3 & F4 & F5 & F6).
  unfold asw_trace. simpl.
  rewrite E2, E3, E5, E6, F2, F3, F5, F6.
  destruct (Z.ltb_spec (query_len al0) (subquery_len al0)) as [Ha|Ha];
    [intros H; discriminate H|].
  destruct (p_realloc al0 _) eqn:Hr; simpl; [|intros H; discriminate H].
  rewrite (u64_small (subquery_len al0 + 4)) by lia.
  rewrite (sint_small (subquery_len al0)) by lia.
  rewrite (sint_small (Z.of_nat c)) by lia.
  set (Q := Z.to_nat (subquery_len al0)) in *.
  set (W := Z.to_nat (subdb_len al0)) in *.
  replace (subquery_len al0) with (Z.of_nat Q) by lia.
  rewrite zrd2_of_nat.
  set (buf := resize_list 0 _ _).
  assert (Hlen : Z.of_nat (length buf) = Z.of_nat Q + 4).
  { unfold buf. rewrite length_resize_list. unfold cells_of.
    rewrite (u64_small (4 * (Z.of_nat Q + 4))) by lia.
    rewrite (Z.mul_comm 4), Z.div_mul by lia. lia. }
  pose proof (trace_loop_walks _ Q W Hg ltac:(lia) ltac:(lia) (Z.of_nat Q + 2)
                fuel buf Q c (Z.of_nat Q + 1)) as Ht.
  destruct (trace_loop fuel _ buf _ _ _ _) as [[[buf' rc'] n1]| | | |];
    try (intros H; discriminate H).
  destruct Ht as (ops & n0 & Hsl & Hwalk & En1); try lia.
  rewrite (slice_empty buf) in Hsl by lia. rewrite app_nil_r in Hsl.
  intros H; inversion H; subst al1; clear H.
  unfold cigar_of; simpl. rewrite Hsl.
  assert (HQb : Z.of_nat Q < 2 ^ 28) by lia.
  destruct (walks_spans _ _ _ _ _ HQb Hwalk) as (_ & Hspan).
  exists n0. rewrite (u64_small n1) by lia.
  split_and!; try assumption; reflexivity.
Qed.

Lemma aligned_opt (semi : bool) (al0 : Alignment_ASW) :
  lengths_fit al0 ->
  exists c : nat,
    aligned semi al0 =
      set_opt (asw_align (align_init semi al0))
              (row_score (align_init semi al0) (Z.to_nat (subquery_len al0)) c)
              (Z.of_nat c) /\
    (c <= Z.to_nat (subdb_len al0))%nat /\
    (forall j, (j <= Z.to_nat (subdb_len al0))%nat ->
       row_score (align_init semi al0) (Z.to_nat (subquery_len al0)) c
       <= row_score (align_init semi al0) (Z.to_nat (subquery_len al0)) j) /\
    (forall j, (j < c)%nat ->
       row_score (align_init semi al0) (Z.to_nat (subquery_len al0)) c
       < row_score (align_init semi al0) (Z.to_nat (subquery_len al0)) j).
Proof.
  intros Hfit. rewrite (aligned_eq semi al0 Hfit).
  destruct (asw_align_lens (align_init semi al0)) as (E1 & E2 & _).
  destruct (align_init_lens semi al0) as (F1 & F2 & _).
  destruct (locate_body_min (last_row (asw_align (align_init semi al0)))
              (Z.to_nat (subdb_len al0))) as (c & Ec & Hc & Es & Hmin & Hleft).
  exists c. unfold asw_locate_minscore. rewrite E1, F1, Ec, Es.
  rewrite last_row_align in *. rewrite F2 in *.
  split_and!; try assumption; try reflexivity.
  - intros j Hj. specialize (Hmin j Hj).
    rewrite Es, !last_row_align, F2 in Hmin. exact Hmin.
  - intros j Hj. specialize (Hleft j Hj).
    rewrite Es, !last_row_align, F2 in Hleft. exact Hleft.
Qed.

(** ** The alignment as a whole *)

Lemma cell_scored_int al i j c :
  cell_scored al i j c -> sint (row_score al i j) = row_score al i j.
Proof.
  intros [(_ & _ & _ & _ & E) | [(_ & _ & _ & _ & E)
         | [(_ & z & _ & _ & E) | (_ & z & _ & _ & E)]]];
    rewrite E; apply sint_idem.
Qed.

(** What [Qxalign_align] leaves for the traceback, for non-empty
    sub-views. *)
Lemma aligned_nonempty (semi : bool) (al0 : Alignment_ASW) :
  0 < subdb_len al0 -> 0 < subquery_len al0 ->
  Qxalign_align al0 semi =
  (PyLong (opt_score (asw_locate_minscore (asw_align (align_init semi al0)))),
   asw_locate_minscore (asw_align (align_init semi al0))).
Proof.
  intros HW HQ. unfold Qxalign_align.
  destruct (Z.eqb_spec (subdb_len al0) 0); [lia|].
  destruct (Z.eqb_spec (subquery_len al0) 0); [lia|].
  destruct semi; reflexivity.
Qed.

(** X2. For non-empty sub-views [Qxalign_align] hands back the smallest
    score of the last row of the matrix, and the engine records the
    leftmost column of that row that holds it. *)
Theorem Qxalign_align_leftmost_min (al0 : Alignment_ASW) (semi : bool) :
  0 < subdb_len al0 -> 0 < subquery_len al0 ->
  let al := align_init semi al0 in
  let Q := Z.to_nat (subquery_len al0) in
  exists c : nat,
    (c <= Z.to_nat (subdb_len al0))%nat /\
    fst (Qxalign_align al0 semi) = PyLong (score_of al Q c) /\
    opt_score_col (snd (Qxalign_align al0 semi)) = Z.of_nat c /\
    (forall j, (j <= Z.to_nat (subdb_len al0))%nat ->
       score_of al Q c <= score_of al Q j) /\
    (forall j, (j < c)%nat -> score_of al Q c < score_of al Q j).
Proof.
  intros HW HQ. cbv zeta.
  rewrite (aligned_nonempty semi al0 HW HQ). cbn [fst snd].
  set (al := align_init semi al0). set (Q := Z.to_nat (subquery_len al0)).
  destruct (asw_align_lens al) as (E1 & E2 & _).
  destruct (align_init_lens semi al0) as (F1 & F2 & _). fold al in F1, F2.
  destruct (locate_body_min (last_row (asw_align al))
              (Z.to_nat (subdb_len (asw_align al))))
    as (c & Ec & Hc & Es & Hmin & Hleft).
  change (fst (for_loop _ _ _)) with (opt_score (asw_locate_minscore (asw_align al)))
    in Es, Hmin, Hleft.
  change (snd (for_loop _ _ _))
    with (opt_score_col (asw_locate_minscore (asw_align al))) in Ec.
  rewrite E1, F1 in Hc, Hmin.
  assert (Hrow : forall j, (j <= Z.to_nat (subdb_len al0))%nat ->
            rd (last_row (asw_align al)) j = score_of al Q j).
  { intros j Hj. rewrite last_row_align, F2.
    symmetry. apply score_of_row_score; [unfold Q; lia|rewrite F1; exact Hj]. }
  exists c. split_and!; try assumption.
  - rewrite Es, Hrow by exact Hc. reflexivity.
  - intros j Hj. rewrite <- !Hrow by (exact Hc || exact Hj).
    rewrite <- Es. apply Hmin. exact Hj.
  - intros j Hj. rewrite <- !Hrow by lia. rewrite <- Es. apply Hleft. exact Hj.
Qed.

(** X3. The top row as [asw_align_init_semi] leaves it: every score 0,
    every insertion score [gopen_true_pen], every insertion length 0,
    the trace cells those of a deletion run from the corner; the other
    rows of the trace matrix and the second row of each pair are not
    touched. *)
Theorem align_init_semi_top_row (al0 : Alignment_ASW) :
  buffers_ok al0 ->
  let al := asw_align_init_semi al0 in
  (forall j, (j <= Z.to_nat (subdb_len al0))%nat ->
     rd (vecPen_m_act al) j = 0 /\
     rd (vecIns_m_act al) j = gopen_true_pen_of al0 /\
     rd (I_ext_m_act al) j = 0) /\
  rd2 (matTra al) 0 0 = pack 0 BAM_CSEQ_MATCH /\
  (forall j, (1 <= j <= Z.to_nat (subdb_len al0))%nat ->
     rd2 (matTra al) 0 j = pack (Z.of_nat j) BAM_CDEL) /\
  (forall i j, i <> O -> rd2 (matTra al) i j = rd2 (matTra al0) i j) /\
  vecPen_m1_act al = vecPen_m1_act al0 /\
  vecIns_m1_act al = vecIns_m1_act al0 /\
  I_ext_m1_act al = I_ext_m1_act al0.
Proof.
  intros Hb. cbv zeta.
  destruct (init_rows_inv al0 true Hb)
    as (_ & Hz & H00 & Hdel & Hoth & _ & _ & _ & Hsemi).
  pose proof (init_rows_ins al0 true Hb) as Hins.
  unfold asw_align_init_semi, init_finish; simpl.
  split_and!; try assumption; try reflexivity.
  intros j Hj. split_and!.
  - apply Hsemi; [reflexivity|exact Hj].
  - rewrite Hins by exact Hj. rewrite Hsemi by (reflexivity || exact Hj).
    rewrite Z.add_0_l. apply sint_idem.
  - apply Hz. exact Hj.
Qed.

(** X4. The leftmost column after either initializer and [asw_align]:
    the trace cell of row [i] is an insertion run of length [i], and
    its score is the penalty of inserting the first [i] query bases. *)
Theorem align_leftmost_column (semi : bool) (al0 : Alignment_ASW) (i : nat) :
  buffers_ok al0 -> lengths_fit al0 ->
  (1 <= i <= Z.to_nat (subquery_len al0))%nat ->
  let al := align_init semi al0 in
  rd2 (matTra (asw_align al)) i 0 = pack (Z.of_nat i) BAM_CINS /\
  score_of al i 0 = sint (ins_cost al0 0 i).
Proof.
  intros Hb Hfit Hi. cbv zeta.
  pose proof (align_init_initialized semi al0 Hb Hfit) as Hinit.
  destruct (init_same_scoring semi al0) as (Hsc & _).
  destruct (align_init_lens semi al0) as (F1 & F2 & _).
  destruct (init_rows_inv al0 semi Hb) as (_ & _ & _ & _ & _ & Hp0 & _).
  destruct i as [|m]; [lia|].
  destruct (leftmost_cell _ Hinit m ltac:(rewrite F2; lia)) as (Et & Es).
  split.
  - rewrite matTra_asw_align.
    rewrite (align_upto_rows _ _ (S m)) by (rewrite F2; lia). exact Et.
  - rewrite score_of_row_score by lia. rewrite Es.
    rewrite (ins_cost_ext _ al0) by exact Hsc.
    unfold row_score, align_upto; simpl.
    rewrite align_init_eq. unfold init_finish; simpl.
    rewrite Hp0. rewrite Z.add_0_l. reflexivity.
Qed.

(** What the traceback of a completed alignment walked. *)
Lemma aligned_trace_walks (semi : bool) (al0 al1 : Alignment_ASW) (fuel : nat) :
  buffers_ok al0 -> lengths_fit al0 ->
  (Z.to_nat (subquery_len al0) + Z.to_nat (subdb_len al0) < fuel)%nat ->
  asw_trace fuel (aligned semi al0) = Ok al1 ->
  exists c n0 : nat,
    (c <= Z.to_nat (subdb_len al0))%nat /\
    walks (matTra (asw_align (align_init semi al0)))
          (Z.to_nat (subquery_len al0)) c (cigar_of al1) n0 /\
    offset al1 = Z.of_nat n0 /\ opt_score_col al1 = Z.of_nat c /\
    opt_score al1 =
      row_score (align_init semi al0) (Z.to_nat (subquery_len al0)) c.
Proof.
  intros Hb Hfit Hfuel Ht.
  destruct (aligned_opt semi al0 Hfit) as (c & Ea & Hc & _).
  rewrite Ea in Ht.
  destruct (asw_trace_walks semi al0 al1 _ (Z.of_nat c) fuel Hb Hfit
              ltac:(destruct Hfit; lia) ltac:(lia) Ht)
    as (n0 & Hw & Eoff & Es & Ecol).
  rewrite Nat2Z.id in Hw. exists c, n0. auto.
Qed.

(** X5. The CIGAR [asw_trace] emits for a completed alignment is not
    empty, holds only =, X, I and D operations with run lengths of at
    least 1, and never has two = runs or two X runs in a row. *)
Theorem trace_cigar_shape (semi : bool) (al0 al1 : Alignment_ASW) (fuel : nat) :
  buffers_ok al0 -> lengths_fit al0 ->
  (Z.to_nat (subquery_len al0) + Z.to_nat (subdb_len al0) < fuel)%nat ->
  asw_trace fuel (aligned semi al0) = Ok al1 ->
  cigar_of al1 <> [] /\
  Forall trace_op (cigar_of al1) /\
  runs_maximal (cigar_of al1) = true.
Proof.
  intros Hb Hfit Hfuel Ht.
  destruct (aligned_trace_walks semi al0 al1 fuel Hb Hfit Hfuel Ht)
    as (c & n0 & Hc & Hw & _).
  destruct Hfit as (HW & HQ).
  assert (HQb : Z.of_nat (Z.to_nat (subquery_len al0)) < 2 ^ 28) by lia.
  assert (HQ1 : (1 <= Z.to_nat (subquery_len al0))%nat) by lia.
  assert (Hcb : Z.of_nat c < 2 ^ 28) by lia.
  split_and!.
  - destruct (walks_last _ _ _ _ _ HQb HQ1 Hw) as (ops' & x & E & _).
    rewrite E. intros H. symmetry in H. apply app_cons_not_nil in H. exact H.
  - apply (walks_shape _ _ _ _ _ HQb Hcb Hw).
  - apply (walks_maximal _ _ _ _ _ HQb Hw).
Qed.

(** X6. The CIGAR [asw_trace] emits covers the reference from [offset]
    to the column of the minimum: the run lengths of its
    reference-consuming operations (=, X, D) add up to
    [opt_score_col - offset]. *)
Theorem trace_reference_span (semi : bool) (al0 al1 : Alignment_ASW)
    (fuel : nat) :
  buffers_ok al0 -> lengths_fit al0 ->
  (Z.to_nat (subquery_len al0) + Z.to_nat (subdb_len al0) < fuel)%nat ->
  asw_trace fuel (aligned semi al0) = Ok al1 ->
  ref_consumed (cigar_of al1) = opt_score_col al1 - offset al1 /\
  0 <= offset al1 <= opt_score_col al1 /\
  opt_score_col al1 <= subdb_len al0.
Proof.
  intros Hb Hfit Hfuel Ht.
  destruct (aligned_trace_walks semi al0 al1 fuel Hb Hfit Hfuel Ht)
    as (c & n0 & Hc & Hw & Eoff & Ecol & _).
  destruct Hfit as (HW & HQ).
  assert (HQb : Z.of_nat (Z.to_nat (subquery_len al0)) < 2 ^ 28) by lia.
  assert (Hcb : Z.of_nat c < 2 ^ 28) by lia.
  destruct (walks_spans _ _ _ _ _ HQb Hw) as (_ & Hspan).
  pose proof (walks_shape _ _ _ _ _ HQb Hcb Hw) as Hshape.
  rewrite (ref_consumed_span _ (trace_op_nonneg _ Hshape)).
  rewrite Eoff, Ecol. lia.
Qed.

(** X7. The score of a completed alignment is the penalty of the
    alignment its traceback reports, in [int] arithmetic: the penalty
    of the reference bases before [offset] (a deletion run in global
    mode, nothing in semi-global mode) plus the penalties of the
    operations of the CIGAR, each taken at the qualities of the query
    bases it covers. *)
Theorem trace_realises_score (semi : bool) (al0 al1 : Alignment_ASW)
    (fuel : nat) :
  buffers_ok al0 -> lengths_fit al0 ->
  (Z.to_nat (subquery_len al0) + Z.to_nat (subdb_len al0) < fuel)%nat ->
  asw_trace fuel (aligned semi al0) = Ok al1 ->
  opt_score al1 =
    sint (leading_gap semi al0 (offset al1) + cigar_cost al0 0 (cigar_of al1)).
Proof.
  intros Hb Hfit Hfuel Ht.
  destruct (aligned_trace_walks semi al0 al1 fuel Hb Hfit Hfuel Ht)
    as (c & n0 & Hc & Hw & Eoff & Ecol & Es).
  pose proof (align_init_initialized semi al0 Hb Hfit) as Hinit.
  destruct (init_same_scoring semi al0) as (Hsc & Hvw).
  destruct (align_init_lens semi al0) as (F1 & F2 & _).
  set (al := align_init semi al0) in *.
  assert (Hcells : forall i j,
            (1 <= i <= Z.to_nat (subquery_len al0))%nat ->
            (j <= Z.to_nat (subdb_len al0))%nat ->
            cell_scored al i j (rd2 (matTra (asw_align al)) i j)).
  { intros i j Hi Hj. apply (cells_scored al Hinit); rewrite ?F1, ?F2; assumption. }
  destruct Hfit as (HW & HQ).
  assert (HQb : Z.of_nat (Z.to_nat (subquery_len al0)) < 2 ^ 28) by lia.
  assert (HQ1 : (1 <= Z.to_nat (subquery_len al0) <= Z.to_nat (subquery_len al0))%nat)
    by lia.
  destruct (walks_scored al _ _ _ Hcells HQb _ _ _ _ (le_n _) Hc Hw)
    as (Hsc1 & _).
  destruct (walks_spans _ _ _ _ _ HQb Hw) as (_ & Hspan).
  rewrite Es, <- (cell_scored_int al _ c _ (Hcells _ c HQ1 Hc)).
  rewrite Hsc1, <- sint_sint_add.
  replace (row_score al 0 n0) with (rd (i_vecPen_m (init_rows semi al0)) n0)
    by (unfold row_score, align_upto, al; simpl; rewrite align_init_eq; reflexivity).
  rewrite (init_rows_top al0 semi n0 Hb ltac:(lia)).
  rewrite sint_sint_add, Eoff.
  rewrite (cigar_cost_ext al al0) by exact Hsc. reflexivity.
Qed.

(** X8. In the CIGAR of a completed alignment, laid on the sub-views
    from query position 0 and reference position [offset], every = run
    covers pairs for which [IS_MATCH] holds and every X run pairs for
    which it does not. *)
Theorem trace_runs_agree (semi : bool) (al0 al1 : Alignment_ASW) (fuel : nat) :
  buffers_ok al0 -> lengths_fit al0 ->
  (Z.to_nat (subquery_len al0) + Z.to_nat (subdb_len al0) < fuel)%nat ->
  asw_trace fuel (aligned semi al0) = Ok al1 ->
  cigar_agrees al0 0 (Z.to_nat (offset al1)) (cigar_of al1) = true.
Proof.
  intros Hb Hfit Hfuel Ht.
  destruct (aligned_trace_walks semi al0 al1 fuel Hb Hfit Hfuel Ht)
    as (c & n0 & Hc & Hw & Eoff & Ecol & Es).
  pose proof (align_init_initialized semi al0 Hb Hfit) as Hinit.
  destruct (init_same_scoring semi al0) as (Hsc & Hvw).
  destruct (align_init_lens semi al0) as (F1 & F2 & _).
  set (al := align_init semi al0) in *.
  assert (Hcells : forall i j,
            (1 <= i <= Z.to_nat (subquery_len al0))%nat ->
            (j <= Z.to_nat (subdb_len al0))%nat ->
            cell_scored al i j (rd2 (matTra (asw_align al)) i j)).
  { intros i j Hi Hj. apply (cells_scored al Hinit); rewrite ?F1, ?F2; assumption. }
  destruct Hfit as (HW & HQ).
  assert (HQb : Z.of_nat (Z.to_nat (subquery_len al0)) < 2 ^ 28) by lia.
  destruct (walks_scored al _ _ _ Hcells HQb _ _ _ _ (le_n _) Hc Hw)
    as (_ & Hag).
  rewrite Eoff, Nat2Z.id, <- (cigar_agrees_ext al al0) by exact Hvw.
  exact Hag.
Qed.

(** ** The alignment theorems at concrete alignments *)

Lemma Qxalign_align_leftmost_min_witness :
  exists c : nat,
    (c <= 8)%nat /\
    fst (Qxalign_align (prepared default_engine "TTACGTAA" "ACGT" "IIII") true)
    = PyLong (score_of (align_init true
                          (prepared default_engine "TTACGTAA" "ACGT" "IIII")) 4 c) /\
    opt_score_col
      (snd (Qxalign_align (prepared default_engine "TTACGTAA" "ACGT" "IIII") true))
    = Z.of_nat c.
Proof.
  destruct (Qxalign_align_leftmost_min
              (prepared default_engine "TTACGTAA" "ACGT" "IIII") true
              ltac:(vm_compute; reflexivity) ltac:(vm_compute; reflexivity))
    as (c & Hc & Es & Ec & _).
  exists c. split_and!; [exact Hc|exact Es|exact Ec].
Defined.

Lemma align_init_semi_top_row_witness :
  rd (vecIns_m_act (asw_align_init_semi
                      (prepared default_engine "ACGT" "ACCT" "5III"))) 3
  = gopen_true_pen_of (prepared default_engine "ACGT" "ACCT" "5III").
Proof.
  pose proof (align_init_semi_top_row
                (prepared default_engine "ACGT" "ACCT" "5III")
                ltac:(concrete_buffers)) as H.
  cbv zeta in H. destruct H as (H & _).
  destruct (H 3%nat ltac:(vm_compute; lia)) as (_ & H3 & _). exact H3.
Defined.

Lemma align_leftmost_column_witness :
  rd2 (matTra (asw_align
         (align_init false (prepared default_engine "ACGT" "ACCT" "5III")))) 3 0
  = pack 3 BAM_CINS /\
  score_of (align_init false (prepared default_engine "ACGT" "ACCT" "5III")) 3 0
  = sint (ins_cost (prepared default_engine "ACGT" "ACCT" "5III") 0 3).
Proof.
  exact (align_leftmost_column false
           (prepared default_engine "ACGT" "ACCT" "5III") 3
           ltac:(concrete_buffers) ltac:(concrete_lengths)
           ltac:(vm_compute; lia)).
Defined.

Lemma trace_cigar_shape_witness :
  runs_maximal
    (cigar_of (ok_or (asw_trace 100
                        (aligned true
                           (prepared default_engine "TTACGGTAA" "ACTGAT" "I5I+II")))
                     default_engine)) = true.
Proof.
  pose proof (trace_cigar_shape true
                (prepared default_engine "TTACGGTAA" "ACTGAT" "I5I+II")
                (ok_or (asw_trace 100
                          (aligned true
                             (prepared default_engine "TTACGGTAA" "ACTGAT" "I5I+II")))
                       default_engine) 100
                ltac:(concrete_buffers) ltac:(concrete_lengths)
                ltac:(vm_compute; lia) ltac:(vm_compute; reflexivity))
    as (_ & _ & H).
  exact H.
Defined.

Lemma trace_reference_span_witness :
  ref_consumed
    (cigar_of (ok_or (asw_trace 100
                        (aligned false
                           (prepared default_engine "AACCGGTT" "AAGGTT" "IIIIII")))
                     default_engine))
  = opt_score_col
      (ok_or (asw_trace 100
                (aligned false
                   (prepared default_engine "AACCGGTT" "AAGGTT" "IIIIII")))
             default_engine)
    - offset
        (ok_or (asw_trace 100
                  (aligned false
                     (prepared default_engine "AACCGGTT" "AAGGTT" "IIIIII")))
               default_engine).
Proof.
  pose proof (trace_reference_span false
                (prepared default_engine "AACCGGTT" "AAGGTT" "IIIIII")
                (ok_or (asw_trace 100
                          (aligned false
                             (prepared default_engine "AACCGGTT" "AAGGTT" "IIIIII")))
                       default_engine) 100
                ltac:(concrete_buffers) ltac:(concrete_lengths)
                ltac:(vm_compute; lia) ltac:(vm_compute; reflexivity))
    as (H & _).
  exact H.
Defined.

Lemma trace_realises_score_witness :
  opt_score
    (ok_or (asw_trace 100
              (aligned false (prepared default_engine "TTACGTAA" "ACGT" "IIII")))
           default_engine)
  = sint (leading_gap false (prepared default_engine "TTACGTAA" "ACGT" "IIII")
            (offset
               (ok_or (asw_trace 100
                         (aligned false
                            (prepared default_engine "TTACGTAA" "ACGT" "IIII")))
                      default_engine))
          + cigar_cost (prepared default_engine "TTACGTAA" "ACGT" "IIII") 0
              (cigar_of
                 (ok_or (asw_trace 100
                           (aligned false
                              (prepared default_engine "TTACGTAA" "ACGT" "IIII")))
                        default_engine))).
Proof.
  exact (trace_realises_score false
           (prepared default_engine "TTACGTAA" "ACGT" "IIII")
           (ok_or (asw_trace 100
                     (aligned false
                        (prepared default_engine "TTACGTAA" "ACGT" "IIII")))
                  default_engine) 100
           ltac:(concrete_buffers) ltac:(concrete_lengths)
           ltac:(vm_compute; lia) ltac:(vm_compute; reflexivity)).
Defined.

Lemma trace_runs_agree_witness :
  cigar_agrees (prepared default_engine "TTACGGTAA" "ACTGAT" "I5I+II") 0
    (Z.to_nat
       (offset
          (ok_or (asw_trace 100
                    (aligned true
                       (prepared default_engine "TTACGGTAA" "ACTGAT" "I5I+II")))
                 default_engine)))
    (cigar_of
       (ok_or (asw_trace 100
                 (aligned true
                    (prepared default_engine "TTACGGTAA" "ACTGAT" "I5I+II")))
              default_engine))
  = true.
Proof.
  exact (trace_runs_agree true
           (prepared default_engine "TTACGGTAA" "ACTGAT" "I5I+II")
           (ok_or (asw_trace 100
                     (aligned true
                        (prepared default_engine "TTACGGTAA" "ACTGAT" "I5I+II")))
                  default_engine) 100
           ltac:(concrete_buffers) ltac:(concrete_lengths)
           ltac:(vm_compute; lia) ltac:(vm_compute; reflexivity)).
Defined.

(** ** Soft-clipping the ends, in general *)

Lemma slice_split (buf : list Z) (b m e : Z) :
  0 <= b <= m -> m <= e ->
  slice buf b e = slice buf b m ++ slice buf m e.
Proof.
  intros Hb He. unfold slice.
  replace (Z.to_nat (e - b)) with (Z.to_nat (m - b) + Z.to_nat (e - m))%nat by lia.
  rewrite <- take_take_drop, drop_drop.
  replace (Z.to_nat b + Z.to_nat (m - b))%nat with (Z.to_nat m) by lia.
  reflexivity.
Qed.

Lemma slice_app_inv (buf : list Z) (b e : Z) (l1 l2 : list Z) :
  0 <= b <= e -> e <= Z.of_nat (length buf) ->
  slice buf b e = l1 ++ l2 ->
  slice buf b (b + Z.of_nat (length l1)) = l1 /\
  slice buf (b + Z.of_nat (length l1)) e = l2 /\
  b + Z.of_nat (length l1) + Z.of_nat (length l2) = e.
Proof.
  intros Hb He E.
  assert (Hl : Z.of_nat (length l1) + Z.of_nat (length l2) = e - b).
  { apply (f_equal (@length Z)) in E.
    rewrite length_slice, length_app in E by lia. lia. }
  rewrite (slice_split buf b (b + Z.of_nat (length l1)) e) in E by lia.
  apply app_inj_1 in E.
  - destruct E as [E1 E2]. split_and!; [exact E1|exact E2|lia].
  - rewrite length_slice by lia. lia.
Qed.

Lemma clipped_len_app (l1 l2 : list Z) :
  clipped_len (l1 ++ l2) = clipped_len l1 + clipped_len l2.
Proof. induction l1 as [|c l1 IH]; simpl; [reflexivity|]. rewrite IH. lia. Qed.

Lemma skipped_len_app (l1 l2 : list Z) :
  skipped_len (l1 ++ l2) = skipped_len l1 + skipped_len l2.
Proof. induction l1 as [|c l1 IH]; simpl; [reflexivity|]. rewrite IH. lia. Qed.

Lemma clipped_len_bounds (l : list Z) :
  Forall (fun c => 0 <= cigar_len c) l ->
  0 <= clipped_len l <= total_len l /\ 0 <= skipped_len l <= total_len l.
Proof.
  induction 1 as [|c l Hc Hl IH]; simpl; [lia|].
  destruct (negb _ && negb _), (negb _ && negb _); lia.
Qed.

Lemma cigar_fits_lens (l : list Z) :
  cigar_fits l -> Forall (fun c => 0 <= cigar_len c < 2 ^ 31) l.
Proof.
  intros (Hf & Ht). induction Hf as [|c l Hc Hl IH]; [constructor|].
  cbn [total_len] in Ht. destruct (clipped_len_bounds l Hl).
  constructor; [lia|apply IH; lia].
Qed.

Lemma u32_u32_add a b : u32 (u32 a + b) = u32 (a + b).
Proof. unfold u32. rewrite Zplus_mod_idemp_l. reflexivity. Qed.

Lemma u64_u64_add a b : u64 (u64 a + b) = u64 (a + b).
Proof. unfold u64. rewrite Zplus_mod_idemp_l. reflexivity. Qed.

Lemma u32_idem x : u32 (u32 x) = u32 x.
Proof. unfold u32. apply Z.mod_mod. lia. Qed.

Lemma softclip_scan_3p_S k buf rc s :
  softclip_scan_3p (S k) buf rc s =
  let cigar := zrd buf (rc + Z.of_nat (S k)) in
  if cigar_op cigar =? BAM_CSEQ_MATCH then (rc + Z.of_nat (S k), s)
  else if negb (cigar_op cigar =? BAM_CDEL)
          && negb (cigar_op cigar =? BAM_CHARD_CLIP)
  then softclip_scan_3p k buf rc (u32 (s + cigar_len cigar))
  else softclip_scan_3p k buf rc s.
Proof. reflexivity. Qed.

Lemma softclip_scan_5p_S k buf fc3p s off :
  softclip_scan_5p (S k) buf fc3p s off =
  let cigar := zrd buf (fc3p - Z.of_nat (S k)) in
  if cigar_op cigar =? BAM_CSEQ_MATCH then (fc3p - Z.of_nat (S k), s, off)
  else if negb (cigar_op cigar =? BAM_CHARD_CLIP) then
    softclip_scan_5p k buf fc3p
      (if negb (cigar_op cigar =? BAM_CDEL)
       then u32 (s + sint (cigar_len cigar)) else s)
      (if negb (cigar_op cigar =? BAM_CINS)
       then u64 (off + sint (cigar_len cigar)) else off)
  else softclip_scan_5p k buf fc3p s off.
Proof. reflexivity. Qed.

(** The scan from the tail stops at the last = and adds up what it
    passed. *)
Lemma softclip_scan_3p_spec (buf : list Z) (rc : Z) :
  -1 <= rc ->
  forall (k : nat) (s : Z) (pre post : list Z),
    rc + Z.of_nat k < Z.of_nat (length buf) ->
    slice buf (rc + 1) (rc + 1 + Z.of_nat k) = pre ++ post ->
    Forall (fun c => is_eq_op c = false) post ->
    (pre = [] \/ exists pre' c, pre = pre' ++ [c] /\ is_eq_op c = true) ->
    softclip_scan_3p k buf rc (u32 s) =
    (rc + Z.of_nat (length pre), u32 (s + clipped_len post)).
Proof.
  intros Hrc. induction k as [|k IH]; intros s pre post Hlen Hsl Hpost Hpre.
  - rewrite slice_empty in Hsl by lia.
    symmetry in Hsl. apply app_eq_nil in Hsl. destruct Hsl as [-> ->].
    simpl. rewrite !Z.add_0_r. reflexivity.
  - rewrite softclip_scan_3p_S. cbv zeta.
    replace (rc + 1 + Z.of_nat (S k)) with (rc + 1 + Z.of_nat k + 1) in Hsl by lia.
    rewrite slice_snoc in Hsl by lia.
    replace (rc + 1 + Z.of_nat k) with (rc + Z.of_nat (S k)) in Hsl at 2 by lia.
    set (c := zrd buf (rc + Z.of_nat (S k))) in *.
    destruct post as [|c' post' _] using rev_ind.
    + (* nothing after the last =: the scan stops at once *)
      rewrite app_nil_r in Hsl.
      destruct Hpre as [->|(pre' & x & -> & Hx)].
      { apply app_eq_nil in Hsl. destruct Hsl as [_ H]. discriminate H. }
      apply app_inj_tail in Hsl. destruct Hsl as [Hsl <-].
      unfold is_eq_op in Hx. rewrite Hx.
      apply (f_equal (@length Z)) in Hsl. rewrite length_slice in Hsl by lia.
      simpl. rewrite Z.add_0_r, length_app. simpl. f_equal. lia.
    + rewrite app_assoc in Hsl. apply app_inj_tail in Hsl. destruct Hsl as [Hsl <-].
      apply Forall_app in Hpost. destruct Hpost as [Hpost' Hc].
      inversion Hc as [|? ? Hc0 _]; subst. unfold is_eq_op in Hc0. rewrite Hc0.
      rewrite clipped_len_app. simpl. rewrite Z.add_0_r.
      destruct (negb _ && negb _).
      * rewrite u32_u32_add.
        rewrite (IH (s + cigar_len c) pre post') by (assumption || lia).
        do 2 f_equal. lia.
      * rewrite (IH s pre post') by (assumption || lia).
        do 2 f_equal. lia.
Qed.

(** The scan from the head stops at the first = and adds up what it
    passed. *)
Lemma softclip_scan_5p_spec (buf : list Z) (fc3p : Z) :
  forall (k : nat) (s off : Z) (pre post : list Z),
    0 <= fc3p - Z.of_nat k -> fc3p <= Z.of_nat (length buf) ->
    slice buf (fc3p - Z.of_nat k) fc3p = pre ++ post ->
    Forall (fun c => is_eq_op c = false) pre ->
    Forall (fun c => 0 <= cigar_len c < 2 ^ 31) pre ->
    (post = [] \/ exists c post', post = c :: post' /\ is_eq_op c = true) ->
    softclip_scan_5p k buf fc3p (u32 s) (u64 off) =
    (fc3p - Z.of_nat (length post),
     u32 (s + clipped_len pre), u64 (off + skipped_len pre)).
Proof.
  induction k as [|k IH]; intros s off pre post Hb Hlen Hsl Hpre Hfit Hpost.
  - rewrite slice_empty in Hsl by lia.
    symmetry in Hsl. apply app_eq_nil in Hsl. destruct Hsl as [-> ->].
    simpl. rewrite !Z.add_0_r, Z.sub_0_r. reflexivity.
  - rewrite softclip_scan_5p_S. cbv zeta.
    rewrite slice_cons in Hsl by lia.
    set (c := zrd buf (fc3p - Z.of_nat (S k))) in *.
    replace (fc3p - Z.of_nat (S k) + 1) with (fc3p - Z.of_nat k) in Hsl by lia.
    destruct pre as [|c' pre'].
    + (* the first cell is the first = *)
      destruct Hpost as [->|(x & post' & -> & Hx)]; [discriminate Hsl|].
      simpl in Hsl. injection Hsl as Ex E2. subst x.
      unfold is_eq_op in Hx. rewrite Hx.
      apply (f_equal (@length Z)) in E2. rewrite length_slice in E2 by lia.
      cbn [clipped_len skipped_len length]. rewrite !Z.add_0_r.
      do 2 f_equal. lia.
    + simpl in Hsl. injection Hsl as Ex E2. subst c'.
      apply Forall_cons in Hpre. destruct Hpre as [Hc0 Hpre'].
      apply Forall_cons in Hfit. destruct Hfit as [Hcf Hfit'].
      unfold is_eq_op in Hc0. rewrite Hc0.
      pose proof Hcf as Hcl.
      rewrite (sint_small (cigar_len c)) by lia.
      cbn [clipped_len skipped_len].
      destruct (cigar_op c =? BAM_CHARD_CLIP) eqn:EH; cbn [negb andb].
      * rewrite andb_false_r. cbn [andb].
        rewrite (IH s off pre' post) by (assumption || lia).
        rewrite ?Z.add_0_l, ?Z.add_0_r, ?Z.add_assoc; reflexivity.
      * rewrite andb_true_r.
        destruct (cigar_op c =? BAM_CDEL) eqn:ED;
          destruct (cigar_op c =? BAM_CINS) eqn:EI; cbn [negb];
          rewrite ?u32_u32_add, ?u64_u64_add.
        -- rewrite (IH s off pre' post) by (assumption || lia).
           rewrite ?Z.add_0_l, ?Z.add_0_r, ?Z.add_assoc; reflexivity.
        -- rewrite (IH s (off + cigar_len c) pre' post) by (assumption || lia).
           rewrite ?Z.add_0_l, ?Z.add_0_r, ?Z.add_assoc; reflexivity.
        -- rewrite (IH (s + cigar_len c) off pre' post) by (assumption || lia).
           rewrite ?Z.add_0_l, ?Z.add_0_r, ?Z.add_assoc; reflexivity.
        -- rewrite (IH (s + cigar_len c) (off + cigar_len c) pre' post)
             by (assumption || lia).
           rewrite ?Z.add_0_l, ?Z.add_0_r, ?Z.add_assoc; reflexivity.
Qed.

Lemma slice_zwr_last (buf : list Z) (b p x : Z) :
  0 <= b <= p -> p < Z.of_nat (length buf) ->
  slice (zwr buf p x) b (p + 1) = slice buf b p ++ [x].
Proof.
  intros Hb Hp. apply slice_store_after; [|lia]. apply zwr_store. lia.
Qed.

Lemma emit_S_pos (n : Z) : 0 < n -> emit_S n = [pack n BAM_CSOFT_CLIP].
Proof. intros H. unfold emit_S. destruct (Z.ltb_spec 0 n); [reflexivity|lia]. Qed.

Lemma emit_S_zero (n : Z) : n <= 0 -> emit_S n = [].
Proof. intros H. unfold emit_S. destruct (Z.ltb_spec 0 n); [lia|reflexivity]. Qed.

Lemma clipped_len_pos_nonnil (l : list Z) : 0 < clipped_len l -> l <> [].
Proof. intros H ->. simpl in H. lia. Qed.

(** The tail of [asw_softclip_trace]: what lies after the last = of a
    CIGAR [pre ++ post] becomes one soft clip. *)
Lemma softclip_trace_tail (buf : list Z) (b e : Z) (pre post : list Z) :
  0 <= b <= e -> e <= Z.of_nat (length buf) ->
  slice buf b e = pre ++ post ->
  Forall (fun c => is_eq_op c = false) post ->
  (pre = [] \/ exists pre' c, pre = pre' ++ [c] /\ is_eq_op c = true) ->
  0 <= clipped_len post < 2 ^ 32 ->
  let '(rc3p, s3) :=
    softclip_scan_3p (Z.to_nat (e - b)) buf (b - 1) 0 in
  let '(rc3p, buf1) :=
    if 0 <? s3
    then (rc3p + 1, zwr buf (rc3p + 1) (pack s3 BAM_CSOFT_CLIP))
    else (rc3p, buf) in
  s3 = clipped_len post /\
  b <= rc3p + 1 <= e /\ length buf1 = length buf /\
  slice buf1 b (rc3p + 1) = pre ++ emit_S (clipped_len post).
Proof.
  intros Hb He Hsl Hpost Hpre Hs.
  destruct (slice_app_inv buf b e pre post Hb He Hsl) as (E1 & E2 & El).
  pose proof (softclip_scan_3p_spec buf (b - 1) ltac:(lia)
                (Z.to_nat (e - b)) 0 pre post ltac:(lia)) as Hscan.
  replace (b - 1 + 1) with b in Hscan by lia.
  replace (b + Z.of_nat (Z.to_nat (e - b))) with e in Hscan by lia.
  change (u32 0) with 0 in Hscan.
  rewrite (Hscan Hsl Hpost Hpre). rewrite Z.add_0_l, (u32_small _ Hs).
  destruct (Z.ltb_spec 0 (clipped_len post)) as [Hpos|Hzero].
  - pose proof (clipped_len_pos_nonnil post Hpos) as Hne.
    assert (1 <= Z.of_nat (length post)) by (destruct post; [congruence|simpl; lia]).
    rewrite emit_S_pos by exact Hpos. rewrite length_zwr.
    split_and!; try reflexivity; try lia.
    replace (b - 1 + Z.of_nat (length pre) + 1) with (b + Z.of_nat (length pre)) by lia.
    rewrite slice_zwr_last by lia. rewrite E1. reflexivity.
  - rewrite emit_S_zero by lia. rewrite app_nil_r.
    split_and!; try reflexivity; try lia.
    replace (b - 1 + Z.of_nat (length pre) + 1) with (b + Z.of_nat (length pre)) by lia.
    exact E1.
Qed.

(** The head of [asw_softclip_trace]: what lies before the first = of
    a CIGAR [pre ++ post] becomes one soft clip, and the offset moves
    on. *)
Lemma softclip_trace_head (buf1 : list Z) (b fc3p off : Z) (pre post : list Z) :
  0 <= b <= fc3p -> fc3p <= Z.of_nat (length buf1) ->
  slice buf1 b fc3p = pre ++ post ->
  Forall (fun c => is_eq_op c = false) pre ->
  Forall (fun c => 0 <= cigar_len c < 2 ^ 31) pre ->
  (post = [] \/ exists c post', post = c :: post' /\ is_eq_op c = true) ->
  0 <= clipped_len pre < 2 ^ 32 -> 0 <= off < 2 ^ 64 ->
  let '(fc5p, s5, off') :=
    softclip_scan_5p (Z.to_nat (fc3p - b)) buf1 fc3p 0 off in
  let '(fc5p, buf2) :=
    if 0 <? s5
    then (fc5p - 1, zwr buf1 (fc5p - 1) (pack s5 BAM_CSOFT_CLIP))
    else (fc5p, buf1) in
  off' = u64 (off + skipped_len pre) /\
  b <= fc5p <= fc3p /\ length buf2 = length buf1 /\
  slice buf2 fc5p fc3p = emit_S (clipped_len pre) ++ post.
Proof.
  intros Hb He Hsl Hpre Hfit Hpost Hs Hoff.
  destruct (slice_app_inv buf1 b fc3p pre post Hb He Hsl) as (E1 & E2 & El).
  pose proof (softclip_scan_5p_spec buf1 fc3p (Z.to_nat (fc3p - b)) 0 off pre post)
    as Hscan.
  replace (fc3p - Z.of_nat (Z.to_nat (fc3p - b))) with b in Hscan by lia.
  change (u32 0) with 0 in Hscan. rewrite (u64_small off Hoff) in Hscan.
  rewrite (Hscan ltac:(lia) He Hsl Hpre Hfit Hpost).
  rewrite Z.add_0_l, (u32_small _ Hs).
  replace (fc3p - Z.of_nat (length post)) with (b + Z.of_nat (length pre)) by lia.
  destruct (Z.ltb_spec 0 (clipped_len pre)) as [Hpos|Hzero].
  - pose proof (clipped_len_pos_nonnil pre Hpos) as Hne.
    assert (1 <= Z.of_nat (length pre)) by (destruct pre; [congruence|simpl; lia]).
    rewrite emit_S_pos by exact Hpos. rewrite length_zwr.
    split_and!; try reflexivity; try lia.
    rewrite slice_zwr_head by lia.
    replace (b + Z.of_nat (length pre) - 1 + 1) with (b + Z.of_nat (length pre)) by lia.
    rewrite E2. reflexivity.
  - rewrite emit_S_zero by lia.
    split_and!; try reflexivity; try lia. exact E2.
Qed.

Lemma Forall_fits_app_l (l1 l2 : list Z) :
  cigar_fits (l1 ++ l2) -> cigar_fits l1 /\ cigar_fits l2.
Proof.
  intros (Hf & Ht). apply Forall_app in Hf. destruct Hf as [H1 H2].
  rewrite total_len_app in Ht.
  destruct (clipped_len_bounds l1 H1), (clipped_len_bounds l2 H2).
  split; (split; [assumption|lia]).
Qed.

Lemma cigar_fits_clipped (l : list Z) :
  cigar_fits l -> 0 <= clipped_len l < 2 ^ 28 /\ 0 <= skipped_len l < 2 ^ 28.
Proof. intros (Hf & Ht). destruct (clipped_len_bounds l Hf). lia. Qed.

Lemma asw_softclip_trace_eq (al : Alignment_ASW)
    (rc3p s3 rc3p' : Z) (buf1 : list Z) (fc5p s5 off' fc5p' : Z) (buf2 : list Z) :
  softclip_scan_3p (Z.to_nat (cigar_end al - cigar_begin al))
    (rcigar al) (cigar_begin al - 1) 0 = (rc3p, s3) ->
  (if 0 <? s3
   then (rc3p + 1, zwr (rcigar al) (rc3p + 1) (pack s3 BAM_CSOFT_CLIP))
   else (rc3p, rcigar al)) = (rc3p', buf1) ->
  softclip_scan_5p (Z.to_nat (rc3p' + 1 - cigar_begin al)) buf1 (rc3p' + 1) 0
    (offset al) = (fc5p, s5, off') ->
  (if 0 <? s5
   then (fc5p - 1, zwr buf1 (fc5p - 1) (pack s5 BAM_CSOFT_CLIP))
   else (fc5p, buf1)) = (fc5p', buf2) ->
  asw_softclip_trace al = set_cigar al buf2 fc5p' (rc3p' + 1) off'.
Proof.
  intros H1 H2 H3 H4. unfold asw_softclip_trace.
  rewrite H1, H2, H3, H4. reflexivity.
Qed.

Lemma emit_S_facts (n : Z) :
  0 <= n < 2 ^ 28 ->
  Forall (fun c => 0 <= cigar_len c) (emit_S n) /\
  Forall (fun c => is_eq_op c = false) (emit_S n) /\
  clipped_len (emit_S n) = n /\ skipped_len (emit_S n) = n /\
  total_len (emit_S n) = n.
Proof.
  intros Hn. unfold emit_S. destruct (Z.ltb_spec 0 n) as [Hpos|Hz].
  - assert (Ho : cigar_op (pack n BAM_CSOFT_CLIP) = BAM_CSOFT_CLIP)
      by (apply cigar_op_pack; unfold BAM_CSOFT_CLIP; lia).
    assert (Hl : cigar_len (pack n BAM_CSOFT_CLIP) = n)
      by (apply cigar_len_pack_small; unfold BAM_CSOFT_CLIP; lia).
    split_and!.
    + constructor; [|constructor]. rewrite Hl. lia.
    + constructor; [|constructor]. unfold is_eq_op. rewrite Ho. reflexivity.
    + cbn [clipped_len]. rewrite Ho, Hl. simpl. lia.
    + cbn [skipped_len]. rewrite Ho, Hl. simpl. lia.
    + cbn [total_len]. rewrite Hl. lia.
  - simpl. split_and!; try constructor; lia.
Qed.

(** [asw_softclip_trace] on a CIGAR [P ++ T] where [T] has no = and [P]
    is empty or ends with =; what the tail pass leaves, [P] and the
    clip of [T], splits into [hd'] without = and [rest], empty or
    starting with =. *)
Lemma softclip_trace_parts (al : Alignment_ASW) (P T hd' rest : list Z) :
  cigar_in_buffer al ->
  cigar_of al = P ++ T ->
  Forall (fun c => is_eq_op c = false) T ->
  (P = [] \/ exists pre' c, P = pre' ++ [c] /\ is_eq_op c = true) ->
  cigar_fits (cigar_of al) ->
  0 <= offset al < 2 ^ 64 ->
  P ++ emit_S (clipped_len T) = hd' ++ rest ->
  Forall (fun c => is_eq_op c = false) hd' ->
  (rest = [] \/ exists c post', rest = c :: post' /\ is_eq_op c = true) ->
  cigar_of (asw_softclip_trace al) = emit_S (clipped_len hd') ++ rest /\
  offset (asw_softclip_trace al) = u64 (offset al + skipped_len hd') /\
  cigar_in_buffer (asw_softclip_trace al) /\
  cigar_begin al <= cigar_begin (asw_softclip_trace al) /\
  cigar_end (asw_softclip_trace al) <= cigar_end al /\
  length (rcigar (asw_softclip_trace al)) = length (rcigar al).
Proof.
  intros (Hbe & Hlen) Hc HT HP Hfit Hoff Hsplit Hhd Hrest.
  unfold cigar_of in Hc, Hfit.
  set (b := cigar_begin al) in *. set (e := cigar_end al) in *.
  set (buf := rcigar al) in *.
  rewrite Hc in Hfit.
  destruct (Forall_fits_app_l _ _ Hfit) as (FP & FT).
  destruct (cigar_fits_clipped _ FT) as (CT & ST).
  destruct (emit_S_facts (clipped_len T) CT) as (X1 & X2 & X3 & X4 & X5).
  assert (FPX : cigar_fits (P ++ emit_S (clipped_len T))).
  { destruct Hfit as (Hf & Ht). destruct FP as (FP1 & FP2). split.
    - apply Forall_app. split; assumption.
    - rewrite total_len_app in *. rewrite X5.
      destruct FT as (FT1 & _). destruct (clipped_len_bounds T FT1). lia. }
  rewrite Hsplit in FPX.
  destruct (Forall_fits_app_l _ _ FPX) as (Fhd & _).
  destruct (cigar_fits_clipped _ Fhd) as (Chd & Shd).
  pose proof (softclip_trace_tail buf b e P T ltac:(lia) Hlen Hc HT HP
                ltac:(lia)) as Ht.
  destruct (softclip_scan_3p _ buf (b - 1) 0) as [rc3p s3] eqn:E3.
  destruct (if 0 <? s3 then _ else _) as [rc3p' buf1] eqn:E3'.
  destruct Ht as (Es3 & Hr3 & Hl1 & Hsl1).
  rewrite Hsplit in Hsl1.
  pose proof (softclip_trace_head buf1 b (rc3p' + 1) (offset al) hd' rest
                ltac:(lia) ltac:(lia) Hsl1 Hhd (cigar_fits_lens _ Fhd) Hrest
                ltac:(lia) Hoff) as Hh.
  destruct (softclip_scan_5p _ buf1 (rc3p' + 1) 0 (offset al))
    as [[fc5p s5] off'] eqn:E5.
  destruct (if 0 <? s5 then _ else _) as [fc5p' buf2] eqn:E5'.
  destruct Hh as (Eoff & Hr5 & Hl2 & Hsl2).
  rewrite (asw_softclip_trace_eq al _ _ _ _ _ _ _ _ _ E3 E3' E5 E5').
  unfold cigar_of, cigar_in_buffer. simpl_cigar.
  fold b e buf. split_and!; try assumption; try lia.
Qed.

(** Every CIGAR either has no = run, or splits into a head and a tail
    without = around a part that starts and ends with =. *)
Lemma eq_split (l : list Z) :
  Forall (fun c => is_eq_op c = false) l \/
  exists hd core tl,
    l = hd ++ core ++ tl /\
    Forall (fun c => is_eq_op c = false) hd /\
    Forall (fun c => is_eq_op c = false) tl /\ eq_ended core.
Proof.
  induction l as [|c l IH]; [left; constructor|].
  destruct (is_eq_op c) eqn:Ec.
  - right. destruct IH as [Hno|(hd & core & tl & -> & Hhd & Htl & (_ & rest & x & -> & Hx))].
    + exists [], [c], l. split_and!; try constructor; auto.
      * exists c, []. auto.
      * exists [], c. auto.
    + exists [], (c :: hd ++ rest ++ [x]), tl. split_and!; try constructor; auto.
      * simpl. rewrite <- !app_assoc. reflexivity.
      * exists c, (hd ++ rest ++ [x]). auto.
      * exists (c :: hd ++ rest), x. split; [|exact Hx].
        simpl. rewrite <- !app_assoc. reflexivity.
  - destruct IH as [Hno|(hd & core & tl & -> & Hhd & Htl & Hcore)].
    + left. constructor; assumption.
    + right. exists (c :: hd), core, tl. split_and!; auto.
Qed.

Lemma clipped_query_consumed (l : list Z) :
  Forall (fun c => clippable c = true) l ->
  clipped_len l = query_consumed l.
Proof.
  induction 1 as [|c l Hc Hl IH]; [reflexivity|].
  cbn [clipped_len query_consumed]. rewrite IH. f_equal.
  unfold clippable, consumes_query in *.
  unfold BAM_CMATCH, BAM_CINS, BAM_CSOFT_CLIP, BAM_CSEQ_MATCH,
    BAM_CSEQ_MISMATCH, BAM_CDEL, BAM_CHARD_CLIP in *.
  repeat match goal with
  | |- context [?a =? ?b] => destruct (Z.eqb_spec a b)
  | H : context [?a =? ?b] |- _ => destruct (Z.eqb_spec a b)
  end; simpl in *; try reflexivity; try lia; try discriminate.
Qed.

Lemma query_consumed_emit_S (n : Z) :
  0 <= n < 2 ^ 28 -> query_consumed (emit_S n) = n.
Proof.
  intros Hn. unfold emit_S. destruct (Z.ltb_spec 0 n); [|simpl; lia].
  cbn [query_consumed].
  rewrite cigar_op_pack by (unfold BAM_CSOFT_CLIP; lia).
  rewrite cigar_len_pack_small by (unfold BAM_CSOFT_CLIP; lia).
  simpl. lia.
Qed.

(** X9. [asw_softclip_trace] on a CIGAR with an = run: what precedes the
    first = and what follows the last = are each replaced by one soft
    clip, whose length is the sum of the run lengths of the replaced
    operations other than D and H (no clip if that sum is 0); the part
    from the first to the last = is kept as it is; the offset grows by
    the run lengths of the operations before the first = other than H
    and I. *)
Theorem softclip_trace_clips_ends (al : Alignment_ASW) (hd core tl : list Z) :
  cigar_in_buffer al -> cigar_fits (cigar_of al) ->
  0 <= offset al < 2 ^ 64 ->
  cigar_of al = hd ++ core ++ tl ->
  Forall (fun c => is_eq_op c = false) hd ->
  Forall (fun c => is_eq_op c = false) tl ->
  eq_ended core ->
  cigar_of (asw_softclip_trace al)
  = emit_S (clipped_len hd) ++ core ++ emit_S (clipped_len tl) /\
  offset (asw_softclip_trace al) = u64 (offset al + skipped_len hd).
Proof.
  intros Hbuf Hfit Hoff Hc Hhd Htl ((c0 & rest0 & E0 & H0) & (rest1 & c1 & E1 & H1)).
  destruct (softclip_trace_parts al (hd ++ core) tl hd
              (core ++ emit_S (clipped_len tl)) Hbuf
              ltac:(rewrite <- app_assoc; exact Hc) Htl) as (R1 & R2 & _);
    try assumption.
  - right. exists (hd ++ rest1), c1. rewrite E1, app_assoc. auto.
  - rewrite app_assoc. reflexivity.
  - right. exists c0, (rest0 ++ emit_S (clipped_len tl)). rewrite E0. auto.
  - auto.
Qed.

(** X10. [asw_softclip_trace] on a CIGAR without any = run: the whole
    CIGAR becomes one soft clip (or nothing, if only D and H were
    there), and the offset grows by the length of that clip, which the
    scan from the head passes over like any other operation. *)
Theorem softclip_trace_without_match (al : Alignment_ASW) :
  cigar_in_buffer al -> cigar_fits (cigar_of al) ->
  0 <= offset al < 2 ^ 64 ->
  Forall (fun c => is_eq_op c = false) (cigar_of al) ->
  cigar_of (asw_softclip_trace al) = emit_S (clipped_len (cigar_of al)) /\
  offset (asw_softclip_trace al)
  = u64 (offset al + clipped_len (cigar_of al)).
Proof.
  intros Hbuf Hfit Hoff Hno.
  destruct (cigar_fits_clipped _ Hfit) as (Cl & _).
  destruct (emit_S_facts _ Cl) as (_ & X2 & X3 & X4 & _).
  destruct (softclip_trace_parts al [] (cigar_of al)
              (emit_S (clipped_len (cigar_of al))) [] Hbuf eq_refl Hno)
    as (R1 & R2 & _); try assumption; auto.
  - rewrite app_nil_r. reflexivity.
  - rewrite R1, R2, app_nil_r, X3, X4. auto.
Qed.

(** The two ways [asw_softclip_trace] goes: the CIGAR has no = run, or
    it splits around its first and last = run. *)
Lemma softclip_trace_cases (al : Alignment_ASW) :
  cigar_in_buffer al -> cigar_fits (cigar_of al) ->
  0 <= offset al < 2 ^ 64 ->
  (Forall (fun c => is_eq_op c = false) (cigar_of al) /\
   cigar_of (asw_softclip_trace al) = emit_S (clipped_len (cigar_of al)) /\
   offset (asw_softclip_trace al)
   = u64 (offset al + clipped_len (cigar_of al))) \/
  (exists hd core tl,
     cigar_of al = hd ++ core ++ tl /\
     Forall (fun c => is_eq_op c = false) hd /\
     Forall (fun c => is_eq_op c = false) tl /\ eq_ended core /\
     cigar_of (asw_softclip_trace al)
     = emit_S (clipped_len hd) ++ core ++ emit_S (clipped_len tl) /\
     offset (asw_softclip_trace al) = u64 (offset al + skipped_len hd)).
Proof.
  intros Hbuf Hfit Hoff.
  destruct (eq_split (cigar_of al)) as [Hno|(hd & core & tl & E & Hhd & Htl & Hcore)].
  - left. destruct (cigar_fits_clipped _ Hfit) as (Cl & _).
    destruct (emit_S_facts _ Cl) as (_ & X2 & X3 & X4 & _).
    destruct (softclip_trace_parts al [] (cigar_of al)
                (emit_S (clipped_len (cigar_of al))) [] Hbuf eq_refl Hno)
      as (R1 & R2 & _); try assumption; auto.
    { rewrite app_nil_r. reflexivity. }
    rewrite R1, R2, app_nil_r, X3, X4. auto.
  - right. exists hd, core, tl.
    pose proof Hcore as ((c0 & rest0 & E0 & H0) & (rest1 & c1 & E1 & H1)).
    destruct (softclip_trace_parts al (hd ++ core) tl hd
                (core ++ emit_S (clipped_len tl)) Hbuf
                ltac:(rewrite <- app_assoc; exact E) Htl) as (R1 & R2 & _);
      try assumption.
    + right. exists (hd ++ rest1), c1. rewrite E1, app_assoc. auto.
    + rewrite app_assoc. reflexivity.
    + right. exists c0, (rest0 ++ emit_S (clipped_len tl)). rewrite E0. auto.
    + split_and!; assumption.
Qed.

Lemma clip_all_query (l : list Z) :
  cigar_fits l -> Forall (fun c => clippable c = true) l ->
  query_consumed (emit_S (clipped_len l)) = query_consumed l.
Proof.
  intros Hfit Hcl. destruct (cigar_fits_clipped _ Hfit) as (Cl & _).
  rewrite query_consumed_emit_S by lia.
  apply clipped_query_consumed, Hcl.
Qed.

Lemma clip_ends_query (hd core tl : list Z) :
  cigar_fits (hd ++ core ++ tl) ->
  Forall (fun c => clippable c = true) (hd ++ core ++ tl) ->
  query_consumed (emit_S (clipped_len hd) ++ core ++ emit_S (clipped_len tl))
  = query_consumed (hd ++ core ++ tl).
Proof.
  intros Hfit Hcl.
  destruct (Forall_fits_app_l _ _ Hfit) as (Fhd & Fmt).
  destruct (Forall_fits_app_l _ _ Fmt) as (_ & Ftl).
  apply Forall_app in Hcl. destruct Hcl as [Chd Cmt].
  apply Forall_app in Cmt. destruct Cmt as [_ Ctl].
  rewrite !query_consumed_app.
  rewrite (clip_all_query hd Fhd Chd), (clip_all_query tl Ftl Ctl).
  reflexivity.
Qed.

Lemma emit_S_ends (n : Z) (c : Z) : In c (emit_S n) -> eq_or_clip c.
Proof.
  unfold emit_S. destruct (0 <? n); simpl; [|tauto].
  intros [<-|[]]. right. apply cigar_op_pack. unfold BAM_CSOFT_CLIP. lia.
Qed.

(** X11. [asw_softclip_trace] keeps the number of query bases the CIGAR
    consumes, on a CIGAR of M, I, S, =, X, D and H operations. *)
Theorem softclip_trace_keeps_query (al : Alignment_ASW) :
  cigar_in_buffer al -> cigar_fits (cigar_of al) ->
  0 <= offset al < 2 ^ 64 ->
  Forall (fun c => clippable c = true) (cigar_of al) ->
  query_consumed (cigar_of (asw_softclip_trace al))
  = query_consumed (cigar_of al).
Proof.
  intros Hbuf Hfit Hoff Hcl.
  destruct (softclip_trace_cases al Hbuf Hfit Hoff)
    as [(_ & R & _)|(hd & core & tl & E & _ & _ & _ & R & _)]; rewrite R.
  - apply clip_all_query; assumption.
  - rewrite E in Hfit, Hcl |- *. apply clip_ends_query; assumption.
Qed.

(** X12. After [asw_softclip_trace] the CIGAR is empty, or begins and
    ends with an = run or a soft clip; its range lies within the range
    it had before, and the buffer keeps its size. *)
Theorem softclip_trace_ends_shape (al : Alignment_ASW) :
  cigar_in_buffer al -> cigar_fits (cigar_of al) ->
  0 <= offset al < 2 ^ 64 ->
  let al' := asw_softclip_trace al in
  (cigar_of al' = [] \/
   (exists c rest, cigar_of al' = c :: rest /\ eq_or_clip c) /\
   (exists rest c, cigar_of al' = rest ++ [c] /\ eq_or_clip c)) /\
  cigar_begin al <= cigar_begin al' <= cigar_end al' /\
  cigar_end al' <= cigar_end al /\
  length (rcigar al') = length (rcigar al).
Proof.
  intros Hbuf Hfit Hoff. cbv zeta.
  destruct (eq_split (cigar_of al)) as [Hno|(hd & core & tl & E & Hhd & Htl & Hcore)].
  - destruct (cigar_fits_clipped _ Hfit) as (Cl & _).
    destruct (emit_S_facts _ Cl) as (_ & X2 & X3 & X4 & _).
    destruct (softclip_trace_parts al [] (cigar_of al)
                (emit_S (clipped_len (cigar_of al))) [] Hbuf eq_refl Hno)
      as (R1 & _ & (Hb' & _) & B1 & B2 & B3); try assumption; auto.
    { rewrite app_nil_r. reflexivity. }
    split; [|lia].
    rewrite R1, app_nil_r, X3. unfold emit_S.
    destruct (0 <? _); [right|left; reflexivity].
    assert (eq_or_clip (pack (clipped_len (cigar_of al)) BAM_CSOFT_CLIP))
      by (right; apply cigar_op_pack; unfold BAM_CSOFT_CLIP; lia).
    split; [eexists _, []|eexists [], _]; split; (reflexivity || assumption).
  - destruct Hcore as ((c0 & rest0 & E0 & H0) & (rest1 & c1 & E1 & H1)).
    destruct (softclip_trace_parts al (hd ++ core) tl hd
                (core ++ emit_S (clipped_len tl)) Hbuf
                ltac:(rewrite <- app_assoc; exact E) Htl)
      as (R1 & _ & (Hb' & _) & B1 & B2 & B3); try assumption.
    + right. exists (hd ++ rest1), c1. rewrite E1, app_assoc. auto.
    + rewrite app_assoc. reflexivity.
    + right. exists c0, (rest0 ++ emit_S (clipped_len tl)). rewrite E0. auto.
    + split; [|lia]. right. rewrite R1. split.
      * destruct (emit_S (clipped_len hd)) as [|s l] eqn:Es.
        -- rewrite E0. eexists _, _. split; [reflexivity|]. left.
           unfold is_eq_op in H0. lia.
        -- eexists _, _. split; [reflexivity|].
           apply (emit_S_ends (clipped_len hd)). rewrite Es. left. reflexivity.
      * destruct (emit_S (clipped_len tl)) as [|s l _] eqn:Es using rev_ind.
        -- rewrite app_nil_r, E1. eexists _, _.
           split; [rewrite app_assoc; reflexivity|]. left.
           unfold is_eq_op in H1. lia.
        -- eexists _, _. split; [rewrite !app_assoc; reflexivity|].
           apply (emit_S_ends (clipped_len tl)). rewrite Es.
           apply in_or_app. right. left. reflexivity.
Qed.

(** ** Soft-clipping the CIGAR of a traceback *)

Lemma trace_ops_lens (l : list Z) :
  Forall trace_op l ->
  clipped_len l = Z.of_nat (query_span l) /\
  skipped_len l = Z.of_nat (ref_span l) /\
  Forall (fun c => clippable c = true) l /\
  Forall (fun c => 0 <= cigar_len c) l /\
  total_len l <= Z.of_nat (query_span l) + Z.of_nat (ref_span l).
Proof.
  induction 1 as [|c l (Hop & Hlen) Hl (IH1 & IH2 & IH3 & IH4 & IH5)].
  - simpl. split_and!; try constructor; lia.
  - cbn [clipped_len skipped_len query_span ref_span total_len].
    unfold query_step, ref_step, clippable.
    rewrite IH1, IH2.
    split_and!; try (constructor; [|assumption]); try lia;
      destruct Hop as [-> | [-> | [-> | ->]]]; simpl; try lia; reflexivity.
Qed.

Lemma cigar_agrees_emit_S al (i j : nat) (n : Z) (rest : list Z) :
  0 <= n < 2 ^ 28 ->
  cigar_agrees al i j (emit_S n ++ rest)
  = cigar_agrees al (i + Z.to_nat n) j rest.
Proof.
  intros Hn. unfold emit_S. destruct (Z.ltb_spec 0 n).
  - cbn [app cigar_agrees]. unfold op_agrees, query_step, ref_step.
    rewrite cigar_op_pack by (unfold BAM_CSOFT_CLIP; lia).
    rewrite cigar_len_pack_small by (unfold BAM_CSOFT_CLIP; lia).
    simpl. rewrite Nat.add_0_r. reflexivity.
  - simpl. replace (Z.to_nat n) with O by lia. rewrite Nat.add_0_r. reflexivity.
Qed.

(** What the traceback of a completed alignment leaves: the path, the
    range of the CIGAR in its buffer, and the agreement of the CIGAR
    with the sequences. *)
Lemma aligned_trace_facts (semi : bool) (al0 al1 : Alignment_ASW) (fuel : nat) :
  buffers_ok al0 -> lengths_fit al0 ->
  (Z.to_nat (subquery_len al0) + Z.to_nat (subdb_len al0) < fuel)%nat ->
  asw_trace fuel (aligned semi al0) = Ok al1 ->
  exists n0 : nat,
    offset al1 = Z.of_nat n0 /\
    Z.of_nat n0 + Z.of_nat (ref_span (cigar_of al1)) <= subdb_len al0 /\
    query_span (cigar_of al1) = Z.to_nat (subquery_len al0) /\
    Forall trace_op (cigar_of al1) /\
    cigar_in_buffer al1 /\
    cigar_agrees al0 0 n0 (cigar_of al1) = true.
Proof.
  intros Hb Hfit Hfuel Ht.
  destruct (aligned_trace_walks semi al0 al1 fuel Hb Hfit Hfuel Ht)
    as (c & n0 & Hc & Hw & Eoff & Ecol & Es).
  destruct (aligned_opt semi al0 Hfit) as (c' & Ea & Hc' & _).
  pose proof (asw_trace_walk semi al0
                (row_score (align_init semi al0) (Z.to_nat (subquery_len al0)) c')
                (Z.of_nat c') fuel Hb Hfit ltac:(destruct Hfit; lia) ltac:(lia))
    as Hwalk.
  rewrite <- Ea, Ht in Hwalk.
  destruct Hwalk as (_ & _ & _ & Hbe & Hend & Hlen & _).
  pose proof (align_init_initialized semi al0 Hb Hfit) as Hinit.
  destruct (init_same_scoring semi al0) as (Hsc & Hvw).
  destruct (align_init_lens semi al0) as (F1 & F2 & _).
  set (al := align_init semi al0) in *.
  assert (Hcells : forall i j,
            (1 <= i <= Z.to_nat (subquery_len al0))%nat ->
            (j <= Z.to_nat (subdb_len al0))%nat ->
            cell_scored al i j (rd2 (matTra (asw_align al)) i j)).
  { intros i j Hi Hj. apply (cells_scored al Hinit); rewrite ?F1, ?F2; assumption. }
  destruct Hfit as (HW & HQ).
  assert (HQb : Z.of_nat (Z.to_nat (subquery_len al0)) < 2 ^ 28) by lia.
  assert (Hcb : Z.of_nat c < 2 ^ 28) by lia.
  destruct (walks_scored al _ _ _ Hcells HQb _ _ _ _ (le_n _) Hc Hw)
    as (_ & Hag).
  destruct (walks_spans _ _ _ _ _ HQb Hw) as (Hq & Hr).
  exists n0. split_and!.
  - exact Eoff.
  - lia.
  - exact Hq.
  - apply (walks_shape _ _ _ _ _ HQb Hcb Hw).
  - unfold cigar_in_buffer. lia.
  - rewrite <- (cigar_agrees_ext al al0) by exact Hvw. exact Hag.
Qed.

(** X13. Soft-clipping the CIGAR of a completed alignment, for sub-views
    of less than 2^28 bases together: the CIGAR still consumes
    [subquery_len] query bases, and laid on the sub-views from query
    position 0 and the new offset, every = run still covers pairs for
    which [IS_MATCH] holds and every X run pairs for which it does
    not. *)
Theorem trace_softclip_agrees (semi : bool) (al0 al1 : Alignment_ASW)
    (fuel : nat) :
  buffers_ok al0 -> lengths_fit al0 ->
  subquery_len al0 + subdb_len al0 < 2 ^ 28 ->
  (Z.to_nat (subquery_len al0) + Z.to_nat (subdb_len al0) < fuel)%nat ->
  asw_trace fuel (aligned semi al0) = Ok al1 ->
  let al2 := asw_softclip_trace al1 in
  query_consumed (cigar_of al2) = subquery_len al0 /\
  cigar_agrees al0 0 (Z.to_nat (offset al2)) (cigar_of al2) = true /\
  offset al1 <= offset al2.
Proof.
  intros Hb Hfit Hsmall Hfuel Ht. cbv zeta.
  destruct (aligned_trace_facts semi al0 al1 fuel Hb Hfit Hfuel Ht)
    as (n0 & Eoff & Hn0 & Hq & Hshape & Hbuf & Hag).
  destruct (trace_ops_lens _ Hshape) as (L1 & L2 & L3 & L4 & L5).
  pose proof Hfit as (HW & HQ).
  assert (Hcf : cigar_fits (cigar_of al1)) by (split; [exact L4|lia]).
  assert (Hoff : 0 <= offset al1 < 2 ^ 64) by lia.
  assert (EQ : query_consumed (cigar_of al1) = subquery_len al0)
    by (rewrite (query_consumed_span _ L4), Hq; lia).
  destruct (cigar_fits_clipped _ Hcf) as (Cl & _).
  destruct (softclip_trace_cases al1 Hbuf Hcf Hoff)
    as [(_ & R1 & R2)|(hd & core & tl & E & _ & _ & _ & R1 & R2)];
    rewrite R1, R2.
  - (* no = run: everything is clipped *)
    rewrite (clip_all_query _ Hcf L3), EQ.
    rewrite <- (app_nil_r (emit_S _)), cigar_agrees_emit_S by lia.
    rewrite u64_small by lia. split_and!; [reflexivity|reflexivity|lia].
  - rewrite E in Hshape, Hag, Hcf, L5, L2, L3, EQ.
    rewrite (clip_ends_query hd core tl Hcf L3), EQ.
    apply Forall_app in Hshape. destruct Hshape as [Shd Smt].
    destruct (trace_ops_lens _ Shd) as (H1' & H2' & _ & H4' & H5').
    destruct (Forall_fits_app_l _ _ Hcf) as (Fhd & Fmt).
    destruct (Forall_fits_app_l _ _ Fmt) as (_ & Ftl).
    destruct (cigar_fits_clipped _ Fhd) as (Chd & Khd).
    rewrite cigar_agrees_app in Hag. apply andb_prop in Hag.
    destruct Hag as [_ Hag].
    rewrite cigar_agrees_app in Hag. apply andb_prop in Hag.
    destruct Hag as [Hag _]. simpl in Hag.
    rewrite cigar_agrees_emit_S by lia.
    rewrite Eoff, u64_small by lia.
    split_and!; [reflexivity| |lia].
    rewrite cigar_agrees_app.
    replace (Z.to_nat (Z.of_nat n0 + skipped_len hd)) with (n0 + ref_span hd)%nat
      by lia.
    replace (Z.to_nat (clipped_len hd)) with (query_span hd) by lia.
    simpl. rewrite Hag. simpl.
    rewrite <- (app_nil_r (emit_S (clipped_len tl))).
    rewrite cigar_agrees_emit_S; [reflexivity|].
    apply cigar_fits_clipped. exact Ftl.
Qed.

(** ** The soft-clipping theorems at concrete alignments *)

Ltac concrete_cigar :=
  vm_compute; repeat split; repeat constructor; intros; discriminate.

(** Reference [ACGTACGT], query [TCGTACGA], global mode: the trace
    1X 6= 1X at offset 0 becomes 1S 6= 1S at offset 1. *)
Lemma softclip_trace_clips_ends_witness :
  cigar_of (asw_softclip_trace
              (ok_or (asw_trace 100
                        (aligned false
                           (prepared default_engine "ACGTACGT" "TCGTACGA"
                              "IIIIIIII")))
                     default_engine))
  = [pack 1 BAM_CSOFT_CLIP; pack 6 BAM_CSEQ_MATCH; pack 1 BAM_CSOFT_CLIP] /\
  offset (asw_softclip_trace
            (ok_or (asw_trace 100
                      (aligned false
                         (prepared default_engine "ACGTACGT" "TCGTACGA"
                            "IIIIIIII")))
                   default_engine)) = 1.
Proof.
  pose proof (softclip_trace_clips_ends
                (ok_or (asw_trace 100
                          (aligned false
                             (prepared default_engine "ACGTACGT" "TCGTACGA"
                                "IIIIIIII")))
                       default_engine)
                [pack 1 BAM_CSEQ_MISMATCH] [pack 6 BAM_CSEQ_MATCH]
                [pack 1 BAM_CSEQ_MISMATCH]
                ltac:(concrete_cigar) ltac:(concrete_cigar)
                ltac:(concrete_cigar) ltac:(vm_compute; reflexivity)
                ltac:(repeat constructor) ltac:(repeat constructor)
                ltac:(split; [eexists _, []|eexists [], _];
                      split; reflexivity))
    as [H1 H2].
  split; [rewrite H1|rewrite H2]; vm_compute; reflexivity.
Defined.

(** Reference [A], query [CC]: the trace has no = run; it becomes 2S
    and the offset moves from 0 to 2, past the one reference base. *)
Lemma softclip_trace_without_match_witness :
  cigar_of (asw_softclip_trace
              (ok_or (asw_trace 100
                        (aligned false (prepared default_engine "A" "CC" "II")))
                     default_engine))
  = [pack 2 BAM_CSOFT_CLIP] /\
  offset (ok_or (asw_trace 100
                   (aligned false (prepared default_engine "A" "CC" "II")))
                default_engine) = 0 /\
  offset (asw_softclip_trace
            (ok_or (asw_trace 100
                      (aligned false (prepared default_engine "A" "CC" "II")))
                   default_engine)) = 2.
Proof.
  pose proof (softclip_trace_without_match
                (ok_or (asw_trace 100
                          (aligned false (prepared default_engine "A" "CC" "II")))
                       default_engine)
                ltac:(concrete_cigar) ltac:(concrete_cigar)
                ltac:(concrete_cigar)
                ltac:(vm_compute; repeat constructor))
    as [H1 H2].
  split; [rewrite H1; vm_compute; reflexivity|].
  split; [vm_compute; reflexivity|].
  rewrite H2; vm_compute; reflexivity.
Defined.

Lemma softclip_trace_keeps_query_witness :
  query_consumed
    (cigar_of (asw_softclip_trace
                 (ok_or (asw_trace 100
                           (aligned true
                              (prepared default_engine "GGACGTACGTCC"
                                 "TCGTTACGA" "IIIIIIIII")))
                        default_engine))) = 9.
Proof.
  rewrite (softclip_trace_keeps_query
             (ok_or (asw_trace 100
                       (aligned true
                          (prepared default_engine "GGACGTACGTCC"
                             "TCGTTACGA" "IIIIIIIII")))
                    default_engine)
             ltac:(concrete_cigar) ltac:(concrete_cigar)
             ltac:(concrete_cigar) ltac:(vm_compute; repeat constructor)).
  vm_compute. reflexivity.
Defined.

Lemma softclip_trace_ends_shape_witness :
  cigar_begin
    (ok_or (asw_trace 100
              (aligned true
                 (prepared default_engine "GGACGTACGTCC" "TCGTTACGA"
                    "IIIIIIIII")))
           default_engine)
  <= cigar_begin
       (asw_softclip_trace
          (ok_or (asw_trace 100
                    (aligned true
                       (prepared default_engine "GGACGTACGTCC" "TCGTTACGA"
                          "IIIIIIIII")))
                 default_engine))
  <= cigar_end
       (asw_softclip_trace
          (ok_or (asw_trace 100
                    (aligned true
                       (prepared default_engine "GGACGTACGTCC" "TCGTTACGA"
                          "IIIIIIIII")))
                 default_engine)).
Proof.
  pose proof (softclip_trace_ends_shape
                (ok_or (asw_trace 100
                          (aligned true
                             (prepared default_engine "GGACGTACGTCC"
                                "TCGTTACGA" "IIIIIIIII")))
                       default_engine)
                ltac:(concrete_cigar) ltac:(concrete_cigar)
                ltac:(concrete_cigar))
    as (_ & H & _).
  exact H.
Defined.

Lemma trace_softclip_agrees_witness :
  cigar_agrees (prepared default_engine "GGACGTACGTCC" "TCGTTACGA" "IIIIIIIII")
    0
    (Z.to_nat
       (offset
          (asw_softclip_trace
             (ok_or (asw_trace 100
                       (aligned true
                          (prepared default_engine "GGACGTACGTCC" "TCGTTACGA"
                             "IIIIIIIII")))
                    default_engine))))
    (cigar_of
       (asw_softclip_trace
          (ok_or (asw_trace 100
                    (aligned true
                       (prepared default_engine "GGACGTACGTCC" "TCGTTACGA"
                          "IIIIIIIII")))
                 default_engine))) = true.
Proof.
  pose proof (trace_softclip_agrees true
                (prepared default_engine "GGACGTACGTCC" "TCGTTACGA" "IIIIIIIII")
                (ok_or (asw_trace 100
                          (aligned true
                             (prepared default_engine "GGACGTACGTCC"
                                "TCGTTACGA" "IIIIIIIII")))
                       default_engine) 100
                ltac:(concrete_buffers) ltac:(concrete_lengths)
                ltac:(vm_compute; reflexivity)
                ltac:(vm_compute; lia) ltac:(vm_compute; reflexivity))
    as (_ & H & _).
  exact H.
Defined.

(** ** What compaction keeps *)

Lemma compact_trace_cigar (al : Alignment_ASW) :
  cigar_in_buffer al ->
  cigar_of (asw_compact_trace al) = compact_rev (rev (cigar_of al)) 0 [] /\
  cigar_begin al <= cigar_begin (asw_compact_trace al) <= cigar_end al /\
  cigar_end (asw_compact_trace al) = cigar_end al /\
  offset (asw_compact_trace al) = offset al /\
  length (rcigar (asw_compact_trace al)) = length (rcigar al).
Proof.
  intros (Hbe & Hlen).
  pose proof (compact_loop_rev (cigar_begin al - 1) (cigar_end al)
                ltac:(lia) (Z.to_nat (cigar_end al - cigar_begin al))
                (rcigar al) (cigar_end al - 1) 0
                ltac:(lia) ltac:(lia) ltac:(lia) Hlen) as Hrev.
  cbv zeta in Hrev.
  destruct (compact_loop _ _ (rcigar al) _ _) as [buf' sr'] eqn:Hcl.
  cbn [fst snd] in Hrev. destruct Hrev as (Hsl & Hsr & Hl').
  replace (cigar_begin al - 1 + 1) with (cigar_begin al) in Hsl by lia.
  replace (cigar_begin al + Z.of_nat (Z.to_nat (cigar_end al - cigar_begin al)))
    with (cigar_end al) in Hsl by lia.
  replace (cigar_end al - 1 + 1) with (cigar_end al) in Hsl by lia.
  rewrite (slice_empty (rcigar al) (cigar_end al)) in Hsl by lia.
  rewrite (asw_compact_trace_eq al buf' sr' Hcl).
  unfold cigar_of at 1. simpl_cigar.
  split_and!; try assumption; try reflexivity; lia.
Qed.

Lemma emit_M_spans (n : Z) (l : list Z) :
  0 <= n < 2 ^ 28 ->
  query_consumed (emit_M n l) = n + query_consumed l /\
  ref_consumed (emit_M n l) = n + ref_consumed l /\
  total_len (emit_M n l) = n + total_len l /\
  (length (emit_M n l) <= (if (0 <? n)%Z then 1 else 0) + length l)%nat.
Proof.
  intros Hn. unfold emit_M. destruct (Z.ltb_spec 0 n).
  - cbn [query_consumed ref_consumed total_len length].
    rewrite cigar_op_pack by (unfold BAM_CMATCH; lia).
    rewrite cigar_len_pack_small by (unfold BAM_CMATCH; lia).
    simpl. split_and!; lia.
  - replace n with 0 by lia. simpl. split_and!; lia.
Qed.

Lemma fuse_lead_spans (l : list Z) :
  Forall (fun c => 1 <= cigar_len c) l -> total_len l < 2 ^ 28 ->
  0 <= fst (fuse_lead l) /\
  fst (fuse_lead l) + query_consumed (snd (fuse_lead l)) = query_consumed l /\
  fst (fuse_lead l) + ref_consumed (snd (fuse_lead l)) = ref_consumed l /\
  fst (fuse_lead l) + total_len (snd (fuse_lead l)) = total_len l /\
  0 <= total_len (snd (fuse_lead l)) /\
  ((if (0 <? fst (fuse_lead l))%Z then 1 else 0) + length (snd (fuse_lead l))
   <= length l)%nat.
Proof.
  induction 1 as [|c l Hc Hl IH]; intros Ht.
  - simpl. split_and!; lia.
  - cbn [total_len] in Ht. pose proof (total_len_pos l Hl) as Hl0.
    destruct (IH ltac:(lia)) as (I0 & I1 & I2 & I3 & I4 & I5).
    cbn [fuse_lead]. destruct (fuse_lead l) as [n fused]. cbn [fst snd] in *.
    cbn [query_consumed ref_consumed total_len length].
    destruct (is_seq_op (cigar_op c)) eqn:Es; cbn [fst snd].
    + unfold is_seq_op in Es. apply orb_prop in Es.
      assert (Eq : consumes_query (cigar_op c) = true /\
                   consumes_ref (cigar_op c) = true).
      { destruct Es as [Es|Es]; apply Z.eqb_eq in Es; rewrite Es; split; reflexivity. }
      destruct Eq as [-> ->].
      destruct (Z.ltb_spec 0 (cigar_len c + n)); [|lia].
      destruct (0 <? n); split_and!; lia.
    + destruct (emit_M_spans n fused ltac:(lia)) as (M1 & M2 & M3 & M4).
      cbn [query_consumed ref_consumed total_len length].
      rewrite M1, M2, M3. change (0 <? 0) with false.
      destruct (0 <? n); split_and!; lia.
Qed.

(** X14. [asw_compact_trace] keeps what the CIGAR consumes of the query
    and of the reference, leaves no = or X run, never makes the CIGAR
    longer, and leaves the offset and the end of the CIGAR where they
    are (for a CIGAR of positive run lengths that add up to less than
    2^28). *)
Theorem compact_trace_keeps_spans (al : Alignment_ASW) :
  cigar_in_buffer al -> valid_cigar (cigar_of al) ->
  let al' := asw_compact_trace al in
  query_consumed (cigar_of al') = query_consumed (cigar_of al) /\
  ref_consumed (cigar_of al') = ref_consumed (cigar_of al) /\
  Forall (fun c => is_seq_op (cigar_op c) = false) (cigar_of al') /\
  (length (cigar_of al') <= length (cigar_of al))%nat /\
  offset al' = offset al /\ cigar_end al' = cigar_end al.
Proof.
  intros Hbuf Hv. cbv zeta.
  destruct (compact_trace_cigar al Hbuf) as (Hc & Hb & He & Ho & _).
  pose proof Hv as (Hpos & Hlt).
  destruct (fuse_lead_spans _ Hpos Hlt) as (I0 & I1 & I2 & I3 & I4 & I5).
  split_and!; try assumption.
  - rewrite Hc, (compact_rev_fuse _ Hv). unfold fuse_runs.
    destruct (fuse_lead (cigar_of al)) as [n fused]. cbn [fst snd] in *.
    destruct (emit_M_spans n fused ltac:(lia)) as (M1 & _). lia.
  - rewrite Hc, (compact_rev_fuse _ Hv). unfold fuse_runs.
    destruct (fuse_lead (cigar_of al)) as [n fused]. cbn [fst snd] in *.
    destruct (emit_M_spans n fused ltac:(lia)) as (_ & M2 & _). lia.
  - rewrite Hc. apply compact_rev_no_seq. constructor.
  - rewrite Hc, (compact_rev_fuse _ Hv). unfold fuse_runs.
    destruct (fuse_lead (cigar_of al)) as [n fused]. cbn [fst snd] in *.
    destruct (emit_M_spans n fused ltac:(lia)) as (_ & _ & _ & M4). lia.
Qed.

Lemma compact_trace_keeps_spans_witness :
  query_consumed
    (cigar_of (asw_compact_trace
                 (ok_or (asw_trace 100
                           (aligned true
                              (prepared default_engine "GGACGTACGTCC"
                                 "TCGTTACGA" "IIIIIIIII")))
                        default_engine))) = 9 /\
  ref_consumed
    (cigar_of (asw_compact_trace
                 (ok_or (asw_trace 100
                           (aligned true
                              (prepared default_engine "GGACGTACGTCC"
                                 "TCGTTACGA" "IIIIIIIII")))
                        default_engine))) = 8.
Proof.
  pose proof (compact_trace_keeps_spans
                (ok_or (asw_trace 100
                          (aligned true
                             (prepared default_engine "GGACGTACGTCC"
                                "TCGTTACGA" "IIIIIIIII")))
                       default_engine)
                ltac:(vm_compute; repeat split; intros; discriminate)
                ltac:(vm_compute; split;
                      [repeat constructor; discriminate|reflexivity]))
    as (H1 & H2 & _).
  split; [rewrite H1|rewrite H2]; vm_compute; reflexivity.
Defined.

(** ** Hard clips *)

Lemma clip_back_snoc (n : Z) (init : list Z) (c : Z) :
  clip_back n (init ++ [c]) =
  if 0 <? n then
    if cigar_op c =? BAM_CHARD_CLIP
    then init ++ [pack (u32 (n + cigar_len c)) BAM_CHARD_CLIP]
    else init ++ [c; pack n BAM_CHARD_CLIP]
  else init ++ [c].
Proof.
  unfold clip_back, clip_front. rewrite rev_unit.
  destruct (0 <? n).
  - destruct (cigar_op c =? BAM_CHARD_CLIP); simpl; rewrite ?rev_involutive.
    + reflexivity.
    + rewrite <- app_assoc. reflexivity.
  - simpl. rewrite rev_involutive. reflexivity.
Qed.

Lemma hardclip_head_spec (al : Alignment_ASW) (n : Z) :
  cigar_in_buffer al -> cigar_of al <> [] ->
  n <= 0 \/ 1 <= cigar_begin al \/
    cigar_op (zrd (rcigar al) (cigar_begin al)) = BAM_CHARD_CLIP ->
  exists al',
    hardclip_head al n = Ok al' /\
    cigar_of al' = clip_front n (cigar_of al) /\
    offset al' = offset al /\ cigar_end al' = cigar_end al /\
    cigar_begin al - 1 <= cigar_begin al' <= cigar_begin al /\
    0 <= cigar_begin al' /\
    length (rcigar al') = length (rcigar al).
Proof.
  intros (Hbe & Hlen) Hne Hroom.
  assert (Hlt : cigar_begin al < cigar_end al).
  { destruct (Z.eq_dec (cigar_begin al) (cigar_end al)) as [E|E]; [|lia].
    exfalso. apply Hne. unfold cigar_of. apply slice_empty. lia. }
  assert (Hc : cigar_of al
               = zrd (rcigar al) (cigar_begin al)
                 :: slice (rcigar al) (cigar_begin al + 1) (cigar_end al))
    by (apply slice_cons; lia).
  unfold hardclip_head, clip_front. rewrite Hc.
  destruct (Z.ltb_spec 0 n) as [Hn|Hn].
  - cbv zeta.
    destruct (Z.eqb_spec (cigar_op (zrd (rcigar al) (cigar_begin al)))
                         BAM_CHARD_CLIP) as [Eh|Eh].
    + destruct (store (rcigar al) (cigar_begin al) _) as [buf|] eqn:Es.
      2:{ rewrite store_in_range in Es by lia. discriminate Es. }
      eexists. split; [reflexivity|].
      unfold cigar_of. simpl_cigar.
      rewrite (slice_store_head _ _ _ _ _ Es Hlt).
      destruct (store_Some _ _ _ _ Es) as [_ ->].
      rewrite length_insert.
      split_and!; try reflexivity; lia.
    + destruct Hroom as [Hr|[Hr|Hr]]; [lia| |contradiction].
      destruct (store (rcigar al) (cigar_begin al - 1) _) as [buf|] eqn:Es.
      2:{ rewrite store_in_range in Es by lia. discriminate Es. }
      eexists. split; [reflexivity|].
      unfold cigar_of. simpl_cigar.
      rewrite (slice_store_before (rcigar al) buf (cigar_begin al) (cigar_end al) _ Es
                 ltac:(lia)).
      fold (cigar_of al). rewrite Hc.
      destruct (store_Some _ _ _ _ Es) as [_ ->].
      rewrite length_insert.
      split_and!; try reflexivity; lia.
  - eexists. split; [reflexivity|]. rewrite <- Hc.
    split_and!; try reflexivity; lia.
Qed.

Lemma hardclip_tail_spec (al : Alignment_ASW) (n : Z) :
  cigar_in_buffer al -> cigar_of al <> [] ->
  n <= 0 \/ cigar_end al < Z.of_nat (length (rcigar al)) \/
    cigar_op (zrd (rcigar al) (cigar_end al - 1)) = BAM_CHARD_CLIP ->
  exists al',
    hardclip_tail al n = Ok al' /\
    cigar_of al' = clip_back n (cigar_of al) /\
    offset al' = offset al /\ cigar_begin al' = cigar_begin al /\
    cigar_end al <= cigar_end al' <= cigar_end al + 1 /\
    cigar_in_buffer al' /\
    length (rcigar al') = length (rcigar al).
Proof.
  intros (Hbe & Hlen) Hne Hroom.
  assert (Hlt : cigar_begin al < cigar_end al).
  { destruct (Z.eq_dec (cigar_begin al) (cigar_end al)) as [E|E]; [|lia].
    exfalso. apply Hne. unfold cigar_of. apply slice_empty. lia. }
  assert (Hc : cigar_of al
               = slice (rcigar al) (cigar_begin al) (cigar_end al - 1)
                 ++ [zrd (rcigar al) (cigar_end al - 1)])
    by (apply slice_last; lia).
  unfold hardclip_tail. rewrite Hc, clip_back_snoc.
  destruct (Z.ltb_spec 0 n) as [Hn|Hn].
  - cbv zeta.
    destruct (Z.eqb_spec (cigar_op (zrd (rcigar al) (cigar_end al - 1)))
                         BAM_CHARD_CLIP) as [Eh|Eh].
    + destruct (store (rcigar al) (cigar_end al - 1) _) as [buf|] eqn:Es.
      2:{ rewrite store_in_range in Es by lia. discriminate Es. }
      eexists. split; [reflexivity|].
      unfold cigar_of, cigar_in_buffer. simpl_cigar.
      rewrite (slice_store_last (rcigar al) buf (cigar_begin al) (cigar_end al) _ Es
                 ltac:(lia)).
      destruct (store_Some _ _ _ _ Es) as [_ ->].
      rewrite length_insert.
      split_and!; try reflexivity; lia.
    + destruct Hroom as [Hr|[Hr|Hr]]; [lia| |contradiction].
      destruct (store (rcigar al) (cigar_end al) _) as [buf|] eqn:Es.
      2:{ rewrite store_in_range in Es by lia. discriminate Es. }
      eexists. split; [reflexivity|].
      unfold cigar_of, cigar_in_buffer. simpl_cigar.
      rewrite (slice_store_after (rcigar al) buf (cigar_begin al) (cigar_end al) _ Es
                 ltac:(lia)).
      fold (cigar_of al). rewrite Hc, <- app_assoc.
      destruct (store_Some _ _ _ _ Es) as [_ ->].
      rewrite length_insert.
      replace (cigar_end al + 1 - 1) with (cigar_end al) by lia.
      split_and!; try reflexivity; lia.
  - eexists. split; [reflexivity|]. rewrite <- Hc.
    unfold cigar_in_buffer.
    split_and!; try reflexivity; lia.
Qed.

Lemma clip_front_nonnil (n : Z) (l : list Z) : l <> [] -> clip_front n l <> [].
Proof.
  intros Hl. unfold clip_front. destruct (0 <? n); [|exact Hl].
  destruct l as [|c rest]; [congruence|].
  destruct (cigar_op c =? BAM_CHARD_CLIP); discriminate.
Qed.

Lemma clip_back_nonnil (n : Z) (l : list Z) : l <> [] -> clip_back n l <> [].
Proof.
  intros Hl. destruct l as [|c rest _] using rev_ind; [congruence|].
  rewrite clip_back_snoc.
  destruct (0 <? n); [destruct (cigar_op c =? BAM_CHARD_CLIP)|];
    intros H; apply app_eq_nil in H; destruct H as [_ H]; discriminate H.
Qed.

(** Both ends, with room for one more cell at each. *)
Lemma append_hardclip_spec (al : Alignment_ASW) (h t : Z) :
  cigar_in_buffer al -> cigar_of al <> [] ->
  1 <= cigar_begin al -> cigar_end al < Z.of_nat (length (rcigar al)) ->
  exists al',
    asw_append_hardclip al h t = Ok al' /\
    cigar_of al' = clip_back (u32 t) (clip_front (u32 h) (cigar_of al)) /\
    offset al' = offset al /\ cigar_in_buffer al' /\
    cigar_begin al - 1 <= cigar_begin al' <= cigar_begin al /\
    cigar_end al <= cigar_end al' <= cigar_end al + 1 /\
    length (rcigar al') = length (rcigar al).
Proof.
  intros Hbuf Hne Hb He.
  destruct (hardclip_head_spec al (u32 h) Hbuf Hne ltac:(auto))
    as (al1 & E1 & C1 & O1 & N1 & B1 & P1 & L1).
  assert (Hbuf1 : cigar_in_buffer al1)
    by (destruct Hbuf; unfold cigar_in_buffer; lia).
  assert (Hne1 : cigar_of al1 <> [])
    by (rewrite C1; apply clip_front_nonnil, Hne).
  destruct (hardclip_tail_spec al1 (u32 t) Hbuf1 Hne1 ltac:(right; left; lia))
    as (al2 & E2 & C2 & O2 & B2 & N2 & I2 & L2).
  exists al2. unfold asw_append_hardclip. rewrite E1, E2, C2, C1.
  split_and!; try reflexivity; try assumption; lia.
Qed.

Lemma hard_clipped_app (l1 l2 : list Z) :
  hard_clipped (l1 ++ l2) = hard_clipped l1 + hard_clipped l2.
Proof. induction l1 as [|c l1 IH]; simpl; [reflexivity|]. rewrite IH. lia. Qed.

Lemma hard_clipped_nonneg (l : list Z) :
  Forall (fun c => 0 <= cigar_len c) l -> 0 <= hard_clipped l.
Proof.
  induction 1 as [|c l Hc _ IH]; simpl; [lia|].
  destruct (cigar_op c =? BAM_CHARD_CLIP); lia.
Qed.

Lemma hard_cell (n : Z) :
  cigar_op (pack n BAM_CHARD_CLIP) = BAM_CHARD_CLIP /\
  consumes_query (cigar_op (pack n BAM_CHARD_CLIP)) = false /\
  consumes_ref (cigar_op (pack n BAM_CHARD_CLIP)) = false /\
  (0 <= n < 2 ^ 28 -> cigar_len (pack n BAM_CHARD_CLIP) = n).
Proof.
  assert (E : cigar_op (pack n BAM_CHARD_CLIP) = BAM_CHARD_CLIP)
    by (apply cigar_op_pack; unfold BAM_CHARD_CLIP; lia).
  rewrite E. split_and!; try reflexivity.
  intros Hn. apply cigar_len_pack_small; [unfold BAM_CHARD_CLIP; lia|exact Hn].
Qed.

Ltac hard_ops :=
  change (consumes_query BAM_CHARD_CLIP) with false;
  change (consumes_ref BAM_CHARD_CLIP) with false;
  change (BAM_CHARD_CLIP =? BAM_CHARD_CLIP) with true.

Lemma hard_op_consumes (c : Z) :
  cigar_op c = BAM_CHARD_CLIP ->
  consumes_query (cigar_op c) = false /\ consumes_ref (cigar_op c) = false.
Proof. intros ->. split; reflexivity. Qed.

(** What a hard clip at the front changes: nothing of what the CIGAR
    consumes; the hard-clipped bases grow by [n]. *)
Lemma clip_front_sums (n : Z) (l : list Z) :
  query_consumed (clip_front n l) = query_consumed l /\
  ref_consumed (clip_front n l) = ref_consumed l /\
  (l <> [] -> 0 <= n -> Forall (fun c => 0 <= cigar_len c) l ->
   hard_clipped l + n < 2 ^ 28 ->
   hard_clipped (clip_front n l) = hard_clipped l + n /\
   Forall (fun c => 0 <= cigar_len c) (clip_front n l)).
Proof.
  unfold clip_front. destruct (Z.ltb_spec 0 n) as [Hn|Hn].
  2:{ split_and!; try reflexivity. intros _ H0 Hf _.
      replace n with 0 by lia. split; [lia|exact Hf]. }
  destruct l as [|c rest]; [split_and!; try reflexivity; congruence|].
  destruct (Z.eqb_spec (cigar_op c) BAM_CHARD_CLIP) as [Eh|Eh].
  - destruct (hard_cell (u32 (n + cigar_len c))) as (P1 & P2 & P3 & P4).
    destruct (hard_op_consumes c Eh) as (Q1 & Q2).
    cbn [query_consumed ref_consumed hard_clipped].
    rewrite P1, Eh. hard_ops.
    cbv iota. split_and!; try reflexivity.
    intros _ H0 Hf Hlt. apply Forall_cons in Hf. destruct Hf as [Hc Hr].
    pose proof (hard_clipped_nonneg rest Hr).
    rewrite u32_small in * by lia. rewrite P4 by lia.
    split; [lia|]. constructor; [rewrite P4; lia|exact Hr].
  - destruct (hard_cell n) as (P1 & P2 & P3 & P4).
    cbn [query_consumed ref_consumed hard_clipped] in *.
    rewrite P1. hard_ops.
    cbv iota. split_and!; try reflexivity.
    intros _ H0 Hf Hlt.
    pose proof (hard_clipped_nonneg _ Hf) as Hnn.
    cbn [hard_clipped] in Hnn.
    rewrite P4 by lia. split; [lia|].
    constructor; [rewrite P4; lia|exact Hf].
Qed.

Lemma clip_back_sums (n : Z) (l : list Z) :
  query_consumed (clip_back n l) = query_consumed l /\
  ref_consumed (clip_back n l) = ref_consumed l /\
  (l <> [] -> 0 <= n -> Forall (fun c => 0 <= cigar_len c) l ->
   hard_clipped l + n < 2 ^ 28 ->
   hard_clipped (clip_back n l) = hard_clipped l + n /\
   Forall (fun c => 0 <= cigar_len c) (clip_back n l)).
Proof.
  destruct l as [|c init _] using rev_ind.
  { unfold clip_back, clip_front. simpl. destruct (0 <? n);
      split_and!; try reflexivity; congruence. }
  rewrite clip_back_snoc.
  destruct (Z.ltb_spec 0 n) as [Hn|Hn].
  2:{ split_and!; try reflexivity. intros _ H0 Hf _.
      replace n with 0 by lia. split; [lia|exact Hf]. }
  destruct (Z.eqb_spec (cigar_op c) BAM_CHARD_CLIP) as [Eh|Eh].
  - destruct (hard_cell (u32 (n + cigar_len c))) as (P1 & P2 & P3 & P4).
    destruct (hard_op_consumes c Eh) as (Q1 & Q2).
    rewrite !query_consumed_app, !ref_consumed_app, !hard_clipped_app.
    cbn [query_consumed ref_consumed hard_clipped].
    rewrite P1, Eh. hard_ops.
    cbv iota. split_and!; try reflexivity.
    intros _ H0 Hf Hlt. apply Forall_app in Hf. destruct Hf as [Hi Hc].
    apply Forall_cons in Hc. destruct Hc as [Hc _].
    pose proof (hard_clipped_nonneg init Hi).
    rewrite u32_small in * by lia. rewrite P4 by lia.
    split; [lia|]. apply Forall_app. split; [exact Hi|].
    constructor; [rewrite P4; lia|constructor].
  - destruct (hard_cell n) as (P1 & P2 & P3 & P4).
    replace (init ++ [c; pack n BAM_CHARD_CLIP])
      with ((init ++ [c]) ++ [pack n BAM_CHARD_CLIP])
      by (rewrite <- app_assoc; reflexivity).
    rewrite (query_consumed_app (init ++ [c])), (ref_consumed_app (init ++ [c])),
      (hard_clipped_app (init ++ [c])).
    cbn [query_consumed ref_consumed hard_clipped].
    rewrite P1. hard_ops.
    cbv iota. split_and!; try lia.
    intros _ H0 Hf Hlt.
    pose proof (hard_clipped_nonneg _ Hf) as Hnn.
    rewrite P4 by lia. split; [lia|].
    apply Forall_app. split; [exact Hf|].
    constructor; [rewrite P4; lia|constructor].
Qed.

(** X15. [asw_append_hardclip] on a non-empty CIGAR with a free cell on
    each side: [clip_head] bases are added to the H run the CIGAR
    starts with, or put in front of it as a new H run, and [clip_tail]
    bases likewise at the end; a clip of 0 changes nothing; the offset
    stays. *)
Theorem append_hardclip_cigar (al : Alignment_ASW) (clip_head clip_tail : Z) :
  cigar_in_buffer al -> cigar_of al <> [] ->
  1 <= cigar_begin al -> cigar_end al < Z.of_nat (length (rcigar al)) ->
  exists al',
    asw_append_hardclip al clip_head clip_tail = Ok al' /\
    cigar_of al'
    = clip_back (u32 clip_tail) (clip_front (u32 clip_head) (cigar_of al)) /\
    offset al' = offset al /\ cigar_in_buffer al'.
Proof.
  intros Hbuf Hne Hb He.
  destruct (append_hardclip_spec al clip_head clip_tail Hbuf Hne Hb He)
    as (al' & E & C & O & B & _).
  exists al'. auto.
Qed.

(** X16. Hard clips change nothing of what the CIGAR consumes of the
    query and of the reference, and the hard-clipped bases of the
    CIGAR grow by [clip_head + clip_tail] (as long as they stay below
    2^28). *)
Theorem append_hardclip_adds (al : Alignment_ASW) (clip_head clip_tail : Z) :
  cigar_in_buffer al -> cigar_of al <> [] ->
  1 <= cigar_begin al -> cigar_end al < Z.of_nat (length (rcigar al)) ->
  Forall (fun c => 0 <= cigar_len c) (cigar_of al) ->
  0 <= clip_head -> 0 <= clip_tail ->
  hard_clipped (cigar_of al) + clip_head + clip_tail < 2 ^ 28 ->
  exists al',
    asw_append_hardclip al clip_head clip_tail = Ok al' /\
    query_consumed (cigar_of al') = query_consumed (cigar_of al) /\
    ref_consumed (cigar_of al') = ref_consumed (cigar_of al) /\
    hard_clipped (cigar_of al')
    = hard_clipped (cigar_of al) + clip_head + clip_tail.
Proof.
  intros Hbuf Hne Hb He Hf Hh Ht Hlt.
  destruct (append_hardclip_spec al clip_head clip_tail Hbuf Hne Hb He)
    as (al' & E & C & _).
  exists al'. split; [exact E|]. rewrite C.
  pose proof (hard_clipped_nonneg _ Hf) as Hnn.
  rewrite !u32_small by lia.
  destruct (clip_front_sums clip_head (cigar_of al)) as (F1 & F2 & F3).
  destruct (F3 Hne Hh Hf ltac:(lia)) as (F4 & F5).
  destruct (clip_back_sums clip_tail (clip_front clip_head (cigar_of al)))
    as (B1 & B2 & B3).
  destruct (B3 (clip_front_nonnil _ _ Hne) Ht F5 ltac:(lia)) as (B4 & _).
  split_and!; lia.
Qed.

(** ** Hard clips add up *)

Lemma clip_front_cons (n c : Z) (rest : list Z) :
  clip_front n (c :: rest) = clip_front n [c] ++ rest.
Proof.
  unfold clip_front. destruct (0 <? n); [|reflexivity].
  destruct (cigar_op c =? BAM_CHARD_CLIP); reflexivity.
Qed.

Lemma clip_back_app (n : Z) (l1 l2 : list Z) :
  l2 <> [] -> clip_back n (l1 ++ l2) = l1 ++ clip_back n l2.
Proof.
  intros Hne. destruct l2 as [|c init _] using rev_ind; [congruence|].
  rewrite app_assoc, !clip_back_snoc.
  destruct (0 <? n); [destruct (cigar_op c =? BAM_CHARD_CLIP)|];
    rewrite <- ?app_assoc; reflexivity.
Qed.

Lemma clip_front_single_nonnil (n c : Z) : clip_front n [c] <> [].
Proof. apply clip_front_nonnil. discriminate. Qed.

Lemma clip_front_le0 (n : Z) (l : list Z) : n <= 0 -> clip_front n l = l.
Proof. intros H. unfold clip_front. destruct (Z.ltb_spec 0 n); [lia|reflexivity]. Qed.

Lemma clip_back_le0 (n : Z) (l : list Z) : n <= 0 -> clip_back n l = l.
Proof.
  intros H. unfold clip_back. rewrite clip_front_le0 by exact H.
  apply rev_involutive.
Qed.

Lemma clip_front_front (h1 h2 : Z) (l : list Z) :
  0 <= h1 -> 0 <= h2 -> Forall (fun c => 0 <= cigar_len c) l ->
  hard_clipped l + h1 + h2 < 2 ^ 28 ->
  clip_front h2 (clip_front h1 l) = clip_front (h1 + h2) l.
Proof.
  intros H1 H2 Hf Hlt.
  pose proof (hard_clipped_nonneg l Hf) as Hnn.
  unfold clip_front at 2 3.
  destruct (Z.ltb_spec 0 h1) as [P1|P1].
  2:{ replace h1 with 0 by lia. rewrite Z.add_0_l. unfold clip_front.
      reflexivity. }
  destruct (Z.ltb_spec 0 (h1 + h2)) as [P12|P12]; [|lia].
  destruct l as [|c rest].
  { unfold clip_front. destruct (0 <? h2); reflexivity. }
  apply Forall_cons in Hf. destruct Hf as [Hc Hr].
  pose proof (hard_clipped_nonneg rest Hr) as Hnr.
  cbn [hard_clipped] in Hlt, Hnn.
  unfold clip_front.
  destruct (Z.eqb_spec (cigar_op c) BAM_CHARD_CLIP) as [Eh|Eh].
  - change (BAM_CHARD_CLIP =? BAM_CHARD_CLIP) with true in *.
    destruct (hard_cell (u32 (h1 + cigar_len c))) as (Q1 & _ & _ & Q4).
    rewrite Q1. hard_ops.
    rewrite (u32_small (h1 + cigar_len c)) in * by lia. rewrite Q4 by lia.
    destruct (Z.ltb_spec 0 h2).
    + replace (h2 + (h1 + cigar_len c)) with (h1 + h2 + cigar_len c) by lia.
      reflexivity.
    + replace h2 with 0 by lia. rewrite Z.add_0_r.
      rewrite (u32_small (h1 + cigar_len c)) by lia. reflexivity.
  - destruct (hard_cell h1) as (Q1 & _ & _ & Q4).
    rewrite Q1. hard_ops. rewrite Q4 by lia.
    destruct (Z.ltb_spec 0 h2).
    + rewrite u32_small by lia. do 2 f_equal. lia.
    + replace h2 with 0 by lia. rewrite Z.add_0_r. reflexivity.
Qed.

Lemma hard_clipped_rev (l : list Z) : hard_clipped (rev l) = hard_clipped l.
Proof.
  induction l as [|c l IH]; simpl; [reflexivity|].
  rewrite hard_clipped_app, IH. simpl. lia.
Qed.

Lemma clip_back_back (t1 t2 : Z) (l : list Z) :
  0 <= t1 -> 0 <= t2 -> Forall (fun c => 0 <= cigar_len c) l ->
  hard_clipped l + t1 + t2 < 2 ^ 28 ->
  clip_back t2 (clip_back t1 l) = clip_back (t1 + t2) l.
Proof.
  intros H1 H2 Hf Hlt. unfold clip_back. rewrite rev_involutive.
  rewrite clip_front_front; try assumption.
  - reflexivity.
  - apply List.Forall_rev. exact Hf.
  - rewrite hard_clipped_rev. exact Hlt.
Qed.

Lemma clip_front_back (h t : Z) (l : list Z) :
  0 <= h -> 0 <= t -> l <> [] ->
  Forall (fun c => 0 <= cigar_len c) l ->
  hard_clipped l + h + t < 2 ^ 28 ->
  clip_front h (clip_back t l) = clip_back t (clip_front h l).
Proof.
  intros Hh Ht Hne Hf Hlt.
  destruct l as [|c0 [|c1 rest]]; [congruence| |].
  - (* one cell *)
    apply Forall_cons in Hf. destruct Hf as [Hc _].
    cbn [hard_clipped] in Hlt.
    assert (Hb : forall x, clip_back t [x] =
              if 0 <? t then
                if cigar_op x =? BAM_CHARD_CLIP
                then [pack (u32 (t + cigar_len x)) BAM_CHARD_CLIP]
                else [x; pack t BAM_CHARD_CLIP]
              else [x])
      by (intros x; apply (clip_back_snoc t [] x)).
    assert (Hb2 : forall x y, clip_back t [x; y] = x :: clip_back t [y])
      by (intros x y; apply (clip_back_app t [x] [y]); discriminate).
    destruct (Z.ltb_spec 0 t) as [Pt|Pt].
    2:{ rewrite !clip_back_le0 by lia. reflexivity. }
    destruct (Z.ltb_spec 0 h) as [Ph|Ph].
    2:{ rewrite !clip_front_le0 by lia. reflexivity. }
    rewrite Hb. unfold clip_front.
    destruct (Z.ltb_spec 0 t) as [_|]; [|lia].
    destruct (Z.ltb_spec 0 h) as [_|]; [|lia].
    destruct (Z.eqb_spec (cigar_op c0) BAM_CHARD_CLIP) as [Eh|Eh].
    + rewrite Hb. destruct (Z.ltb_spec 0 t) as [_|]; [|lia].
      rewrite !(proj1 (hard_cell _)). hard_ops.
      rewrite (u32_small (t + cigar_len c0)), (u32_small (h + cigar_len c0)) by lia.
      rewrite !(proj2 (proj2 (proj2 (hard_cell _)))) by lia.
      do 3 f_equal. lia.
    + rewrite Hb2, Hb. destruct (Z.ltb_spec 0 t) as [_|]; [|lia].
      destruct (Z.eqb_spec (cigar_op c0) BAM_CHARD_CLIP); [contradiction|].
      reflexivity.
  - (* the two ends are different cells *)
    change (c0 :: c1 :: rest) with ([c0] ++ (c1 :: rest)) at 1.
    rewrite clip_back_app by discriminate.
    cbn [app]. rewrite (clip_front_cons h c0), (clip_front_cons h c0 (c1 :: rest)).
    rewrite clip_back_app by discriminate. reflexivity.
Qed.

(** X17. Hard clips add up: hard-clipping by [h1] and [t1] and then by
    [h2] and [t2] leaves the CIGAR that hard-clipping by [h1 + h2] and
    [t1 + t2] leaves (on a non-empty CIGAR with two free cells on each
    side, as long as the hard-clipped bases stay below 2^28). *)
Theorem append_hardclip_twice (al : Alignment_ASW) (h1 t1 h2 t2 : Z) :
  cigar_in_buffer al -> cigar_of al <> [] ->
  2 <= cigar_begin al -> cigar_end al + 1 < Z.of_nat (length (rcigar al)) ->
  Forall (fun c => 0 <= cigar_len c) (cigar_of al) ->
  0 <= h1 -> 0 <= t1 -> 0 <= h2 -> 0 <= t2 ->
  hard_clipped (cigar_of al) + h1 + t1 + h2 + t2 < 2 ^ 28 ->
  exists al1 al2 al3,
    asw_append_hardclip al h1 t1 = Ok al1 /\
    asw_append_hardclip al1 h2 t2 = Ok al2 /\
    asw_append_hardclip al (h1 + h2) (t1 + t2) = Ok al3 /\
    cigar_of al2 = cigar_of al3 /\ offset al2 = offset al3.
Proof.
  intros Hbuf Hne Hb He Hf A1 A2 A3 A4 Hlt.
  pose proof (hard_clipped_nonneg _ Hf) as Hnn.
  destruct (append_hardclip_spec al h1 t1 Hbuf Hne ltac:(lia) ltac:(lia))
    as (al1 & E1 & C1 & O1 & B1 & R1 & R2 & L1).
  rewrite !u32_small in C1 by lia.
  destruct (clip_front_sums h1 (cigar_of al)) as (_ & _ & F3).
  destruct (F3 Hne A1 Hf ltac:(lia)) as (F4 & F5).
  pose proof (clip_front_nonnil h1 _ Hne) as Hne'.
  destruct (clip_back_sums t1 (clip_front h1 (cigar_of al))) as (_ & _ & G3).
  destruct (G3 Hne' A2 F5 ltac:(lia)) as (G4 & G5).
  assert (Hne1 : cigar_of al1 <> [])
    by (rewrite C1; apply clip_back_nonnil, Hne').
  destruct (append_hardclip_spec al1 h2 t2 B1 Hne1 ltac:(lia) ltac:(lia))
    as (al2 & E2 & C2 & O2 & _).
  rewrite !u32_small in C2 by lia.
  destruct (append_hardclip_spec al (h1 + h2) (t1 + t2) Hbuf Hne
              ltac:(lia) ltac:(lia)) as (al3 & E3 & C3 & O3 & _).
  rewrite !u32_small in C3 by lia.
  exists al1, al2, al3. split_and!; try assumption; [|congruence].
  rewrite C2, C1, C3.
  rewrite clip_front_back by (assumption || lia).
  rewrite clip_front_front by (assumption || lia).
  apply clip_back_back; try assumption.
  - destruct (clip_front_sums (h1 + h2) (cigar_of al)) as (_ & _ & K3).
    apply (K3 Hne ltac:(lia) Hf ltac:(lia)).
  - destruct (clip_front_sums (h1 + h2) (cigar_of al)) as (_ & _ & K3).
    destruct (K3 Hne ltac:(lia) Hf ltac:(lia)) as (K4 & _). lia.
Qed.

(** ** The hard-clipping theorems at concrete alignments *)

(** The trace 1X 6= 1X, hard-clipped by 3 and 2. *)
Lemma append_hardclip_cigar_witness :
  exists al',
    asw_append_hardclip
      (ok_or (asw_trace 100
                (aligned false
                   (prepared default_engine "ACGTACGT" "TCGTACGA" "IIIIIIII")))
             default_engine) 3 2 = Ok al' /\
    cigar_of al'
    = [pack 3 BAM_CHARD_CLIP; pack 1 BAM_CSEQ_MISMATCH; pack 6 BAM_CSEQ_MATCH;
       pack 1 BAM_CSEQ_MISMATCH; pack 2 BAM_CHARD_CLIP].
Proof.
  destruct (append_hardclip_cigar
              (ok_or (asw_trace 100
                        (aligned false
                           (prepared default_engine "ACGTACGT" "TCGTACGA"
                              "IIIIIIII")))
                     default_engine) 3 2
              ltac:(concrete_cigar) ltac:(vm_compute; discriminate)
              ltac:(vm_compute; discriminate) ltac:(vm_compute; reflexivity))
    as (al' & E & C & _).
  exists al'. split; [exact E|]. rewrite C. vm_compute. reflexivity.
Defined.

Lemma append_hardclip_adds_witness :
  exists al',
    asw_append_hardclip
      (ok_or (asw_trace 100
                (aligned false
                   (prepared default_engine "ACGTACGT" "TCGTACGA" "IIIIIIII")))
             default_engine) 3 2 = Ok al' /\
    query_consumed (cigar_of al') = 8 /\ hard_clipped (cigar_of al') = 5.
Proof.
  destruct (append_hardclip_adds
              (ok_or (asw_trace 100
                        (aligned false
                           (prepared default_engine "ACGTACGT" "TCGTACGA"
                              "IIIIIIII")))
                     default_engine) 3 2
              ltac:(concrete_cigar) ltac:(vm_compute; discriminate)
              ltac:(vm_compute; discriminate) ltac:(vm_compute; reflexivity)
              ltac:(concrete_cigar) ltac:(lia) ltac:(lia)
              ltac:(vm_compute; reflexivity))
    as (al' & E & Q & _ & H).
  exists al'. split; [exact E|]. rewrite Q, H. vm_compute. auto.
Defined.

Lemma append_hardclip_twice_witness :
  exists al1 al2 al3,
    asw_append_hardclip
      (ok_or (asw_trace 100
                (aligned false
                   (prepared default_engine "ACGTACGT" "TCGTACGA" "IIIIIIII")))
             default_engine) 3 2 = Ok al1 /\
    asw_append_hardclip al1 4 0 = Ok al2 /\
    asw_append_hardclip
      (ok_or (asw_trace 100
                (aligned false
                   (prepared default_engine "ACGTACGT" "TCGTACGA" "IIIIIIII")))
             default_engine) 7 2 = Ok al3 /\
    cigar_of al2 = cigar_of al3.
Proof.
  destruct (append_hardclip_twice
              (ok_or (asw_trace 100
                        (aligned false
                           (prepared default_engine "ACGTACGT" "TCGTACGA"
                              "IIIIIIII")))
                     default_engine) 3 2 4 0
              ltac:(concrete_cigar) ltac:(vm_compute; discriminate)
              ltac:(vm_compute; discriminate) ltac:(vm_compute; reflexivity)
              ltac:(concrete_cigar) ltac:(lia) ltac:(lia) ltac:(lia) ltac:(lia)
              ltac:(vm_compute; reflexivity))
    as (al1 & al2 & al3 & E1 & E2 & E3 & C & _).
  exists al1, al2, al3. auto.
Defined.

(** ** Decimal digits *)

Lemma ndigits_loop_spec (fuel : nat) :
  forall n i : Z,
    0 <= i < 10 ^ Z.of_nat fuel -> (1 <= fuel)%nat ->
    0 <= n -> n + Z.of_nat fuel < 2 ^ 31 ->
    let r := ndigits_loop fuel n i - n in
    0 <= r < Z.of_nat fuel /\ i < 10 ^ (r + 1) /\ (0 < i -> 10 ^ r <= i).
Proof.
  induction fuel as [|fuel IH]; intros n i Hi Hf Hn Hn2; [lia|].
  cbn [ndigits_loop]. cbv zeta.
  destruct (Z.ltb_spec 9 i) as [H9|H9].
  - rewrite sint_small by lia.
    rewrite Z.quot_div_nonneg by lia.
    assert (Hq : 0 < i / 10) by (apply Z.div_str_pos; lia).
    assert (Hq2 : i / 10 < 10 ^ Z.of_nat fuel).
    { apply Z.div_lt_upper_bound; [lia|].
      rewrite <- Z.pow_succ_r by lia. rewrite <- Nat2Z.inj_succ. lia. }
    assert (Hf1 : (1 <= fuel)%nat).
    { destruct fuel; [|lia]. simpl in Hq2. lia. }
    specialize (IH (n + 1) (i / 10) ltac:(lia) Hf1 ltac:(lia) ltac:(lia)).
    cbv zeta in IH. destruct IH as (I1 & I2 & I3).
    set (r := ndigits_loop fuel (n + 1) (i / 10) - (n + 1)) in *.
    replace (ndigits_loop fuel (n + 1) (i / 10) - n) with (r + 1) by (unfold r; lia).
    specialize (I3 Hq).
    pose proof (Z.div_mod i 10 ltac:(lia)) as Hdm.
    pose proof (Z.mod_pos_bound i 10 ltac:(lia)) as Hm.
    assert (E1 : 10 ^ (r + 1 + 1) = 10 * 10 ^ (r + 1))
      by (rewrite <- Z.pow_succ_r by lia; f_equal; lia).
    assert (E2 : 10 ^ (r + 1) = 10 * 10 ^ r)
      by (rewrite <- Z.pow_succ_r by lia; f_equal; lia).
    rewrite E1. rewrite E2 in *.
    split_and!; lia.
  - replace (n - n) with 0 by lia. simpl. split_and!; lia.
Qed.

Lemma decimal_loop_length (fuel : nat) :
  forall (n i : Z) (acc : list Z),
    0 <= i < 10 ^ Z.of_nat fuel -> (1 <= fuel)%nat ->
    0 <= n -> n + Z.of_nat fuel < 2 ^ 31 ->
    Z.of_nat (length (decimal_loop fuel i acc))
    = Z.of_nat (length acc) + 1 + (ndigits_loop fuel n i - n).
Proof.
  induction fuel as [|fuel IH]; intros n i acc Hi Hf Hn Hn2; [lia|].
  cbn [ndigits_loop decimal_loop]. cbv zeta.
  destruct (Z.ltb_spec 9 i) as [H9|H9].
  - rewrite sint_small by lia.
    rewrite Z.quot_div_nonneg by lia.
    assert (Hq : 0 < i / 10) by (apply Z.div_str_pos; lia).
    assert (Hq2 : i / 10 < 10 ^ Z.of_nat fuel).
    { apply Z.div_lt_upper_bound; [lia|].
      rewrite <- Z.pow_succ_r by lia. rewrite <- Nat2Z.inj_succ. lia. }
    assert (Hf1 : (1 <= fuel)%nat).
    { destruct fuel; [|lia]. simpl in Hq2. lia. }
    rewrite (IH (n + 1) (i / 10)) by lia. simpl length. lia.
  - simpl length. lia.
Qed.

Lemma int_below_pow10 (i : Z) : i < 2 ^ 31 -> i < 10 ^ Z.of_nat 10.
Proof. intros H. change (10 ^ Z.of_nat 10) with 10000000000. lia. Qed.

Lemma ndigits_length (i : Z) :
  0 <= i < 2 ^ 31 ->
  1 <= ndigits i <= 10 /\
  Z.of_nat (length (sprintf_d i)) = ndigits i.
Proof.
  intros Hi. unfold ndigits, sprintf_d.
  destruct (Z.ltb_spec i 0) as [Hneg|_]; [lia|].
  pose proof (ndigits_loop_spec 10 1 i
                ltac:(split; [lia|apply int_below_pow10; lia])
                ltac:(lia) ltac:(lia) ltac:(lia)) as Hs.
  cbv zeta in Hs. destruct Hs as (S1 & _).
  pose proof (decimal_loop_length 10 1 i []
                ltac:(split; [lia|apply int_below_pow10; lia])
                ltac:(lia) ltac:(lia) ltac:(lia)) as Hl.
  change (length (@nil Z)) with O in Hl. lia.
Qed.

(** X18. [ndigits] counts the decimal digits of a non-negative [int]:
    the result [d] is between 1 and 10, [i < 10^d], and [10^(d-1) <= i]
    unless [i] is 0; and [%d] prints [d] characters for [i]. *)
Theorem ndigits_decimal (i : Z) :
  0 <= i < 2 ^ 31 ->
  1 <= ndigits i <= 10 /\
  i < 10 ^ ndigits i /\
  (0 < i -> 10 ^ (ndigits i - 1) <= i) /\
  Z.of_nat (length (sprintf_d i)) = ndigits i.
Proof.
  intros Hi. unfold ndigits, sprintf_d.
  destruct (Z.ltb_spec i 0) as [Hneg|_]; [lia|].
  pose proof (ndigits_loop_spec 10 1 i
                ltac:(split; [lia|apply int_below_pow10; lia])
                ltac:(lia) ltac:(lia) ltac:(lia)) as Hs.
  cbv zeta in Hs. destruct Hs as (S1 & S2 & S3).
  pose proof (decimal_loop_length 10 1 i []
                ltac:(split; [lia|apply int_below_pow10; lia])
                ltac:(lia) ltac:(lia) ltac:(lia)) as Hl.
  replace (ndigits_loop 10 1 i - 1 + 1) with (ndigits_loop 10 1 i) in S2 by lia.
  change (length (@nil Z)) with O in Hl.
  split_and!; try lia; assumption.
Qed.

(** ** The text of a CIGAR *)

Lemma cell_num (c : Z) :
  0 <= c < 2 ^ 32 ->
  0 <= sint (cigar_len c) < 2 ^ 31 /\
  1 <= ndigits (sint (cigar_len c)) <= 10 /\
  Z.of_nat (length (sprintf_d (sint (cigar_len c))))
  = ndigits (sint (cigar_len c)).
Proof.
  intros Hc.
  assert (Hl : 0 <= cigar_len c < 2 ^ 28).
  { unfold cigar_len, BAM_CIGAR_SHIFT. rewrite Z.shiftr_div_pow2 by lia.
    split; [apply Z.div_pos; lia|apply Z.div_lt_upper_bound; lia]. }
  rewrite sint_small by lia.
  destruct (ndigits_length (cigar_len c) ltac:(lia)) as (N1 & N4).
  split_and!; lia.
Qed.

Lemma text_len_bounds (cigar : list Z) :
  Forall (fun c => 0 <= c < 2 ^ 32) cigar ->
  3 * Z.of_nat (length cigar) <= text_len cigar <= 12 * Z.of_nat (length cigar).
Proof.
  induction 1 as [|c l Hc Hl IH]; [simpl; lia|].
  cbn [text_len length]. destruct (cell_num c Hc) as (_ & N & _). lia.
Qed.

Lemma show_len_spec (cigar : list Z) :
  Forall (fun c => 0 <= c < 2 ^ 32) cigar ->
  forall a, 0 <= a -> a + 12 * Z.of_nat (length cigar) < 2 ^ 64 ->
  show_len cigar a = a + text_len cigar.
Proof.
  induction 1 as [|c l Hc Hl IH]; intros a Ha Hlt; [simpl; lia|].
  cbn [show_len text_len length] in *.
  destruct (cell_num c Hc) as (_ & N & _).
  rewrite u64_small by lia. rewrite IH by lia. lia.
Qed.

Lemma store_all_Some (bytes : list Z) :
  forall (buf buf' : list Z) (p : Z),
    0 <= p -> store_all buf p bytes = Some buf' ->
    length buf' = length buf /\
    (bytes <> [] -> p + Z.of_nat (length bytes) <= Z.of_nat (length buf)).
Proof.
  induction bytes as [|x rest IH]; intros buf buf' p Hp Hs.
  - simpl in Hs. inversion Hs. split; [reflexivity|congruence].
  - cbn [store_all] in Hs.
    destruct (store buf p x) as [buf1|] eqn:E1; [|discriminate Hs].
    destruct (store_Some _ _ _ _ E1) as [Hr ->].
    destruct (IH _ _ (p + 1) ltac:(lia) Hs) as (L & B).
    rewrite length_insert in L, B. split; [exact L|]. intros _.
    destruct rest as [|y rest']; [simpl; lia|].
    specialize (B ltac:(discriminate)). cbn [length] in *. lia.
Qed.

Lemma store_all_spec (bytes : list Z) :
  forall (pre old post : list Z),
    length old = length bytes ->
    store_all (pre ++ old ++ post) (Z.of_nat (length pre)) bytes
    = Some (pre ++ bytes ++ post).
Proof.
  induction bytes as [|x rest IH]; intros pre old post Hl.
  - destruct old; [reflexivity|discriminate Hl].
  - destruct old as [|o old']; [discriminate Hl|].
    cbn [store_all length] in *.
    rewrite store_in_range by (rewrite length_app; simpl; lia).
    rewrite Nat2Z.id.
    replace (length pre) with (length pre + 0)%nat at 1 by lia.
    rewrite insert_app_r. cbn [app]. simpl (<[0%nat:=x]> _).
    replace (Z.of_nat (length pre) + 1) with (Z.of_nat (length (pre ++ [x])))
      by (rewrite length_app; simpl; lia).
    replace (pre ++ x :: old' ++ post) with ((pre ++ [x]) ++ old' ++ post)
      by (rewrite <- app_assoc; reflexivity).
    rewrite IH by lia. rewrite <- app_assoc. reflexivity.
Qed.

(** The last [sprintf] of the loop puts its NUL right after the bytes
    the first loop counted. *)
Lemma show_loop_overflow (cigar : list Z) :
  Forall (fun c => 0 <= c < 2 ^ 32) cigar -> cigar <> [] ->
  forall (buf : list Z) (p : Z),
    0 <= p -> p + text_len cigar = Z.of_nat (length buf) ->
    show_loop cigar buf p = Undefined.
Proof.
  induction 1 as [|c l Hc Hl IH]; intros Hne buf p Hp Hlen; [congruence|].
  cbn [show_loop text_len] in *. cbv zeta.
  destruct (cell_num c Hc) as (N0 & N1 & N2).
  destruct (cigar_chars !! Z.to_nat (cigar_op c)) as [ch|]; [|reflexivity].
  destruct (store_all buf p _) as [buf1|] eqn:Es; [|reflexivity].
  destruct (store_all_Some _ _ _ _ Hp Es) as (L & B).
  specialize (B ltac:(intros H; apply app_eq_nil in H; destruct H; discriminate)).
  rewrite length_app in B. cbn [length] in B.
  pose proof (text_len_bounds l Hl) as Hb.
  destruct l as [|c' l'].
  - simpl in Hlen. lia.
  - apply IH; [discriminate|lia|]. rewrite L. lia.
Qed.

(** X19. [asw_show_cigar] returns the empty string for an empty CIGAR;
    for every other CIGAR it writes outside the block it allocated:
    the block has one byte for each byte of the text, and the last
    [sprintf] puts a terminating NUL after the text. *)
Theorem show_cigar_overflows (al : Alignment_ASW) (calloc_ok : bool) :
  cigar_in_buffer al ->
  Forall (fun c => 0 <= c < 2 ^ 32) (cigar_of al) ->
  12 * Z.of_nat (length (cigar_of al)) < 2 ^ 63 ->
  (cigar_of al = [] -> asw_show_cigar true al = Ok [0]) /\
  (cigar_of al <> [] -> asw_show_cigar calloc_ok al = Undefined).
Proof.
  intros _ Hf Hlen. split.
  - intros E. unfold asw_show_cigar. rewrite E. reflexivity.
  - intros Hne. unfold asw_show_cigar.
    destruct calloc_ok; [|reflexivity].
    rewrite (show_len_spec _ Hf 1) by lia.
    pose proof (text_len_bounds _ Hf) as Hb.
    assert (1 <= Z.of_nat (length (cigar_of al)))
      by (destruct (cigar_of al); [congruence|simpl; lia]).
    destruct (Z.ltb_spec 1 (1 + text_len (cigar_of al))); [|lia].
    rewrite u64_small by lia.
    rewrite (show_loop_overflow _ Hf Hne); [reflexivity|lia|].
    rewrite repeat_length. lia.
Qed.

Lemma cell_text_length (c : Z) :
  0 <= c < 2 ^ 32 ->
  Z.of_nat (length (cell_text c)) = ndigits (sint (cigar_len c)) + 2.
Proof.
  intros Hc. destruct (cell_num c Hc) as (_ & _ & N).
  unfold cell_text. rewrite length_app. cbn [length]. lia.
Qed.

Lemma printable_char (c : Z) :
  printable c ->
  exists ch, cigar_chars !! Z.to_nat (cigar_op c) = Some ch.
Proof.
  intros (Hc & Hop).
  assert (H0 : 0 <= cigar_op c).
  { unfold cigar_op. apply Z.land_nonneg. left. lia. }
  apply lookup_lt_is_Some_2. simpl. lia.
Qed.

Lemma print_loop_text (cigar : list Z) :
  Forall printable cigar ->
  forall out, print_loop cigar out = Ok (out ++ cigar_text cigar).
Proof.
  induction 1 as [|c l Hc Hl IH]; intros out.
  - simpl. rewrite app_nil_r. reflexivity.
  - cbn [print_loop cigar_text]. unfold cell_text.
    destruct (printable_char c Hc) as (ch & ->).
    rewrite IH. simpl. rewrite <- !app_assoc. reflexivity.
Qed.

Lemma show_loop_text (cigar : list Z) :
  Forall printable cigar ->
  forall (pre old post : list Z),
    length old = S (length (cigar_text cigar)) ->
    (cigar <> [] \/ old = [0]) ->
    show_loop cigar (pre ++ old ++ post) (Z.of_nat (length pre))
    = Ok (pre ++ cigar_text cigar ++ [0] ++ post).
Proof.
  induction 1 as [|c l Hc Hl IH]; intros pre old post Hlen Hz.
  - destruct Hz as [Hz| ->]; [congruence|]. reflexivity.
  - cbn [show_loop cigar_text] in *. cbv zeta.
    destruct (printable_char c Hc) as (ch & Ech).
    pose proof (cell_text_length c (proj1 Hc)) as Hct.
    assert (Ect : cell_text c = sprintf_d (sint (cigar_len c)) ++ [ch; 32])
      by (unfold cell_text; rewrite Ech; reflexivity).
    rewrite Ech.
    replace (sprintf_d (sint (cigar_len c)) ++ [ch; 32; 0])
      with (cell_text c ++ [0])
      by (rewrite Ect, <- app_assoc; reflexivity).
    rewrite length_app in Hlen.
    rewrite <- (take_drop (S (length (cell_text c))) old).
    rewrite <- (app_assoc (take _ old)).
    rewrite store_all_spec
      by (rewrite length_take, length_app; cbn [length]; lia).
    replace (Z.of_nat (length pre) + (ndigits (sint (cigar_len c)) + 2))
      with (Z.of_nat (length (pre ++ cell_text c)))
      by (rewrite length_app; lia).
    replace (pre ++ (cell_text c ++ [0])
             ++ drop (S (length (cell_text c))) old ++ post)
      with ((pre ++ cell_text c)
            ++ ([0] ++ drop (S (length (cell_text c))) old) ++ post)
      by (rewrite <- !app_assoc; reflexivity).
    rewrite IH.
    + rewrite <- !app_assoc. reflexivity.
    + rewrite length_app, length_drop. simpl. lia.
    + destruct l as [|c' l']; [right|left; discriminate].
      simpl in Hlen.
      rewrite drop_ge by lia. reflexivity.
Qed.

(** X20. On a CIGAR whose operations all have a character,
    [asw_print_cigar] writes the text of the CIGAR ([%d%c ] for each
    cell) and a newline; and the second loop of [asw_show_cigar], in a
    zeroed block with one byte more than the text, leaves the same
    text and a terminating NUL. *)
Theorem print_show_same_text (al : Alignment_ASW) (fp : list Z) :
  cigar_in_buffer al -> Forall printable (cigar_of al) ->
  asw_print_cigar al fp = Ok (fp ++ cigar_text (cigar_of al) ++ [10]) /\
  show_loop (cigar_of al)
    (repeat 0 (S (length (cigar_text (cigar_of al))))) 0
  = Ok (cigar_text (cigar_of al) ++ [0]).
Proof.
  intros _ Hp. split.
  - unfold asw_print_cigar. rewrite (print_loop_text _ Hp).
    rewrite <- app_assoc. reflexivity.
  - pose proof (show_loop_text _ Hp []
                  (repeat 0 (S (length (cigar_text (cigar_of al))))) []
                  ltac:(apply repeat_length)) as Hs.
    rewrite !app_nil_r in Hs. cbn [app length] in Hs.
    apply Hs.
    destruct (cigar_of al); [right; reflexivity|left; discriminate].
Qed.

(** ** The text theorems at concrete inputs *)

Ltac concrete_cells :=
  match goal with
  | |- Forall ?P ?l =>
    let l' := eval vm_compute in l in
    change (Forall P l'); repeat constructor; try lia;
    try (vm_compute; discriminate)
  end.

Lemma ndigits_decimal_witness :
  ndigits 12345 = 5 /\ Z.of_nat (length (sprintf_d 12345)) = ndigits 12345.
Proof.
  pose proof (ndigits_decimal 12345 ltac:(lia)) as (_ & _ & _ & H).
  split; [vm_compute; reflexivity|exact H].
Defined.

(** The trace 1X 6= 1X: [asw_show_cigar] leaves its block. *)
Lemma show_cigar_overflows_witness :
  asw_show_cigar true
    (ok_or (asw_trace 100
              (aligned false
                 (prepared default_engine "ACGTACGT" "TCGTACGA" "IIIIIIII")))
           default_engine) = Undefined.
Proof.
  apply (show_cigar_overflows
           (ok_or (asw_trace 100
                     (aligned false
                        (prepared default_engine "ACGTACGT" "TCGTACGA"
                           "IIIIIIII")))
                  default_engine) true
           ltac:(concrete_cigar) ltac:(concrete_cells)
           ltac:(vm_compute; reflexivity)).
  vm_compute. discriminate.
Defined.

(** The trace 1X 6= 1X is printed as [1X 6= 1X ] and a newline. *)
Lemma print_show_same_text_witness :
  asw_print_cigar
    (ok_or (asw_trace 100
              (aligned false
                 (prepared default_engine "ACGTACGT" "TCGTACGA" "IIIIIIII")))
           default_engine) []
  = Ok (bytes_of_string "1X 6= 1X " ++ [10])%list.
Proof.
  pose proof (print_show_same_text
                (ok_or (asw_trace 100
                          (aligned false
                             (prepared default_engine "ACGTACGT" "TCGTACGA"
                                "IIIIIIII")))
                       default_engine) []
                ltac:(concrete_cigar) ltac:(concrete_cells))
    as (H & _).
  rewrite H. vm_compute. reflexivity.
Defined.

(** ** The rows of an alignment *)

Lemma pair_len_spec (cigar : list Z) :
  Forall (fun c => 0 <= cigar_len c) cigar ->
  forall a, 0 <= a -> a + total_len cigar < 2 ^ 64 ->
  pair_len cigar a = a + total_len cigar.
Proof.
  induction 1 as [|c l Hc Hl IH]; intros a Ha Hlt; [simpl; lia|].
  cbn [pair_len total_len] in *.
  pose proof (clipped_len_bounds l Hl) as (_ & Hb).
  rewrite u64_small by lia. rewrite IH by lia. lia.
Qed.

Lemma store_ok (buf : list Z) (i x : Z) :
  0 <= i < Z.of_nat (length buf) ->
  exists buf', store buf i x = Some buf' /\ length buf' = length buf /\
    buf' = <[Z.to_nat i := x]> buf.
Proof.
  intros H. eexists. split; [apply store_in_range; exact H|].
  split; [apply length_insert|reflexivity].
Qed.

Lemma safe_skip n : safe_step n pair_skip.
Proof.
  intros st Hp Hr L1 L2. eexists. split; [reflexivity|]. simpl.
  split_and!; lia.
Qed.

Lemma safe_diag n al : safe_step n (pair_diag al).
Proof.
  intros st Hp Hr L1 L2. unfold pair_diag.
  destruct (store_ok (seq1 st) (seq1_p st) (zrd (db al) (seq1source_p st))
              ltac:(lia)) as (s1 & -> & E1 & _).
  destruct (store_ok (seq2 st) (seq2_p st) (zrd (query al) (seq2source_p st))
              ltac:(lia)) as (s2 & -> & E2 & _).
  eexists. split; [reflexivity|]. simpl. split_and!; lia.
Qed.

Lemma safe_ins n al : safe_step n (pair_ins al).
Proof.
  intros st Hp Hr L1 L2. unfold pair_ins.
  destruct (store_ok (seq1 st) (seq1_p st) 45 ltac:(lia)) as (s1 & -> & E1 & _).
  destruct (store_ok (seq2 st) (seq2_p st) (zrd (query al) (seq2source_p st))
              ltac:(lia)) as (s2 & -> & E2 & _).
  eexists. split; [reflexivity|]. simpl. split_and!; lia.
Qed.

Lemma safe_del n al : safe_step n (pair_del al).
Proof.
  intros st Hp Hr L1 L2. unfold pair_del.
  destruct (store_ok (seq1 st) (seq1_p st) (zrd (db al) (seq1source_p st))
              ltac:(lia)) as (s1 & -> & E1 & _).
  destruct (store_ok (seq2 st) (seq2_p st) 45 ltac:(lia)) as (s2 & -> & E2 & _).
  eexists. split; [reflexivity|]. simpl. split_and!; lia.
Qed.

Lemma safe_run n step :
  safe_step n step ->
  forall (k : nat) st,
    seq1_p st = seq2_p st -> 0 <= seq1_p st ->
    seq1_p st + Z.of_nat k <= Z.of_nat n ->
    length (seq1 st) = n -> length (seq2 st) = n ->
    exists st',
      pair_run k step st = Some st' /\
      seq1_p st' = seq1_p st + Z.of_nat k /\ seq2_p st' = seq1_p st' /\
      length (seq1 st') = n /\ length (seq2 st') = n.
Proof.
  intros Hs. induction k as [|k IH]; intros st Hp H0 Hk L1 L2.
  - exists st. simpl. split_and!; try reflexivity; lia.
  - destruct (Hs st Hp ltac:(lia) L1 L2) as (st1 & E & P1 & P2 & M1 & M2).
    destruct (IH st1 ltac:(lia) ltac:(lia) ltac:(lia) M1 M2)
      as (st' & E' & Q1 & Q2 & N1 & N2).
    exists st'. cbn [pair_run]. rewrite E, E'.
    split_and!; try reflexivity; try assumption; lia.
Qed.

Lemma pair_loop_safe (al : Alignment_ASW) (n : nat) (cigar : list Z) :
  Forall pair_op cigar ->
  forall st,
    seq1_p st = seq2_p st -> 0 <= seq1_p st ->
    seq1_p st + (total_len cigar - hard_clipped cigar) <= Z.of_nat n ->
    length (seq1 st) = n -> length (seq2 st) = n ->
    exists st',
      pair_loop al cigar st = Ok (Some st') /\
      seq1_p st' = seq1_p st + (total_len cigar - hard_clipped cigar) /\
      seq2_p st' = seq1_p st' /\
      length (seq1 st') = n /\ length (seq2 st') = n.
Proof.
  induction 1 as [|c l (Hlen & Hop) Hl IH]; intros st Hp H0 Hk L1 L2.
  - exists st. simpl. split_and!; try reflexivity; lia.
  - cbn [pair_loop total_len hard_clipped] in *. cbv zeta.
    assert (Hrest : 0 <= total_len l - hard_clipped l).
    { clear - Hl. induction Hl as [|x l (Hx & _) _ IH]; simpl; [lia|].
      destruct (cigar_op x =? BAM_CHARD_CLIP); lia. }
    destruct (Z.eqb_spec (cigar_op c) BAM_CHARD_CLIP) as [Eh|Eh].
    + destruct (IH st Hp H0 ltac:(lia) L1 L2) as (st' & E & Q1 & Q2 & N1 & N2).
      exists st'. split_and!; try assumption; lia.
    + assert (Hstep : exists step,
                (if cigar_op c =? BAM_CSOFT_CLIP then Some pair_skip
                 else if (cigar_op c =? BAM_CMATCH) || (cigar_op c =? BAM_CSEQ_MATCH)
                         || (cigar_op c =? BAM_CSEQ_MISMATCH)
                 then Some (pair_diag al)
                 else if cigar_op c =? BAM_CINS then Some (pair_ins al)
                 else if cigar_op c =? BAM_CDEL then Some (pair_del al)
                 else None) = Some step /\ safe_step n step).
      { destruct Hop as [-> | [-> | [-> | [-> | [E | [-> | ->]]]]]];
          try contradiction; simpl; eexists; split; try reflexivity;
          auto using safe_skip, safe_diag, safe_ins, safe_del. }
      destruct Hstep as (step & -> & Hs).
      destruct (safe_run n step Hs (Z.to_nat (cigar_len c)) st Hp H0
                  ltac:(lia) L1 L2) as (st1 & E1 & P1 & P2 & M1 & M2).
      rewrite E1.
      destruct (IH st1 ltac:(lia) ltac:(lia) ltac:(lia) M1 M2)
        as (st' & E & Q1 & Q2 & N1 & N2).
      exists st'. split_and!; try assumption; lia.
Qed.

(** X21. [asw_getBasicAlignPair] on a CIGAR of M, I, D, S, H, = and X
    cells, with two blocks of [len + 1] bytes: it returns a pair whose
    rows are both terminated where the columns end, that is after as
    many bytes as the run lengths of all cells but the hard clips add
    up to; the [length] it reports is the sum of all run lengths, hard
    clips included. *)
Theorem basic_align_pair_rows (al : Alignment_ASW) (j1 j2 : list Z) :
  cigar_in_buffer al ->
  Forall pair_op (cigar_of al) ->
  total_len (cigar_of al) < 2 ^ 31 ->
  Z.of_nat (length j1) = total_len (cigar_of al) + 1 ->
  Z.of_nat (length j2) = total_len (cigar_of al) + 1 ->
  exists bap,
    asw_getBasicAlignPair al (Some j1) (Some j2) true = Ok (Some bap) /\
    bap_length bap = total_len (cigar_of al) /\
    zrd (sequence1side bap)
        (total_len (cigar_of al) - hard_clipped (cigar_of al)) = 0 /\
    zrd (sequence2side bap)
        (total_len (cigar_of al) - hard_clipped (cigar_of al)) = 0 /\
    length (sequence1side bap) = length j1 /\
    length (sequence2side bap) = length j2.
Proof.
  intros _ Hops Hlt L1 L2.
  assert (Hnn : Forall (fun c => 0 <= cigar_len c) (cigar_of al))
    by (eapply Forall_impl; [exact Hops|]; intros c (H & _); exact H).
  pose proof (hard_clipped_nonneg _ Hnn) as Hh.
  pose proof (clipped_len_bounds _ Hnn) as (_ & Ht).
  destruct (pair_loop_safe al (length j1) (cigar_of al) Hops
              (mkPS j1 j2 0 0 (subdb al + offset al) (subquery al))
              eq_refl ltac:(simpl; lia) ltac:(simpl; lia) eq_refl
              ltac:(simpl; lia)) as (st & E & P1 & P2 & M1 & M2).
  cbn [seq1_p] in P1. rewrite Z.add_0_l in P1.
  assert (Hhard : hard_clipped (cigar_of al) <= total_len (cigar_of al)).
  { clear - Hnn. induction Hnn as [|x l Hx _ IH]; simpl; [lia|].
    destruct (cigar_op x =? BAM_CHARD_CLIP); lia. }
  unfold asw_getBasicAlignPair.
  change (default [] (Some j1)) with j1. change (default [] (Some j2)) with j2.
  rewrite E.
  rewrite P2, Z.eqb_refl. cbn [negb].
  destruct (store_ok (seq1 st) (seq1_p st) 0 ltac:(lia)) as (s1 & -> & E1 & F1).
  destruct (store_ok (seq2 st) (seq1_p st) 0 ltac:(lia)) as (s2 & -> & E2 & F2).
  eexists. split; [reflexivity|]. cbn [bap_length sequence1side sequence2side].
  rewrite (pair_len_spec _ Hnn 0) by lia.
  rewrite sint_small by lia.
  rewrite F1, F2, <- P1.
  rewrite !zrd_insert_eq by lia. rewrite !length_insert.
  split_and!; try reflexivity; lia.
Qed.

(** ** The rows without their gaps *)

Lemma take_store (buf buf' : list Z) (p v : Z) :
  0 <= p -> store buf p v = Some buf' ->
  take (Z.to_nat (p + 1)) buf' = take (Z.to_nat p) buf ++ [v] /\
  length buf' = length buf.
Proof.
  intros Hp Hs. destruct (store_Some _ _ _ _ Hs) as [Hr ->].
  replace (Z.to_nat (p + 1)) with (S (Z.to_nat p)) by lia.
  rewrite (take_S_r _ _ v) by (apply list_lookup_insert_eq; lia).
  rewrite take_insert_ge by lia. rewrite length_insert. auto.
Qed.

Lemma degap_snoc (l : list Z) (v : Z) :
  degap (l ++ [v]) = if v =? 45 then degap l else degap l ++ [v].
Proof.
  unfold degap. rewrite List.filter_app. simpl.
  destruct (v =? 45); simpl; [apply app_nil_r|reflexivity].
Qed.

Lemma gap_free_slice (buf : list Z) (a b : Z) :
  0 <= a -> b <= Z.of_nat (length buf) ->
  gap_free (slice buf a b) = true ->
  forall i, a <= i < b -> zrd buf i <> 45.
Proof.
  intros Ha Hb Hg i Hi.
  assert (Hl : slice buf a b !! Z.to_nat (i - a) = Some (zrd buf i)).
  { unfold slice, zrd, rd. destruct (Z.leb_spec 0 i); [|lia].
    rewrite lookup_take_lt by lia. rewrite lookup_drop.
    replace (Z.to_nat a + Z.to_nat (i - a))%nat with (Z.to_nat i) by lia.
    destruct (lookup_lt_is_Some_2 buf (Z.to_nat i)) as [x Hx]; [lia|].
    rewrite Hx. reflexivity. }
  unfold gap_free in Hg. rewrite forallb_forall in Hg.
  specialize (Hg (zrd buf i)).
  intros E. rewrite E in Hg, Hl.
  assert (Hin : In 45 (slice buf a b)).
  { apply list_elem_of_In. eapply list_elem_of_lookup_2. exact Hl. }
  specialize (Hg Hin). discriminate Hg.
Qed.

Section Rows.

Variables (al : Alignment_ASW) (start1 end1 start2 end2 : Z) (n : nat).
Hypothesis Hs1 : 0 <= start1.
Hypothesis He1 : end1 <= Z.of_nat (length (db al)).
Hypothesis Hd1 : forall i, start1 <= i < end1 -> zrd (db al) i <> 45.
Hypothesis Hs2 : 0 <= start2.
Hypothesis He2 : end2 <= Z.of_nat (length (query al)).
Hypothesis Hd2 : forall i, start2 <= i < end2 -> zrd (query al) i <> 45.

Lemma good_diag : good_step al start1 end1 start2 end2 n (pair_diag al) 1 1.
Proof.
  intros st (Hp & H0 & L1 & L2 & B1 & B2 & R1 & R2) Hn E1 E2.
  unfold pair_diag.
  destruct (store_ok (seq1 st) (seq1_p st) (zrd (db al) (seq1source_p st))
              ltac:(lia)) as (s1 & F1 & _).
  destruct (store_ok (seq2 st) (seq2_p st) (zrd (query al) (seq2source_p st))
              ltac:(lia)) as (s2 & F2 & _).
  rewrite F1, F2. eexists. split; [reflexivity|].
  destruct (take_store _ _ _ _ H0 F1) as (T1 & M1).
  rewrite <- Hp in F2. destruct (take_store _ _ _ _ H0 F2) as (T2 & M2).
  unfold rows_inv. cbn [seq1 seq2 seq1_p seq2_p seq1source_p seq2source_p].
  rewrite T1, T2, !degap_snoc, R1, R2.
  destruct (Z.eqb_spec (zrd (db al) (seq1source_p st)) 45) as [E|_];
    [exfalso; apply (Hd1 (seq1source_p st)); [lia|exact E]|].
  destruct (Z.eqb_spec (zrd (query al) (seq2source_p st)) 45) as [E|_];
    [exfalso; apply (Hd2 (seq2source_p st)); [lia|exact E]|].
  rewrite !slice_snoc by lia.
  split_and!; try reflexivity; lia.
Qed.

Lemma good_ins : good_step al start1 end1 start2 end2 n (pair_ins al) 0 1.
Proof.
  intros st (Hp & H0 & L1 & L2 & B1 & B2 & R1 & R2) Hn E1 E2.
  unfold pair_ins.
  destruct (store_ok (seq1 st) (seq1_p st) 45 ltac:(lia)) as (s1 & F1 & _).
  destruct (store_ok (seq2 st) (seq2_p st) (zrd (query al) (seq2source_p st))
              ltac:(lia)) as (s2 & F2 & _).
  rewrite F1, F2. eexists. split; [reflexivity|].
  destruct (take_store _ _ _ _ H0 F1) as (T1 & M1).
  rewrite <- Hp in F2. destruct (take_store _ _ _ _ H0 F2) as (T2 & M2).
  unfold rows_inv. cbn [seq1 seq2 seq1_p seq2_p seq1source_p seq2source_p].
  rewrite T1, T2, !degap_snoc, R1, R2.
  change (45 =? 45) with true. cbv iota.
  destruct (Z.eqb_spec (zrd (query al) (seq2source_p st)) 45) as [E|_];
    [exfalso; apply (Hd2 (seq2source_p st)); [lia|exact E]|].
  rewrite !slice_snoc by lia. rewrite Z.add_0_r.
  split_and!; try reflexivity; lia.
Qed.

Lemma good_del : good_step al start1 end1 start2 end2 n (pair_del al) 1 0.
Proof.
  intros st (Hp & H0 & L1 & L2 & B1 & B2 & R1 & R2) Hn E1 E2.
  unfold pair_del.
  destruct (store_ok (seq1 st) (seq1_p st) (zrd (db al) (seq1source_p st))
              ltac:(lia)) as (s1 & F1 & _).
  destruct (store_ok (seq2 st) (seq2_p st) 45 ltac:(lia)) as (s2 & F2 & _).
  rewrite F1, F2. eexists. split; [reflexivity|].
  destruct (take_store _ _ _ _ H0 F1) as (T1 & M1).
  rewrite <- Hp in F2. destruct (take_store _ _ _ _ H0 F2) as (T2 & M2).
  unfold rows_inv. cbn [seq1 seq2 seq1_p seq2_p seq1source_p seq2source_p].
  rewrite T1, T2, !degap_snoc, R1, R2.
  change (45 =? 45) with true. cbv iota.
  destruct (Z.eqb_spec (zrd (db al) (seq1source_p st)) 45) as [E|_];
    [exfalso; apply (Hd1 (seq1source_p st)); [lia|exact E]|].
  rewrite !slice_snoc by lia. rewrite Z.add_0_r.
  split_and!; try reflexivity; lia.
Qed.

Lemma good_run (step : pair_state -> option pair_state) (d1 d2 : Z) :
  0 <= d1 -> 0 <= d2 -> good_step al start1 end1 start2 end2 n step d1 d2 ->
  forall (k : nat) st,
    rows_inv al start1 start2 n st -> seq1_p st + Z.of_nat k <= Z.of_nat n ->
    seq1source_p st + Z.of_nat k * d1 <= end1 ->
    seq2source_p st + Z.of_nat k * d2 <= end2 ->
    exists st',
      pair_run k step st = Some st' /\ rows_inv al start1 start2 n st' /\
      seq1_p st' = seq1_p st + Z.of_nat k /\
      seq1source_p st' = seq1source_p st + Z.of_nat k * d1 /\
      seq2source_p st' = seq2source_p st + Z.of_nat k * d2.
Proof.
  intros D1 D2 Hg. induction k as [|k IH]; intros st Hi Hk E1 E2.
  - exists st. simpl. split_and!; try reflexivity; try assumption; lia.
  - destruct (Hg st Hi ltac:(lia) ltac:(nia) ltac:(nia))
      as (st1 & F & I1 & P1 & S1 & S2).
    destruct (IH st1 I1 ltac:(lia) ltac:(nia) ltac:(nia))
      as (st' & F' & I' & P' & S1' & S2').
    exists st'. cbn [pair_run]. rewrite F, F'.
    split_and!; try reflexivity; try assumption; nia.
Qed.

Lemma pair_loop_rows (cigar : list Z) :
  Forall column_op cigar ->
  forall st,
    rows_inv al start1 start2 n st -> seq1_p st + total_len cigar <= Z.of_nat n ->
    seq1source_p st + ref_consumed cigar <= end1 ->
    seq2source_p st + query_consumed cigar <= end2 ->
    exists st',
      pair_loop al cigar st = Ok (Some st') /\ rows_inv al start1 start2 n st' /\
      seq1_p st' = seq1_p st + total_len cigar /\
      seq1source_p st' = seq1source_p st + ref_consumed cigar /\
      seq2source_p st' = seq2source_p st + query_consumed cigar.
Proof.
  induction 1 as [|c l (Hlen & Hop) Hl IH]; intros st Hi Hk E1 E2.
  - exists st. simpl. split_and!; try reflexivity; try assumption; lia.
  - cbn [pair_loop total_len ref_consumed query_consumed] in *. cbv zeta.
    assert (Hnn : Forall (fun c => 0 <= cigar_len c) l)
      by (eapply Forall_impl; [exact Hl|]; intros x (H & _); exact H).
    pose proof (clipped_len_bounds l Hnn) as (_ & Ht).
    assert (Hrq : 0 <= ref_consumed l /\ 0 <= query_consumed l).
    { clear - Hnn. induction Hnn as [|x l Hx _ (I1 & I2)]; simpl; [lia|].
      destruct (consumes_ref _), (consumes_query _); lia. }
    assert (Hstep : exists step d1 d2,
              (cigar_op c =? BAM_CHARD_CLIP) = false /\
              (if cigar_op c =? BAM_CSOFT_CLIP then Some pair_skip
               else if (cigar_op c =? BAM_CMATCH) || (cigar_op c =? BAM_CSEQ_MATCH)
                       || (cigar_op c =? BAM_CSEQ_MISMATCH)
               then Some (pair_diag al)
               else if cigar_op c =? BAM_CINS then Some (pair_ins al)
               else if cigar_op c =? BAM_CDEL then Some (pair_del al)
               else None) = Some step /\
              good_step al start1 end1 start2 end2 n step d1 d2 /\ 0 <= d1 <= 1 /\ 0 <= d2 <= 1 /\
              (if consumes_ref (cigar_op c) then cigar_len c else 0)
              = Z.of_nat (Z.to_nat (cigar_len c)) * d1 /\
              (if consumes_query (cigar_op c) then cigar_len c else 0)
              = Z.of_nat (Z.to_nat (cigar_len c)) * d2).
    { destruct Hop as [-> | [-> | [-> | [-> | ->]]]]; simpl.
      - exists (pair_diag al), 1, 1. split_and!; auto using good_diag; lia.
      - exists (pair_ins al), 0, 1. split_and!; auto using good_ins; lia.
      - exists (pair_del al), 1, 0. split_and!; auto using good_del; lia.
      - exists (pair_diag al), 1, 1. split_and!; auto using good_diag; lia.
      - exists (pair_diag al), 1, 1. split_and!; auto using good_diag; lia. }
    destruct Hstep as (step & d1 & d2 & -> & -> & Hg & D1 & D2 & C1 & C2).
    rewrite C1 in E1 |- *. rewrite C2 in E2 |- *.
    destruct (good_run step d1 d2 ltac:(lia) ltac:(lia) Hg
                (Z.to_nat (cigar_len c)) st Hi ltac:(lia) ltac:(lia) ltac:(lia))
      as (st1 & F & I1 & P1 & S1 & S2).
    rewrite F.
    destruct (IH st1 I1 ltac:(lia) ltac:(lia) ltac:(lia))
      as (st' & F' & I' & P' & S1' & S2').
    exists st'. split_and!; try assumption; lia.
Qed.

End Rows.

(** X22. The rows of [asw_getBasicAlignPair] give back the sequences: on
    a CIGAR of M, I, D, = and X cells, for an alignment that stays
    inside [db] and [query] and covers no [-] character, the first row
    without its gap characters is the reference from [subdb + offset]
    on, as far as the CIGAR consumes it, and the second row without its
    gap characters is the query from [subquery] on, as far as the CIGAR
    consumes it. *)
Theorem basic_align_pair_degapped (al : Alignment_ASW) (j1 j2 : list Z) :
  cigar_in_buffer al ->
  Forall column_op (cigar_of al) ->
  total_len (cigar_of al) < 2 ^ 31 ->
  Z.of_nat (length j1) = total_len (cigar_of al) + 1 ->
  Z.of_nat (length j2) = total_len (cigar_of al) + 1 ->
  0 <= subdb al + offset al ->
  subdb al + offset al + ref_consumed (cigar_of al)
  <= Z.of_nat (length (db al)) ->
  0 <= subquery al ->
  subquery al + query_consumed (cigar_of al) <= Z.of_nat (length (query al)) ->
  gap_free (slice (db al) (subdb al + offset al)
              (subdb al + offset al + ref_consumed (cigar_of al))) = true ->
  gap_free (slice (query al) (subquery al)
              (subquery al + query_consumed (cigar_of al))) = true ->
  exists bap,
    asw_getBasicAlignPair al (Some j1) (Some j2) true = Ok (Some bap) /\
    degap (take (Z.to_nat (total_len (cigar_of al))) (sequence1side bap))
    = slice (db al) (subdb al + offset al)
        (subdb al + offset al + ref_consumed (cigar_of al)) /\
    degap (take (Z.to_nat (total_len (cigar_of al))) (sequence2side bap))
    = slice (query al) (subquery al)
        (subquery al + query_consumed (cigar_of al)).
Proof.
  intros _ Hops Hlt L1 L2 A1 A2 B1 B2 G1 G2.
  pose proof (gap_free_slice _ _ _ A1 A2 G1) as D1.
  pose proof (gap_free_slice _ _ _ B1 B2 G2) as D2.
  assert (Hnn : Forall (fun c => 0 <= cigar_len c) (cigar_of al))
    by (eapply Forall_impl; [exact Hops|]; intros c (H & _); exact H).
  pose proof (clipped_len_bounds _ Hnn) as (_ & Ht).
  destruct (pair_loop_rows al (subdb al + offset al)
              (subdb al + offset al + ref_consumed (cigar_of al))
              (subquery al) (subquery al + query_consumed (cigar_of al))
              (length j1) A1 A2 D1 B1 B2 D2 (cigar_of al) Hops
              (mkPS j1 j2 0 0 (subdb al + offset al) (subquery al)))
    as (st & E & (Hp & H0 & M1 & M2 & _ & _ & R1 & R2) & P & S1 & S2).
  - unfold rows_inv. cbn [seq1 seq2 seq1_p seq2_p seq1source_p seq2source_p].
    rewrite !slice_empty by lia.
    split_and!; try reflexivity; lia.
  - simpl. lia.
  - simpl. lia.
  - simpl. lia.
  - cbn [seq1_p seq1source_p seq2source_p] in P, S1, S2.
    rewrite Z.add_0_l in P.
    unfold asw_getBasicAlignPair.
    change (default [] (Some j1)) with j1. change (default [] (Some j2)) with j2.
    rewrite E. rewrite <- Hp, Z.eqb_refl. cbn [negb].
    destruct (store_ok (seq1 st) (seq1_p st) 0 ltac:(lia)) as (s1 & -> & _ & F1).
    destruct (store_ok (seq2 st) (seq1_p st) 0 ltac:(lia)) as (s2 & -> & _ & F2).
    eexists. split; [reflexivity|]. cbn [sequence1side sequence2side].
    rewrite F1, F2, <- P, !take_insert_ge by lia.
    rewrite R1, R2, S1, S2. auto.
Qed.

(** ** The rows of a concrete alignment *)

Ltac concrete_ops :=
  match goal with
  | |- Forall ?P ?l =>
    let l' := eval vm_compute in l in
    change (Forall P l');
    repeat (constructor;
            [split;
             [vm_compute; discriminate
             |vm_compute;
              repeat (first [reflexivity|left; reflexivity|right])]|]);
    constructor
  end.

(** Reference [GGACGTACGTCC], query [TCGTTACGA], semi-global mode: the
    trace is 1X 2= 1I 4= 1X at offset 2, and the rows are [ACG-TACGT]
    and [TCGTTACGA]. *)
Lemma basic_align_pair_rows_witness :
  exists bap,
    asw_getBasicAlignPair
      (ok_or (asw_trace 100
                (aligned true
                   (prepared default_engine "GGACGTACGTCC" "TCGTTACGA"
                      "IIIIIIIII")))
             default_engine)
      (Some (repeat 63 10)) (Some (repeat 63 10)) true = Ok (Some bap) /\
    bap_length bap = 9 /\ zrd (sequence1side bap) 9 = 0.
Proof.
  destruct (basic_align_pair_rows
              (ok_or (asw_trace 100
                        (aligned true
                           (prepared default_engine "GGACGTACGTCC" "TCGTTACGA"
                              "IIIIIIIII")))
                     default_engine)
              (repeat 63 10) (repeat 63 10)
              ltac:(concrete_cigar) ltac:(concrete_ops)
              ltac:(vm_compute; reflexivity)
              ltac:(vm_compute; reflexivity) ltac:(vm_compute; reflexivity))
    as (bap & E & L & Z1 & _).
  exists bap. split; [exact E|]. split; [rewrite L; vm_compute; reflexivity|].
  exact Z1.
Defined.

Lemma basic_align_pair_degapped_witness :
  exists bap,
    asw_getBasicAlignPair
      (ok_or (asw_trace 100
                (aligned true
                   (prepared default_engine "GGACGTACGTCC" "TCGTTACGA"
                      "IIIIIIIII")))
             default_engine)
      (Some (repeat 63 10)) (Some (repeat 63 10)) true = Ok (Some bap) /\
    degap (take 9 (sequence1side bap)) = bytes_of_string "ACGTACGT" /\
    degap (take 9 (sequence2side bap)) = bytes_of_string "TCGTTACGA".
Proof.
  destruct (basic_align_pair_degapped
              (ok_or (asw_trace 100
                        (aligned true
                           (prepared default_engine "GGACGTACGTCC" "TCGTTACGA"
                              "IIIIIIIII")))
                     default_engine)
              (repeat 63 10) (repeat 63 10)
              ltac:(concrete_cigar) ltac:(concrete_ops)
              ltac:(vm_compute; reflexivity)
              ltac:(vm_compute; reflexivity) ltac:(vm_compute; reflexivity)
              ltac:(vm_compute; discriminate) ltac:(vm_compute; discriminate)
              ltac:(vm_compute; discriminate) ltac:(vm_compute; discriminate)
              ltac:(vm_compute; reflexivity) ltac:(vm_compute; reflexivity))
    as (bap & E & R1 & R2).
  assert (Ht : Z.to_nat
                 (total_len
                    (cigar_of
                       (ok_or (asw_trace 100
                                 (aligned true
                                    (prepared default_engine "GGACGTACGTCC"
                                       "TCGTTACGA" "IIIIIIIII")))
                              default_engine))) = 9%nat)
    by (vm_compute; reflexivity).
  rewrite Ht in R1, R2.
  exists bap. split; [exact E|].
  split; [rewrite R1|rewrite R2]; vm_compute; reflexivity.
Defined.

(** ** The traceback follows its path to the top row *)








Section Path.

Variables (tra : list (list Z)) (Q W : nat).
Hypothesis Hgood : good_matrix Q W tra.
Hypothesis HQ : Z.of_nat Q < 2 ^ 28.
Hypothesis HW : Z.of_nat W < 2 ^ 28.


End Path.




